(* ===== verification/_CoqProject ===== *)
-Q . S2P
Prelude.v
CString.v
UserProg.v
Umalloc.v
Shell.v
Spinlock.v
Riscv.v
Asm.v
Kalloc.v
Vm.v
PageTable.v
Uvm.v
UvmOps.v
UvmGrow.v
UvmFree.v
UserCopy.v
CowView.v
Proc.v
ProcState.v
ProcMem.v
Trap.v
FsState.v
Sleeplock.v
Bio.v
Log.v
Virtio.v
Console.v
Fs.v
Pipe.v
File.v
Exec.v
Sysfile.v
Mkfs.v
Kernel.v
UserSys.v
UserMain.v
GrepOps.v
FsFrame.v
BioOps.v
LogOps.v
LogTx.v
FsTx.v
FsAlloc.v
FsInode.v
FsDinode.v
FsFile.v
FsWrite.v
FsTrunc.v
FsCheck.v
FsIget.v
FsDir.v
FsAtomic.v
Sched.v
ProcOps.v
ProcNew.v
Fork.v
ProcGrow.v
Inv.v
InvTable.v
TrapOps.v
SyscallOps.v
ShellOps.v
ShellPrint.v
ShellRun.v
AsmOps.v
PipeOps.v
Boot.v
SchedTheorems.v
AllocRefine.v
MemTheorems.v
ProcTheorems.v
LockTheorems.v
TrapTheorems.v
FsTheorems.v
FileTheorems.v
PipeTheorems.v
AsmTheorems.v
ShellTheorems.v
UserTheorems.v
