(* ===== verification/Prelude.v ===== *)
(** * Verification of osn-xv6

    The repository is xv6 for RISC-V with copy-on-write [fork], signals from
    alarms ([sigalarm], [sigreturn]), system-call tracing and five schedulers
    chosen at compile time (round robin, FCFS, lottery, priorities, multi-level
    feedback queues).  This library models the kernel, its assembly files and the
    programs of the user as executable definitions and proves what they do.

    ** How the code is modelled

    C integers are [Z], wrapped at their width where the code relies on it
    ([u8] .. [u64], [i32] below).  Code that changes state is a computation in
    the monad [kM S A := S → res S A], whose results are [Ok], [Panic] (a call
    of [panic]), [Fault] (an access outside RAM, a null pointer, an index out of
    bounds) and [Diverge].  [wp m Q s] says that [m] returns from [s] and that
    [Q] holds then: it is total correctness, so a theorem stated with it also
    excludes panics, faults and endless loops.  Loops run with a bound of 2^64
    iterations, written in binary so that it costs nothing; every [wp] theorem
    about a loop gives a measure below that bound, so the bound is never hit.
    [preserves I m] is used for invariants that hold however [m] ends.

    Interleaving of CPUs is modelled at the atomic swaps of the spinlocks
    ([Spinlock.Concrete]); the theorems there justify the view that the rest of
    the development takes: one CPU, with the list of the spinlocks it holds.
    [swtch], through which other threads run while a process sleeps, is a
    parameter of everything that can sleep: theorems either hold for every
    [swtch] or do not reach a switch.  Its instructions are modelled in [Asm].

    ** The files

    - [Prelude]: integers, record update, the monad, [wp], [hoare] and the
      tactics [wp_step], [pres], [b2p].
    - [CString]: byte memory; [kernel/string.c] (Module [KString]) and the string
      and memory routines of [user/ulib.c] (Module [Ulib]).
    - [Spinlock]: [kernel/spinlock.c]; Module [Concrete] has lock words, nesting
      depth, interrupt bits and CPUs, Module [Refine] relates them to the list of
      held locks; the class [LockState] is the interface the clients use.
    - [Riscv]: [kernel/riscv.h], [kernel/memlayout.h]; addresses fixed by the
      linker are the class [KernelImage].
    - [Asm], [AsmOps]: [kernel/trampoline.S], [kernel/swtch.S],
      [kernel/kernelvec.S], [kernel/entry.S] as lists of instructions of the
      machine in Module [Hart], whose loads and stores go through the Sv39
      translation, and [kernel/start.c] with the accessors of the machine-mode
      registers; their specifications.
    - [Kalloc], [AllocRefine]: [kernel/kalloc.c] with the reference counts.
    - [Vm], [PageTable], [Uvm], [UvmOps], [UvmGrow], [UvmFree], [UserCopy],
      [CowView]: [kernel/vm.c].  [Vm] has the definitions; [aspace] represents a
      page table in memory by a finite map from page numbers to entries; [vm]
      relates free list, page tables, kernel pages and reference counts; [uread]
      is the memory as a user sees it.
    - [Proc], [ProcState], [ProcMem], [ProcOps], [ProcNew], [Fork], [ProcGrow],
      [Sched]: [kernel/proc.c].  [Proc] has the definitions on the state
      [pstate], whose file-system part is a type parameter; [cfg] selects the
      scheduler.
    - [Trap], [TrapOps], [SyscallOps]: [kernel/trap.c], [kernel/syscall.c],
      [kernel/sysproc.c].
    - [Inv], [InvTable]: invariants of the process table under every trap, system
      call and scheduling round.
    - [FsState], [Sleeplock], [Bio], [Log], [Fs]: the data and the code of the
      file system: [kernel/sleeplock.c], [kernel/bio.c], [kernel/log.c],
      [kernel/fs.c].  [FsFrame], [BioOps], [LogOps], [LogTx]: specifications of
      cache and log.  [cache] represents the buffers by the contents of the
      blocks, the buffers held and the blocks pinned; the class [DiskDriver] is
      what the cache needs from the driver, and [ideal_driver] an instance.
      [FsTx], [FsAlloc], [FsInode], [FsDinode], [FsFile], [FsWrite], [FsTrunc],
      [FsCheck], [FsIget], [FsDir], [FsAtomic]: the block bitmap, the blocks of a
      file, [bmap], [readi], [writei], [iupdate], [itrunc], [ialloc], [iget],
      [dirlookup], [dirlink], and what a crash leaves of them.
    - [Virtio], [Console]: [kernel/virtio_disk.c]; [kernel/console.c],
      [kernel/uart.c], [kernel/printf.c].  Device registers are the record [mmio].
    - [Pipe], [File], [Exec], [Sysfile], [Kernel]: [kernel/pipe.c],
      [kernel/file.c], [kernel/exec.c], [kernel/sysfile.c], [kernel/plic.c],
      [kernel/main.c]; [Kernel] ties the components together.  [PipeOps]: the
      ring buffer of a pipe as a queue of bytes.
    - [UserSys]: programs as interaction trees over the system calls of
      [user/user.h]; [behaves] gives the traces of calls that a program can go
      through, with the descriptors each call works on.  [UserProg], [UserMain]:
      the pure parts and the [main] of [cat], [wc], [grep], [echo], [ls], [kill],
      [ln], [mkdir], [rm], [strace], [setpriority], [init], [zombie], [forktest],
      [stressfs], [cpubound], with [gets], [stat] and [user/printf.c].  [GrepOps]:
      patterns and lines.  [Umalloc]: [user/umalloc.c].  [Mkfs]: [mkfs/mkfs.c].
    - [Shell], [ShellOps], [ShellPrint]: the parser of [user/sh.c]; that it ends
      and stays in the line; commands as trees over words, with their concrete
      syntax.  The parser's recursion has a fuel of four levels for each byte of
      the line, which is proved to be enough.  [ShellRun]: [runcmd], [getcmd] and
      [main], what a command means ([csem]) and what a session is ([dialogue]).
    - [Boot]: small concrete states at which the theorems are instantiated.
    - [SchedTheorems], [AllocRefine], [MemTheorems], [ProcTheorems],
      [LockTheorems], [TrapTheorems], [FsTheorems], [FileTheorems],
      [PipeTheorems], [AsmTheorems], [ShellTheorems], [UserTheorems]: the
      properties, numbered C1 and up, each followed or closed by an instance ([..._witness]).

    ** What the theorems show

    - Memory: the allocator refines a table of reference counts, page tables
      refine finite maps, copy-on-write isolates address spaces, [copyin],
      [copyout], [uvmalloc], [growproc] do what the user can observe, nothing
      leaks.
    - Processes: [fork] makes a copy or fails without a trace; [kill], pids, the
      choice of each scheduler, fairness of the lottery and of round robin.
    - Traps: a fault on a shared page unshares it, all other faults kill; an
      alarm and its [sigreturn] restore all user registers; the clock; return to
      user space; system-call dispatch and argument checks.
    - Locks: mutual exclusion, nesting of critical sections, refinement.
    - Files: the buffer cache is transparent; transactions are atomic under
      crashes between any two disk writes, and recovery can be interrupted and
      repeated; reading, writing and truncating a file, allocating an inode and
      adding a name to a directory do what they promise, and a crash leaves
      either all of it or nothing.  A pipe is a queue of bytes.
    - Machine: the registers of a process survive the trampoline in both
      directions, a context switch is undone by the switch back, the hardware's
      page walk finds what [kernel/vm.c] mapped, the boot code arms the timer.
    - Shell: parsing always ends, inside the line; it inverts printing; running a
      command makes exactly the processes it means, with the right files and no
      pipe end left open; a session runs what is typed.
    - Programs: [grep] writes the lines its pattern matches, however its input is
      cut; the kernel gives out descriptors as the programs expect.

    The specifications of the file system take the view of one process: locks
    are free when it asks for them, and while it waits for the disk nobody else
    changes the file system.

    ** Not modelled

    The linker script, the system-call stubs and [user/initcode.S]; the behaviour
    of the devices behind the registers; [kernel/ramdisk.c], which is not built;
    the remaining test programs ([user/usertests.c] and the like), which only check
    results of system calls. *)
From stdpp Require Export base list gmap numbers strings.
From Stdlib Require Export ZArith Lia.
#[global] Open Scope Z_scope.
#[export] Set Warnings "-clear-no-such-hyp,-postfix-notation-not-level-1".

(** * C integers

    Unsigned arithmetic and conversions wrap at their width; signed [int] and
    [long] arithmetic is exact, since C leaves its overflow undefined. *)

Definition u8 (x : Z) : Z := x mod 2 ^ 8.
Definition u16 (x : Z) : Z := x mod 2 ^ 16.
Definition u32 (x : Z) : Z := x mod 2 ^ 32.
Definition u64 (x : Z) : Z := x mod 2 ^ 64.

(** Conversion of an integer to [int]. *)
Definition i32 (x : Z) : Z :=
  let y := x mod 2 ^ 32 in if y <? 2 ^ 31 then y else y - 2 ^ 32.

(** Conversion of an integer to [short]. *)
Definition i16 (x : Z) : Z :=
  let y := x mod 2 ^ 16 in if y <? 2 ^ 15 then y else y - 2 ^ 16.

Lemma u8_range x : 0 <= u8 x < 2 ^ 8.
Proof. apply Z.mod_pos_bound; lia. Qed.
Lemma u32_range x : 0 <= u32 x < 2 ^ 32.
Proof. apply Z.mod_pos_bound; lia. Qed.
Lemma u64_range x : 0 <= u64 x < 2 ^ 64.
Proof. apply Z.mod_pos_bound; lia. Qed.

Lemma u8_small x : 0 <= x < 2 ^ 8 → u8 x = x.
Proof. apply Z.mod_small. Qed.
Lemma u32_small x : 0 <= x < 2 ^ 32 → u32 x = x.
Proof. apply Z.mod_small. Qed.
Lemma u64_small x : 0 <= x < 2 ^ 64 → u64 x = x.
Proof. apply Z.mod_small. Qed.

Lemma i32_range x : - 2 ^ 31 <= i32 x < 2 ^ 31.
Proof.
  unfold i32. pose proof (Z.mod_pos_bound x (2 ^ 32) ltac:(lia)).
  destruct (Z.ltb_spec (x mod 2 ^ 32) (2 ^ 31)); lia.
Qed.

Lemma i32_small x : - 2 ^ 31 <= x < 2 ^ 31 → i32 x = x.
Proof.
  intros H. unfold i32. destruct (Z.ltb_spec x 0).
  - replace (x mod 2 ^ 32) with (x + 2 ^ 32)
      by (rewrite <- (Z.mod_small (x + 2 ^ 32) (2 ^ 32)) by lia;
          rewrite <- (Z_mod_plus_full x 1 (2 ^ 32)); f_equal; lia).
    destruct (Z.ltb_spec (x + 2 ^ 32) (2 ^ 31)); lia.
  - rewrite Z.mod_small by lia. destruct (Z.ltb_spec x (2 ^ 31)); lia.
Qed.

Lemma i32_u32 x : i32 (u32 x) = i32 x.
Proof. unfold i32, u32. by rewrite Z.mod_mod by lia. Qed.

(** C's truth value of an integer. *)
Definition truth (x : Z) : bool := negb (x =? 0).

(** * Record update

    [r <| f := v |>] replaces one field.  A record type gives its eta expansion
    as a [Settable] instance; the setter of a field is found by abstracting the
    projection in it. *)

Class Settable (R : Type) := eta_expand : R → R.
Class FieldSetter {R E : Type} (proj : R → E) := field_map : (E → E) → R → R.
Arguments field_map {R E} proj {_} _ _.

Ltac derive_setter :=
  lazymatch goal with
  | |- @FieldSetter ?R ?E ?proj =>
      let e := eval cbv [eta_expand] in (@eta_expand R _) in
      let e := eval hnf in e in
      let e := eval pattern proj in e in
      lazymatch e with
      | ?abs proj => exact (λ (f : E → E) (r : R), abs (λ r' : R, f (proj r')) r)
      end
  end.
#[global] Hint Extern 1 (FieldSetter _) => derive_setter : typeclass_instances.

Declare Scope record_scope.
Delimit Scope record_scope with rec.
Notation "r <| f := v |>" := (field_map f (λ _, v) r)
  (at level 12, f at next level, left associativity, format "r  <|  f  :=  v  |>") : record_scope.
#[global] Open Scope record_scope.

(** * Kernel computations

    A computation of one CPU transforms its state and returns a value, or stops
    the machine: [Panic] is a call of [panic()], [Fault] an access that the
    kernel's address space does not allow (null or unmapped pointers, array
    accesses out of bounds), [Diverge] a loop that runs on. *)

Inductive res (S A : Type) : Type :=
| Ok (a : A) (s : S)
| Panic (msg : string)
| Fault
| Diverge.
Arguments Ok {S A} a s.
Arguments Panic {S A} msg.
Arguments Fault {S A}.
Arguments Diverge {S A}.

Definition kM (S A : Type) : Type := S → res S A.

#[global] Instance kM_ret {S} : MRet (kM S) := λ A a s, Ok a s.
#[global] Instance kM_bind {S} : MBind (kM S) := λ A B f m s,
  match m s with
  | Ok a s' => f a s'
  | Panic e => Panic e
  | Fault => Fault
  | Diverge => Diverge
  end.

Definition panic {S A} (msg : string) : kM S A := λ _, Panic msg.
Definition fault {S A} : kM S A := λ _, Fault.
Definition diverge {S A} : kM S A := λ _, Diverge.
Definition kget {S} : kM S S := λ s, Ok s s.
Definition gets {S A} (f : S → A) : kM S A := λ s, Ok (f s) s.
Definition modify {S} (f : S → S) : kM S () := λ s, Ok () (f s).
Definition when {S} (b : bool) (c : kM S ()) : kM S () := if b then c else mret ().
#[global] Arguments when {S} b c : simpl never.

(** Run a computation on a part of a larger state. *)
Definition zoom {S T A} (get : S → T) (put : T → S → S) (c : kM T A) : kM S A := λ s,
  match c (get s) with
  | Ok a t => Ok a (put t s)
  | Panic e => Panic e
  | Fault => Fault
  | Diverge => Diverge
  end.

(** A loop body returns [inl] to go on with new loop variables and [inr] to
    leave the loop.  The iteration bound is binary, so that a bound of 2^64,
    more than a 64-bit counter can count, costs nothing when a loop ends. *)
Fixpoint kloop {S A B} (bound : positive) (body : A → kM S (A + B)) (a : A) : kM S (A + B) :=
  match bound with
  | xH => body a
  | xO p =>
      r ← kloop p body a;
      match r with inl a' => kloop p body a' | inr b => mret (inr b) end
  | xI p =>
      r ← body a;
      match r with
      | inl a1 =>
          r ← kloop p body a1;
          match r with inl a' => kloop p body a' | inr b => mret (inr b) end
      | inr b => mret (inr b)
      end
  end.

Definition loop_bound : positive := Pos.pow 2 64.

Lemma loop_bound_val : Z.pos loop_bound = 2 ^ 64.
Proof. done. Qed.
#[global] Opaque loop_bound.

Definition while {S A B} (body : A → kM S (A + B)) (a : A) : kM S B :=
  r ← kloop loop_bound body a;
  match r with inl _ => diverge | inr b => mret b end.

(** [for (x in l) body], left when the body returns [Some]. *)
Fixpoint foreach {S A B} (l : list A) (body : A → kM S (option B)) : kM S (option B) :=
  match l with
  | [] => mret None
  | x :: l' =>
      r ← body x;
      match r with Some b => mret (Some b) | None => foreach l' body end
  end.

(** [for (x in l) body] without an early exit. *)
Fixpoint for_ {S A} (l : list A) (body : A → kM S ()) : kM S () :=
  match l with
  | [] => mret ()
  | x :: l' => body x ;; for_ l' body
  end.

(** [for(i = lo; i < hi; i += step) body] *)
Definition for_step {S} (lo hi step : Z) (body : Z → kM S ()) : kM S () :=
  while (λ i, if i <? hi then body i ;; mret (inl (i + step)) else mret (inr ())) lo.
Definition for_range {S} (lo hi : Z) (body : Z → kM S ()) : kM S () := for_step lo hi 1 body.

(** * Total-correctness assertions

    [wp m Q s]: run from [s], [m] neither panics, faults nor diverges, and its
    result and final state satisfy [Q]. *)

Definition wp {S A} (m : kM S A) (Q : A → S → Prop) (s : S) : Prop :=
  match m s with Ok a s' => Q a s' | _ => False end.

#[global] Arguments wp {S A} m Q s : simpl never.

Section wp.
Context {S : Type}.
Implicit Types s : S.

Lemma wp_ret {A} (a : A) (Q : A → S → Prop) s : Q a s → wp (mret a) Q s.
Proof. done. Qed.

Lemma wp_bind {A B} (m : kM S A) (f : A → kM S B) Q s :
  wp m (λ a s', wp (f a) Q s') s → wp (m ≫= f) Q s.
Proof. unfold wp, mbind, kM_bind. by destruct (m s). Qed.

Lemma wp_bind_inv {A B} (m : kM S A) (f : A → kM S B) Q s :
  wp (m ≫= f) Q s → wp m (λ a s', wp (f a) Q s') s.
Proof. unfold wp, mbind, kM_bind. by destruct (m s). Qed.

Lemma wp_mono {A} (m : kM S A) (P Q : A → S → Prop) s :
  wp m P s → (∀ a s', P a s' → Q a s') → wp m Q s.
Proof. unfold wp. destruct (m s); auto. Qed.

Lemma wp_gets {A} (f : S → A) (Q : A → S → Prop) s : Q (f s) s → wp (gets f) Q s.
Proof. done. Qed.

Lemma wp_modify (f : S → S) (Q : () → S → Prop) s : Q () (f s) → wp (modify f) Q s.
Proof. done. Qed.

Lemma wp_kget (Q : S → S → Prop) s : Q s s → wp kget Q s.
Proof. done. Qed.

Lemma wp_when (b : bool) (c : kM S ()) (Q : () → S → Prop) s :
  (b = true → wp c Q s) → (b = false → Q () s) → wp (when b c) Q s.
Proof. unfold when. destruct b; intros H1 H2; [by apply H1|by apply H2]. Qed.

Lemma wp_when_t (b : bool) (c : kM S ()) (Q : () → S → Prop) s :
  b = true → wp c Q s → wp (when b c) Q s.
Proof. by intros ->. Qed.

Lemma wp_when_f (b : bool) (c : kM S ()) (Q : () → S → Prop) s :
  b = false → Q () s → wp (when b c) Q s.
Proof. by intros ->. Qed.

Lemma wp_if_t {A} (b : bool) (c1 c2 : kM S A) (Q : A → S → Prop) s :
  b = true → wp c1 Q s → wp (if b then c1 else c2) Q s.
Proof. by intros ->. Qed.

Lemma wp_if_f {A} (b : bool) (c1 c2 : kM S A) (Q : A → S → Prop) s :
  b = false → wp c2 Q s → wp (if b then c1 else c2) Q s.
Proof. by intros ->. Qed.

Lemma wp_if {A} (b : bool) (c1 c2 : kM S A) (Q : A → S → Prop) s :
  (b = true → wp c1 Q s) → (b = false → wp c2 Q s) → wp (if b then c1 else c2) Q s.
Proof. destruct b; auto. Qed.

Lemma wp_zoom {T A} (get : S → T) (put : T → S → S) (c : kM T A) (Q : A → S → Prop) s :
  wp c (λ a t, Q a (put t s)) (get s) → wp (zoom get put c) Q s.
Proof. unfold wp, zoom. by destruct (c (get s)). Qed.

(** A computation that satisfies [wp] returns. *)
Lemma wp_returns {A} (m : kM S A) (Q : A → S → Prop) s :
  wp m Q s ↔ ∃ a s', m s = Ok a s' ∧ Q a s'.
Proof. unfold wp. destruct (m s) as [a s'| | |]; (split; [by eauto|intros (? & ? & ? & ?); by simplify_eq]). Qed.

Lemma wp_det {A} (m : kM S A) (Q : A → S → Prop) a s s' :
  m s = Ok a s' → wp m Q s → Q a s'.
Proof. unfold wp. by intros ->. Qed.

Lemma wp_and {A} (m : kM S A) (P Q : A → S → Prop) s :
  wp m P s → wp m Q s → wp m (λ a s', P a s' ∧ Q a s') s.
Proof. unfold wp. destruct (m s); auto. Qed.

Lemma bind_ok {A B} (m : kM S A) (f : A → kM S B) a s s' :
  m s = Ok a s' → (m ≫= f) s = f a s'.
Proof. unfold mbind, kM_bind. by intros ->. Qed.

Lemma bind_panic {A B} (m : kM S A) (f : A → kM S B) msg s :
  m s = Panic msg → (m ≫= f) s = Panic msg.
Proof. unfold mbind, kM_bind. by intros ->. Qed.

(** ** Loops *)

Fixpoint kloopn {A B} (n : nat) (body : A → kM S (A + B)) (a : A) : kM S (A + B) :=
  match n with
  | O => mret (inl a)
  | Datatypes.S n' =>
      r ← body a;
      match r with inl a' => kloopn n' body a' | inr b => mret (inr b) end
  end.

Lemma kloopn_add {A B} (n1 n2 : nat) (body : A → kM S (A + B)) a s :
  kloopn (n1 + n2) body a s =
  (r ← kloopn n1 body a;
   match r with inl a' => kloopn n2 body a' | inr b => mret (inr b) end) s.
Proof.
  revert a s. induction n1 as [|n1 IH]; intros a s; simpl; [done|].
  unfold mbind, kM_bind in *. destruct (body a s) as [[a'|b] s'| | |]; auto.
Qed.

Lemma kloop_kloopn {A B} (p : positive) (body : A → kM S (A + B)) a s :
  kloop p body a s = kloopn (Pos.to_nat p) body a s.
Proof.
  revert a s. induction p as [p IH|p IH|]; intros a s.
  - replace (Pos.to_nat p~1) with (Datatypes.S (Pos.to_nat p + Pos.to_nat p)) by lia.
    simpl. unfold mbind, kM_bind. destruct (body a s) as [[a1|b] s1| | |]; try done.
    rewrite kloopn_add, IH. unfold mbind, kM_bind.
    destruct (kloopn (Pos.to_nat p) body a1 s1) as [[a2|b] s2| | |]; auto.
  - replace (Pos.to_nat p~0) with (Pos.to_nat p + Pos.to_nat p)%nat by lia.
    simpl. rewrite kloopn_add. unfold mbind, kM_bind. rewrite IH.
    destruct (kloopn (Pos.to_nat p) body a s) as [[a2|b] s2| | |]; auto.
  - change (Pos.to_nat 1) with 1%nat. simpl. unfold mbind, kM_bind.
    by destruct (body a s) as [[a1|b] s1| | |].
Qed.

Lemma wp_kloop {A B} (I : A → S → Prop) (μ : A → S → Z) (p : positive)
    (body : A → kM S (A + B)) Q a s :
  (∀ a s, I a s → wp (body a) (λ r s', match r with
     | inl a' => I a' s' ∧ 0 <= μ a' s' < μ a s
     | inr b => Q b s' end) s) →
  I a s → 0 <= μ a s < Z.pos p →
  wp (kloop p body a) (λ r s', match r with inl _ => False | inr b => Q b s' end) s.
Proof.
  intros Hbody HI Hμ. unfold wp. rewrite kloop_kloopn.
  assert (∀ n a s, I a s → 0 <= μ a s < Z.of_nat n →
    wp (kloopn n body a) (λ r s', match r with inl _ => False | inr b => Q b s' end) s) as Hn.
  { clear a s HI Hμ. induction n as [|n IH]; intros a s HI Hμ; [lia|].
    simpl. apply wp_bind. eapply wp_mono; [by apply Hbody|].
    intros [a'|b] s'; [|auto using wp_ret]. intros [HI' Hμ']. apply IH; [done|lia]. }
  apply (Hn (Pos.to_nat p) a s HI). lia.
Qed.

(** A loop that stops in its first iteration. *)
Lemma kloop_stop {A B} (p : positive) (body : A → kM S (A + B)) a s :
  (∀ a' s', body a s ≠ Ok (inl a') s') → kloop p body a s = body a s.
Proof.
  intros H. induction p as [p IH|p IH|]; simpl; unfold mbind, kM_bind; rewrite ?IH; [| |done];
    destruct (body a s) as [[a'|b] s'| | |]; try done; by destruct (H a' s').
Qed.

Lemma while_stop {A B} (body : A → kM S (A + B)) a s :
  (∀ a' s', body a s ≠ Ok (inl a') s') →
  while body a s =
  match body a s with
  | Ok (inr b) s' => Ok b s'
  | Ok (inl _) s' => Diverge
  | Panic e => Panic e
  | Fault => Fault
  | Diverge => Diverge
  end.
Proof.
  intros H. unfold while, mbind, kM_bind. rewrite kloop_stop by done.
  by destruct (body a s) as [[?|?] ?| | |].
Qed.

(** The rule for loops: an invariant and a measure that goes down. *)
Lemma wp_while {A B} (I : A → S → Prop) (μ : A → S → Z) (body : A → kM S (A + B)) Q a s :
  (∀ a s, I a s → wp (body a) (λ r s', match r with
     | inl a' => I a' s' ∧ 0 <= μ a' s' < μ a s
     | inr b => Q b s' end) s) →
  I a s → 0 <= μ a s < 2 ^ 64 → wp (while body a) Q s.
Proof.
  intros Hbody HI Hμ. apply wp_bind. eapply wp_mono.
  - apply (wp_kloop I μ loop_bound body Q); [done|done|by rewrite loop_bound_val].
  - by intros [?|?] s' ?.
Qed.

(** A loop that is known to stop after at most [n] iterations. *)
Lemma wp_while_n {A B} (n : nat) (body : A → kM S (A + B)) (Q : B → S → Prop) a s :
  Z.of_nat n <= 2 ^ 64 →
  wp (kloopn n body a) (λ r s', match r with inl _ => False | inr b => Q b s' end) s →
  wp (while body a) Q s.
Proof.
  intros Hn H. apply wp_bind. unfold wp at 1. rewrite kloop_kloopn.
  assert (∃ k, Pos.to_nat loop_bound = n + k)%nat as [k ->].
  { exists (Pos.to_nat loop_bound - n)%nat. pose proof loop_bound_val. lia. }
  rewrite kloopn_add. unfold mbind, kM_bind. unfold wp in H.
  destruct (kloopn n body a s) as [[a'|b] s'| | |]; done.
Qed.

(** A loop that follows links: [nx] leads from [a] through the list to [z]. *)
Fixpoint path {A} (nx : A → A) (a : A) (l : list A) (z : A) : Prop :=
  match l with
  | [] => nx a = z
  | x :: l' => nx a = x ∧ path nx x l' z
  end.

Lemma wp_while_path {A B} (nx : A → A) (l : list A) a z (I : list A → S → Prop)
    (body : A → kM S (A + B)) (Q : B → S → Prop) s :
  path nx a l z → (Z.of_nat (length l) < 2 ^ 63) →
  (∀ l1 x l2 s, l = l1 ++ x :: l2 → I l1 s → wp (body x) (λ r s', match r with
     | inl y => y = nx x ∧ I (l1 ++ [x]) s'
     | inr b => Q b s' end) s) →
  (∀ s, I l s → wp (body z) (λ r s', match r with inl _ => False | inr b => Q b s' end) s) →
  I [] s → wp (while body (nx a)) Q s.
Proof.
  intros Hp Hl Hstep Hend H0. apply (wp_while_n (Datatypes.S (length l))); [lia|].
  assert (∀ l2 l1 a s, l = l1 ++ l2 → path nx a l2 z → I l1 s →
    wp (kloopn (Datatypes.S (length l2)) body (nx a))
       (λ r s', match r with inl _ => False | inr b => Q b s' end) s) as Hgo.
  { induction l2 as [|x l2 IH]; intros l1 a' s' Hl' Hp' HI.
    - cbn in Hp'. rewrite Hp'. simpl. apply wp_bind. rewrite app_nil_r in Hl'. subst l1.
      eapply wp_mono; [by apply Hend|]. by intros [?|?] ? ?.
    - destruct Hp' as [-> Hp']. cbn [length]. rewrite <- (Nat.add_1_l (Datatypes.S (length l2))).
      cbn [Nat.add kloopn]. apply wp_bind. eapply wp_mono; [by eapply Hstep|].
      intros [y|b] s2; [|by intros; apply wp_ret]. intros [-> HI2]. apply (IH (l1 ++ [x])); [|done|done].
      by rewrite <- app_assoc. }
  by apply (Hgo l [] a s).
Qed.

Lemma wp_for_step (I : Z → S → Prop) (lo hi step : Z) (body : Z → kM S ()) (Q : () → S → Prop) s :
  (∀ i s, I i s → lo <= i < hi → wp (body i) (λ _ s', I (i + step) s') s) →
  (∀ i s, I i s → hi <= i → Q () s) →
  I lo s → 0 < step → hi - lo < 2 ^ 63 → wp (for_step lo hi step body) Q s.
Proof.
  intros Hb HQ HI Hs Hr. unfold for_step.
  eapply (wp_while (λ i s, I i s ∧ lo <= i) (λ i _, Z.max 0 (hi - i))); [|by split; [|lia]|lia].
  intros i s1 [HI1 Hi]. destruct (Z.ltb_spec i hi).
  - apply wp_bind. eapply wp_mono; [apply Hb; [done|lia]|]. intros u s2 HI2. apply wp_ret.
    split; [split; [done|lia]|lia].
  - apply wp_ret. eauto.
Qed.

Lemma wp_for {A} (l : list A) (body : A → kM S ()) (I : list A → S → Prop) (Q : () → S → Prop) s :
  I [] s →
  (∀ done x rest s, l = done ++ x :: rest → I done s →
     wp (body x) (λ _ s', I (done ++ [x]) s') s) →
  (∀ s, I l s → Q () s) → wp (for_ l body) Q s.
Proof.
  intros H0 Hstep HQ.
  assert (∀ todo done s, l = done ++ todo → I done s → wp (for_ todo body) Q s) as H.
  { induction todo as [|x todo IH]; intros dn s' Hl HI; simpl.
    - apply wp_ret, HQ. by rewrite Hl, app_nil_r.
    - apply wp_bind. eapply wp_mono; [by eapply Hstep|].
      intros u s'' HI'. apply (IH (dn ++ [x])); [|done]. by rewrite <- app_assoc. }
  by apply (H l []).
Qed.

(** The loop [for(i = 0; i < n; i++)]. *)
Lemma wp_for_seqZ (n : Z) (body : Z → kM S ()) (I : Z → S → Prop) (Q : () → S → Prop) s :
  0 <= n → I 0 s → (∀ i s, 0 <= i < n → I i s → wp (body i) (λ _ s', I (i + 1) s') s) →
  (∀ s, I n s → Q () s) → wp (for_ (seqZ 0 n) body) Q s.
Proof.
  intros Hn H0 Hstep HQ. apply (wp_for _ _ (λ dn s, I (Z.of_nat (length dn)) s)); [done| |].
  - intros dn x rest s1 Hl HI. assert (seqZ 0 n !! length dn = Some x) as Hx by (rewrite Hl; by apply list_lookup_middle).
    apply lookup_seqZ in Hx as [Hx1 Hx2]. rewrite length_app. replace x with (Z.of_nat (length dn)) by lia.
    eapply wp_mono; [apply Hstep; [lia|done]|]. intros [] s2 HI2. simpl. by rewrite Nat2Z.inj_add.
  - intros s1. rewrite length_seqZ, Z2Nat.id by done. apply HQ.
Qed.

Lemma wp_foreach {A B} (l : list A) (body : A → kM S (option B)) (I : list A → S → Prop)
    (Q : option B → S → Prop) s :
  I [] s →
  (∀ done x rest s, l = done ++ x :: rest → I done s →
     wp (body x) (λ r s', match r with
       | Some b => Q (Some b) s'
       | None => I (done ++ [x]) s' end) s) →
  (∀ s, I l s → Q None s) → wp (foreach l body) Q s.
Proof.
  intros H0 Hstep HQ.
  assert (∀ todo done s, l = done ++ todo → I done s → wp (foreach todo body) Q s) as H.
  { induction todo as [|x todo IH]; intros dn s' Hl HI; simpl.
    - apply wp_ret, HQ. by rewrite Hl, app_nil_r.
    - apply wp_bind. eapply wp_mono; [by eapply Hstep|].
      intros [b|] s''; [intros; by apply wp_ret|]. intros HI'.
      apply (IH (dn ++ [x])); [|done]. by rewrite <- app_assoc. }
  by apply (H l []).
Qed.
End wp.

(** * Invariants

    [hoare P m Q]: when [m] returns from a state that satisfies [P], its result
    and final state satisfy [Q]; [preserves I m] for an invariant [I] of the
    state. *)

Definition hoare {S A} (P : S → Prop) (m : kM S A) (Q : A → S → Prop) : Prop :=
  ∀ s a s', P s → m s = Ok a s' → Q a s'.
Definition preserves {S A} (I : S → Prop) (m : kM S A) : Prop := hoare I m (λ _, I).

Section hoare.
Context {S : Type}.
Implicit Types (P I : S → Prop).

Lemma hoare_bind {A B} P (m : kM S A) (f : A → kM S B) (R : A → S → Prop) (Q : B → S → Prop) :
  hoare P m R → (∀ a, hoare (R a) (f a) Q) → hoare P (m ≫= f) Q.
Proof.
  intros Hm Hf s b s'' HP. unfold mbind, kM_bind. destruct (m s) as [a s'| | |] eqn:E; try done.
  intros H. by apply (Hf a s' b s''); [apply (Hm s a s')|].
Qed.

Lemma hoare_conseq {A} P P' (m : kM S A) (Q Q' : A → S → Prop) :
  hoare P' m Q' → (∀ s, P s → P' s) → (∀ a s, Q' a s → Q a s) → hoare P m Q.
Proof. intros Hm HP HQ s a s' Hs E. apply HQ. apply (Hm s); auto. Qed.

Lemma hoare_ret {A} P (a : A) (Q : A → S → Prop) : (∀ s, P s → Q a s) → hoare P (mret a) Q.
Proof. intros H s b s' Hs [= <- <-]. auto. Qed.

Lemma hoare_gets {A} P (f : S → A) (Q : A → S → Prop) :
  (∀ s, P s → Q (f s) s) → hoare P (gets f) Q.
Proof. intros H s b s' Hs [= <- <-]. auto. Qed.

Lemma hoare_modify P (f : S → S) (Q : () → S → Prop) :
  (∀ s, P s → Q () (f s)) → hoare P (modify f) Q.
Proof. intros H s b s' Hs [= <- <-]. auto. Qed.

Lemma pres_bind {A B} I (m : kM S A) (f : A → kM S B) :
  preserves I m → (∀ a, preserves I (f a)) → preserves I (m ≫= f).
Proof. intros Hm Hf. by apply (hoare_bind _ _ _ (λ _, I)). Qed.

Lemma pres_ret {A} I (a : A) : preserves I (mret a).
Proof. by apply hoare_ret. Qed.
Lemma pres_gets {A} I (f : S → A) : preserves I (gets f).
Proof. by apply hoare_gets. Qed.
Lemma pres_panic {A} I msg : preserves I (panic msg : kM S A).
Proof. by intros s a s' Hs. Qed.
Lemma pres_fault {A} I : preserves I (fault : kM S A).
Proof. by intros s a s' Hs. Qed.
Lemma pres_diverge {A} I : preserves I (diverge : kM S A).
Proof. by intros s a s' Hs. Qed.
Lemma pres_modify I (f : S → S) : (∀ s, I s → I (f s)) → preserves I (modify f).
Proof. intros H. by apply hoare_modify. Qed.
Lemma pres_when I (b : bool) (c : kM S ()) : preserves I c → preserves I (when b c).
Proof. unfold when. destruct b; [done|]. intros _. apply pres_ret. Qed.

Lemma pres_zoom {T A} I (get : S → T) (put : T → S → S) (c : kM T A) :
  (∀ s t, I s → I (put t s)) → preserves I (zoom get put c).
Proof.
  intros H s a s' Hs. unfold zoom. destruct (c (get s)); try done. intros [= <- <-]. auto.
Qed.

Lemma pres_for {A} I (l : list A) (body : A → kM S ()) :
  (∀ x, preserves I (body x)) → preserves I (for_ l body).
Proof.
  intros H. induction l as [|x l IH]; simpl; [apply pres_ret|]. by apply pres_bind.
Qed.

Lemma pres_foreach {A B} I (l : list A) (body : A → kM S (option B)) :
  (∀ x, preserves I (body x)) → preserves I (foreach l body).
Proof.
  intros H. induction l as [|x l IH]; simpl; [apply pres_ret|]. apply pres_bind; [done|].
  intros [b|]; [apply pres_ret|done].
Qed.

Lemma pres_while {A B} I (body : A → kM S (A + B)) a :
  (∀ x, preserves I (body x)) → preserves I (while body a).
Proof.
  intros H. unfold while. apply pres_bind.
  - generalize loop_bound. intros p. revert a. induction p as [p IH|p IH|]; intros a; simpl; [| |done].
    + apply pres_bind; [done|]. intros [a1|b]; [|apply pres_ret].
      apply pres_bind; [done|]. intros [a2|b]; [done|apply pres_ret].
    + apply pres_bind; [done|]. intros [a2|b]; [done|apply pres_ret].
  - intros [?|?]; [apply pres_diverge|apply pres_ret].
Qed.
End hoare.

(** * Automation *)

Create HintDb kernel.
Create Rewrite HintDb kernel.

(** One step of a [wp] goal through the monad's own constructs. *)
Ltac wp_step :=
  lazymatch goal with
  | |- wp (_ ≫= _) _ _ => apply wp_bind
  | |- wp (mret _) _ _ => apply wp_ret
  | |- wp (gets _) _ _ => apply wp_gets
  | |- wp (modify _) _ _ => apply wp_modify
  | |- wp kget _ _ => apply wp_kget
  | |- wp (when _ _) _ _ => apply wp_when; intros ?
  | |- wp (if _ then _ else _) _ _ => apply wp_if; intros ?
  | |- wp (zoom _ _ _) _ _ => apply wp_zoom
  | |- wp (match ?x with _ => _ end) _ _ => destruct x eqn:?
  end.
Ltac wp_steps := repeat (wp_step; cbn beta).

(** Execute a straight-line computation symbolically. *)
Ltac krun := cbv [wp mbind kM_bind mret kM_ret when gets modify kget panic fault]; cbn.

(** Use a specification of the computation at the head of the goal. *)
Tactic Notation "wp_use" uconstr(lem) := eapply wp_mono; [eapply lem|cbv beta].

(** Decompose a [preserves] goal; what is left are the updates of the state. *)
Create HintDb pres.
Ltac pres_step :=
  lazymatch goal with
  | |- preserves _ (_ ≫= _) => apply pres_bind; [|intros ?]
  | |- preserves _ (mret _) => apply pres_ret
  | |- preserves _ (gets _) => apply pres_gets
  | |- preserves _ (panic _) => apply pres_panic
  | |- preserves _ fault => apply pres_fault
  | |- preserves _ (when _ _) => apply pres_when
  | |- preserves _ (for_ _ _) => apply pres_for; intros ?
  | |- preserves _ (foreach _ _) => apply pres_foreach; intros ?
  | |- preserves _ (while _ _) => apply pres_while; intros ?
  | |- preserves _ (if ?b then _ else _) => destruct b
  | |- preserves _ (match ?x with _ => _ end) => destruct x
  | |- preserves _ (let '_ := ?x in _) => destruct x
  | |- preserves _ _ => solve [eauto 3 with pres]
  end.
Ltac pres := repeat pres_step.

(** Turn boolean tests of the code into propositions. *)
Ltac b2p :=
  repeat match goal with
  | H : negb _ = true |- _ => apply negb_true_iff in H
  | H : negb _ = false |- _ => apply negb_false_iff in H
  | H : (_ && _) = true |- _ => apply andb_true_iff in H; destruct H
  | H : (_ || _) = false |- _ => apply orb_false_iff in H; destruct H
  | H : (_ && _) = false |- _ => apply andb_false_iff in H
  | H : (_ || _) = true |- _ => apply orb_true_iff in H
  | H : (_ =? _) = true |- _ => apply Z.eqb_eq in H
  | H : (_ =? _) = false |- _ => apply Z.eqb_neq in H
  | H : (_ <? _) = true |- _ => apply Z.ltb_lt in H
  | H : (_ <? _) = false |- _ => apply Z.ltb_ge in H
  | H : (_ <=? _) = true |- _ => apply Z.leb_le in H
  | H : (_ <=? _) = false |- _ => apply Z.leb_gt in H
  | H : (_ >? _) = true |- _ => rewrite Z.gtb_ltb in H
  | H : (_ >? _) = false |- _ => rewrite Z.gtb_ltb in H
  | H : (_ >=? _) = true |- _ => rewrite Z.geb_leb in H
  | H : (_ >=? _) = false |- _ => rewrite Z.geb_leb in H
  | H : truth _ = true |- _ => unfold truth in H
  | H : truth _ = false |- _ => unfold truth in H
  | H : bool_decide _ = true |- _ => apply bool_decide_eq_true in H
  | H : bool_decide _ = false |- _ => apply bool_decide_eq_false in H
  end.

(** Prove an equation of integers bit by bit. *)
Ltac zbits :=
  apply Z.bits_inj'; intros ?i ?Hi;
  rewrite ?Z.land_spec, ?Z.lor_spec, ?Z.ldiff_spec, ?Z.lnot_spec by lia.
