(* ===== verification/CString.v ===== *)
(** Byte memory and the C string routines: [kernel/string.c] and the string
    part of [user/ulib.c].

    Memory is a function from addresses to bytes.  [char] is unsigned on
    RISC-V, so a byte is read as a number below 256.  Routines bounded by a
    count are functions; routines that run until a NUL byte are computations of
    the kernel monad over the memory, which diverge when there is none. *)
From S2P Require Import Prelude.

Definition mem : Type := Z → Z.

Definition upd (m : mem) (a v : Z) : mem := λ x, if x =? a then v else m x.
Definition rd8 (m : mem) (a : Z) : Z := u8 (m a).
Definition wr8 (m : mem) (a v : Z) : mem := upd m a (u8 v).

(** The bytes of a string constant with its NUL. *)
Fixpoint cstring (s : string) : list Z :=
  match s with
  | EmptyString => [0]
  | String c s' => Z.of_nat (Ascii.nat_of_ascii c) :: cstring s'
  end.

(** The C string at the start of these bytes. *)
Fixpoint before_nul (l : list Z) : list Z :=
  match l with
  | [] => []
  | c :: l => if c =? 0 then [] else c :: before_nul l
  end.

(** ** Little-endian words *)

Fixpoint le_load (n : nat) (m : mem) (a : Z) : Z :=
  match n with
  | O => 0
  | S n' => rd8 m a + 256 * le_load n' m (a + 1)
  end.

Fixpoint le_store (n : nat) (m : mem) (a v : Z) : mem :=
  match n with
  | O => m
  | S n' => le_store n' (wr8 m a v) (a + 1) (v / 256)
  end.

Definition ld64 : mem → Z → Z := le_load 8.
Definition st64 : mem → Z → Z → mem := le_store 8.
Definition ld32 : mem → Z → Z := le_load 4.
Definition st32 : mem → Z → Z → mem := le_store 4.

#[global] Arguments ld64 _ _ : simpl never.
#[global] Arguments st64 _ _ _ : simpl never.
#[global] Arguments ld32 _ _ : simpl never.
#[global] Arguments st32 _ _ _ : simpl never.

(** ** kernel/string.c *)
Module KString.

Fixpoint memset_loop (k : nat) (m : mem) (cdst i c : Z) : mem :=
  match k with
  | O => m
  | S k' => memset_loop k' (wr8 m (cdst + i) c) cdst (i + 1) c
  end.
Definition memset (m : mem) (dst c n : Z) : mem := memset_loop (Z.to_nat n) m dst 0 c.

Fixpoint memcmp_loop (k : nat) (m : mem) (s1 s2 : Z) : Z :=
  match k with
  | O => 0
  | S k' =>
      if negb (rd8 m s1 =? rd8 m s2) then rd8 m s1 - rd8 m s2
      else memcmp_loop k' m (s1 + 1) (s2 + 1)
  end.
Definition memcmp (m : mem) (v1 v2 n : Z) : Z := memcmp_loop (Z.to_nat n) m v1 v2.

(** [while(n-- > 0) *d++ = *s++] *)
Fixpoint copy_up (k : nat) (m : mem) (d s : Z) : mem :=
  match k with
  | O => m
  | S k' => copy_up k' (wr8 m d (rd8 m s)) (d + 1) (s + 1)
  end.

(** [while(n-- > 0) *--d = *--s] *)
Fixpoint copy_down (k : nat) (m : mem) (d s : Z) : mem :=
  match k with
  | O => m
  | S k' => copy_down k' (wr8 m (d - 1) (rd8 m (s - 1))) (d - 1) (s - 1)
  end.

Definition memmove (m : mem) (dst src n : Z) : mem :=
  if n =? 0 then m
  else if (src <? dst) && (src + n >? dst)
  then copy_down (Z.to_nat n) m (dst + n) (src + n)
  else copy_up (Z.to_nat n) m dst src.

Definition memcpy (m : mem) (dst src n : Z) : mem := memmove m dst src n.

Fixpoint strncmp_loop (n : nat) (m : mem) (p q : Z) : Z :=
  match n with
  | O => 0
  | S n' =>
      if truth (rd8 m p) && (rd8 m p =? rd8 m q) then strncmp_loop n' m (p + 1) (q + 1)
      else rd8 m p - rd8 m q
  end.
Definition strncmp (m : mem) (p q n : Z) : Z := strncmp_loop (Z.to_nat n) m p q.

(** [while(n-- > 0) *s++ = 0] *)
Fixpoint zero_fill (k : nat) (m : mem) (s : Z) : mem :=
  match k with
  | O => m
  | S k' => zero_fill k' (wr8 m s 0) (s + 1)
  end.

(** [while(n-- > 0 && ( *s++ = *t++) != 0); while(n-- > 0) *s++ = 0;] *)
Fixpoint strncpy_loop (k : nat) (m : mem) (s t : Z) : mem :=
  match k with
  | O => m
  | S k' =>
      let c := rd8 m t in
      let m' := wr8 m s c in
      if truth c then strncpy_loop k' m' (s + 1) (t + 1) else zero_fill k' m' (s + 1)
  end.
Definition strncpy (m : mem) (s t n : Z) : mem := strncpy_loop (Z.to_nat n) m s t.

(** [while(--n > 0 && ( *s++ = *t++) != 0); *s = 0;] with [k] the count
    [n - 1] of bytes that may still be copied. *)
Fixpoint safestrcpy_loop (k : nat) (m : mem) (s t : Z) : mem :=
  match k with
  | O => wr8 m s 0
  | S k' =>
      let c := rd8 m t in
      let m' := wr8 m s c in
      if truth c then safestrcpy_loop k' m' (s + 1) (t + 1) else wr8 m' (s + 1) 0
  end.
Definition safestrcpy (m : mem) (s t n : Z) : mem :=
  if n <=? 0 then m else safestrcpy_loop (Z.to_nat (n - 1)) m s t.

Definition strlen (s : Z) : kM mem Z :=
  while (λ n, c ← gets (λ m, rd8 m (s + n)); mret (if truth c then inl (n + 1) else inr n)) 0.

End KString.
#[global] Arguments KString.memset _ _ _ _ : simpl never.
#[global] Arguments KString.memmove _ _ _ _ : simpl never.

(** ** user/ulib.c *)
Module Ulib.

(** [while(( *s++ = *t++) != 0);] *)
Definition strcpy (s t : Z) : kM mem Z :=
  while (λ '(d, r),
    c ← gets (λ m, rd8 m r);
    modify (λ m, wr8 m d c) ;;
    mret (if truth c then inl (d + 1, r + 1) else inr s)) (s, t).

Definition strcmp (p q : Z) : kM mem Z :=
  while (λ '(p, q),
    a ← gets (λ m, rd8 m p);
    b ← gets (λ m, rd8 m q);
    mret (if truth a && (a =? b) then inl (p + 1, q + 1) else inr (a - b))) (p, q).

Definition strlen (s : Z) : kM mem Z :=
  n ← while (λ n, c ← gets (λ m, rd8 m (s + n)); mret (if truth c then inl (n + 1) else inr n)) 0;
  mret (u32 n).

Definition memset (m : mem) (dst c n : Z) : mem := KString.memset_loop (Z.to_nat n) m dst 0 c.

(** Returns the address of the first [c] in the string, or 0. *)
Definition strchr (s c : Z) : kM mem Z :=
  while (λ s,
    x ← gets (λ m, rd8 m s);
    mret (if truth x then if x =? u8 c then inr s else inl (s + 1) else inr 0)) s.

Definition atoi (s : Z) : kM mem Z :=
  while (λ '(n, s),
    x ← gets (λ m, rd8 m s);
    mret (if (48 <=? x) && (x <=? 57) then inl (n * 10 + x - 48, s + 1) else inr n)) (0, s).

Definition memmove (m : mem) (vdst vsrc n : Z) : mem :=
  if vsrc >? vdst then KString.copy_up (Z.to_nat n) m vdst vsrc
  else KString.copy_down (Z.to_nat n) m (vdst + n) (vsrc + n).

Fixpoint memcmp_loop (k : nat) (m : mem) (p1 p2 : Z) : Z :=
  match k with
  | O => 0
  | S k' =>
      if negb (rd8 m p1 =? rd8 m p2) then rd8 m p1 - rd8 m p2
      else memcmp_loop k' m (p1 + 1) (p2 + 1)
  end.
Definition memcmp (m : mem) (s1 s2 n : Z) : Z := memcmp_loop (Z.to_nat n) m s1 s2.

Definition memcpy (m : mem) (dst src n : Z) : mem := memmove m dst src n.

End Ulib.

(** * Memory lemmas *)

Lemma rd8_range m a : 0 <= rd8 m a < 256.
Proof. unfold rd8. apply u8_range. Qed.

Lemma rd8_wr8 m a v x : rd8 (wr8 m a v) x = if x =? a then u8 v else rd8 m x.
Proof.
  unfold rd8, wr8, upd. destruct (x =? a); [|done].
  unfold u8. by rewrite Z.mod_mod by lia.
Qed.

Lemma rd8_wr8_eq m a v : rd8 (wr8 m a v) a = u8 v.
Proof. by rewrite rd8_wr8, Z.eqb_refl. Qed.

Lemma rd8_wr8_ne m a v x : x ≠ a → rd8 (wr8 m a v) x = rd8 m x.
Proof. intros. rewrite rd8_wr8. by destruct (Z.eqb_spec x a). Qed.

Lemma u8_rd8 m a : u8 (rd8 m a) = rd8 m a.
Proof. apply u8_small, rd8_range. Qed.

Lemma le_load_range n m a : 0 <= le_load n m a < 256 ^ Z.of_nat n.
Proof.
  revert a. induction n as [|n IH]; intros a; [simpl; lia|].
  rewrite Nat2Z.inj_succ, Z.pow_succ_r by lia. simpl.
  specialize (IH (a + 1)). pose proof (rd8_range m a). lia.
Qed.

Lemma ld64_range m a : 0 <= ld64 m a < 2 ^ 64.
Proof. apply (le_load_range 8). Qed.

Lemma le_load_ext n m m' a :
  (∀ x, a <= x < a + Z.of_nat n → rd8 m' x = rd8 m x) → le_load n m' a = le_load n m a.
Proof.
  revert a. induction n as [|n IH]; intros a H; [done|]. simpl.
  rewrite H by lia. f_equal. f_equal. apply IH. intros. apply H. lia.
Qed.

Lemma le_store_other n m a v x :
  ¬ (a <= x < a + Z.of_nat n) → rd8 (le_store n m a v) x = rd8 m x.
Proof.
  revert m a v. induction n as [|n IH]; intros m a v H; [done|]. simpl.
  rewrite IH by lia. apply rd8_wr8_ne. lia.
Qed.

Lemma le_load_store_eq n m a v :
  le_load n (le_store n m a v) a = v mod 256 ^ Z.of_nat n.
Proof.
  revert m a v. induction n as [|n IH]; intros m a v.
  - simpl. by rewrite Z.mod_1_r.
  - simpl le_load. simpl le_store. rewrite le_store_other by lia.
    rewrite rd8_wr8_eq, IH, Nat2Z.inj_succ, Z.pow_succ_r by lia.
    unfold u8. change (2 ^ 8) with 256. rewrite Z.rem_mul_r; lia.
Qed.

Lemma ld64_st64_eq m a v : ld64 (st64 m a v) a = u64 v.
Proof. apply (le_load_store_eq 8). Qed.

Lemma ld64_st64_same m a v : 0 <= v < 2 ^ 64 → ld64 (st64 m a v) a = v.
Proof. intros. rewrite ld64_st64_eq. by apply u64_small. Qed.

Lemma ld64_ext m m' a :
  (∀ x, a <= x < a + 8 → rd8 m' x = rd8 m x) → ld64 m' a = ld64 m a.
Proof. apply (le_load_ext 8). Qed.

Lemma rd8_st64_ne m a v x : ¬ (a <= x < a + 8) → rd8 (st64 m a v) x = rd8 m x.
Proof. apply (le_store_other 8). Qed.

Lemma ld64_st64_ne m a v b : b + 8 <= a ∨ a + 8 <= b → ld64 (st64 m a v) b = ld64 m b.
Proof. intros. apply ld64_ext. intros. apply rd8_st64_ne. lia. Qed.

Lemma le_store_cong n m m' a v :
  (∀ x, rd8 m x = rd8 m' x) → ∀ x, rd8 (le_store n m a v) x = rd8 (le_store n m' a v) x.
Proof.
  revert m m' a v. induction n as [|n IH]; intros m m' a v H x; simpl; [done|].
  apply IH. intros y. rewrite !rd8_wr8. by destruct (y =? a).
Qed.

Lemma rd8_st64_cong m m' a v x :
  (∀ y, rd8 m y = rd8 m' y) → rd8 (st64 m a v) x = rd8 (st64 m' a v) x.
Proof. intros H. by apply (le_store_cong 8). Qed.

Lemma le_load_zero n m a : (∀ x, a <= x < a + Z.of_nat n → rd8 m x = 0) → le_load n m a = 0.
Proof.
  revert a. induction n as [|n IH]; intros a H; [done|]. simpl.
  rewrite H by lia. rewrite IH; [lia|]. intros. apply H. lia.
Qed.

Lemma ld64_zero m a : (∀ x, a <= x < a + 8 → rd8 m x = 0) → ld64 m a = 0.
Proof. apply (le_load_zero 8). Qed.

#[export] Hint Rewrite rd8_wr8_eq ld64_st64_eq u8_rd8 : kernel.

(** * Block routines *)

Lemma memset_loop_spec k m cdst i c x :
  rd8 (KString.memset_loop k m cdst i c) x =
  if (cdst + i <=? x) && (x <? cdst + i + Z.of_nat k) then u8 c else rd8 m x.
Proof.
  revert m i. induction k as [|k IH]; intros m i; simpl KString.memset_loop.
  - destruct (Z.leb_spec (cdst + i) x), (Z.ltb_spec x (cdst + i + Z.of_nat 0)); simpl; done || lia.
  - rewrite IH, rd8_wr8.
    destruct (Z.leb_spec (cdst + (i + 1)) x), (Z.ltb_spec x (cdst + (i + 1) + Z.of_nat k)),
      (Z.leb_spec (cdst + i) x), (Z.ltb_spec x (cdst + i + Z.of_nat (S k))),
      (Z.eqb_spec x (cdst + i)); simpl; done || lia.
Qed.

Lemma memset_spec m dst c n x :
  rd8 (KString.memset m dst c n) x =
  if (dst <=? x) && (x <? dst + n) then u8 c else rd8 m x.
Proof.
  unfold KString.memset. rewrite memset_loop_spec, Z.add_0_r.
  destruct (Z.leb_spec dst x), (Z.ltb_spec x (dst + Z.of_nat (Z.to_nat n))),
    (Z.ltb_spec x (dst + n)); simpl; done || lia.
Qed.

(** Both copy loops move the bytes of the initial memory, each in the case of
    overlap it is used for. *)
Lemma copy_up_spec k m d s x :
  d <= s ∨ s + Z.of_nat k <= d →
  rd8 (KString.copy_up k m d s) x =
  if (d <=? x) && (x <? d + Z.of_nat k) then rd8 m (s + (x - d)) else rd8 m x.
Proof.
  revert m d s. induction k as [|k IH]; intros m d s H; simpl KString.copy_up.
  - destruct (Z.leb_spec d x), (Z.ltb_spec x (d + Z.of_nat 0)); simpl; done || lia.
  - rewrite IH by lia. rewrite !rd8_wr8.
    destruct (Z.leb_spec (d + 1) x), (Z.ltb_spec x (d + 1 + Z.of_nat k)),
      (Z.leb_spec d x), (Z.ltb_spec x (d + Z.of_nat (S k))); simpl; try lia.
    + destruct (Z.eqb_spec (s + 1 + (x - (d + 1))) d); [lia|]. f_equal. lia.
    + destruct (Z.eqb_spec x d); [lia|done].
    + destruct (Z.eqb_spec x d); [|lia]. rewrite u8_rd8. f_equal. lia.
    + destruct (Z.eqb_spec x d); [lia|done].
Qed.

Lemma copy_down_spec k m d s x :
  s <= d ∨ d + Z.of_nat k <= s →
  rd8 (KString.copy_down k m (d + Z.of_nat k) (s + Z.of_nat k)) x =
  if (d <=? x) && (x <? d + Z.of_nat k) then rd8 m (s + (x - d)) else rd8 m x.
Proof.
  revert m. induction k as [|k IH]; intros m H; simpl KString.copy_down.
  - destruct (Z.leb_spec d x), (Z.ltb_spec x (d + Z.of_nat 0)); simpl; done || lia.
  - replace (d + Z.of_nat (S k) - 1) with (d + Z.of_nat k) by lia.
    replace (s + Z.of_nat (S k) - 1) with (s + Z.of_nat k) by lia.
    rewrite IH by lia. rewrite !rd8_wr8.
    destruct (Z.leb_spec d x), (Z.ltb_spec x (d + Z.of_nat k)),
      (Z.ltb_spec x (d + Z.of_nat (S k))); simpl; try lia.
    + destruct (Z.eqb_spec (s + (x - d)) (d + Z.of_nat k)); [lia|done].
    + destruct (Z.eqb_spec x (d + Z.of_nat k)); [|lia]. rewrite u8_rd8. f_equal. lia.
    + destruct (Z.eqb_spec x (d + Z.of_nat k)); [lia|done].
    + destruct (Z.eqb_spec x (d + Z.of_nat k)); [lia|done].
Qed.

Lemma memmove_spec m dst src n x :
  0 <= n →
  rd8 (KString.memmove m dst src n) x =
  if (dst <=? x) && (x <? dst + n) then rd8 m (src + (x - dst)) else rd8 m x.
Proof.
  intros Hn. unfold KString.memmove. destruct (Z.eqb_spec n 0) as [->|].
  { destruct (Z.leb_spec dst x), (Z.ltb_spec x (dst + 0)); simpl; done || lia. }
  destruct ((src <? dst) && (src + n >? dst)) eqn:E; b2p.
  - pose proof (copy_down_spec (Z.to_nat n) m dst src x) as Hc.
    rewrite !Z2Nat.id in Hc by lia. apply Hc. lia.
  - pose proof (copy_up_spec (Z.to_nat n) m dst src x) as Hc.
    rewrite !Z2Nat.id in Hc by lia. apply Hc.
    destruct E as [E|E]; b2p; lia.
Qed.

Lemma le_load_shift n m m' a b :
  (∀ i, 0 <= i < Z.of_nat n → rd8 m' (a + i) = rd8 m (b + i)) → le_load n m' a = le_load n m b.
Proof.
  revert a b. induction n as [|n IH]; intros a b H; [done|]. cbn [le_load]. f_equal.
  - specialize (H 0 ltac:(lia)). by rewrite !Z.add_0_r in H.
  - f_equal. apply IH. intros i Hi. rewrite <- !Z.add_assoc. apply H. lia.
Qed.

(** A word of the copy is the word of the source. *)
Lemma ld64_memmove m dst src n i :
  0 <= i → i + 8 <= n → ld64 (KString.memmove m dst src n) (dst + i) = ld64 m (src + i).
Proof.
  intros Hi Hn. apply (le_load_shift 8). intros j Hj. rewrite memmove_spec by lia.
  replace ((dst <=? dst + i + j) && (dst + i + j <? dst + n)) with true
    by (symmetry; apply andb_true_iff; split; [apply Z.leb_le|apply Z.ltb_lt]; lia).
  f_equal. lia.
Qed.

Lemma ulib_memmove_spec m dst src n x :
  0 <= n →
  rd8 (Ulib.memmove m dst src n) x =
  if (dst <=? x) && (x <? dst + n) then rd8 m (src + (x - dst)) else rd8 m x.
Proof.
  intros Hn. unfold Ulib.memmove. destruct (src >? dst) eqn:E; b2p.
  - pose proof (copy_up_spec (Z.to_nat n) m dst src x) as Hc.
    rewrite !Z2Nat.id in Hc by lia. apply Hc. lia.
  - pose proof (copy_down_spec (Z.to_nat n) m dst src x) as Hc.
    rewrite !Z2Nat.id in Hc by lia. apply Hc. lia.
Qed.

(** * NUL-terminated strings *)

(** The bytes [l], none of them NUL, and a NUL byte after them, are at [p]. *)
Definition str_at (m : mem) (p : Z) (l : list Z) : Prop :=
  Forall (λ c, c ≠ 0) l ∧
  (∀ i c, l !! i = Some c → rd8 m (p + Z.of_nat i) = c) ∧
  rd8 m (p + Z.of_nat (length l)) = 0.

Lemma str_at_nil m p : str_at m p [] ↔ rd8 m p = 0.
Proof.
  unfold str_at. simpl. rewrite Z.add_0_r. split; [tauto|].
  intros H. split_and!; [constructor| |done]. intros i c Hi. by rewrite lookup_nil in Hi.
Qed.

Lemma str_at_cons m p c l :
  str_at m p (c :: l) ↔ c ≠ 0 ∧ rd8 m p = c ∧ str_at m (p + 1) l.
Proof.
  unfold str_at. rewrite Forall_cons. split.
  - intros ((Hc & Hl) & Hi & Hz). split_and!; try done.
    + specialize (Hi 0%nat c eq_refl). by rewrite Z.add_0_r in Hi.
    + intros i c' Hi'. rewrite <- (Hi (S i) c' Hi'). f_equal. lia.
    + rewrite <- Hz. f_equal. simpl. lia.
  - intros (Hc & H0 & Hl & Hi & Hz). split_and!; try done.
    + intros [|i] c' Hi'; simplify_eq/=; [by rewrite Z.add_0_r|].
      rewrite <- (Hi i c' Hi'). f_equal. lia.
    + rewrite <- Hz. f_equal. simpl. lia.
Qed.

(** The first NUL byte decides the string. *)
Lemma str_at_inj m p l1 l2 : str_at m p l1 → str_at m p l2 → l1 = l2.
Proof.
  revert p l2. induction l1 as [|c l1 IH]; intros p [|c2 l2]; rewrite ?str_at_nil, ?str_at_cons;
    intros H1 H2; destruct_and?; subst; try done.
  f_equal. eauto.
Qed.

Lemma strlen_loop_spec m s l :
  str_at m s l → Z.of_nat (length l) < 2 ^ 64 →
  KString.strlen s m = Ok (Z.of_nat (length l)) m.
Proof.
  intros (Hnz & Hb & Hz) Hlen. unfold KString.strlen.
  assert (wp (KString.strlen s) (λ r m', m' = m ∧ r = Z.of_nat (length l)) m) as H.
  { unfold KString.strlen.
    eapply (wp_while (λ i m', m' = m ∧ 0 <= i <= Z.of_nat (length l))
              (λ i _, Z.of_nat (length l) - i)); [|split; [done|lia]|lia].
    intros i m' [-> Hi]. wp_step. wp_step. wp_step.
    destruct (decide (i = Z.of_nat (length l))) as [->|Hne].
    - rewrite Hz. done.
    - destruct (lookup_lt_is_Some_2 l (Z.to_nat i)) as [c Hc]; [lia|].
      pose proof (Hb _ _ Hc) as E. rewrite Z2Nat.id in E by lia. rewrite E.
      rewrite Forall_lookup in Hnz. specialize (Hnz _ _ Hc).
      unfold truth. destruct (Z.eqb_spec c 0); [done|]. simpl. split; [split; [done|]|]; lia. }
  unfold wp in H. unfold KString.strlen in H.
  destruct (while _ _ _) as [a s'| | |]; naive_solver.
Qed.

Lemma str_at_ext m m' p l :
  (∀ x, p <= x <= p + Z.of_nat (length l) → rd8 m' x = rd8 m x) →
  str_at m p l → str_at m' p l.
Proof.
  intros H (Hnz & Hb & Hz). split_and!; [done| |].
  - intros i c Hi. rewrite H; [by apply Hb|]. apply lookup_lt_Some in Hi. lia.
  - rewrite H; [done|lia].
Qed.

Lemma strncmp_loop_spec n m p q l1 l2 :
  str_at m p l1 → str_at m q l2 →
  KString.strncmp_loop n m p q = 0 ↔ take n l1 = take n l2.
Proof.
  revert p q l1 l2. induction n as [|n IH]; intros p q l1 l2 H1 H2; simpl; [by rewrite !take_0|].
  destruct l1 as [|c1 l1], l2 as [|c2 l2]; simpl;
    rewrite ?str_at_nil, ?str_at_cons in H1; rewrite ?str_at_nil, ?str_at_cons in H2;
    destruct_and?; subst; unfold truth.
  - rewrite H1, H2. simpl. split; [done|lia].
  - rewrite H1. simpl. split; [lia|done].
  - destruct (Z.eqb_spec (rd8 m p) 0); [done|]. simpl.
    destruct (Z.eqb_spec (rd8 m p) (rd8 m q)); [congruence|]. split; [lia|done].
  - destruct (Z.eqb_spec (rd8 m p) 0); [done|]. simpl.
    destruct (Z.eqb_spec (rd8 m p) (rd8 m q)) as [E|E].
    + rewrite IH by done. rewrite E. split; [by intros ->|by intros [= ->]].
    + split; [lia|by intros [= ?]].
Qed.

Lemma zero_fill_spec k m s x :
  rd8 (KString.zero_fill k m s) x =
  if (s <=? x) && (x <? s + Z.of_nat k) then 0 else rd8 m x.
Proof.
  revert m s. induction k as [|k IH]; intros m s; simpl KString.zero_fill.
  - destruct (Z.leb_spec s x), (Z.ltb_spec x (s + Z.of_nat 0)); simpl; done || lia.
  - rewrite IH, rd8_wr8. change (u8 0) with 0.
    destruct (Z.leb_spec (s + 1) x), (Z.ltb_spec x (s + 1 + Z.of_nat k)),
      (Z.leb_spec s x), (Z.ltb_spec x (s + Z.of_nat (S k))),
      (Z.eqb_spec x s); simpl; done || lia.
Qed.

(** The destination holds the first bytes of the string, padded with NULs, and
    no other byte changes. *)
Lemma strncpy_loop_spec k m s t l x :
  str_at m t l → s + Z.of_nat k <= t ∨ t + Z.of_nat (length l) < s →
  rd8 (KString.strncpy_loop k m s t) x =
  if (s <=? x) && (x <? s + Z.of_nat k) then default 0 (l !! Z.to_nat (x - s)) else rd8 m x.
Proof.
  revert m s t l. induction k as [|k IH]; intros m s t l Hl Hd; simpl KString.strncpy_loop.
  { destruct (Z.leb_spec s x), (Z.ltb_spec x (s + Z.of_nat 0)); simpl; done || lia. }
  destruct l as [|c l]; rewrite ?str_at_nil, ?str_at_cons in Hl.
  - rewrite Hl. simpl. rewrite zero_fill_spec, rd8_wr8. change (u8 0) with 0.
    destruct (Z.leb_spec (s + 1) x), (Z.ltb_spec x (s + 1 + Z.of_nat k)),
      (Z.leb_spec s x), (Z.ltb_spec x (s + Z.of_nat (S k))),
      (Z.eqb_spec x s); simpl; done || lia.
  - destruct Hl as (Hc & Ht & Hl). simpl in Hd. rewrite Ht.
    unfold truth. destruct (Z.eqb_spec c 0); [done|]. simpl.
    rewrite (IH _ (s + 1) (t + 1) l); [|apply (str_at_ext m); [|done]|lia].
    2: { intros y Hy. apply rd8_wr8_ne. lia. }
    rewrite rd8_wr8.
    destruct (Z.leb_spec (s + 1) x), (Z.ltb_spec x (s + 1 + Z.of_nat k)),
      (Z.leb_spec s x), (Z.ltb_spec x (s + Z.of_nat (S k))),
      (Z.eqb_spec x s); simpl; try done; try lia.
    + replace (Z.to_nat (x - s)) with (S (Z.to_nat (x - (s + 1)))) by lia. done.
    + subst x. rewrite Z.sub_diag. simpl. rewrite <- Ht. apply u8_rd8.
Qed.

(** [safestrcpy] leaves a NUL-terminated string, whatever the length of the
    source, and writes only the [n] bytes it was given. *)
Lemma safestrcpy_loop_spec k m s t l :
  str_at m t l → s + Z.of_nat k < t ∨ t + Z.of_nat (length l) < s →
  let m' := KString.safestrcpy_loop k m s t in
  str_at m' s (take k l) ∧ ∀ x, ¬ (s <= x <= s + Z.of_nat k) → rd8 m' x = rd8 m x.
Proof.
  revert m s t l. induction k as [|k IH]; intros m s t l Hl Hd; simpl KString.safestrcpy_loop.
  { rewrite take_0. split; [apply str_at_nil, rd8_wr8_eq|].
    intros x Hx. apply rd8_wr8_ne. lia. }
  destruct l as [|c l]; rewrite ?str_at_nil, ?str_at_cons in Hl.
  - rewrite Hl. simpl. split; [apply str_at_nil|].
    + by rewrite rd8_wr8_ne, rd8_wr8_eq by lia.
    + intros x Hx. rewrite !rd8_wr8_ne by lia. done.
  - destruct Hl as (Hc & Ht & Hl). simpl in Hd. rewrite Ht.
    unfold truth. destruct (Z.eqb_spec c 0); [done|]. simpl.
    destruct (IH (wr8 m s c) (s + 1) (t + 1) l) as [IH1 IH2]; [|lia|].
    { apply (str_at_ext m); [|done]. intros y Hy. apply rd8_wr8_ne. lia. }
    split.
    + rewrite str_at_cons. split_and!; [done| |done].
      rewrite IH2 by lia. rewrite rd8_wr8_eq. rewrite <- Ht. apply u8_rd8.
    + intros x Hx. rewrite IH2 by lia. apply rd8_wr8_ne. lia.
Qed.
