(* ===== verification/UserProg.v ===== *)
(** The pure parts of the user programs: the matcher of [user/grep.c], the
    counters of [user/wc.c], the formatting of [user/printf.c], [fmtname] of
    [user/ls.c].  Strings are lists of bytes without their NUL. *)
From S2P Require Import Prelude CString.

(** The bytes of a string constant without its NUL, and with a newline. *)
Fixpoint lit (s : string) : list Z :=
  match s with
  | EmptyString => []
  | String c s' => Z.of_nat (Ascii.nat_of_ascii c) :: lit s'
  end.
Definition lit_nl (s : string) : list Z := lit s ++ [10].

(** ** grep.c *)

Definition DOT : Z := 46.
Definition STAR : Z := 42.
Definition CARET : Z := 94.
Definition DOLLAR : Z := 36.

(** The loop of [matchstar]; [here] is [matchhere(re, ...)]. *)
Definition matchstar (here : list Z → bool) (c : Z) : list Z → bool :=
  fix loop (text : list Z) : bool :=
    if here text then true else
    match text with
    | [] => false
    | x :: text' => if (x =? c) || (c =? DOT) then loop text' else false
    end.

Fixpoint matchhere (re text : list Z) : bool :=
  match re with
  | [] => true
  | c :: re1 =>
      let plain :=
        if (c =? DOLLAR) && bool_decide (re1 = []) then bool_decide (text = []) else
        match text with
        | x :: text' => if (c =? DOT) || (c =? x) then matchhere re1 text' else false
        | [] => false
        end in
      match re1 with
      | d :: re2 => if d =? STAR then matchstar (matchhere re2) c text else plain
      | [] => plain
      end
  end.

(** The loop of [match]. *)
Fixpoint match_any (re text : list Z) : bool :=
  if matchhere re text then true else
  match text with [] => false | _ :: text' => match_any re text' end.

Definition match_ (re text : list Z) : bool :=
  match re with
  | c :: re' => if c =? CARET then matchhere re' text else match_any re text
  | [] => match_any re text
  end.

(** [strchr] of a newline: the part of the string before the first one, and
    behind it. *)
Fixpoint split_line (p : list Z) : option (list Z * list Z) :=
  match p with
  | [] => None
  | c :: p' => if c =? 0 then None else if c =? 10 then Some ([], p') else
      match split_line p' with Some (l, r) => Some (c :: l, r) | None => None end
  end.

(** ** wc.c *)

(** The characters for which [strchr] of the blanks (space, CR, tab, newline,
    vertical tab) finds something; NUL is not one of them, since [strchr] stops
    at the end of the string. *)
Definition is_blank (c : Z) : bool := bool_decide (c ∈ [32; 13; 9; 10; 11]).

Record counts := mkCounts { wc_l : Z; wc_w : Z; wc_c : Z; wc_inword : bool }.

Definition wc_byte (s : counts) (c : Z) : counts :=
  let l := if c =? 10 then wc_l s + 1 else wc_l s in
  if is_blank c then mkCounts l (wc_w s) (wc_c s + 1) false
  else if wc_inword s then mkCounts l (wc_w s) (wc_c s + 1) true
  else mkCounts l (wc_w s + 1) (wc_c s + 1) true.

(** ** ls.c *)

Definition DIRSIZ_ : nat := 14.

(** The part of a path after the last slash. *)
Fixpoint after_slash (path : list Z) : list Z :=
  match path with
  | [] => []
  | c :: p => if bool_decide (47 ∈ p) then after_slash p else if c =? 47 then p else path
  end.

(** Padded with blanks to [DIRSIZ] characters. *)
Definition fmtname (path : list Z) : list Z :=
  let p := after_slash path in p ++ replicate (DIRSIZ_ - length p) 32.

(** ** ulib.c *)

(** What [atoi] computes from a string. *)
Fixpoint number (n : Z) (s : list Z) : Z :=
  match s with
  | [] => n
  | x :: s' => if (48 <=? x) && (x <=? 57) then number (n * 10 + x - 48) s' else n
  end.

(** ** printf.c *)

(** [digits[d]] *)
Definition udigit (d : Z) : Z := if d <? 10 then 48 + d else 55 + d.

Fixpoint udigits_of (n : nat) (x base : Z) : list Z :=
  match n with
  | O => []
  | S n' => udigit (x mod base) :: (if x / base =? 0 then [] else udigits_of n' (x / base) base)
  end.

(** The characters of [printint]; [buf] has 16 entries. *)
Definition uprintint (xx base : Z) (sgn : bool) : list Z :=
  let neg := sgn && (xx <? 0) in
  let x := if neg then u32 (- xx) else u32 xx in
  reverse (udigits_of 16 x base ++ if neg then [45] else []).

Definition uprintptr (x : Z) : list Z :=
  [48; 120] ++ map (λ i, udigit (Z.shiftr (u64 (Z.shiftl x (4 * i))) 60)) (seqZ 0 16).

(** An argument; a null string is [None]. *)
Inductive uarg := UInt (x : Z) | ULong (x : Z) | UStr (s : option (list Z)) | UChar (x : Z).

(** What [vprintf] prints in the states 0 ([false]) and '%' ([true]); [None] when
    an argument is missing or of the wrong kind. *)
Fixpoint vprintf (fmt : list Z) (pct : bool) (ap : list uarg) : option (list Z) :=
  match fmt with
  | [] => Some []
  | c :: fmt' =>
      if negb pct then
        if c =? 37 then vprintf fmt' true ap else l ← vprintf fmt' false ap; Some (c :: l)
      else if c =? 100 then
        match ap with
        | UInt x :: ap' => l ← vprintf fmt' false ap'; Some (uprintint x 10 true ++ l)
        | _ => None
        end
      else if c =? 108 then
        match ap with
        | ULong x :: ap' => l ← vprintf fmt' false ap'; Some (uprintint (i32 x) 10 false ++ l)
        | _ => None
        end
      else if c =? 120 then
        match ap with
        | UInt x :: ap' => l ← vprintf fmt' false ap'; Some (uprintint x 16 false ++ l)
        | _ => None
        end
      else if c =? 112 then
        match ap with
        | ULong x :: ap' => l ← vprintf fmt' false ap'; Some (uprintptr x ++ l)
        | _ => None
        end
      else if c =? 115 then
        match ap with
        | UStr s :: ap' =>
            l ← vprintf fmt' false ap';
            Some (default [40; 110; 117; 108; 108; 41] s ++ l)
        | _ => None
        end
      else if c =? 99 then
        match ap with
        | UChar x :: ap' => l ← vprintf fmt' false ap'; Some (u8 x :: l)
        | _ => None
        end
      else if c =? 37 then l ← vprintf fmt' false ap; Some (c :: l)
      else l ← vprintf fmt' false ap; Some (37 :: c :: l)
  end.
