(* ===== verification/Umalloc.v ===== *)
(** The user-level allocator: [user/umalloc.c].

    A header is 16 bytes: [s.ptr] in the first eight, [s.size] (in headers) in
    the next four.  [sbrk] is a parameter: the kernel's system call. *)
From S2P Require Import Prelude CString.

(** The memory of the process and the static variables. *)
Record uheap := mkUheap {
  uh_mem : mem;
  uh_freep : Z;
  uh_brk : Z                   (* the end of the process's memory *)
}.
#[export] Instance uheap_settable : Settable uheap := λ x, mkUheap (uh_mem x) (uh_freep x) (uh_brk x).

Abbreviation HM := (kM uheap).

Definition HDR : Z := 16.             (* sizeof(Header) *)

Definition s_ptr (p : Z) : HM Z := gets (λ s, ld64 (uh_mem s) p).
Definition set_ptr (p v : Z) : HM () := modify (λ s, s <| uh_mem := st64 (uh_mem s) p v |>).
Definition s_size (p : Z) : HM Z := gets (λ s, ld32 (uh_mem s) (p + 8)).
Definition set_size (p v : Z) : HM () := modify (λ s, s <| uh_mem := st32 (uh_mem s) (p + 8) (u32 v) |>).
Definition set_freep (p : Z) : HM () := modify (λ s, s <| uh_freep := p |>).

Section umalloc.
Context (base : Z).                          (* &base *)
Context (sbrk : Z → HM Z).

(** The search of [free] for the place of [bp]. *)
Definition free_search (bp : Z) : HM Z :=
  p ← gets uh_freep;
  while (λ p,
    n ← s_ptr p;
    if (bp >? p) && (bp <? n) then mret (inr p) else
    if (p >=? n) && ((bp >? p) || (bp <? n)) then mret (inr p) else
    mret (inl n)) p.

Definition free (ap : Z) : HM () :=
  let bp := ap - HDR in
  p ← free_search bp;
  n ← s_ptr p;
  bsize ← s_size bp;
  (if bp + bsize * HDR =? n then
     nsize ← s_size n;
     set_size bp (bsize + nsize) ;;
     nn ← s_ptr n;
     set_ptr bp nn
   else set_ptr bp n) ;;
  psize ← s_size p;
  (if p + psize * HDR =? bp then
     bsize ← s_size bp;
     set_size p (psize + bsize) ;;
     bn ← s_ptr bp;
     set_ptr p bn
   else set_ptr p bp) ;;
  set_freep p.

(** [sbrk] takes an [int] and returns an address or -1. *)
Definition morecore (nu : Z) : HM Z :=
  let nu := if nu <? 4096 then 4096 else nu in
  p ← sbrk (i32 (nu * HDR));
  if p =? u64 (-1) then mret 0 else
  set_size p nu ;;
  free (p + HDR) ;;
  gets uh_freep.

(** The unit count of a request; [sizeof] makes the sum 64 bits wide. *)
Definition units (nbytes : Z) : Z := u32 ((nbytes + HDR - 1) / HDR + 1).

Definition malloc (nbytes : Z) : HM Z :=
  let nunits := units nbytes in
  fp ← gets uh_freep;
  prevp ← (if fp =? 0 then
      set_freep base ;;
      set_ptr base base ;;
      set_size base 0 ;;
      mret base
    else mret fp);
  p ← s_ptr prevp;
  while (λ '(prevp, p),
    size ← s_size p;
    if size >=? nunits then
      (if size =? nunits then
         n ← s_ptr p;
         set_ptr prevp n ;;
         set_freep prevp ;;
         mret (inr (p + HDR))
       else
         set_size p (size - nunits) ;;
         size ← s_size p;
         let p := p + size * HDR in
         set_size p nunits ;;
         set_freep prevp ;;
         mret (inr (p + HDR)))
    else
    fp ← gets uh_freep;
    if p =? fp then
      p ← morecore nunits;
      if p =? 0 then mret (inr 0) else
      n ← s_ptr p;
      mret (inl (p, n))
    else
      n ← s_ptr p;
      mret (inl (p, n))) (prevp, p).

End umalloc.
