(* ===== verification/Shell.v ===== *)
(** The parser of the shell: [user/sh.c].

    The command line is the list of its bytes without the NUL; a pointer into it
    is an index.  The parser's state is [*ps]; a syntax error is [panic].  Tokens
    are pairs [(q, eq)] of their ends, as in the source. *)
From S2P Require Import Prelude CString.

Definition MAXARGS : Z := 10.
Definition whitespace : list Z := [32; 9; 13; 10; 11].
Definition symbols : list Z := [60; 124; 62; 38; 59; 40; 41].

Definition RD_MODE : Z := 0x000.                      (* O_RDONLY *)
Definition WR_MODE : Z := 0x601.                      (* O_WRONLY|O_CREATE|O_TRUNC *)
Definition APP_MODE : Z := 0x201.                     (* O_WRONLY|O_CREATE *)

Inductive cmd :=
| EXEC (argv : list (Z * Z))
| REDIR (c : cmd) (file : Z * Z) (mode fd : Z)
| PIPE (left right : cmd)
| LIST (left right : cmd)
| BACK (c : cmd).

(** The arguments of [redircmd] other than the command. *)
Record redir := mkRedir { rd_file : Z * Z; rd_mode : Z; rd_fd : Z }.
Definition redircmd (c : cmd) (r : redir) : cmd := REDIR c (rd_file r) (rd_mode r) (rd_fd r).

Definition strchr_ (l : list Z) (c : Z) : bool := bool_decide (c ∈ l).

Section parse.
Context (buf : list Z).

Abbreviation P := (kM Z).

Definition es : Z := Z.of_nat (length buf).
(** [*s] *)
Definition char_at (s : Z) : Z := nth (Z.to_nat s) buf 0.

(** [while(s < es && p( *s)) s++], at most [n] times. *)
Fixpoint scan_while (n : nat) (p : Z → bool) (s : Z) : Z :=
  match n with
  | O => s
  | S n' => if (s <? es) && p (char_at s) then scan_while n' p (s + 1) else s
  end.
Definition scan_to (p : Z → bool) (s : Z) : Z := scan_while (Z.to_nat (es - s)) p s.
Definition skip_blanks : Z → Z := scan_to (strchr_ whitespace).

(** The switch of [gettoken]: the token and the end of it. *)
Definition token_at (s : Z) : Z * Z :=
  let c := char_at s in
  if c =? 0 then (0, s) else
  if strchr_ [124; 40; 41; 59; 38; 60] c then (c, s + 1) else
  if c =? 62 then if char_at (s + 1) =? 62 then (43, s + 2) else (c, s + 1) else
  (97, scan_to (λ x, negb (strchr_ whitespace x) && negb (strchr_ symbols x)) s).

(** The token, [*q] and [*eq]. *)
Definition gettoken : P (Z * (Z * Z)) :=
  s ← gets (λ s, s);
  let q := skip_blanks s in
  let r := token_at q in
  modify (λ _, skip_blanks r.2) ;;
  mret (r.1, (q, r.2)).

Definition peek (toks : list Z) : P bool :=
  modify skip_blanks ;;
  c ← gets char_at;
  mret (truth c && strchr_ toks c).

(** The redirections, in order. *)
Definition parseredirs : P (list redir) :=
  while (λ rs,
    b ← peek [60; 62];
    if b : bool then
      t ← gettoken;
      f ← gettoken;
      if negb (f.1 =? 97) then panic "missing file for redirection" else
      let rs :=
        if t.1 =? 60 then rs ++ [mkRedir f.2 RD_MODE 0]
        else if t.1 =? 62 then rs ++ [mkRedir f.2 WR_MODE 1]
        else if t.1 =? 43 then rs ++ [mkRedir f.2 APP_MODE 1]
        else rs in
      mret (inl rs)
    else mret (inr rs)) [].

(** The loop of [parseexec]: the arguments and the redirections among them. *)
Definition parseargs : P (list (Z * Z) * list redir) :=
  rs ← parseredirs;
  while (λ '(argv, rs),
    b ← peek [124; 41; 38; 59];
    if b : bool then mret (inr (argv, rs)) else
    t ← gettoken;
    if t.1 =? 0 then mret (inr (argv, rs)) else
    if negb (t.1 =? 97) then panic "syntax" else
    let argv := argv ++ [t.2] in
    if Z.of_nat (length argv) >=? MAXARGS then panic "too many args" else
    rs' ← parseredirs;
    mret (inl (argv, rs ++ rs'))) ([], rs).

(** [while(peek(ps, es, "&")) ...] of [parseline]. *)
Definition parseback (c : cmd) : P cmd :=
  while (λ c,
    b ← peek [38];
    if b : bool then gettoken ;; mret (inl (BACK c)) else mret (inr c)) c.

(** The recursion is bounded by [n]; every level consumes a symbol. *)
Fixpoint parseline (n : nat) : P cmd :=
  match n with
  | O => diverge
  | S n =>
      c ← parsepipe n;
      c ← parseback c;
      b ← peek [59];
      if b : bool then
        gettoken ;;
        r ← parseline n;
        mret (LIST c r)
      else mret c
  end
with parsepipe (n : nat) : P cmd :=
  match n with
  | O => diverge
  | S n =>
      c ← parseexec n;
      b ← peek [124];
      if b : bool then
        gettoken ;;
        r ← parsepipe n;
        mret (PIPE c r)
      else mret c
  end
with parseexec (n : nat) : P cmd :=
  match n with
  | O => diverge
  | S n =>
      b ← peek [40];
      if b : bool then parseblock n else
      r ← parseargs;
      mret (foldl redircmd (EXEC r.1) r.2)
  end
with parseblock (n : nat) : P cmd :=
  match n with
  | O => diverge
  | S n =>
      b ← peek [40];
      if negb b then panic "parseblock" else
      gettoken ;;
      c ← parseline n;
      b ← peek [41];
      if negb b then panic "syntax - missing )" else
      gettoken ;;
      rs ← parseredirs;
      mret (foldl redircmd c rs)
  end.

(** Four levels for each byte of the line are enough. *)
Definition parse_fuel : nat := 4 * length buf + 4.

(** [parsecmd] up to the check for leftovers. *)
Definition parsetop : P cmd :=
  c ← parseline parse_fuel;
  peek [] ;;
  mret c.

Definition parsecmd_ : P cmd :=
  c ← parsetop;
  s ← gets (λ s, s);
  if negb (s =? es) then panic "syntax" else mret c.

End parse.

(** [*p = 0] *)
Definition put0 (p : Z) (buf : list Z) : list Z := <[Z.to_nat p := 0]> buf.

(** NUL-terminate all the counted strings; the NUL of the line itself may be one
    of the bytes written. *)
Fixpoint nulterminate (c : cmd) (buf : list Z) : list Z :=
  match c with
  | EXEC argv => foldl (λ b a, put0 a.2 b) buf argv
  | REDIR c f _ _ => put0 f.2 (nulterminate c buf)
  | PIPE l r => nulterminate r (nulterminate l buf)
  | LIST l r => nulterminate r (nulterminate l buf)
  | BACK c => nulterminate c buf
  end.

(** The C string at an address. *)
Definition string_at (b : list Z) (q : Z) : list Z := before_nul (drop (Z.to_nat q) b).

(** [parsecmd]: the command and the line, with its NUL, that its tokens point to. *)
Definition parsecmd (buf : list Z) : res Z (cmd * list Z) :=
  (c ← parsecmd_ buf; mret (c, nulterminate c (buf ++ [0]))) 0.
