(* ===== verification/Spinlock.v ===== *)
(** Spinlocks and interrupt nesting: [kernel/spinlock.c].

    The first part models the lock words, the per-CPU [noff]/[intena] and the
    interrupt-enable bit as the code has them.  The second part lets the CPUs
    interleave between the atomic instructions of [acquire] and [release] and
    proves mutual exclusion.  The third part is what the rest of the
    development uses: the locks one CPU holds, as a list that [acquire] and
    [release] change, with the theorem that the real lock words refine it. *)
From S2P Require Import Prelude.

(** The spinlocks of the kernel. *)
Inductive lock : Type :=
| KmemLock
| RcLock (i : Z)
| PidLock
| WaitLock
| ProcLock (i : Z)
| TicksLock
| BcacheLock
| LogLock
| ItableLock
| FtableLock
| PipeLock (pi : Z)
| SleepLock (id : Z)
| ConsLock
| UartTxLock
| PrLock
| VdiskLock.

#[export] Instance lock_eq_dec : EqDecision lock.
Proof. solve_decision. Defined.

(** * Lock words and CPUs *)
Module Concrete.

Record spinlock := mkSpinlock {
  locked : Z;            (* uint locked *)
  name : string;         (* char *name *)
  lcpu : option nat      (* struct cpu *cpu *)
}.
#[export] Instance spinlock_settable : Settable spinlock :=
  λ x, mkSpinlock (locked x) (name x) (lcpu x).

Record cpu := mkCpu {
  noff : Z;              (* depth of push_off() nesting *)
  intena : bool;         (* were interrupts enabled before push_off()? *)
  sie : bool             (* SSTATUS.SIE of this hart *)
}.
#[export] Instance cpu_settable : Settable cpu := λ x, mkCpu (noff x) (intena x) (sie x).

Record st := mkSt { lks : lock → spinlock; cpus : nat → cpu }.
#[export] Instance st_settable : Settable st := λ x, mkSt (lks x) (cpus x).

Definition set_lk (lk : lock) (f : spinlock → spinlock) (s : st) : st :=
  s <| lks := λ x, if decide (x = lk) then f (lks s lk) else lks s x |>.
Definition set_cpu (c : nat) (f : cpu → cpu) (s : st) : st :=
  s <| cpus := λ x, if decide (x = c) then f (cpus s c) else cpus s x |>.

Definition initlock (lk : lock) (nm : string) : kM st () :=
  modify (set_lk lk (λ _, mkSpinlock 0 nm None)).

(** Everything below runs on CPU [c], so [mycpu()] is [&cpus[c]]. *)

Definition intr_get (c : nat) : kM st bool := gets (λ s, sie (cpus s c)).
Definition intr_off (c : nat) : kM st () := modify (set_cpu c (λ x, x <| sie := false |>)).
Definition intr_on (c : nat) : kM st () := modify (set_cpu c (λ x, x <| sie := true |>)).

Definition push_off (c : nat) : kM st () :=
  old ← intr_get c;
  intr_off c ;;
  n ← gets (λ s, noff (cpus s c));
  when (n =? 0) (modify (set_cpu c (λ x, x <| intena := old |>))) ;;
  modify (set_cpu c (λ x, x <| noff := noff x + 1 |>)).

Definition pop_off (c : nat) : kM st () :=
  i ← intr_get c;
  if i : bool then panic "pop_off - interruptible" else
  n ← gets (λ s, noff (cpus s c));
  if n <? 1 then panic "pop_off" else
  modify (set_cpu c (λ x, x <| noff := noff x - 1 |>)) ;;
  n ← gets (λ s, noff (cpus s c));
  e ← gets (λ s, intena (cpus s c));
  when ((n =? 0) && e) (intr_on c).

(** [lk->locked && lk->cpu == mycpu()] *)
Definition holding (c : nat) (lk : lock) (s : st) : bool :=
  truth (locked (lks s lk)) && bool_decide (lcpu (lks s lk) = Some c).

(** [__sync_lock_test_and_set(&lk->locked, 1)] *)
Definition test_and_set (lk : lock) : kM st Z :=
  old ← gets (λ s, locked (lks s lk));
  modify (set_lk lk (λ x, x <| locked := 1 |>)) ;;
  mret old.

Definition acquire (c : nat) (lk : lock) : kM st () :=
  push_off c ;;
  h ← gets (holding c lk);
  if h : bool then panic "acquire" else
  while (λ _ : (), old ← test_and_set lk; mret (if truth old then inl () else inr ())) () ;;
  modify (set_lk lk (λ x, x <| lcpu := Some c |>)).

Definition release (c : nat) (lk : lock) : kM st () :=
  h ← gets (holding c lk);
  if negb h then panic "release" else
  modify (set_lk lk (λ x, x <| lcpu := None |>)) ;;
  modify (set_lk lk (λ x, x <| locked := 0 |>)) ;;
  pop_off c.

Lemma lks_set_lk_eq lk f s : lks (set_lk lk f s) lk = f (lks s lk).
Proof. simpl. by rewrite decide_True. Qed.
Lemma lks_set_lk_ne lk lk' f s : lk' ≠ lk → lks (set_lk lk f s) lk' = lks s lk'.
Proof. intros. simpl. by rewrite decide_False. Qed.
Lemma cpus_set_cpu_eq c f s : cpus (set_cpu c f s) c = f (cpus s c).
Proof. simpl. by rewrite decide_True. Qed.
Lemma cpus_set_cpu_ne c c' f s : c' ≠ c → cpus (set_cpu c f s) c' = cpus s c'.
Proof. intros. simpl. by rewrite decide_False. Qed.

(** ** Interrupt nesting *)

(** Interrupts are off whenever the nesting depth is positive. *)
Definition nesting_ok (x : cpu) : Prop := 0 <= noff x ∧ (0 < noff x → sie x = false).

Lemma push_off_spec c s :
  nesting_ok (cpus s c) →
  wp (push_off c) (λ _ s',
    lks s' = lks s ∧ (∀ c', c' ≠ c → cpus s' c' = cpus s c') ∧
    cpus s' c = mkCpu (noff (cpus s c) + 1)
      (if noff (cpus s c) =? 0 then sie (cpus s c) else intena (cpus s c)) false) s.
Proof.
  intros [Hn Hs]. unfold push_off, intr_get, intr_off. krun.
  rewrite decide_True by done. simpl.
  destruct (noff (cpus s c) =? 0); simpl;
    (split_and!; [done|intros c' Hc'; by rewrite !decide_False|by rewrite !decide_True]).
Qed.

Lemma pop_off_spec c s :
  sie (cpus s c) = false → 1 <= noff (cpus s c) →
  wp (pop_off c) (λ _ s',
    lks s' = lks s ∧ (∀ c', c' ≠ c → cpus s' c' = cpus s c') ∧
    cpus s' c = mkCpu (noff (cpus s c) - 1) (intena (cpus s c))
      ((noff (cpus s c) =? 1) && intena (cpus s c))) s.
Proof.
  intros Hs Hn. unfold pop_off, intr_get, intr_on. krun. rewrite Hs.
  destruct (Z.ltb_spec (noff (cpus s c)) 1); [lia|]. simpl. rewrite decide_True by done. simpl.
  replace (noff (cpus s c) - 1 =? 0) with (noff (cpus s c) =? 1)
    by (destruct (Z.eqb_spec (noff (cpus s c) - 1) 0), (Z.eqb_spec (noff (cpus s c)) 1); done || lia).
  destruct (_ && _) eqn:E; simpl;
    (split_and!; [done|intros c' Hc'; by rewrite !decide_False|]); rewrite !decide_True by done.
  - done.
  - destruct (cpus s c). simpl in *. by subst.
Qed.

(** [n] nested critical sections. *)
Fixpoint nested (n : nat) (c : nat) : kM st () :=
  match n with
  | O => mret ()
  | S n' => push_off c ;; nested n' c ;; pop_off c
  end.

(** Inside a critical section nested sections change nothing. *)
Lemma nested_inner n c s :
  1 <= noff (cpus s c) → sie (cpus s c) = false →
  wp (nested n c) (λ _ s', lks s' = lks s ∧ (∀ c', c' ≠ c → cpus s' c' = cpus s c') ∧
    cpus s' c = cpus s c) s.
Proof.
  revert s. induction n as [|n IH]; intros s Hn Hs; simpl; [by apply wp_ret|].
  apply wp_bind. wp_use push_off_spec; [split; [lia|done]|].
  intros _ s1 (E1 & E2 & E3). destruct (Z.eqb_spec (noff (cpus s c)) 0); [lia|].
  apply wp_bind. wp_use IH; [by rewrite E3; simpl; lia|by rewrite E3|].
  intros _ s2 (F1 & F2 & F3). wp_use pop_off_spec; [by rewrite F3, E3|rewrite F3, E3; simpl; lia|].
  intros _ s3 (G1 & G2 & G3). split_and!; [congruence| |].
  - intros c' Hc'. by rewrite G2, F2, E2.
  - rewrite G3, F3, E3. simpl. destruct (Z.eqb_spec (noff (cpus s c) + 1) 1); [lia|].
    destruct (cpus s c). simpl in *. subst. f_equal. lia.
Qed.

(** [n] nested sections restore the depth and the interrupt-enable bit they
    found, and touch no lock and no other CPU. *)
Lemma nested_restores n c s :
  nesting_ok (cpus s c) →
  wp (nested n c) (λ _ s', lks s' = lks s ∧ (∀ c', c' ≠ c → cpus s' c' = cpus s c') ∧
    noff (cpus s' c) = noff (cpus s c) ∧ sie (cpus s' c) = sie (cpus s c)) s.
Proof.
  intros Hok. destruct n as [|n]; simpl; [by apply wp_ret|].
  apply wp_bind. wp_use push_off_spec; [done|]. destruct Hok as [Hn Hs].
  intros _ s1 (E1 & E2 & E3). apply wp_bind.
  wp_use nested_inner; [rewrite E3; simpl; lia|by rewrite E3|].
  intros _ s2 (F1 & F2 & F3). wp_use pop_off_spec; [by rewrite F3, E3|rewrite F3, E3; simpl; lia|].
  intros _ s3 (G1 & G2 & G3). split_and!; [congruence| | |].
  - intros c' Hc'. by rewrite G2, F2, E2.
  - rewrite G3, F3, E3. simpl. lia.
  - rewrite G3, F3, E3. simpl. destruct (Z.eqb_spec (noff (cpus s c)) 0) as [->|]; [done|].
    destruct (Z.eqb_spec (noff (cpus s c) + 1) 1); [lia|]. rewrite Hs; [done|lia].
Qed.

(** * Interleaved CPUs *)

(** Where a CPU is in [acquire] or [release]: spinning on the swap, about to
    record itself in [lk->cpu], about to clear [lk->locked], about to call
    [pop_off], or outside of both. *)
Inductive pc : Type :=
| Run
| Spinning (lk : lock)
| Swapped (lk : lock)
| Clearing (lk : lock)
| Popping.

Record conf := mkConf { cst : st; cpc : nat → pc }.

Definition set_pc (c : nat) (p : pc) (f : nat → pc) : nat → pc :=
  λ x, if decide (x = c) then p else f x.

Inductive step : conf → conf → Prop :=
| step_begin_acquire c lk s f s' :
    f c = Run → push_off c s = Ok () s' → holding c lk s' = false →
    step (mkConf s f) (mkConf s' (set_pc c (Spinning lk) f))
| step_swap_busy c lk s f s' old :
    f c = Spinning lk → test_and_set lk s = Ok old s' → truth old = true →
    step (mkConf s f) (mkConf s' f)
| step_swap_free c lk s f s' old :
    f c = Spinning lk → test_and_set lk s = Ok old s' → truth old = false →
    step (mkConf s f) (mkConf s' (set_pc c (Swapped lk) f))
| step_record_cpu c lk s f :
    f c = Swapped lk →
    step (mkConf s f)
         (mkConf (set_lk lk (λ x, x <| lcpu := Some c |>) s) (set_pc c Run f))
| step_begin_release c lk s f :
    f c = Run → holding c lk s = true →
    step (mkConf s f)
         (mkConf (set_lk lk (λ x, x <| lcpu := None |>) s) (set_pc c (Clearing lk) f))
| step_clear c lk s f :
    f c = Clearing lk →
    step (mkConf s f)
         (mkConf (set_lk lk (λ x, x <| locked := 0 |>) s) (set_pc c Popping f))
| step_pop c s f s' :
    f c = Popping → pop_off c s = Ok () s' →
    step (mkConf s f) (mkConf s' (set_pc c Run f)).

(** All locks initialised and free, all CPUs outside critical sections. *)
Definition initial (x : conf) : Prop :=
  (∀ lk, locked (lks (cst x) lk) = 0 ∧ lcpu (lks (cst x) lk) = None) ∧
  (∀ c, cpc x c = Run ∧ noff (cpus (cst x) c) = 0).

(** CPU [c] is between the swap that took [lk] and the store that frees it. *)
Definition owns (x : conf) (c : nat) (lk : lock) : Prop :=
  lcpu (lks (cst x) lk) = Some c ∨ cpc x c = Swapped lk ∨ cpc x c = Clearing lk.

Record lock_inv (x : conf) : Prop := {
  li_word : ∀ lk, locked (lks (cst x) lk) = 0 ∨ locked (lks (cst x) lk) = 1;
  li_held : ∀ lk c, owns x c lk → locked (lks (cst x) lk) = 1;
  li_owner : ∀ lk, locked (lks (cst x) lk) = 1 → ∃ c, owns x c lk;
  li_mutex : ∀ lk c1 c2, owns x c1 lk → owns x c2 lk → c1 = c2;
  li_phase : ∀ lk c, cpc x c = Swapped lk ∨ cpc x c = Clearing lk → lcpu (lks (cst x) lk) = None
}.

Lemma lock_inv_initial x : initial x → lock_inv x.
Proof.
  intros [Hl Hc]. unfold owns. split.
  - intros lk. left. apply Hl.
  - intros lk c [H|[H|H]]; destruct (Hl lk), (Hc c); congruence.
  - intros lk H. destruct (Hl lk). congruence.
  - intros lk c1 c2 [H|[H|H]]; destruct (Hl lk), (Hc c1); congruence.
  - intros lk c [H|H]; destruct (Hc c); congruence.
Qed.

(** A step that leaves every lock's [locked] and [cpu], and in which every CPU
    keeps its phase or moves between phases that own nothing, keeps the
    invariant. *)
Lemma lock_inv_frame s f s' f' :
  lock_inv (mkConf s f) →
  (∀ lk, locked (lks s' lk) = locked (lks s lk) ∧ lcpu (lks s' lk) = lcpu (lks s lk)) →
  (∀ c, f' c = f c ∨
     ∀ lk, f c ≠ Swapped lk ∧ f c ≠ Clearing lk ∧ f' c ≠ Swapped lk ∧ f' c ≠ Clearing lk) →
  lock_inv (mkConf s' f').
Proof.
  intros [Hw Hh Ho Hm Hp] Hlk Hf.
  assert (∀ c' lk, owns (mkConf s' f') c' lk ↔ owns (mkConf s f) c' lk) as Hown.
  { intros c' lk. unfold owns; simpl. destruct (Hlk lk) as [_ ->].
    destruct (Hf c') as [->|H]; [done|]. destruct (H lk) as (? & ? & ? & ?). tauto. }
  split; simpl in *.
  - intros lk. destruct (Hlk lk) as [-> _]. apply Hw.
  - intros lk c' H%Hown. destruct (Hlk lk) as [-> _]. eauto.
  - intros lk. destruct (Hlk lk) as [-> _]. intros [c' H]%Ho. exists c'. by apply Hown.
  - intros lk c1 c2 H1%Hown H2%Hown. eauto.
  - intros lk c'. destruct (Hlk lk) as [_ ->]. destruct (Hf c') as [->|H]; [apply Hp|].
    destruct (H lk) as (? & ? & ? & ?). tauto.
Qed.

(** A step in which CPU [c] changes only lock [lk], which before and after the
    step no other CPU owns. *)
Lemma lock_inv_update s f s' c p lk :
  lock_inv (mkConf s f) →
  (∀ lk', lk' ≠ lk → lks s' lk' = lks s lk') →
  (∀ c', owns (mkConf s f) c' lk → c' = c) →
  (∀ lk', lk' ≠ lk → f c ≠ Swapped lk' ∧ f c ≠ Clearing lk' ∧ p ≠ Swapped lk' ∧ p ≠ Clearing lk') →
  (∀ c', c' ≠ c → lcpu (lks s' lk) ≠ Some c') →
  (locked (lks s' lk) = 1 ∧ (lcpu (lks s' lk) = Some c ∨ p = Swapped lk ∨ p = Clearing lk) ∨
   locked (lks s' lk) = 0 ∧ lcpu (lks s' lk) = None ∧ p ≠ Swapped lk ∧ p ≠ Clearing lk) →
  (p = Swapped lk ∨ p = Clearing lk → lcpu (lks s' lk) = None) →
  lock_inv (mkConf s' (set_pc c p f)).
Proof.
  intros [Hw Hh Ho Hm Hp] Hlks Hon Hpc Hcpu Hlk Hph. simpl in *.
  assert (∀ c' lk', lk' ≠ lk →
    owns (mkConf s' (set_pc c p f)) c' lk' ↔ owns (mkConf s f) c' lk') as Hother.
  { intros c' lk' Hne. unfold owns, set_pc; simpl. rewrite Hlks by done.
    destruct (Hpc lk' Hne) as (? & ? & ? & ?). case_decide; subst; tauto. }
  assert (∀ c', owns (mkConf s' (set_pc c p f)) c' lk → c' = c) as Hsame.
  { intros c' Hown. destruct (decide (c' = c)) as [|Hne]; [done|]. apply Hon.
    unfold owns, set_pc in *; simpl in *. rewrite decide_False in Hown by done.
    destruct Hown as [H|H]; [by apply Hcpu in H|by right]. }
  split; simpl.
  - intros lk'. destruct (decide (lk' = lk)) as [->|Hne]; [tauto|]. rewrite Hlks by done. apply Hw.
  - intros lk' c' Hown. destruct (decide (lk' = lk)) as [->|Hne].
    + pose proof (Hsame _ Hown) as ->. destruct Hlk as [[? _]|(_ & E & E1 & E2)]; [done|].
      unfold owns, set_pc in Hown; simpl in Hown. rewrite decide_True in Hown by done. naive_solver.
    + rewrite Hlks by done. apply Hh with c'. by apply Hother.
  - intros lk' H. destruct (decide (lk' = lk)) as [->|Hne].
    + exists c. unfold owns, set_pc; simpl. rewrite decide_True by done.
      destruct Hlk as [[_ ?]|[E _]]; [done|lia].
    + rewrite Hlks in H by done. destruct (Ho _ H) as [c' Hc']. exists c'. by apply Hother.
  - intros lk' c1 c2 H1 H2. destruct (decide (lk' = lk)) as [->|Hne].
    + by rewrite (Hsame _ H1), (Hsame _ H2).
    + apply (Hm lk'); by apply Hother.
  - intros lk' c'. unfold set_pc. destruct (decide (c' = c)) as [->|Hc].
    + destruct (decide (lk' = lk)) as [->|Hne]; [done|].
      destruct (Hpc lk' Hne) as (? & ? & ? & ?). tauto.
    + destruct (decide (lk' = lk)) as [->|Hne].
      * intros H. destruct Hc. apply Hon. by right.
      * rewrite Hlks by done. apply Hp.
Qed.

Lemma push_off_lks c s s' : push_off c s = Ok () s' → lks s' = lks s.
Proof.
  unfold push_off, intr_get, intr_off. krun. destruct (_ =? 0); simpl; by intros [= <-].
Qed.

Lemma pop_off_lks c s s' : pop_off c s = Ok () s' → lks s' = lks s.
Proof.
  unfold pop_off, intr_get, intr_on. krun. destruct (sie _); [done|].
  destruct (_ <? 1); [done|]. simpl. destruct (_ && _); simpl; by intros [= <-].
Qed.

Lemma test_and_set_spec lk s s' old :
  test_and_set lk s = Ok old s' →
  old = locked (lks s lk) ∧ s' = set_lk lk (λ x, x <| locked := 1 |>) s.
Proof. unfold test_and_set. krun. by intros [= <- <-]. Qed.

Lemma set_pc_frame c p f c' :
  (∀ lk, f c ≠ Swapped lk ∧ f c ≠ Clearing lk) → (∀ lk, p ≠ Swapped lk ∧ p ≠ Clearing lk) →
  set_pc c p f c' = f c' ∨ ∀ lk, f c' ≠ Swapped lk ∧ f c' ≠ Clearing lk ∧
    set_pc c p f c' ≠ Swapped lk ∧ set_pc c p f c' ≠ Clearing lk.
Proof.
  intros H1 H2. unfold set_pc. case_decide; [subst; right|by left].
  intros lk. destruct (H1 lk), (H2 lk). tauto.
Qed.

(** The cases of [lock_inv_update] that do not depend on which word changes. *)
Ltac owner_step Hinv Hf s f c lk :=
  apply (lock_inv_update s f _ c _ lk); [done|..];
  [ intros lk' ?; simpl; by rewrite decide_False
  | intros c' Hc'; first [by apply (li_mutex _ Hinv lk) | naive_solver]
  | intros lk' ?; rewrite Hf; naive_solver
  | .. ]; simpl; rewrite ?decide_True by done; simpl.

Lemma lock_inv_step x y : lock_inv x → step x y → lock_inv y.
Proof.
  intros Hinv Hstep. destruct Hstep as
    [c lk s f s' Hf Hp Hh|c lk s f s' old Hf Ht Hold|c lk s f s' old Hf Ht Hold
    |c lk s f Hf|c lk s f Hf Hh|c lk s f Hf|c s f s' Hf Hp].
  - apply (lock_inv_frame s f); [done|by rewrite (push_off_lks _ _ _ Hp)|].
    intros c'. apply set_pc_frame; [by rewrite Hf|done].
  - apply test_and_set_spec in Ht as [-> ->].
    apply (lock_inv_frame s f); [done| |by left].
    intros lk'. simpl. case_decide; [subst|done]. simpl.
    destruct (li_word _ Hinv lk) as [E|E]; simpl in E; rewrite E in *; done.
  - apply test_and_set_spec in Ht as [-> ->]. b2p.
    assert (∀ c', ¬ owns (mkConf s f) c' lk) as Hno
      by (intros c' H; apply (li_held _ Hinv) in H; simpl in *; lia).
    owner_step Hinv Hf s f c lk; [by intros c' ? H; apply (Hno c'); left|tauto|].
    intros _. destruct (lcpu (lks s lk)) as [c'|] eqn:E; [|done]. destruct (Hno c'). by left.
  - assert (owns (mkConf s f) c lk) as Hown by (right; left; done).
    owner_step Hinv Hf s f c lk; [naive_solver| |naive_solver].
    left. split; [by apply (li_held _ Hinv) in Hown|tauto].
  - assert (owns (mkConf s f) c lk) as Hown by (unfold holding in Hh; b2p; by left).
    owner_step Hinv Hf s f c lk; [done| |done].
    left. split; [by apply (li_held _ Hinv) in Hown|tauto].
  - assert (owns (mkConf s f) c lk) as Hown by (right; right; done).
    owner_step Hinv Hf s f c lk; [| |naive_solver].
    + intros c' Hc H. destruct Hc. apply (li_mutex _ Hinv lk); [by left|done].
    + right. split_and!; try done. apply (li_phase _ Hinv lk c). by right.
  - apply (lock_inv_frame s f); [done|by rewrite (pop_off_lks _ _ _ Hp)|].
    intros c'. apply set_pc_frame; [by rewrite Hf|done].
Qed.

Lemma lock_inv_reachable x y : initial x → rtc step x y → lock_inv y.
Proof.
  intros Hi%lock_inv_initial. induction 1; eauto using lock_inv_step.
Qed.

(** ** Interrupts stay off in critical sections *)

Definition in_transit (p : pc) : Z := match p with Run => 0 | _ => 1 end.

(** The depth of a CPU counts the locks that record it, and one more while it
    is inside [acquire] or [release]. *)
Definition depth_inv (x : conf) : Prop :=
  ∀ c, ∃ h : list lock, NoDup h ∧ (∀ lk, lk ∈ h ↔ lcpu (lks (cst x) lk) = Some c) ∧
    noff (cpus (cst x) c) = Z.of_nat (length h) + in_transit (cpc x c) ∧
    nesting_ok (cpus (cst x) c).

Lemma depth_inv_initial x : initial x → depth_inv x.
Proof.
  intros [Hl Hc] c. destruct (Hc c) as [E1 E2]. exists []. split_and!; [constructor| | |].
  - intros lk. destruct (Hl lk) as [_ ->]. split; [by intros ?%not_elem_of_nil|done].
  - by rewrite E1, E2.
  - unfold nesting_ok. rewrite E2. split; lia.
Qed.

Lemma push_off_step c s s' :
  nesting_ok (cpus s c) → push_off c s = Ok () s' →
  (∀ c', c' ≠ c → cpus s' c' = cpus s c') ∧ noff (cpus s' c) = noff (cpus s c) + 1 ∧
  nesting_ok (cpus s' c).
Proof.
  intros Hok Hp. pose proof (wp_det _ _ _ _ _ Hp (push_off_spec c s Hok)) as (_ & H1 & H2).
  split_and!; [done|by rewrite H2|]. destruct Hok. rewrite H2. split; simpl; [lia|done].
Qed.

Lemma pop_off_step c s s' :
  nesting_ok (cpus s c) → 1 <= noff (cpus s c) → pop_off c s = Ok () s' →
  (∀ c', c' ≠ c → cpus s' c' = cpus s c') ∧ noff (cpus s' c) = noff (cpus s c) - 1 ∧
  nesting_ok (cpus s' c).
Proof.
  intros [? Hok] ? Hp. assert (sie (cpus s c) = false) as Hs by (apply Hok; lia).
  pose proof (wp_det _ _ _ _ _ Hp (pop_off_spec c s Hs ltac:(done))) as (_ & H1 & H2).
  split_and!; [done|by rewrite H2|]. rewrite H2. split; simpl; [lia|].
  intros ?. by destruct (Z.eqb_spec (noff (cpus s c)) 1); [lia|].
Qed.

Lemma depth_inv_step x y : lock_inv x → depth_inv x → step x y → depth_inv y.
Proof.
  intros Hinv Hd Hstep c'. destruct (Hd c') as (h & Hnd & Hh & Hn & Hok).
  destruct Hstep as
    [c lk s f s' Hf Hp Hho|c lk s f s' old Hf Ht Hold|c lk s f s' old Hf Ht Hold
    |c lk s f Hf|c lk s f Hf Hho|c lk s f Hf|c s f s' Hf Hp]; simpl in *.
  - pose proof (push_off_lks _ _ _ Hp) as Hl. exists h. rewrite Hl. unfold set_pc.
    case_decide as Hc; [subst c'|].
    + destruct (push_off_step _ _ _ Hok Hp) as (_ & -> & Hok'). rewrite Hn, Hf.
      split_and!; try done. simpl. lia.
    + destruct (Hd c) as (? & _ & _ & _ & Hokc). simpl in *.
      destruct (push_off_step _ _ _ Hokc Hp) as (E & _). by rewrite E by done.
  - apply test_and_set_spec in Ht as [-> ->]. exists h. split_and!; try done.
    intros lk'. rewrite Hh. simpl. case_decide; by subst.
  - apply test_and_set_spec in Ht as [-> ->]. exists h. unfold set_pc. split_and!; try done.
    + intros lk'. rewrite Hh. simpl. case_decide; by subst.
    + simpl. case_decide; [subst|done]. by rewrite Hn, Hf.
  - assert (lcpu (lks s lk) = None) as E by (apply (li_phase _ Hinv lk c); by left).
    unfold set_pc. destruct (decide (c' = c)) as [->|Hc].
    + exists (lk :: h). split_and!; [constructor; [|done]| | |done]; simpl.
      * rewrite Hh. congruence.
      * intros lk'. rewrite elem_of_cons, Hh. case_decide; subst; simpl; naive_solver.
      * rewrite Hn, Hf. simpl. lia.
    + exists h. split_and!; try done.
      intros lk'. rewrite Hh. simpl. case_decide; subst; simpl; naive_solver.
  - assert (lcpu (lks s lk) = Some c) as E by (unfold holding in Hho; b2p; done).
    unfold set_pc. destruct (decide (c' = c)) as [->|Hc].
    + destruct (elem_of_Permutation h lk) as [[h' Hp] _]; [by apply Hh|].
      rewrite Hp in Hnd. apply NoDup_cons in Hnd as [Hni Hnd'].
      exists h'. split_and!; [done| | |done].
      * intros lk'. simpl. case_decide; [subst; simpl; naive_solver|].
        rewrite <- Hh, Hp, elem_of_cons. naive_solver.
      * rewrite Hn, Hf, (Permutation_length Hp). simpl. lia.
    + exists h. split_and!; try done.
      intros lk'. rewrite Hh. simpl. case_decide; subst; simpl; naive_solver.
  - exists h. unfold set_pc. split_and!; try done.
    + intros lk'. rewrite Hh. simpl. case_decide; by subst.
    + simpl. case_decide; [subst|done]. by rewrite Hn, Hf.
  - pose proof (pop_off_lks _ _ _ Hp) as Hl. exists h. rewrite Hl. unfold set_pc.
    case_decide as Hc; [subst c'|].
    + destruct (pop_off_step _ _ _ Hok ltac:(rewrite Hn, Hf; simpl; lia) Hp) as (_ & -> & Hok').
      rewrite Hn, Hf. split_and!; try done. simpl. lia.
    + destruct (Hd c) as (? & _ & _ & Hnc & Hokc). simpl in *.
      destruct (pop_off_step _ _ _ Hokc ltac:(rewrite Hnc, Hf; simpl; lia) Hp) as (E & _).
      by rewrite E by done.
Qed.

Lemma depth_inv_reachable x y : initial x → rtc step x y → depth_inv y.
Proof.
  intros Hi Hr. assert (lock_inv y ∧ depth_inv y) as [_ ?]; [|done].
  pose proof (depth_inv_initial _ Hi) as Hd. apply lock_inv_initial in Hi.
  induction Hr; eauto using lock_inv_step, depth_inv_step.
Qed.

(** A CPU that owns a lock runs with interrupts disabled. *)
Lemma owner_interrupts_off x c lk : depth_inv x → owns x c lk → sie (cpus (cst x) c) = false.
Proof.
  intros Hd Hown. destruct (Hd c) as (h & _ & Hh & Hn & [_ Hs]). apply Hs. rewrite Hn.
  destruct Hown as [H|H].
  - apply Hh in H. apply elem_of_Permutation in H as [h' Hperm]. rewrite (Permutation_length Hperm).
    simpl. destruct (cpc x c); simpl; lia.
  - destruct H as [-> | ->]; simpl; lia.
Qed.

End Concrete.

(** * The locks held by one CPU

    [held] lists the spinlocks the running CPU has acquired.  A component's
    state says where it keeps the list. *)

Class LockState (S : Type) := {
  held : S → list lock;
  set_held : list lock → S → S;
  held_set_held : ∀ l s, held (set_held l s) = l;
  set_held_held : ∀ s, set_held (held s) s = s;
  set_held_set_held : ∀ l l' s, set_held l (set_held l' s) = set_held l s
}.

(** [panic("acquire")] when this CPU already holds the lock, [panic("release")]
    when it does not. *)
Definition acquire {S : Type} `{!LockState S} (lk : lock) : kM S () :=
  h ← gets held;
  if bool_decide (lk ∈ h) then panic "acquire" else modify (set_held (lk :: h)).

Definition release {S : Type} `{!LockState S} (lk : lock) : kM S () :=
  h ← gets held;
  if bool_decide (lk ∈ h) then modify (set_held (filter (λ x, x ≠ lk) h)) else panic "release".

Lemma filter_ne_notin (lk : lock) (h : list lock) : lk ∉ h → filter (λ x, x ≠ lk) h = h.
Proof.
  induction h as [|x h IH]; [done|]. rewrite elem_of_cons. intros Hn.
  rewrite filter_cons_True by naive_solver. f_equal. apply IH. tauto.
Qed.

Section held.
Context {S : Type} `{!LockState S}.
Implicit Types s : S.

Lemma acquire_spec lk (Q : () → S → Prop) s :
  lk ∉ held s → Q () (set_held (lk :: held s) s) → wp (acquire lk) Q s.
Proof.
  intros Hn HQ. unfold acquire. krun. by rewrite bool_decide_eq_false_2.
Qed.

Lemma release_spec lk (Q : () → S → Prop) s h :
  held s = lk :: h → lk ∉ h → Q () (set_held h s) → wp (release lk) Q s.
Proof.
  intros Hh Hn HQ. unfold release. krun. rewrite Hh, bool_decide_eq_true_2 by constructor.
  rewrite filter_cons_False by naive_solver. by rewrite filter_ne_notin.
Qed.

Lemma release_gen lk (Q : () → S → Prop) s :
  lk ∈ held s → Q () (set_held (filter (λ x, x ≠ lk) (held s)) s) → wp (release lk) Q s.
Proof. intros Hh HQ. unfold release. krun. by rewrite bool_decide_eq_true_2. Qed.

Lemma acquire_panics lk s : lk ∈ held s → acquire lk s = Panic "acquire".
Proof. intros ?. unfold acquire. krun. by rewrite bool_decide_eq_true_2. Qed.

Lemma release_panics lk s : lk ∉ held s → release lk s = Panic "release".
Proof. intros ?. unfold release. krun. by rewrite bool_decide_eq_false_2. Qed.
End held.

#[export] Instance list_lock_state : LockState (list lock) :=
  {| held := id; set_held := λ l _, l;
     held_set_held := λ _ _, eq_refl; set_held_held := λ _, eq_refl;
     set_held_set_held := λ _ _ _, eq_refl |}.

(** ** The lock words refine the list of held locks *)
Module Refine.
Local Abbreviation acquire_held := (acquire (S := list lock)).
Local Abbreviation release_held := (release (S := list lock)).
Import Concrete.

Definition represents (c : nat) (s : st) (l : list lock) : Prop :=
  NoDup l ∧ (∀ lk, lk ∈ l ↔ holding c lk s = true) ∧
  noff (cpus s c) = Z.of_nat (length l) ∧ nesting_ok (cpus s c).

(** What a run of the code and a run of the list model have in common. *)
Definition agrees (c : nat) (r : res st ()) (r' : res (list lock) ()) : Prop :=
  match r' with
  | Ok _ l' => ∃ s', r = Ok () s' ∧ represents c s' l'
  | Panic e => r = Panic e
  | _ => False
  end.

Lemma holding_lks c lk s s' : lks s' = lks s → holding c lk s' = holding c lk s.
Proof. unfold holding. by intros ->. Qed.

(** The spin loop leaves at once when the lock word is 0. *)
Lemma spin_free lk s (Q : () → st → Prop) :
  locked (lks s lk) = 0 → Q () (set_lk lk (λ x, x <| locked := 1 |>) s) →
  wp (while (λ _ : (), old ← test_and_set lk; mret (if truth old then inl () else inr ())) ()) Q s.
Proof.
  intros H0 HQ.
  eapply (wp_while (λ _ s', s' = s) (λ _ _, 0)); [|done|lia].
  intros [] s' ->. unfold test_and_set. krun. by rewrite H0.
Qed.

Lemma acquire_refines_list c lk s l :
  represents c s l → (lk ∈ l ∨ locked (lks s lk) = 0) →
  agrees c (Concrete.acquire c lk s) (acquire_held lk l).
Proof.
  intros (Hnd & Hl & Hn & Hok) Hlk.
  assert (wp (push_off c) (λ _ s1, lks s1 = lks s ∧ noff (cpus s1 c) = noff (cpus s c) + 1 ∧
            nesting_ok (cpus s1 c)) s) as Hpush.
  { wp_use push_off_spec; [done|]. intros _ s1 (E1 & _ & E2). rewrite E2.
    destruct Hok. split_and!; [done|done|]. split; simpl; [lia|done]. }
  apply wp_returns in Hpush as ([] & s1 & Hp & E1 & E2 & E3).
  unfold Concrete.acquire. rewrite (bind_ok _ _ _ _ _ Hp). cbn.
  rewrite (bind_ok _ _ _ _ _ (eq_refl : gets (holding c lk) s1 = Ok _ s1)).
  rewrite (holding_lks c lk s s1 E1).
  destruct (decide (lk ∈ l)) as [Hin|Hin].
  - rewrite (proj1 (Hl lk) Hin). unfold agrees. by rewrite acquire_panics.
  - destruct Hlk as [?|H0]; [done|].
    destruct (holding c lk s) eqn:Hh; [by apply Hl in Hh|].
    assert (acquire_held lk l = Ok () (lk :: l)) as ->
      by (unfold Spinlock.acquire; krun; by rewrite bool_decide_eq_false_2).
    assert (wp (while (λ _ : (), old ← test_and_set lk;
                mret (if truth old then inl () else inr ())) () ;;
                modify (set_lk lk (λ x, x <| lcpu := Some c |>)))
             (λ _ s2, represents c s2 (lk :: l)) s1) as Hw.
    { apply wp_bind. apply spin_free; [by rewrite E1|]. apply wp_modify.
      unfold represents, holding. simpl. split_and!; [by constructor| |lia|done].
      intros lk'. rewrite elem_of_cons. destruct (decide (lk' = lk)) as [->|Hne].
      - rewrite ?decide_True by done. simpl. rewrite bool_decide_eq_true_2 by done. tauto.
      - rewrite ?decide_False by done. rewrite E1, Hl. unfold holding. naive_solver. }
    apply wp_returns in Hw as ([] & s2 & E & ?). exists s2. split; [exact E|done].
Qed.

Lemma release_refines_list c lk s l :
  represents c s l → agrees c (Concrete.release c lk s) (release_held lk l).
Proof.
  intros (Hnd & Hl & Hn & Hok). unfold Concrete.release.
  rewrite (bind_ok _ _ _ _ _ (eq_refl : gets (holding c lk) s = Ok _ s)).
  destruct (decide (lk ∈ l)) as [Hin|Hin].
  - rewrite (proj1 (Hl lk) Hin). simpl.
    set (s1 := set_lk lk (λ x, x <| locked := 0 |>) (set_lk lk (λ x, x <| lcpu := None |>) s)).
    destruct (elem_of_Permutation l lk) as [[l' Hp] _]; [done|].
    assert (Z.of_nat (length l) = 1 + Z.of_nat (length (filter (λ x, x ≠ lk) l))) as Hlen.
    { rewrite Hp, filter_cons_False by naive_solver. rewrite Hp in Hnd.
      apply NoDup_cons in Hnd as [Hni _]. rewrite filter_ne_notin by done. simpl. lia. }
    assert (wp (pop_off c) (λ _ s2, represents c s2 (filter (λ x, x ≠ lk) l)) s1) as Hw.
    { wp_use pop_off_spec; [apply Hok; simpl; lia|simpl; lia|].
      intros _ s2 (E1 & _ & E2). unfold represents. rewrite E2. simpl.
      split_and!; [by apply NoDup_filter| |lia|split; [simpl; lia|]].
      - intros lk'. rewrite list_elem_of_filter, Hl, (holding_lks c lk' s1 s2 E1).
        unfold holding. simpl. destruct (decide (lk' = lk)) as [->|Hne]; [simpl; naive_solver|].
        naive_solver.
      - simpl. intros ?. by destruct (Z.eqb_spec (noff (cpus s c)) 1); [lia|]. }
    assert (release_held lk l = Ok () (filter (λ x, x ≠ lk) l)) as ->
      by (unfold Spinlock.release; krun; by rewrite bool_decide_eq_true_2).
    apply wp_returns in Hw as ([] & s2 & E & ?). exists s2. split; [exact E|done].
  - destruct (holding c lk s) eqn:Hh; [by apply Hl in Hh|]. simpl.
    unfold agrees. by rewrite release_panics.
Qed.

End Refine.
