(* ===== verification/Riscv.v ===== *)
(** The RISC-V page and page-table-entry macros of [kernel/riscv.h], the
    physical memory layout of [kernel/memlayout.h], and the symbols that the
    linker script [kernel/kernel.ld] provides. *)
From S2P Require Import Prelude CString.

(** ** riscv.h *)

Definition PGSIZE : Z := 4096.
Definition PGSHIFT : Z := 12.

Definition PGROUNDUP (sz : Z) : Z := Z.land (u64 (sz + PGSIZE - 1)) (Z.lnot (PGSIZE - 1)).
Definition PGROUNDDOWN (a : Z) : Z := Z.land a (Z.lnot (PGSIZE - 1)).

Definition PTE_V : Z := Z.shiftl 1 0.
Definition PTE_R : Z := Z.shiftl 1 1.
Definition PTE_W : Z := Z.shiftl 1 2.
Definition PTE_X : Z := Z.shiftl 1 3.
Definition PTE_U : Z := Z.shiftl 1 4.
Definition PTE_C : Z := Z.shiftl 1 5.

Definition PA2PTE (pa : Z) : Z := u64 (Z.shiftl (Z.shiftr pa 12) 10).
Definition PTE2PA (pte : Z) : Z := u64 (Z.shiftl (Z.shiftr pte 10) 12).
Definition PTE_FLAGS (pte : Z) : Z := Z.land pte 0x3FF.

Definition PXMASK : Z := 0x1FF.
Definition PXSHIFT (level : Z) : Z := PGSHIFT + 9 * level.
Definition PX (level va : Z) : Z := Z.land (Z.shiftr va (PXSHIFT level)) PXMASK.

Definition MAXVA : Z := Z.shiftl 1 (9 + 9 + 9 + 12 - 1).

(** ** memlayout.h *)

Definition UART0 : Z := 0x10000000.
Definition UART0_IRQ : Z := 10.
Definition VIRTIO0 : Z := 0x10001000.
Definition VIRTIO0_IRQ : Z := 1.
Definition PLIC : Z := 0x0c000000.
Definition KERNBASE : Z := 0x80000000.
Definition PHYSTOP : Z := KERNBASE + 128 * 1024 * 1024.
Definition TRAMPOLINE : Z := MAXVA - PGSIZE.
Definition KSTACK (p : Z) : Z := TRAMPOLINE - (p + 1) * 2 * PGSIZE.
Definition TRAPFRAME : Z := TRAMPOLINE - PGSIZE.

(** ** kernel.ld

    [end] is the first address after the kernel, [etext] the end of its text,
    [trampoline] the page of [trampsec] inside the text. *)
Class KernelImage := {
  kend : Z;
  ketext : Z;
  ktrampoline : Z;
  kend_etext : KERNBASE <= ketext <= kend;
  kend_phystop : kend <= PHYSTOP;
  ketext_aligned : ketext mod PGSIZE = 0;
  ktrampoline_aligned : ktrampoline mod PGSIZE = 0;
  ktrampoline_text : KERNBASE <= ktrampoline ∧ ktrampoline + PGSIZE <= ketext
}.

(** * Pages *)

(** Arithmetic lemmas unfold only these names. *)
Ltac consts := unfold TRAMPOLINE, TRAPFRAME, KSTACK, PHYSTOP, KERNBASE, MAXVA, PGSIZE, PGSHIFT in *.

Lemma PGROUNDDOWN_div a : PGROUNDDOWN a = PGSIZE * (a / PGSIZE).
Proof.
  unfold PGROUNDDOWN. change (Z.lnot (PGSIZE - 1)) with (Z.lnot (Z.ones 12)).
  rewrite <- Z.ldiff_land, Z.ldiff_ones_r by lia.
  rewrite Z.shiftl_mul_pow2, Z.shiftr_div_pow2 by lia. change (2 ^ 12) with PGSIZE. lia.
Qed.

Lemma PGROUNDDOWN_mod a : PGROUNDDOWN a = a - a mod PGSIZE.
Proof. rewrite PGROUNDDOWN_div. pose proof (Z.div_mod a PGSIZE ltac:(done)). lia. Qed.

Lemma PGROUNDDOWN_aligned a : PGROUNDDOWN a mod PGSIZE = 0.
Proof. rewrite PGROUNDDOWN_div, Z.mul_comm. by apply Z.mod_mul. Qed.

Lemma PGROUNDDOWN_id a : a mod PGSIZE = 0 → PGROUNDDOWN a = a.
Proof. rewrite PGROUNDDOWN_mod. lia. Qed.

Lemma PGROUNDDOWN_bounds a : PGROUNDDOWN a <= a < PGROUNDDOWN a + PGSIZE.
Proof. rewrite PGROUNDDOWN_mod. pose proof (Z.mod_pos_bound a PGSIZE ltac:(done)). lia. Qed.

(** Away from the top of the address space, where [sz + PGSIZE - 1] wraps,
    [PGROUNDUP] is the next page boundary. *)
Lemma PGROUNDUP_spec sz :
  0 <= sz <= 2 ^ 64 - PGSIZE →
  sz <= PGROUNDUP sz < sz + PGSIZE ∧ PGROUNDUP sz mod PGSIZE = 0.
Proof.
  intros H. unfold PGROUNDUP. fold (PGROUNDDOWN (u64 (sz + PGSIZE - 1))).
  rewrite u64_small by (consts; lia).
  pose proof (PGROUNDDOWN_bounds (sz + PGSIZE - 1)).
  split; [consts; lia|apply PGROUNDDOWN_aligned].
Qed.

Lemma PGROUNDUP_id a : 0 <= a <= 2 ^ 64 - PGSIZE → a mod PGSIZE = 0 → PGROUNDUP a = a.
Proof.
  intros H Ha. destruct (PGROUNDUP_spec a H) as [H1 H2].
  pose proof (Z.div_mod a PGSIZE ltac:(done)).
  pose proof (Z.div_mod (PGROUNDUP a) PGSIZE ltac:(done)). consts. lia.
Qed.

Lemma aligned_lt_add a b :
  a mod PGSIZE = 0 → b mod PGSIZE = 0 → a < b → a + PGSIZE <= b.
Proof.
  intros Ha Hb. pose proof (Z.div_mod a PGSIZE ltac:(done)).
  pose proof (Z.div_mod b PGSIZE ltac:(done)). consts. lia.
Qed.

(** Two aligned pages are equal or disjoint. *)
Lemma aligned_disjoint a b :
  a mod PGSIZE = 0 → b mod PGSIZE = 0 → a ≠ b → a + PGSIZE <= b ∨ b + PGSIZE <= a.
Proof.
  intros Ha Hb Hne. destruct (Z.lt_total a b) as [H|[H|H]]; [|done|];
    [left|right]; by apply aligned_lt_add.
Qed.

Lemma page_index_inj a b :
  a mod PGSIZE = 0 → b mod PGSIZE = 0 → a / PGSIZE = b / PGSIZE → a = b.
Proof.
  intros Ha Hb. pose proof (Z.div_mod a PGSIZE ltac:(done)).
  pose proof (Z.div_mod b PGSIZE ltac:(done)). lia.
Qed.

(** * Page-table entries *)

Lemma truth_land_pow2 x n : 0 <= n → truth (Z.land x (Z.shiftl 1 n)) = Z.testbit x n.
Proof.
  intros Hn. rewrite Z.shiftl_1_l. unfold truth.
  destruct (Z.testbit x n) eqn:E; destruct (Z.eqb_spec (Z.land x (2 ^ n)) 0) as [H|H]; try done.
  - exfalso. apply (f_equal (λ z, Z.testbit z n)) in H.
    rewrite Z.land_spec, Z.pow2_bits_true, E, Z.bits_0 in H by done. done.
  - exfalso. apply H. apply Z.bits_inj'. intros i Hi.
    rewrite Z.land_spec, Z.bits_0, Z.pow2_bits_eqb by done.
    destruct (Z.eqb_spec n i) as [<-|]; [by rewrite E|by rewrite andb_false_r].
Qed.

Lemma flag_bit n i : 0 <= n → 0 <= i → Z.testbit (Z.shiftl 1 n) i = (n =? i).
Proof. intros Hn Hi. rewrite Z.shiftl_1_l. by apply Z.pow2_bits_eqb. Qed.

Ltac flagbits := unfold PTE_V, PTE_R, PTE_W, PTE_X, PTE_U, PTE_C;
  rewrite ?Z.lor_spec, ?Z.land_spec, ?Z.lnot_spec, ?flag_bit by lia.

Lemma bits_bound x n : 0 <= n → (∀ i, n <= i → Z.testbit x i = false) → 0 <= x < 2 ^ n.
Proof.
  intros Hn H. assert (x mod 2 ^ n = x) as <-; [|apply Z.mod_pos_bound; lia].
  apply Z.bits_inj'. intros i Hi. destruct (Z.ltb_spec i n).
  - by apply Z.mod_pow2_bits_low.
  - rewrite Z.mod_pow2_bits_high by lia. by rewrite H.
Qed.

Lemma bits_above x n i : 0 <= x < 2 ^ n → n <= i → Z.testbit x i = false.
Proof.
  intros Hx Hi. rewrite <- (Z.mod_small x (2 ^ n)) by done. apply Z.mod_pow2_bits_high.
  destruct (Z.leb_spec 0 n); [lia|]. rewrite Z.pow_neg_r in Hx by done. lia.
Qed.

Lemma lor_add_pow2 a b n :
  0 <= n → a mod 2 ^ n = 0 → 0 <= b < 2 ^ n → Z.lor a b = a + b.
Proof.
  intros Hn Ha Hb. assert (Z.land a b = 0) as Hl.
  { apply Z.bits_inj'. intros i Hi. rewrite Z.land_spec, Z.bits_0.
    destruct (Z.ltb_spec i n).
    - rewrite <- (Z.mod_pow2_bits_low a n i) by lia. by rewrite Ha, Z.bits_0.
    - rewrite <- (Z.mod_small b (2 ^ n)) by done. rewrite Z.mod_pow2_bits_high by lia.
      apply andb_false_r. }
  by rewrite Z.add_nocarry_lxor, Z.lxor_lor.
Qed.

Lemma PA2PTE_val pa : 0 <= pa < 2 ^ 64 → PA2PTE pa = 1024 * (pa / PGSIZE).
Proof.
  intros H. unfold PA2PTE. rewrite Z.shiftl_mul_pow2, Z.shiftr_div_pow2 by lia.
  change (2 ^ 12) with PGSIZE. rewrite u64_small; [lia|].
  assert (0 <= pa / PGSIZE < 2 ^ 52); [|lia].
  split; [apply Z.div_pos; [lia|done]|]. apply Z.div_lt_upper_bound; [done|consts; lia].
Qed.

Lemma PTE2PA_val pte : 0 <= pte < 2 ^ 62 → PTE2PA pte = PGSIZE * (pte / 1024).
Proof.
  intros H. unfold PTE2PA. rewrite Z.shiftl_mul_pow2, Z.shiftr_div_pow2 by lia.
  change (2 ^ 12) with PGSIZE. change (2 ^ 10) with 1024. rewrite u64_small; [lia|].
  assert (0 <= pte / 1024 < 2 ^ 52); [|consts; lia].
  split; [apply Z.div_pos; lia|]. apply Z.div_lt_upper_bound; lia.
Qed.

Lemma PTE_FLAGS_mod pte : PTE_FLAGS pte = pte mod 1024.
Proof. unfold PTE_FLAGS. change 0x3FF with (Z.ones 10). by rewrite Z.land_ones. Qed.

Lemma PTE_FLAGS_range pte : 0 <= PTE_FLAGS pte < 1024.
Proof. rewrite PTE_FLAGS_mod. apply Z.mod_pos_bound. lia. Qed.

(** A page-table entry made of an aligned physical address and flags. *)
Lemma pte_make pa fl :
  0 <= pa < 2 ^ 56 → 0 <= fl < 1024 → Z.lor (PA2PTE pa) fl = 1024 * (pa / PGSIZE) + fl.
Proof.
  intros Hp Hf. rewrite PA2PTE_val by lia. apply (lor_add_pow2 _ _ 10); [lia| |done].
  rewrite Z.mul_comm. by apply Z.mod_mul.
Qed.

Lemma pte_make_range pa fl :
  0 <= pa < 2 ^ 56 → 0 <= fl < 1024 → 0 <= Z.lor (PA2PTE pa) fl < 2 ^ 54.
Proof.
  intros Hp Hf. rewrite pte_make by done.
  assert (0 <= pa / PGSIZE < 2 ^ 44); [|lia].
  split; [apply Z.div_pos; [lia|done]|]. apply Z.div_lt_upper_bound; [done|consts; lia].
Qed.

Lemma PTE2PA_make pa fl :
  0 <= pa < 2 ^ 56 → pa mod PGSIZE = 0 → 0 <= fl < 1024 → PTE2PA (Z.lor (PA2PTE pa) fl) = pa.
Proof.
  intros Hp Ha Hf. pose proof (pte_make_range pa fl Hp Hf). rewrite PTE2PA_val by lia.
  rewrite pte_make by done. rewrite (Z.mul_comm 1024), Z.div_add_l by lia.
  rewrite (Z.div_small fl 1024) by lia. pose proof (Z.div_mod pa PGSIZE ltac:(done)). lia.
Qed.

Lemma PTE_FLAGS_make pa fl :
  0 <= pa < 2 ^ 56 → 0 <= fl < 1024 → PTE_FLAGS (Z.lor (PA2PTE pa) fl) = fl.
Proof.
  intros Hp Hf. rewrite pte_make, PTE_FLAGS_mod by done.
  rewrite Z.mul_comm, Z.add_comm, Z.mod_add by lia. by apply Z.mod_small.
Qed.

Lemma testbit_PTE_FLAGS pte n : 0 <= n < 10 → Z.testbit (PTE_FLAGS pte) n = Z.testbit pte n.
Proof. intros. rewrite PTE_FLAGS_mod. change 1024 with (2 ^ 10). apply Z.mod_pow2_bits_low. lia. Qed.

(** Testing a flag of an entry, and of an entry made of an address and flags. *)
Lemma truth_flag pte n : 0 <= n < 10 →
  truth (Z.land pte (Z.shiftl 1 n)) = Z.testbit (PTE_FLAGS pte) n.
Proof. intros. rewrite truth_land_pow2 by lia. by rewrite testbit_PTE_FLAGS. Qed.

Lemma truth_flag_make pa fl n : 0 <= pa < 2 ^ 56 → 0 <= fl < 1024 → 0 <= n < 10 →
  truth (Z.land (Z.lor (PA2PTE pa) fl) (Z.shiftl 1 n)) = Z.testbit fl n.
Proof. intros. by rewrite truth_flag, PTE_FLAGS_make. Qed.

Lemma PTE2PA_aligned pte : 0 <= pte < 2 ^ 62 → PTE2PA pte mod PGSIZE = 0.
Proof. intros. rewrite PTE2PA_val, Z.mul_comm by done. by apply Z.mod_mul. Qed.

(** * Virtual addresses *)

Lemma PX_range level va : 0 <= PX level va < 512.
Proof.
  unfold PX, PXMASK. change 0x1FF with (Z.ones 9). rewrite Z.land_ones by lia.
  apply Z.mod_pos_bound. lia.
Qed.

Lemma PX_val level va :
  0 <= level → PX level va = (va / 2 ^ (12 + 9 * level)) mod 512.
Proof.
  intros. unfold PX, PXMASK, PXSHIFT, PGSHIFT. change 0x1FF with (Z.ones 9).
  by rewrite Z.land_ones, Z.shiftr_div_pow2 by lia.
Qed.

(** Below [MAXVA] the three indices and the page number determine each other. *)
Lemma PX_inj va1 va2 :
  0 <= va1 < MAXVA → 0 <= va2 < MAXVA →
  PX 2 va1 = PX 2 va2 → PX 1 va1 = PX 1 va2 → PX 0 va1 = PX 0 va2 →
  va1 / PGSIZE = va2 / PGSIZE.
Proof.
  intros H1 H2. rewrite !PX_val by lia. change (2 ^ (12 + 9 * 0)) with PGSIZE.
  change (2 ^ (12 + 9 * 1)) with (PGSIZE * 512). change (2 ^ (12 + 9 * 2)) with (PGSIZE * (512 * 512)).
  change MAXVA with (PGSIZE * (512 * (512 * 256))) in *.
  assert (∀ va, 0 <= va < PGSIZE * (512 * (512 * 256)) →
    va / PGSIZE = (va / PGSIZE) mod 512 + 512 * ((va / (PGSIZE * 512)) mod 512)
      + 512 * 512 * ((va / (PGSIZE * (512 * 512))) mod 512)) as H.
  { intros va Hva. rewrite <- !Z.div_div by done.
    set (q := va / PGSIZE). assert (0 <= q < 512 * (512 * 256)).
    { split; [apply Z.div_pos; [lia|done]|]. apply Z.div_lt_upper_bound; [done|lia]. }
    pose proof (Z.div_mod q 512 ltac:(done)). pose proof (Z.div_mod (q / 512) 512 ltac:(done)).
    rewrite (Z.mod_small (q / 512 / 512)); [lia|].
    split; [by repeat apply Z.div_pos; try lia|]. repeat apply Z.div_lt_upper_bound; lia. }
  intros E2 E1 E0. rewrite (H va1 H1), (H va2 H2), E0, E1, E2. done.
Qed.
