(* ===== verification/Asm.v ===== *)
(** The assembly files: [kernel/trampoline.S], [kernel/kernelvec.S],
    [kernel/swtch.S], [kernel/entry.S], and [kernel/start.c], which runs in
    machine mode.

    A routine is the list of its instructions, in the order of the file.  The
    machine executes a list from its first instruction to the first one that
    leaves it; instructions are not fetched from memory.  Address translation is
    that of the Sv39 page tables in memory; there is no TLB, so that
    [sfence.vma] does nothing. *)
From S2P Require Import Prelude CString Riscv.

Module Hart.

Inductive reg :=
  | zero | ra | sp | gp | tp | t0 | t1 | t2 | s0 | s1
  | a0 | a1 | a2 | a3 | a4 | a5 | a6 | a7
  | s2 | s3 | s4 | s5 | s6 | s7 | s8 | s9 | s10 | s11 | t3 | t4 | t5 | t6.

#[global] Instance reg_eq_dec : EqDecision reg.
Proof. solve_decision. Defined.

Inductive csr :=
  | sscratch | satp | sie | sip | mscratch | mstatus | mepc | mtvec | mie
  | medeleg | mideleg | mhartid | pmpaddr0 | pmpcfg0.

#[global] Instance csr_eq_dec : EqDecision csr.
Proof. solve_decision. Defined.

Inductive insn :=
  | SD (rs : reg) (off : Z) (base : reg)
  | LD (rd : reg) (off : Z) (base : reg)
  | LI (rd : reg) (imm : Z)
  | LA (rd : reg) (addr : Z)
  | ADDI (rd rs : reg) (imm : Z)
  | ADD (rd rs1 rs2 : reg)
  | MUL (rd rs1 rs2 : reg)
  | CSRR (rd : reg) (c : csr)
  | CSRW (c : csr) (rs : reg)
  | CSRRW (rd : reg) (c : csr) (rs : reg)
  | SFENCE_VMA
  | CALL (f : Z)
  | J_SELF
  | JR (rs : reg)
  | RET
  | SRET
  | MRET.

(** How a routine is left. *)
Inductive outcome := Jump (pc : Z) | Spin | Sret | Mret.

Inductive priv := Supervisor | Machine.

(** [h_mode] is the privilege mode of the hart. *)
Record hart := mkHart {
  h_mode : priv;
  h_reg : reg → Z;
  h_csr : csr → Z;
  h_mem : mem
}.
#[global] Instance hart_settable : Settable hart := λ h, mkHart (h_mode h) (h_reg h) (h_csr h) (h_mem h).

Definition rd (h : hart) (r : reg) : Z := if decide (r = zero) then 0 else h_reg h r.
Definition wr (r : reg) (v : Z) (h : hart) : hart :=
  h <| h_reg := λ r', if decide (r' = r) then v else h_reg h r' |>.
Definition wr_csr (c : csr) (v : Z) (h : hart) : hart :=
  h <| h_csr := λ c', if decide (c' = c) then v else h_csr h c' |>.

(** ** Address translation *)

Definition pte_leaf (pte : Z) : bool := truth (Z.land pte PTE_R) || truth (Z.land pte PTE_X).

(** The entry that translates [va] and its level. *)
Fixpoint sv39_walk (m : mem) (level : nat) (t va : Z) : option (Z * nat) :=
  let pte := ld64 m (t + 8 * PX (Z.of_nat level) va) in
  if negb (truth (Z.land pte PTE_V)) || (negb (truth (Z.land pte PTE_R)) && truth (Z.land pte PTE_W)) then None
  else if pte_leaf pte then Some (pte, level)
  else match level with
       | O => None
       | S level => sv39_walk m level (PTE2PA pte) va
       end.

(** An access of supervisor mode, to read or (if [w]) to write: the page must
    not be a user page. *)
Definition sv39 (m : mem) (root va : Z) (w : bool) : option Z :=
  if negb ((va <? 2 ^ 38) || (2 ^ 64 - 2 ^ 38 <=? va)) then None else
  match sv39_walk m 2 root va with
  | Some (pte, level) =>
      let size := 2 ^ (PGSHIFT + 9 * Z.of_nat level) in
      if truth (Z.land pte PTE_U) || negb (truth (Z.land pte (if w then PTE_W else PTE_R))) then None
      else if negb (PTE2PA pte mod size =? 0) then None
      else Some (PTE2PA pte + va mod size)
  | None => None
  end.

Definition translate (mode : priv) (satp_ : Z) (m : mem) (va : Z) (w : bool) : option Z :=
  match mode with
  | Machine => Some va
  | Supervisor =>
      if Z.shiftr satp_ 60 =? 0 then Some va
      else if Z.shiftr satp_ 60 =? 8 then sv39 m (Z.shiftl (Z.land satp_ (Z.ones 44)) PGSHIFT) va w
      else None
  end.

(** The physical address of an aligned double word. *)
Definition access (h : hart) (va : Z) (w : bool) : option Z :=
  if va mod 8 =? 0 then translate (h_mode h) (h_csr h satp) (h_mem h) va w else None.

(** ** Execution *)

Section exec.
(** The C functions that are called: the state of the hart when they return. *)
Context (callee : Z → hart → option hart).
(** The address after a [call]. *)
Context (link : Z).

(** [None] is an exception. *)
Definition step (i : insn) (h : hart) : option (hart * option outcome) :=
  match i with
  | SD rs off base =>
      pa ← access h (u64 (rd h base + off)) true;
      Some (h <| h_mem := st64 (h_mem h) pa (rd h rs) |>, None)
  | LD r off base =>
      pa ← access h (u64 (rd h base + off)) false;
      Some (wr r (ld64 (h_mem h) pa) h, None)
  | LI r imm => Some (wr r (u64 imm) h, None)
  | LA r addr => Some (wr r addr h, None)
  | ADDI r rs imm => Some (wr r (u64 (rd h rs + imm)) h, None)
  | ADD r rs1 rs2 => Some (wr r (u64 (rd h rs1 + rd h rs2)) h, None)
  | MUL r rs1 rs2 => Some (wr r (u64 (rd h rs1 * rd h rs2)) h, None)
  | CSRR r c => Some (wr r (h_csr h c) h, None)
  | CSRW c rs => Some (wr_csr c (rd h rs) h, None)
  | CSRRW r c rs => Some (wr r (h_csr h c) (wr_csr c (rd h rs) h), None)
  | SFENCE_VMA => Some (h, None)
  | CALL f => h' ← callee f (wr ra link h); Some (h', None)
  | J_SELF => Some (h, Some Spin)
  | JR rs => Some (h, Some (Jump (rd h rs)))
  | RET => Some (h, Some (Jump (rd h ra)))
  | SRET => Some (h, Some Sret)
  | MRET => Some (h, Some Mret)
  end.

Fixpoint execute (l : list insn) (h : hart) : option (hart * outcome) :=
  match l with
  | [] => None
  | i :: l => '(h, e) ← step i h; if e is Some e then Some (h, e) else execute l h
  end.
End exec.

(** ** trampoline.S *)

Definition uservec : list insn := [
  CSRW sscratch a0;
  LI a0 TRAPFRAME;
  SD ra 40 a0;
  SD sp 48 a0;
  SD gp 56 a0;
  SD tp 64 a0;
  SD t0 72 a0;
  SD t1 80 a0;
  SD t2 88 a0;
  SD s0 96 a0;
  SD s1 104 a0;
  SD a1 120 a0;
  SD a2 128 a0;
  SD a3 136 a0;
  SD a4 144 a0;
  SD a5 152 a0;
  SD a6 160 a0;
  SD a7 168 a0;
  SD s2 176 a0;
  SD s3 184 a0;
  SD s4 192 a0;
  SD s5 200 a0;
  SD s6 208 a0;
  SD s7 216 a0;
  SD s8 224 a0;
  SD s9 232 a0;
  SD s10 240 a0;
  SD s11 248 a0;
  SD t3 256 a0;
  SD t4 264 a0;
  SD t5 272 a0;
  SD t6 280 a0;
  CSRR t0 sscratch;
  SD t0 112 a0;
  LD sp 8 a0;
  LD tp 32 a0;
  LD t0 16 a0;
  LD t1 0 a0;
  SFENCE_VMA;
  CSRW satp t1;
  SFENCE_VMA;
  JR t0 ].

Definition userret : list insn := [
  SFENCE_VMA;
  CSRW satp a0;
  SFENCE_VMA;
  LI a0 TRAPFRAME;
  LD ra 40 a0;
  LD sp 48 a0;
  LD gp 56 a0;
  LD tp 64 a0;
  LD t0 72 a0;
  LD t1 80 a0;
  LD t2 88 a0;
  LD s0 96 a0;
  LD s1 104 a0;
  LD a1 120 a0;
  LD a2 128 a0;
  LD a3 136 a0;
  LD a4 144 a0;
  LD a5 152 a0;
  LD a6 160 a0;
  LD a7 168 a0;
  LD s2 176 a0;
  LD s3 184 a0;
  LD s4 192 a0;
  LD s5 200 a0;
  LD s6 208 a0;
  LD s7 216 a0;
  LD s8 224 a0;
  LD s9 232 a0;
  LD s10 240 a0;
  LD s11 248 a0;
  LD t3 256 a0;
  LD t4 264 a0;
  LD t5 272 a0;
  LD t6 280 a0;
  LD a0 112 a0;
  SRET ].

(** ** swtch.S *)

Definition swtch : list insn := [
  SD ra 0 a0;
  SD sp 8 a0;
  SD s0 16 a0;
  SD s1 24 a0;
  SD s2 32 a0;
  SD s3 40 a0;
  SD s4 48 a0;
  SD s5 56 a0;
  SD s6 64 a0;
  SD s7 72 a0;
  SD s8 80 a0;
  SD s9 88 a0;
  SD s10 96 a0;
  SD s11 104 a0;
  LD ra 0 a1;
  LD sp 8 a1;
  LD s0 16 a1;
  LD s1 24 a1;
  LD s2 32 a1;
  LD s3 40 a1;
  LD s4 48 a1;
  LD s5 56 a1;
  LD s6 64 a1;
  LD s7 72 a1;
  LD s8 80 a1;
  LD s9 88 a1;
  LD s10 96 a1;
  LD s11 104 a1;
  RET ].

(** ** kernelvec.S *)

(** [kerneltrap] is the address of the C function. *)
Definition kernelvec (kerneltrap : Z) : list insn := [
  ADDI sp sp (-256);
  SD ra 0 sp;
  SD sp 8 sp;
  SD gp 16 sp;
  SD tp 24 sp;
  SD t0 32 sp;
  SD t1 40 sp;
  SD t2 48 sp;
  SD s0 56 sp;
  SD s1 64 sp;
  SD a0 72 sp;
  SD a1 80 sp;
  SD a2 88 sp;
  SD a3 96 sp;
  SD a4 104 sp;
  SD a5 112 sp;
  SD a6 120 sp;
  SD a7 128 sp;
  SD s2 136 sp;
  SD s3 144 sp;
  SD s4 152 sp;
  SD s5 160 sp;
  SD s6 168 sp;
  SD s7 176 sp;
  SD s8 184 sp;
  SD s9 192 sp;
  SD s10 200 sp;
  SD s11 208 sp;
  SD t3 216 sp;
  SD t4 224 sp;
  SD t5 232 sp;
  SD t6 240 sp;
  CALL kerneltrap;
  LD ra 0 sp;
  LD sp 8 sp;
  LD gp 16 sp;
  LD t0 32 sp;
  LD t1 40 sp;
  LD t2 48 sp;
  LD s0 56 sp;
  LD s1 64 sp;
  LD a0 72 sp;
  LD a1 80 sp;
  LD a2 88 sp;
  LD a3 96 sp;
  LD a4 104 sp;
  LD a5 112 sp;
  LD a6 120 sp;
  LD a7 128 sp;
  LD s2 136 sp;
  LD s3 144 sp;
  LD s4 152 sp;
  LD s5 160 sp;
  LD s6 168 sp;
  LD s7 176 sp;
  LD s8 184 sp;
  LD s9 192 sp;
  LD s10 200 sp;
  LD s11 208 sp;
  LD t3 216 sp;
  LD t4 224 sp;
  LD t5 232 sp;
  LD t6 240 sp;
  ADDI sp sp 256;
  SRET ].

Definition timervec : list insn := [
  CSRRW a0 mscratch a0;
  SD a1 0 a0;
  SD a2 8 a0;
  SD a3 16 a0;
  LD a1 24 a0;
  LD a2 32 a0;
  LD a3 0 a1;
  ADD a3 a3 a2;
  SD a3 0 a1;
  LI a1 2;
  CSRW sip a1;
  LD a3 16 a0;
  LD a2 8 a0;
  LD a1 0 a0;
  CSRRW a0 mscratch a0;
  MRET ].

(** ** entry.S *)

(** [stack0] and [start] are addresses; [j spin] jumps to itself. *)
Definition entry (stack0 start : Z) : list insn := [
  LA sp stack0;
  LI a0 (1024 * 4);
  CSRR a1 mhartid;
  ADDI a1 a1 1;
  MUL a0 a0 a1;
  ADD sp sp a0;
  CALL start;
  J_SELF ].

(** ** riscv.h: registers of machine mode *)

Abbreviation HM := (kM hart).

Definition MSTATUS_MPP_MASK : Z := Z.shiftl 3 11.
Definition MSTATUS_MPP_S : Z := Z.shiftl 1 11.
Definition MSTATUS_MIE : Z := Z.shiftl 1 3.
Definition MIE_MTIE : Z := Z.shiftl 1 7.
Definition SIE_SEIE : Z := Z.shiftl 1 9.
Definition SIE_STIE : Z := Z.shiftl 1 5.
Definition SIE_SSIE : Z := Z.shiftl 1 1.

Definition csrr (c : csr) : HM Z := gets (λ h, h_csr h c).
Definition csrw (c : csr) (v : Z) : HM () := modify (wr_csr c v).

Definition r_mhartid : HM Z := csrr mhartid.
Definition r_mstatus : HM Z := csrr mstatus.
Definition w_mstatus (x : Z) : HM () := csrw mstatus x.
Definition w_mepc (x : Z) : HM () := csrw mepc x.
Definition r_sie : HM Z := csrr sie.
Definition w_sie (x : Z) : HM () := csrw sie x.
Definition r_mie : HM Z := csrr mie.
Definition w_mie (x : Z) : HM () := csrw mie x.
Definition w_medeleg (x : Z) : HM () := csrw medeleg x.
Definition w_mideleg (x : Z) : HM () := csrw mideleg x.
Definition w_mtvec (x : Z) : HM () := csrw mtvec x.
Definition w_pmpcfg0 (x : Z) : HM () := csrw pmpcfg0 x.
Definition w_pmpaddr0 (x : Z) : HM () := csrw pmpaddr0 x.
Definition w_satp (x : Z) : HM () := csrw satp x.
Definition w_mscratch (x : Z) : HM () := csrw mscratch x.
Definition w_tp (x : Z) : HM () := modify (wr tp x).

(** ** memlayout.h *)

Definition CLINT : Z := 0x2000000.
Definition CLINT_MTIMECMP (hartid : Z) : Z := CLINT + 0x4000 + 8 * hartid.
Definition CLINT_MTIME : Z := CLINT + 0xBFF8.

(** ** start.c *)

Section start.
(** Addresses of [timer_scratch], [timervec] and [main]. *)
Context (timer_scratch timervec_pc main_pc : Z).

(** Physical memory, and the registers of the CLINT in it. *)
Definition load64 (a : Z) : HM Z := gets (λ h, ld64 (h_mem h) a).
Definition store64 (a v : Z) : HM () := modify (λ h, h <| h_mem := st64 (h_mem h) a v |>).

Definition timerinit : HM () :=
  id ← r_mhartid;
  let id := i32 id in
  let interval := 1000000 in
  mtime ← load64 CLINT_MTIME;
  store64 (CLINT_MTIMECMP id) (u64 (mtime + interval)) ;;
  let scratch := timer_scratch + 40 * id in
  store64 (scratch + 8 * 3) (CLINT_MTIMECMP id) ;;
  store64 (scratch + 8 * 4) interval ;;
  w_mscratch scratch ;;
  w_mtvec timervec_pc ;;
  x ← r_mstatus;
  w_mstatus (Z.lor x MSTATUS_MIE) ;;
  x ← r_mie;
  w_mie (Z.lor x MIE_MTIE).

(** The [mret] at the end: the mode it continues in and the address. *)
Definition mret_to (h : hart) : option priv * Z :=
  (match Z.shiftr (Z.land (h_csr h mstatus) MSTATUS_MPP_MASK) 11 with
   | 1 => Some Supervisor
   | 3 => Some Machine
   | _ => None
   end, h_csr h mepc).

Definition start : HM (option priv * Z) :=
  x ← r_mstatus;
  let x := Z.land x (Z.lnot MSTATUS_MPP_MASK) in
  let x := Z.lor x MSTATUS_MPP_S in
  w_mstatus x ;;
  w_mepc main_pc ;;
  w_satp 0 ;;
  w_medeleg 0xffff ;;
  w_mideleg 0xffff ;;
  s ← r_sie;
  w_sie (Z.lor (Z.lor (Z.lor s SIE_SEIE) SIE_STIE) SIE_SSIE) ;;
  w_pmpaddr0 0x3fffffffffffff ;;
  w_pmpcfg0 0xf ;;
  timerinit ;;
  id ← r_mhartid;
  w_tp (u64 (i32 id)) ;;
  gets mret_to.
End start.

End Hart.
