(* ===== verification/Kalloc.v ===== *)
(** The physical page allocator with its copy-on-write reference counts:
    [kernel/kalloc.c].

    The free list is threaded through the free pages themselves: [kmem.freelist]
    is the address of the first one and the first word of each is the address
    of the next. *)
From S2P Require Import Prelude CString Spinlock Riscv.

(** The memory of the machine and the allocator's globals. *)
Record mach := mkMach {
  m_mem : mem;                 (* physical memory *)
  m_freelist : Z;              (* kmem.freelist *)
  m_pgrc : Z → Z;              (* int pgrc[PGROUNDUP(PHYSTOP) / PGSIZE] *)
  m_held : list lock           (* the spinlocks this CPU holds *)
}.
#[export] Instance mach_settable : Settable mach :=
  λ x, mkMach (m_mem x) (m_freelist x) (m_pgrc x) (m_held x).

#[export] Instance mach_locks : LockState mach.
Proof.
  refine {| held := m_held; set_held := λ l s, s <| m_held := l |> |}; by intros; destruct s.
Defined.

(** ** Memory accesses of the kernel

    The kernel page table maps RAM from [KERNBASE] to [PHYSTOP]; an access
    elsewhere, through a null pointer for instance, faults. *)
Definition in_ram (a n : Z) : bool := (KERNBASE <=? a) && (a + n <=? PHYSTOP).

Definition kload64 (a : Z) : kM mach Z :=
  if in_ram a 8 then gets (λ s, ld64 (m_mem s) a) else fault.
Definition kstore64 (a v : Z) : kM mach () :=
  if in_ram a 8 then modify (λ s, s <| m_mem := st64 (m_mem s) a v |>) else fault.
Definition kload8 (a : Z) : kM mach Z :=
  if in_ram a 1 then gets (λ s, rd8 (m_mem s) a) else fault.
Definition kstore8 (a v : Z) : kM mach () :=
  if in_ram a 1 then modify (λ s, s <| m_mem := wr8 (m_mem s) a v |>) else fault.
Definition kload32 (a : Z) : kM mach Z :=
  if in_ram a 4 then gets (λ s, ld32 (m_mem s) a) else fault.
Definition kstore32 (a v : Z) : kM mach () :=
  if in_ram a 4 then modify (λ s, s <| m_mem := st32 (m_mem s) a v |>) else fault.
Definition kmemset (dst c n : Z) : kM mach () :=
  if in_ram dst n then modify (λ s, s <| m_mem := KString.memset (m_mem s) dst c n |>) else fault.
Definition kmemmove (dst src n : Z) : kM mach () :=
  if in_ram dst n && in_ram src n
  then modify (λ s, s <| m_mem := KString.memmove (m_mem s) dst src n |>) else fault.

(** [initlock]: the lock is free afterwards. *)
Definition initlock (lk : lock) : kM mach () :=
  modify (λ s, s <| m_held := filter (λ x, x ≠ lk) (m_held s) |>).

Section kalloc.
Context `{KI : !KernelImage}.

Definition pgindex (pa : Z) : Z := PGROUNDDOWN pa / PGSIZE.

Definition set_pgrc (i v : Z) : kM mach () :=
  modify (λ s, s <| m_pgrc := upd (m_pgrc s) i v |>).

Definition incpgrc (pa : Z) : kM mach () :=
  let index := pgindex pa in
  acquire (RcLock index) ;;
  c ← gets (λ s, m_pgrc s index);
  if c <? 0 then panic "negative ref count in incpgrc" else
  set_pgrc index (c + 1) ;;
  release (RcLock index).

Definition decpgrc (index : Z) : kM mach () :=
  c ← gets (λ s, m_pgrc s index);
  if c <=? 0 then panic "negative ref count in decpgrc" else
  set_pgrc index (c - 1).

Definition kfree (pa : Z) : kM mach () :=
  if negb (pa mod PGSIZE =? 0) || (pa <? kend) || (PHYSTOP <=? pa) then panic "kfree" else
  let index := pgindex pa in
  acquire (RcLock index) ;;
  decpgrc index ;;
  c ← gets (λ s, m_pgrc s index);
  when (c =? 0) (
    kmemset pa 1 PGSIZE ;;
    acquire KmemLock ;;
    head ← gets m_freelist;
    kstore64 pa head ;;                                  (* r->next = kmem.freelist *)
    modify (λ s, s <| m_freelist := pa |>) ;;
    release KmemLock) ;;
  release (RcLock index).

Definition kalloc : kM mach Z :=
  acquire KmemLock ;;
  r ← gets m_freelist;
  when (truth r) (
    next ← kload64 r;
    modify (λ s, s <| m_freelist := next |>)) ;;
  release KmemLock ;;
  when (truth r) (
    kmemset r 5 PGSIZE ;;
    incpgrc r) ;;
  mret r.

Definition freerange (pa_start pa_end : Z) : kM mach () :=
  while (λ p,
    if p + PGSIZE <=? pa_end then incpgrc p ;; kfree p ;; mret (inl (p + PGSIZE))
    else mret (inr ())) (PGROUNDUP pa_start).

Definition kinit : kM mach () :=
  initlock KmemLock ;;
  modify (λ s, s <| m_freelist := 0 |>) ;;
  for_range 0 (PHYSTOP / PGSIZE) (λ i, initlock (RcLock i)) ;;
  freerange kend PHYSTOP.

(** * Invariant *)

(** A page the allocator manages. *)
Definition page_ok (p : Z) : Prop := p mod PGSIZE = 0 ∧ kend <= p < PHYSTOP.

(** The free list that starts at [head] visits the pages [l]. *)
Fixpoint chain (m : mem) (head : Z) (l : list Z) : Prop :=
  match l with
  | [] => head = 0
  | p :: l' => head = p ∧ chain m (ld64 m p) l'
  end.

(** The free pages [l] are exactly the managed pages with reference count 0. *)
Record kmem_inv (s : mach) (l : list Z) : Prop := {
  ki_chain : chain (m_mem s) (m_freelist s) l;
  ki_nodup : NoDup l;
  ki_page : ∀ p, p ∈ l → page_ok p;
  ki_free : ∀ p, page_ok p → p ∈ l ↔ m_pgrc s (p / PGSIZE) = 0;
  ki_pos : ∀ p, page_ok p → 0 <= m_pgrc s (p / PGSIZE)
}.

(** The allocator's own locks are not held by this CPU. *)
Definition alloc_unlocked (s : mach) : Prop :=
  (KmemLock ∉ m_held s) ∧ ∀ i, RcLock i ∉ m_held s.

Definition in_page (p x : Z) : Prop := p <= x < p + PGSIZE.

(** * Lemmas *)

Lemma page_ok_ram p : page_ok p → in_ram p PGSIZE = true.
Proof.
  intros [Ha Hp]. unfold in_ram. pose proof kend_etext.
  assert (p + PGSIZE <= PHYSTOP) by (apply aligned_lt_add; [done|done|lia]).
  apply andb_true_iff. split; apply Z.leb_le; lia.
Qed.

Lemma in_ram_sub a n b k : in_ram a n = true → a <= b → b + k <= a + n → in_ram b k = true.
Proof. unfold in_ram. intros H ??. b2p. apply andb_true_iff. split; apply Z.leb_le; lia. Qed.

Lemma page_ok_ram8 p i : page_ok p → 0 <= i < 512 → in_ram (p + 8 * i) 8 = true.
Proof.
  intros Hp Hi. eapply in_ram_sub; [by apply page_ok_ram|lia|]. consts. lia.
Qed.

Lemma page_ok_ram_first p : page_ok p → in_ram p 8 = true.
Proof.
  intros Hp. eapply in_ram_sub; [by apply page_ok_ram|lia|]. consts. lia.
Qed.

Lemma page_ok_range p : page_ok p → 0 < p < 2 ^ 56.
Proof. intros [_ H]. pose proof kend_etext. consts. lia. Qed.

Lemma page_ok_index p : page_ok p → pgindex p = p / PGSIZE.
Proof. intros [H _]. unfold pgindex. by rewrite PGROUNDDOWN_id. Qed.

Lemma page_ok_disjoint p q x : page_ok p → page_ok q → p ≠ q → in_page p x → ¬ in_page q x.
Proof.
  intros [Hp _] [Hq _] Hne. unfold in_page.
  destruct (aligned_disjoint p q Hp Hq Hne); lia.
Qed.

Lemma page_index_ne p q : page_ok p → page_ok q → p ≠ q → p / PGSIZE ≠ q / PGSIZE.
Proof. intros [Hp _] [Hq _] Hne H. by apply Hne, page_index_inj. Qed.

Lemma chain_ext m m' h l :
  (∀ p, p ∈ l → ld64 m' p = ld64 m p) → chain m h l → chain m' h l.
Proof.
  revert h. induction l as [|p l IH]; intros h H; [done|]. simpl.
  intros [-> Hc]. split; [done|]. rewrite H by constructor. apply IH; [|done].
  intros q Hq. apply H. by constructor.
Qed.

Lemma chain_head m h l : chain m h l → h = default 0 (head l).
Proof. by destruct l; [|intros [? _]]. Qed.

(** A word of a managed page does not change when other pages do. *)
Lemma ld64_page_ext m m' p i :
  0 <= i < 512 → (∀ x, in_page p x → rd8 m' x = rd8 m x) → ld64 m' (p + 8 * i) = ld64 m (p + 8 * i).
Proof. intros Hi H. apply ld64_ext. intros x Hx. apply H. unfold in_page. consts. lia. Qed.

Lemma ld64_page_ext0 m m' p :
  (∀ x, in_page p x → rd8 m' x = rd8 m x) → ld64 m' p = ld64 m p.
Proof. intros H. apply ld64_ext. intros x Hx. apply H. unfold in_page. consts. lia. Qed.

Lemma memset_page m p c x :
  rd8 (KString.memset m p c PGSIZE) x = if decide (in_page p x) then u8 c else rd8 m x.
Proof.
  rewrite memset_spec. unfold in_page. case_decide.
  - destruct (Z.leb_spec p x), (Z.ltb_spec x (p + PGSIZE)); simpl; done || lia.
  - destruct (Z.leb_spec p x), (Z.ltb_spec x (p + PGSIZE)); simpl; done || lia.
Qed.

(** The invariant only depends on the free pages' memory. *)
Lemma kmem_inv_mem s s' l :
  kmem_inv s l → m_freelist s' = m_freelist s → m_pgrc s' = m_pgrc s →
  (∀ p x, p ∈ l → in_page p x → rd8 (m_mem s') x = rd8 (m_mem s) x) → kmem_inv s' l.
Proof.
  intros [Hc Hn Hp Hf Hps] H1 H2 H3. split; rewrite ?H1, ?H2; try done.
  apply (chain_ext (m_mem s)); [|done]. intros p Hp'. apply ld64_page_ext0. eauto.
Qed.

(** ** Reference counts *)

Lemma incpgrc_spec pa (Q : () → mach → Prop) s :
  RcLock (pgindex pa) ∉ m_held s → 0 <= m_pgrc s (pgindex pa) →
  Q () (s <| m_pgrc := upd (m_pgrc s) (pgindex pa) (m_pgrc s (pgindex pa) + 1) |>) →
  wp (incpgrc pa) Q s.
Proof.
  intros Hl Hc HQ. unfold incpgrc, set_pgrc. apply wp_bind, acquire_spec; [done|].
  wp_step. wp_step. cbn. destruct (Z.ltb_spec (m_pgrc s (pgindex pa)) 0); [lia|].
  wp_step. wp_step. eapply release_spec; [done|done|]. by destruct s.
Qed.

(** ** Allocation *)

Definition allocated (p : Z) (s s' : mach) : Prop :=
  m_held s' = m_held s ∧
  (∀ x, rd8 (m_mem s') x = if decide (in_page p x) then 5 else rd8 (m_mem s) x) ∧
  (∀ i, m_pgrc s' i = if decide (i = p / PGSIZE) then 1 else m_pgrc s i).

Lemma kalloc_empty s : kmem_inv s [] → alloc_unlocked s → kalloc s = Ok 0 s.
Proof.
  intros Hi [Hk _]. pose proof (ki_chain _ _ Hi) as Hc. simpl in Hc.
  assert (wp kalloc (λ r s', r = 0 ∧ s' = s) s) as H.
  { unfold kalloc. apply wp_bind, acquire_spec; [done|].
    wp_step. wp_step. cbn. rewrite Hc. wp_step. apply wp_when_f; [done|].
    wp_step. eapply release_spec; [done|done|]. wp_step. apply wp_when_f; [done|]. wp_step.
    by destruct s. }
  apply wp_returns in H as (? & ? & ? & -> & ->). done.
Qed.

Lemma kalloc_spec s p l :
  kmem_inv s (p :: l) → alloc_unlocked s →
  wp kalloc (λ r s', r = p ∧ allocated p s s' ∧ kmem_inv s' l) s.
Proof.
  intros Hi [Hk Hrc].
  assert (page_ok p) as Hp by (apply (ki_page _ _ Hi); constructor).
  pose proof (page_ok_range p Hp) as Hr.
  destruct (ki_chain _ _ Hi) as [Hf Hchain].
  pose proof (ki_nodup _ _ Hi) as Hnd. apply NoDup_cons in Hnd as [Hni Hnd].
  assert (m_pgrc s (p / PGSIZE) = 0) as H0 by (apply (ki_free _ _ Hi); [done|constructor]).
  unfold kalloc. apply wp_bind, acquire_spec; [done|].
  wp_step. wp_step. cbn. rewrite Hf.
  assert (truth p = true) as Ht by (unfold truth; destruct (Z.eqb_spec p 0); [lia|done]).
  wp_step. apply wp_when_t; [done|]. unfold kload64. rewrite page_ok_ram_first by done.
  wp_step. wp_step. wp_step. cbn. wp_step. eapply release_spec; [done|done|].
  wp_step. apply wp_when_t; [done|]. wp_step. unfold kmemset. rewrite page_ok_ram by done. wp_step. cbn.
  eapply incpgrc_spec; cbn; [apply Hrc|rewrite page_ok_index, H0 by done; lia|].
  rewrite page_ok_index, H0 by done. wp_step.
  match goal with |- _ ∧ allocated p s ?s1 ∧ _ => assert (allocated p s s1) as Ha end.
  { split_and!; [done|intros x; apply memset_page|]. intros i. cbn. unfold upd.
    destruct (Z.eqb_spec i (p / PGSIZE)); case_decide; done. }
  split_and!; [done|done|].
  destruct Ha as (_ & Hm & Hc). split; cbn [m_mem m_freelist m_pgrc] in *.
  - apply (chain_ext (m_mem s)); [|done]. intros q Hq. apply ld64_page_ext0. intros x Hx.
    rewrite Hm, decide_False; [done|].
    assert (page_ok q) by (apply (ki_page _ _ Hi); by constructor).
    apply (page_ok_disjoint q); [done|done|by intros ->|done].
  - done.
  - intros q Hq. apply (ki_page _ _ Hi). by constructor.
  - intros q Hq. rewrite Hc. case_decide as E.
    + assert (q = p) as -> by (destruct Hp, Hq; by apply page_index_inj). split; [done|lia].
    + rewrite <- (ki_free _ _ Hi) by done. rewrite elem_of_cons. split; [tauto|].
      intros [->|]; [done|done].
  - intros q Hq. rewrite Hc. case_decide; [lia|]. by apply (ki_pos _ _ Hi).
Qed.

(** ** Freeing *)

(** The state after the last reference to [pa] is dropped. *)
Definition freed_state (pa : Z) (s : mach) : mach :=
  mkMach (st64 (KString.memset (m_mem s) pa 1 PGSIZE) pa (m_freelist s)) pa
         (upd (m_pgrc s) (pa / PGSIZE) 0) (m_held s).

Lemma page_ok_guard pa :
  page_ok pa → negb (pa mod PGSIZE =? 0) || (pa <? kend) || (PHYSTOP <=? pa) = false.
Proof.
  intros [Ha [H1 H2]]. rewrite Ha. simpl.
  apply orb_false_iff. split; [apply Z.ltb_ge|apply Z.leb_gt]; lia.
Qed.

Lemma kfree_last pa (Q : () → mach → Prop) s :
  page_ok pa → alloc_unlocked s → m_pgrc s (pa / PGSIZE) = 1 →
  Q () (freed_state pa s) → wp (kfree pa) Q s.
Proof.
  intros Hp [Hk Hrc] H1 HQ. unfold kfree, decpgrc, set_pgrc. rewrite page_ok_guard by done.
  rewrite page_ok_index by done. apply wp_bind, acquire_spec; [apply Hrc|].
  wp_step. wp_step. wp_step. cbn. rewrite H1. cbn. wp_step. wp_step. wp_step. cbn.
  wp_step. apply wp_when_t; [cbn; unfold upd; by rewrite Z.eqb_refl|].
  unfold kmemset. rewrite page_ok_ram by done. wp_step. wp_step. wp_step.
  apply acquire_spec; [cbn; rewrite elem_of_cons; intros [?|?]; done|].
  wp_step. wp_step. wp_step. unfold kstore64. rewrite page_ok_ram_first by done.
  wp_step. wp_step. wp_step.
  eapply release_spec; [done|cbn; rewrite elem_of_cons; intros [?|?]; done|].
  eapply release_spec; [done|apply Hrc|]. by destruct s.
Qed.

Lemma kfree_shared pa (Q : () → mach → Prop) s :
  page_ok pa → alloc_unlocked s → 1 < m_pgrc s (pa / PGSIZE) →
  Q () (mkMach (m_mem s) (m_freelist s)
          (upd (m_pgrc s) (pa / PGSIZE) (m_pgrc s (pa / PGSIZE) - 1)) (m_held s)) →
  wp (kfree pa) Q s.
Proof.
  intros Hp [Hk Hrc] H1 HQ. unfold kfree, decpgrc, set_pgrc. rewrite page_ok_guard by done.
  rewrite page_ok_index by done. apply wp_bind, acquire_spec; [apply Hrc|].
  wp_step. wp_step. wp_step. cbn. destruct (Z.leb_spec (m_pgrc s (pa / PGSIZE)) 0); [lia|].
  wp_step. wp_step. wp_step. wp_step.
  apply wp_when_f; [cbn; unfold upd; rewrite Z.eqb_refl; apply Z.eqb_neq; lia|].
  eapply release_spec; [done|apply Hrc|]. by destruct s.
Qed.

Lemma kfree_bad_page pa s : ¬ page_ok pa → kfree pa s = Panic "kfree".
Proof.
  intros H. unfold kfree. destruct (_ || _) eqn:E; [done|]. b2p.
  destruct H. split; lia.
Qed.

Lemma kfree_underflow pa s :
  page_ok pa → alloc_unlocked s → m_pgrc s (pa / PGSIZE) <= 0 →
  kfree pa s = Panic "negative ref count in decpgrc".
Proof.
  intros Hp [Hk Hrc] H0. unfold kfree, decpgrc. rewrite page_ok_guard, page_ok_index by done.
  unfold acquire. krun. rewrite bool_decide_eq_false_2 by apply Hrc. cbn.
  destruct (Z.leb_spec (m_pgrc s (pa / PGSIZE)) 0); [done|lia].
Qed.

Lemma rd8_freed_state pa s x :
  ¬ in_page pa x → rd8 (m_mem (freed_state pa s)) x = rd8 (m_mem s) x.
Proof.
  intros Hx. simpl. rewrite rd8_st64_ne by (unfold in_page in Hx; consts; lia).
  rewrite memset_page. by rewrite decide_False.
Qed.

Lemma chain_freed_state pa s l :
  page_ok pa → (∀ p, p ∈ l → page_ok p) → pa ∉ l → chain (m_mem s) (m_freelist s) l →
  (0 <= m_freelist s < 2 ^ 64) →
  chain (m_mem (freed_state pa s)) pa (pa :: l).
Proof.
  intros Hp Hl Hn Hc Hr. split; [done|]. simpl. rewrite ld64_st64_same by done.
  apply (chain_ext (m_mem s)); [|done]. intros q Hq. apply ld64_page_ext0. intros x Hx.
  apply (rd8_freed_state pa s). apply (page_ok_disjoint q); [by apply Hl|done|by intros ->|done].
Qed.

Lemma freelist_range s l :
  (∀ p, p ∈ l → page_ok p) → chain (m_mem s) (m_freelist s) l → 0 <= m_freelist s < 2 ^ 64.
Proof.
  intros Hl Hc. rewrite (chain_head _ _ _ Hc). destruct l as [|p l]; simpl; [lia|].
  pose proof (page_ok_range p (Hl p ltac:(constructor))). lia.
Qed.

(** What freeing a page does to the rest of the machine. *)
Definition freed (pa : Z) (s s' : mach) : Prop :=
  m_held s' = m_held s ∧
  (∀ x, (¬ in_page pa x ∨ 1 < m_pgrc s (pa / PGSIZE)) → rd8 (m_mem s') x = rd8 (m_mem s) x) ∧
  (∀ i, m_pgrc s' i = m_pgrc s i - if decide (i = pa / PGSIZE) then 1 else 0).

Lemma kfree_spec pa s l :
  page_ok pa → alloc_unlocked s → kmem_inv s l → 0 < m_pgrc s (pa / PGSIZE) →
  wp (kfree pa) (λ _ s', freed pa s s' ∧
    kmem_inv s' (if m_pgrc s (pa / PGSIZE) =? 1 then pa :: l else l)) s.
Proof.
  intros Hp Hu Hi Hc.
  assert (pa ∉ l) as Hni by (intros H; apply (ki_free _ _ Hi) in H; [lia|done]).
  assert (∀ v i, upd (m_pgrc s) (pa / PGSIZE) v i =
            if decide (i = pa / PGSIZE) then v else m_pgrc s i) as Hupd.
  { intros v i. unfold upd. destruct (Z.eqb_spec i (pa / PGSIZE)); case_decide; done. }
  assert (∀ q, page_ok q → q / PGSIZE = pa / PGSIZE → q = pa) as Hinj
    by (intros q [??] ?; destruct Hp; by apply page_index_inj).
  destruct (Z.eqb_spec (m_pgrc s (pa / PGSIZE)) 1) as [H1|H1].
  - apply kfree_last; [done|done|done|]. split.
    + split_and!; [done| |].
      * intros x [Hx|Hx]; [by apply rd8_freed_state|lia].
      * intros i. simpl. rewrite Hupd. case_decide; [subst|]; lia.
    + split; cbn [m_mem m_freelist m_pgrc freed_state].
      * apply (chain_freed_state pa s l); try done; [apply Hi|apply Hi|].
        eapply freelist_range; apply Hi.
      * apply NoDup_cons. split; [done|apply Hi].
      * intros q. rewrite elem_of_cons. intros [->|Hq]; [done|by apply (ki_page _ _ Hi)].
      * intros q Hq. rewrite Hupd, elem_of_cons, (ki_free _ _ Hi) by done.
        case_decide as E; [split; [done|intros _; left; by apply Hinj]|].
        split; [|tauto]. by intros [->|].
      * intros q Hq. rewrite Hupd. case_decide; [lia|]. by apply (ki_pos _ _ Hi).
  - apply kfree_shared; [done|done|lia|]. split.
    + split_and!; [done|done|]. intros i. simpl. rewrite Hupd. case_decide; [subst|]; lia.
    + destruct Hi as [Hch Hnd Hpg Hf Hps]. split; cbn [m_mem m_freelist m_pgrc]; try done.
      * intros q Hq. rewrite Hupd. case_decide as E; [|by apply Hf].
        rewrite (Hinj q) by done. split; [done|lia].
      * intros q Hq. rewrite Hupd. case_decide; [lia|]. by apply Hps.
Qed.

(** ** Boot *)

Lemma initlock_unheld lk (Q : () → mach → Prop) s :
  lk ∉ m_held s → Q () s → wp (initlock lk) Q s.
Proof.
  intros Hn HQ. unfold initlock. apply wp_modify. rewrite filter_ne_notin by done. by destruct s.
Qed.

(** [freerange] frees the pages of the range, last page first in the list. *)
Lemma freerange_spec s :
  alloc_unlocked s → (∀ i, m_pgrc s i = 0) → m_freelist s = 0 →
  wp (freerange kend PHYSTOP) (λ _ s', m_held s' = m_held s ∧
    ∃ l, kmem_inv s' l ∧ ∀ p, page_ok p ↔ p ∈ l) s.
Proof.
  intros Hu Hz Hf. pose proof kend_etext as Ke. pose proof kend_phystop as Kp.
  destruct (PGROUNDUP_spec kend) as [Hb Ha]; [consts; lia|].
  unfold freerange. set (p0 := PGROUNDUP kend) in *.
  eapply (wp_while (λ p s', m_held s' = m_held s ∧ (∀ i, m_pgrc s' i = 0) ∧
      p mod PGSIZE = 0 ∧ p0 <= p ∧ ∃ l, chain (m_mem s') (m_freelist s') l ∧ NoDup l ∧
      ∀ q, q ∈ l ↔ page_ok q ∧ q < p) (λ p _, Z.max 0 (PHYSTOP + PGSIZE - p)));
    [|split_and!; try done; exists []; split_and!; [done|constructor|]|consts; lia].
  2: { intros q. rewrite elem_of_nil. split; [done|]. intros [[Hq ?] ?].
       pose proof (aligned_lt_add q p0 Hq Ha). lia. }
  intros p s1 (Hh & Hz1 & Hp & Hge & l & Hch & Hnd & Hl).
  destruct (Z.leb_spec (p + PGSIZE) PHYSTOP) as [Hle|Hgt].
  - assert (page_ok p) as Hok by (split; [done|consts; lia]).
    assert (alloc_unlocked s1) as Hu1 by (unfold alloc_unlocked; by rewrite Hh).
    wp_step. apply incpgrc_spec; [apply Hu1|by rewrite Hz1|]. rewrite Hz1, page_ok_index by done.
    wp_step. apply kfree_last; [done|done|cbn; unfold upd; by rewrite Z.eqb_refl|].
    wp_step. split; [|consts; lia]. split_and!; [done| | |consts; lia|].
    + intros i. cbn. unfold upd. destruct (Z.eqb_spec i (p / PGSIZE)); [done|apply Hz1].
    + rewrite Z.add_mod, Hp by done. done.
    + exists (p :: l). split_and!.
      * apply chain_freed_state; cbn; [done|by intros q [? _]%Hl|by intros Hq%Hl; lia|done|].
        apply (freelist_range s1 l); [by intros q [? _]%Hl|done].
      * apply NoDup_cons. split; [|done]. intros Hq%Hl. lia.
      * intros q. rewrite elem_of_cons, Hl. split.
        -- intros [->|[? ?]]; (split; [done|consts; lia]).
        -- intros [Hq ?]. destruct (decide (q = p)); [by left|right]. split; [done|].
           destruct Hq as [Hq ?]. destruct (aligned_disjoint q p Hq Hp); [done|consts; lia|consts; lia].
  - wp_step. split; [done|]. exists l.
    assert (∀ q, page_ok q ↔ q ∈ l) as Hall.
    { intros q. rewrite Hl. split; [|tauto]. intros Hq. split; [done|]. destruct Hq as [Hq ?].
      pose proof (aligned_lt_add q PHYSTOP Hq ltac:(done)). lia. }
    split; [|done]. split; [done|done|by intros q ?%Hall| |].
    + intros q Hq. rewrite Hz1, <- Hall. tauto.
    + intros q Hq. by rewrite Hz1.
Qed.

Lemma kinit_spec s :
  alloc_unlocked s → (∀ i, m_pgrc s i = 0) →
  wp kinit (λ _ s', m_held s' = m_held s ∧ ∃ l, kmem_inv s' l ∧ ∀ p, page_ok p ↔ p ∈ l) s.
Proof.
  intros Hu Hz. unfold kinit. wp_step. apply initlock_unheld; [apply Hu|].
  wp_step. wp_step. wp_step. unfold for_range.
  eapply (wp_for_step (λ _ s', s' = s <| m_freelist := 0 |>)); [| |done|lia|done].
  - intros i s' -> Hi. apply initlock_unheld; [apply Hu|done].
  - intros i s' -> Hi. wp_use freerange_spec; done.
Qed.

End kalloc.
