(* ===== verification/Vm.v ===== *)
(** Page tables and user memory: [kernel/vm.c].

    Page tables are pages of physical memory; a page-table entry is the 64-bit
    word in memory.  [pagetable_t] and [pte_t *] are addresses. *)
From S2P Require Import Prelude CString Spinlock Riscv Kalloc.

(** ** Bytes of kernel objects

    [copyout] and [copyin] move bytes between user pages and a kernel object
    (a local variable, a buffer) that is not part of a user page; the object's
    bytes are a list. *)
Fixpoint store_bytes (m : mem) (a : Z) (l : list Z) : mem :=
  match l with
  | [] => m
  | c :: l' => store_bytes (wr8 m a c) (a + 1) l'
  end.

Fixpoint load_bytes (m : mem) (a : Z) (n : nat) : list Z :=
  match n with
  | O => []
  | S n' => rd8 m a :: load_bytes m (a + 1) n'
  end.

Definition kwrite_bytes (a : Z) (l : list Z) : kM mach () :=
  if in_ram a (Z.of_nat (length l))
  then modify (λ s, s <| m_mem := store_bytes (m_mem s) a l |>) else fault.

Definition kread_bytes (a n : Z) : kM mach (list Z) :=
  if in_ram a n then gets (λ s, load_bytes (m_mem s) a (Z.to_nat n)) else fault.

Section vm.
Context `{KI : !KernelImage}.

(** ** walk *)

(** The loop [for(int level = 2; level > 0; level--)]; [None] is [return 0]. *)
Fixpoint walk_loop (levels : list Z) (pagetable va : Z) (alloc : bool) : kM mach (option Z) :=
  match levels with
  | [] => mret (Some pagetable)
  | level :: levels' =>
      let pte := pagetable + 8 * PX level va in
      v ← kload64 pte;
      if truth (Z.land v PTE_V) then walk_loop levels' (PTE2PA v) va alloc
      else if negb alloc then mret None else
      p ← kalloc;
      if p =? 0 then mret None else
      kmemset p 0 PGSIZE ;;
      kstore64 pte (Z.lor (PA2PTE p) PTE_V) ;;
      walk_loop levels' p va alloc
  end.

Definition walk (pagetable va : Z) (alloc : bool) : kM mach Z :=
  if MAXVA <=? va then panic "walk" else
  r ← walk_loop [2; 1] pagetable va alloc;
  mret (match r with None => 0 | Some t => t + 8 * PX 0 va end).

Definition walkaddr (pagetable va : Z) : kM mach Z :=
  if MAXVA <=? va then mret 0 else
  pte ← walk pagetable va false;
  if pte =? 0 then mret 0 else
  v ← kload64 pte;
  if negb (truth (Z.land v PTE_V)) then mret 0 else
  if negb (truth (Z.land v PTE_U)) then mret 0 else
  mret (PTE2PA v).

(** ** Mapping and unmapping *)

Definition mappages (pagetable va size pa perm : Z) : kM mach Z :=
  if size =? 0 then panic "mappages: size" else
  let a := PGROUNDDOWN va in
  let last := PGROUNDDOWN (u64 (va + size - 1)) in
  while (λ '(a, pa),
    pte ← walk pagetable a true;
    if pte =? 0 then mret (inr (-1)) else
    v ← kload64 pte;
    if truth (Z.land v PTE_V) then panic "mappages: remap" else
    kstore64 pte (Z.lor (Z.lor (PA2PTE pa) perm) PTE_V) ;;
    if a =? last then mret (inr 0)
    else mret (inl (u64 (a + PGSIZE), u64 (pa + PGSIZE)))) (a, pa).

Definition kvmmap (kpgtbl va pa sz perm : Z) : kM mach () :=
  r ← mappages kpgtbl va sz pa perm;
  if negb (r =? 0) then panic "kvmmap" else mret ().

Definition uvmunmap (pagetable va npages : Z) (do_free : bool) : kM mach () :=
  if negb (va mod PGSIZE =? 0) then panic "uvmunmap: not aligned" else
  while (λ a,
    if u64 (va + npages * PGSIZE) <=? a then mret (inr ()) else
    pte ← walk pagetable a false;
    if pte =? 0 then panic "uvmunmap: walk" else
    v ← kload64 pte;
    if negb (truth (Z.land v PTE_V)) then panic "uvmunmap: not mapped" else
    if PTE_FLAGS v =? PTE_V then panic "uvmunmap: not a leaf" else
    when do_free (kfree (PTE2PA v)) ;;
    kstore64 pte 0 ;;
    mret (inl (u64 (a + PGSIZE)))) va.

Definition uvmcreate : kM mach Z :=
  pagetable ← kalloc;
  if pagetable =? 0 then mret 0 else
  kmemset pagetable 0 PGSIZE ;;
  mret pagetable.

(** [src] is the [initcode] array, [sz] its size. *)
Definition uvmfirst (pagetable : Z) (src : list Z) : kM mach () :=
  if PGSIZE <=? Z.of_nat (length src) then panic "uvmfirst: more than a page" else
  m ← kalloc;
  kmemset m 0 PGSIZE ;;
  mappages pagetable 0 PGSIZE m (Z.lor (Z.lor (Z.lor PTE_W PTE_R) PTE_X) PTE_U) ;;
  kwrite_bytes m src.

Definition uvmdealloc (pagetable oldsz newsz : Z) : kM mach Z :=
  if oldsz <=? newsz then mret oldsz else
  when (PGROUNDUP newsz <? PGROUNDUP oldsz) (
    let npages := i32 ((PGROUNDUP oldsz - PGROUNDUP newsz) / PGSIZE) in
    uvmunmap pagetable (PGROUNDUP newsz) npages true) ;;
  mret newsz.

Definition uvmalloc (pagetable oldsz newsz xperm : Z) : kM mach Z :=
  if newsz <? oldsz then mret oldsz else
  let oldsz := PGROUNDUP oldsz in
  while (λ a,
    if newsz <=? a then mret (inr newsz) else
    m ← kalloc;
    if m =? 0 then uvmdealloc pagetable a oldsz ;; mret (inr 0) else
    kmemset m 0 PGSIZE ;;
    r ← mappages pagetable a PGSIZE m (Z.lor (Z.lor PTE_R PTE_U) xperm);
    if negb (r =? 0) then
      kfree m ;;
      uvmdealloc pagetable a oldsz ;;
      mret (inr 0)
    else mret (inl (u64 (a + PGSIZE)))) oldsz.

(** The recursion of [freewalk] follows the levels of the table: three of them,
    and [depth] bounds it. *)
Fixpoint freewalk (depth : nat) (pagetable : Z) : kM mach () :=
  match depth with
  | O => diverge
  | S depth' =>
      for_range 0 512 (λ i,
        pte ← kload64 (pagetable + 8 * i);
        if truth (Z.land pte PTE_V) && (Z.land pte (Z.lor (Z.lor PTE_R PTE_W) PTE_X) =? 0) then
          let child := PTE2PA pte in
          freewalk depth' child ;;
          kstore64 (pagetable + 8 * i) 0
        else if truth (Z.land pte PTE_V) then panic "freewalk: leaf"
        else mret ()) ;;
      kfree pagetable
  end.
Definition freewalk_depth : nat := 16.

Definition uvmfree (pagetable sz : Z) : kM mach () :=
  when (sz >? 0) (uvmunmap pagetable 0 (PGROUNDUP sz / PGSIZE) true) ;;
  freewalk freewalk_depth pagetable.

(** ** Copy-on-write fork *)

Definition uvmcopy (old new sz : Z) : kM mach Z :=
  while (λ i,
    if sz <=? i then mret (inr 0) else
    pte ← walk old i false;
    if pte =? 0 then panic "uvmcopy: pte should exist" else
    v ← kload64 pte;
    if negb (truth (Z.land v PTE_V)) then panic "uvmcopy: page not present" else
    let pa := PTE2PA v in
    let flags := PTE_FLAGS v in
    flags ← (if truth (Z.land v PTE_W) then
      let flags := Z.land flags (Z.lnot PTE_W) in
      kstore64 pte (Z.land v (Z.lnot PTE_W)) ;;
      let flags := Z.lor flags PTE_C in
      v ← kload64 pte;
      kstore64 pte (Z.lor v PTE_C) ;;
      mret flags
    else mret flags);
    r ← mappages new i PGSIZE pa flags;
    if negb (r =? 0) then
      uvmunmap new 0 (i / PGSIZE) true ;;
      mret (inr (-1))
    else
      incpgrc pa ;;
      mret (inl (u64 (i + PGSIZE)))) 0.

Definition uvmclear (pagetable va : Z) : kM mach () :=
  pte ← walk pagetable va false;
  if pte =? 0 then panic "uvmclear" else
  v ← kload64 pte;
  kstore64 pte (Z.land v (Z.lnot PTE_U)).

(** ** Copying between kernel and user *)

(** [src] holds the bytes to copy.  When no page is left for a copy-on-write
    page the code goes on with a null [mem]: [memmove(0, ...)] faults (the
    [setkilled] before it changes the process only). *)
Definition copyout (pagetable dstva : Z) (src : list Z) : kM mach Z :=
  while (λ '(dstva, src),
    let len := Z.of_nat (length src) in
    if len <=? 0 then mret (inr 0) else
    let va0 := PGROUNDDOWN dstva in
    pa0 ← walkaddr pagetable va0;
    if pa0 =? 0 then mret (inr (-1)) else
    pte ← walk pagetable va0 false;
    v ← kload64 pte;
    let flags := PTE_FLAGS v in
    pa0 ← (if truth (Z.land flags PTE_C) then
      let flags := Z.lor (Z.land flags (Z.lnot PTE_C)) PTE_W in
      m ← kalloc;
      kmemmove m pa0 PGSIZE ;;
      kstore64 pte (Z.lor (PA2PTE m) flags) ;;
      kfree pa0 ;;
      walkaddr pagetable va0
    else mret pa0);
    let n := PGSIZE - (dstva - va0) in
    let n := if n >? len then len else n in
    kwrite_bytes (pa0 + (dstva - va0)) (take (Z.to_nat n) src) ;;
    mret (inl (u64 (va0 + PGSIZE), drop (Z.to_nat n) src))) (dstva, src).

(** Returns the status and the bytes stored at [dst]. *)
Definition copyin (pagetable srcva len : Z) : kM mach (Z * list Z) :=
  while (λ '(srcva, len, dst),
    if len <=? 0 then mret (inr (0, dst)) else
    let va0 := PGROUNDDOWN srcva in
    pa0 ← walkaddr pagetable va0;
    if pa0 =? 0 then mret (inr (-1, dst)) else
    let n := PGSIZE - (srcva - va0) in
    let n := if n >? len then len else n in
    bs ← kread_bytes (pa0 + (srcva - va0)) n;
    mret (inl (u64 (va0 + PGSIZE), len - n, dst ++ bs))) (srcva, len, []).

(** The inner loop of [copyinstr] over [n] bytes at [p]: whether a NUL was
    found, the bytes stored and [max] afterwards. *)
Fixpoint copyinstr_inner (n : nat) (p : Z) (dst : list Z) (max : Z) : kM mach (bool * list Z * Z) :=
  match n with
  | O => mret (false, dst, max)
  | S n' =>
      c ← kload8 p;
      if c =? 0 then mret (true, dst ++ [0], max)
      else copyinstr_inner n' (p + 1) (dst ++ [c]) (max - 1)
  end.

Definition copyinstr (pagetable srcva max : Z) : kM mach (Z * list Z) :=
  while (λ '(srcva, max, dst, got_null),
    if (got_null : bool) || (max <=? 0)
    then mret (inr (if got_null then 0 else -1, dst)) else
    let va0 := PGROUNDDOWN srcva in
    pa0 ← walkaddr pagetable va0;
    if pa0 =? 0 then mret (inr (-1, dst)) else
    let n := PGSIZE - (srcva - va0) in
    let n := if n >? max then max else n in
    r ← copyinstr_inner (Z.to_nat n) (pa0 + (srcva - va0)) dst max;
    let '(got_null, dst, max) := r in
    mret (inl (u64 (va0 + PGSIZE), max, dst, got_null))) (srcva, max, [], false).

(** ** Kernel page table *)

(** [proc_mapstacks] of kernel/proc.c. *)
Definition NPROC : Z := 64.
Definition proc_mapstacks (kpgtbl : Z) : kM mach () :=
  for_range 0 NPROC (λ p,
    pa ← kalloc;
    if pa =? 0 then panic "kalloc" else
    let va := KSTACK p in
    kvmmap kpgtbl va pa PGSIZE (Z.lor PTE_R PTE_W)).

Definition kvmmake : kM mach Z :=
  kpgtbl ← kalloc;
  kmemset kpgtbl 0 PGSIZE ;;
  kvmmap kpgtbl UART0 UART0 PGSIZE (Z.lor PTE_R PTE_W) ;;
  kvmmap kpgtbl VIRTIO0 VIRTIO0 PGSIZE (Z.lor PTE_R PTE_W) ;;
  kvmmap kpgtbl PLIC PLIC 0x400000 (Z.lor PTE_R PTE_W) ;;
  kvmmap kpgtbl KERNBASE KERNBASE (ketext - KERNBASE) (Z.lor PTE_R PTE_X) ;;
  kvmmap kpgtbl ketext ketext (PHYSTOP - ketext) (Z.lor PTE_R PTE_W) ;;
  kvmmap kpgtbl TRAMPOLINE ktrampoline PGSIZE (Z.lor PTE_R PTE_X) ;;
  proc_mapstacks kpgtbl ;;
  mret kpgtbl.

End vm.
