(* ===== verification/PageTable.v ===== *)
(** The page tables of [kernel/vm.c] as finite maps.

    A three-level table in physical memory is read as a finite map from virtual
    page numbers to page-table entries; [walk] with allocation extends the
    table and leaves the map as it is, and a store through the pointer it
    returns updates one entry of the map. *)
From S2P Require Import Prelude CString Spinlock Riscv Kalloc Vm.

Section pagetable.
Context `{KI : !KernelImage}.

(** * The tree of page-table pages *)

(** The page that entry [i] of table [t] points to. *)
Definition pt_next (m : mem) (t i : Z) : option Z :=
  let pte := ld64 m (t + 8 * i) in
  if truth (Z.land pte PTE_V) then Some (PTE2PA pte) else None.

Fixpoint node (m : mem) (t : Z) (path : list Z) : option Z :=
  match path with
  | [] => Some t
  | i :: path' => pt_next m t i ≫= λ t', node m t' path'
  end.

(** The page-table pages of a table are at the paths of length at most two. *)
Definition valid_path (path : list Z) : Prop :=
  (length path <= 2)%nat ∧ Forall (λ i, 0 <= i < 512) path.

Definition is_table (s : mach) (root t : Z) : Prop :=
  ∃ path, valid_path path ∧ node (m_mem s) root path = Some t.

Record pt_wf (s : mach) (root : Z) : Prop := {
  pw_page : ∀ t, is_table s root t → page_ok t;
  pw_rc : ∀ t, is_table s root t → m_pgrc s (t / PGSIZE) = 1;
  pw_inj : ∀ p1 p2 t, valid_path p1 → valid_path p2 →
    node (m_mem s) root p1 = Some t → node (m_mem s) root p2 = Some t → p1 = p2;
  pw_inner : ∀ path t i, valid_path path → (length path <= 1)%nat →
    node (m_mem s) root path = Some t → 0 <= i < 512 →
    truth (Z.land (ld64 (m_mem s) (t + 8 * i)) PTE_V) = true →
    PTE_FLAGS (ld64 (m_mem s) (t + 8 * i)) = PTE_V ∧ (path = [] → i < 256)
}.

(** The address of the leaf entry for [va], and the entry. *)
Definition va_path (va : Z) : list Z := [PX 2 va; PX 1 va].
Definition leaf_addr (m : mem) (root va : Z) : option Z :=
  (λ t, t + 8 * PX 0 va) <$> node m root (va_path va).
Definition leaf_pte (m : mem) (root va : Z) : Z :=
  match leaf_addr m root va with Some a => ld64 m a | None => 0 end.

(** Growing a table: nothing changes outside its own pages and free pages. *)
Record pt_frame (root : Z) (s s' : mach) : Prop := {
  pf_held : m_held s' = m_held s;
  pf_mem : ∀ x, (∀ t, is_table s root t → ¬ in_page t x) →
    (∀ p, page_ok p → m_pgrc s (p / PGSIZE) = 0 → ¬ in_page p x) →
    rd8 (m_mem s') x = rd8 (m_mem s) x;
  pf_rc : ∀ i, m_pgrc s i ≠ 0 → m_pgrc s' i = m_pgrc s i;
  pf_new : ∀ p, page_ok p → m_pgrc s (p / PGSIZE) = 0 →
    m_pgrc s' (p / PGSIZE) ≠ 0 → is_table s' root p;
  pf_tables : ∀ t, is_table s' root t →
    is_table s root t ∨ (page_ok t ∧ m_pgrc s (t / PGSIZE) = 0);
  pf_mono : ∀ t, is_table s root t → is_table s' root t
}.

(** Growing a table without changing what it maps. *)
Record pt_ext (root : Z) (s s' : mach) : Prop := {
  pe_frame : pt_frame root s s';
  pe_wf : pt_wf s' root;
  pe_node : ∀ path t, valid_path path → node (m_mem s) root path = Some t →
    node (m_mem s') root path = Some t;
  pe_leaf : ∀ va, leaf_pte (m_mem s') root va = leaf_pte (m_mem s) root va
}.

(** * Paths *)

Lemma valid_path_nil : valid_path [].
Proof. split; [simpl; lia|done]. Qed.

Lemma valid_va_path va : valid_path (va_path va).
Proof. split; [simpl; lia|]. repeat constructor; apply PX_range. Qed.

Lemma valid_path_snoc path i :
  valid_path (path ++ [i]) ↔ (length path <= 1)%nat ∧ valid_path path ∧ 0 <= i < 512.
Proof.
  unfold valid_path. rewrite length_app, Forall_app, Forall_singleton. simpl. split.
  - intros [? [? ?]]. split_and!; try done; lia.
  - intros [? [[? ?] ?]]. split_and!; try done; lia.
Qed.

Lemma node_snoc m t path i : node m t (path ++ [i]) = node m t path ≫= λ t', pt_next m t' i.
Proof.
  revert t. induction path as [|j path IH]; intros t; simpl.
  - by destruct (pt_next m t i).
  - destruct (pt_next m t j); simpl; [apply IH|done].
Qed.

#[local] Arguments node m t path : simpl never.

Lemma node_none_app m t p1 p2 : node m t p1 = None → node m t (p1 ++ p2) = None.
Proof.
  intros H. induction p2 as [|j p2 IH] using rev_ind; [by rewrite app_nil_r|].
  by rewrite app_assoc, node_snoc, IH.
Qed.

Lemma valid_path_app p1 p2 : valid_path (p1 ++ p2) → valid_path p1.
Proof.
  unfold valid_path. rewrite length_app, Forall_app. intros [? [? _]]. split; [lia|done].
Qed.

Lemma is_table_root s root : is_table s root root.
Proof. exists []. split; [apply valid_path_nil|done]. Qed.
Hint Resolve is_table_root valid_va_path valid_path_nil : kernel.

Lemma pt_next_ext m m' t i :
  ld64 m' (t + 8 * i) = ld64 m (t + 8 * i) → pt_next m' t i = pt_next m t i.
Proof. unfold pt_next. by intros ->. Qed.

(** Tables that agree on the entries of their upper two levels have the same
    page-table pages. *)
Lemma node_agree m m' root :
  (∀ path t i, valid_path path → (length path <= 1)%nat → node m root path = Some t →
    0 <= i < 512 → ld64 m' (t + 8 * i) = ld64 m (t + 8 * i)) →
  ∀ path, valid_path path → node m' root path = node m root path.
Proof.
  intros H path. induction path as [|i path IH] using rev_ind; intros Hv; [done|].
  apply valid_path_snoc in Hv as (Hl & Hv & Hi). rewrite !node_snoc, IH by done.
  destruct (node m root path) as [t|] eqn:E; [|done]. simpl.
  apply pt_next_ext. by eapply H.
Qed.

Lemma pt_same m m' s root :
  m = m_mem s → (∀ t x, is_table s root t → in_page t x → rd8 m' x = rd8 m x) →
  (∀ path, valid_path path → node m' root path = node m root path) ∧
  (∀ va, leaf_pte m' root va = leaf_pte m root va).
Proof.
  intros -> H.
  assert (∀ path t i, valid_path path → node (m_mem s) root path = Some t →
    0 <= i < 512 → ld64 m' (t + 8 * i) = ld64 (m_mem s) (t + 8 * i)) as Hw.
  { intros path t i Hv Ht Hi. apply ld64_page_ext; [done|]. intros x. apply H. by exists path. }
  assert (∀ path, valid_path path → node m' root path = node (m_mem s) root path) as Hn
    by (apply node_agree; eauto).
  split; [done|]. intros va. unfold leaf_pte, leaf_addr. rewrite Hn by apply valid_va_path.
  destruct (node _ _ _) as [t|] eqn:E; simpl; [|done].
  eapply Hw; [apply valid_va_path|done|apply PX_range].
Qed.

(** A well-formed table keeps its meaning when its pages are not touched. *)
Lemma pt_wf_same s s' root :
  pt_wf s root → (∀ t x, is_table s root t → in_page t x → rd8 (m_mem s') x = rd8 (m_mem s) x) →
  (∀ t, is_table s root t → m_pgrc s' (t / PGSIZE) = m_pgrc s (t / PGSIZE)) →
  pt_wf s' root ∧ (∀ t, is_table s' root t ↔ is_table s root t) ∧
  (∀ va, leaf_pte (m_mem s') root va = leaf_pte (m_mem s) root va) ∧
  (∀ path, valid_path path → node (m_mem s') root path = node (m_mem s) root path).
Proof.
  intros [Hp Hr Hi Hin] Hm Hc. destruct (pt_same _ (m_mem s') s root eq_refl Hm) as [Hn Hl].
  assert (∀ t, is_table s' root t ↔ is_table s root t) as Ht.
  { intros t. split; intros (path & Hv & E); exists path; (split; [done|]);
      [by rewrite <- Hn|by rewrite Hn]. }
  split_and!; try done. split.
  - intros t ?%Ht. by apply Hp.
  - intros t H%Ht. rewrite Hc by done. by apply Hr.
  - intros p1 p2 t Hv1 Hv2. rewrite !Hn by done. by apply Hi.
  - intros path t i Hv Hlen. rewrite Hn by done. intros E Hir.
    rewrite (ld64_page_ext (m_mem s) (m_mem s') t i) by (done || intros x; apply Hm; by exists path).
    by apply (Hin path).
Qed.

(** * Frames *)

Lemma pt_frame_refl root s : pt_frame root s s.
Proof. split; try done. by left. Qed.

Lemma pt_frame_trans root s1 s2 s3 :
  pt_frame root s1 s2 → pt_frame root s2 s3 → pt_frame root s1 s3.
Proof.
  intros [H1 M1 R1 N1 T1 O1] [H2 M2 R2 N2 T2 O2].
  assert (∀ i, m_pgrc s2 i = 0 → m_pgrc s1 i = 0) as Hz.
  { intros i H. destruct (decide (m_pgrc s1 i = 0)) as [|Hn]; [done|].
    rewrite (R1 i Hn) in H. done. }
  split.
  - congruence.
  - intros x Ht Hf. rewrite M2; [by apply M1| |].
    + intros t [Hin|[Hok H0]]%T1; [by apply Ht|by apply Hf].
    + intros p Hp H0. apply Hf; [done|by apply Hz].
  - intros i Hi. rewrite R2; [by apply R1|]. by rewrite (R1 i Hi).
  - intros p Hp H0 H3. destruct (decide (m_pgrc s2 (p / PGSIZE) = 0)) as [E|E]; [by apply N2|].
    apply O2, N1; done.
  - intros t [[Hin|?]%T1|[Hok H0]]%T2; [by left|by right|]. right. split; [done|by apply Hz].
  - auto.
Qed.

Lemma pt_ext_refl root s : pt_wf s root → pt_ext root s s.
Proof. intros H. split; [apply pt_frame_refl|done|done|done]. Qed.

Lemma pt_ext_trans root s1 s2 s3 : pt_ext root s1 s2 → pt_ext root s2 s3 → pt_ext root s1 s3.
Proof.
  intros [F1 W1 N1 L1] [F2 W2 N2 L2]. split; [by eapply pt_frame_trans|done|auto|].
  intros va. by rewrite L2, L1.
Qed.

(** * A new page-table page *)

Section new_table.
  Context (s : mach) (root t i p : Z) (pre : list Z).
  Context (Hwf : pt_wf s root) (Hpre : valid_path pre) (Hlen : (length pre <= 1)%nat).
  Context (Ht : node (m_mem s) root pre = Some t) (Hi : 0 <= i < 512).
  Context (Hinv : truth (Z.land (ld64 (m_mem s) (t + 8 * i)) PTE_V) = false).
  Context (Hlow : pre = [] → i < 256).
  Context (Hp : page_ok p) (Hfree : m_pgrc s (p / PGSIZE) = 0).

  (** The memory after [kalloc], [memset] and the store of the new entry. *)
  Context (m' : mem).
  Context (Hm : ∀ x, rd8 m' x =
    rd8 (st64 (KString.memset (m_mem s) p 0 PGSIZE) (t + 8 * i) (Z.lor (PA2PTE p) PTE_V)) x).

Lemma new_not_table : ¬ is_table s root p.
Proof. intros H%(pw_rc _ _ Hwf). lia. Qed.

Lemma new_entry : ld64 m' (t + 8 * i) = Z.lor (PA2PTE p) PTE_V.
Proof.
  rewrite (ld64_ext (st64 (KString.memset (m_mem s) p 0 PGSIZE) (t + 8 * i)
    (Z.lor (PA2PTE p) PTE_V)) m') by (intros; apply Hm).
  apply ld64_st64_same. pose proof (page_ok_range p Hp).
  pose proof (pte_make_range p PTE_V ltac:(lia) ltac:(done)). lia.
Qed.

Lemma new_zero k : 0 <= k < 512 → ld64 m' (p + 8 * k) = 0.
Proof.
  intros Hk. apply ld64_zero. intros x Hx.
  assert (in_page p x) as Hin by (unfold in_page; consts; lia).
  rewrite Hm, rd8_st64_ne.
  - rewrite memset_page. by rewrite decide_True.
  - intros Hx'. assert (is_table s root t) as Hit by (by exists pre).
    apply (page_ok_disjoint p t x Hp (pw_page _ _ Hwf t Hit)); [|done|unfold in_page; consts; lia].
    intros E. apply new_not_table. by rewrite E.
Qed.

Lemma new_other t' k :
  is_table s root t' → 0 <= k < 512 → ¬ (t' = t ∧ k = i) →
  ld64 m' (t' + 8 * k) = ld64 (m_mem s) (t' + 8 * k).
Proof.
  intros Ht' Hk Hne. pose proof (pw_page _ _ Hwf t' Ht') as Hok'.
  assert (is_table s root t) as Hit by (by exists pre).
  pose proof (pw_page _ _ Hwf t Hit) as Hok.
  apply ld64_ext. intros x Hx. rewrite Hm, rd8_st64_ne.
  - rewrite memset_page, decide_False; [done|].
    apply (page_ok_disjoint t'); [done|done| |unfold in_page; consts; lia].
    intros E. apply new_not_table. by rewrite <- E.
  - intros Hx'. destruct (decide (t' = t)) as [->|Htt].
    + apply Hne. split; [done|lia].
    + apply (page_ok_disjoint t' t x Hok' Hok Htt); unfold in_page; consts; lia.
Qed.

Lemma new_node path :
  valid_path path →
  node m' root path = if decide (path = pre ++ [i]) then Some p else node (m_mem s) root path.
Proof.
  induction path as [|a path IH] using rev_ind; intros Hv.
  { rewrite decide_False; [done|]. by destruct pre. }
  apply valid_path_snoc in Hv as (Hl & Hv & Ha). rewrite !node_snoc, (IH Hv).
  case_decide as E.
  - subst path. simpl. rewrite decide_False.
    + rewrite node_snoc, Ht. simpl. unfold pt_next. rewrite Hinv, new_zero by done. done.
    + rewrite <- app_assoc. intros E%app_inv_head. done.
  - destruct (node (m_mem s) root path) as [t'|] eqn:Et; simpl.
    + assert (is_table s root t') as Ht' by (by exists path).
      case_decide as E'.
      * apply app_inj_tail in E' as [-> ->]. rewrite Ht in Et. injection Et as <-.
        pose proof (page_ok_range p Hp). unfold pt_next. rewrite new_entry.
        rewrite (truth_flag_make p PTE_V 0 ltac:(lia) ltac:(done) ltac:(lia)
          : truth (Z.land _ PTE_V) = _). simpl.
        by rewrite PTE2PA_make by (done || lia || apply Hp).
      * apply pt_next_ext, new_other; [done|done|]. intros [-> ->]. apply E'.
        f_equal. by apply (pw_inj _ _ Hwf _ _ t).
    + rewrite decide_False; [done|]. intros [-> ->]%app_inj_tail. by rewrite Ht in Et.
Qed.

Lemma new_node_old path t' :
  valid_path path → node (m_mem s) root path = Some t' → node m' root path = Some t'.
Proof.
  intros Hv E. rewrite new_node by done. case_decide as D; [|done]. subst path.
  rewrite node_snoc, Ht in E. simpl in E. unfold pt_next in E. by rewrite Hinv in E.
Qed.

Lemma new_leaf va : leaf_pte m' root va = leaf_pte (m_mem s) root va.
Proof.
  unfold leaf_pte, leaf_addr. rewrite new_node by apply valid_va_path.
  case_decide as D; simpl.
  - rewrite new_zero by apply PX_range. rewrite D, node_snoc, Ht. simpl. unfold pt_next.
    by rewrite Hinv.
  - destruct (node (m_mem s) root (va_path va)) as [t'|] eqn:E; simpl; [|done].
    apply new_other; [exists (va_path va); split; [apply valid_va_path|done]|apply PX_range|].
    intros [-> _].
    assert (pre = va_path va) as -> by (apply (pw_inj _ _ Hwf _ _ t); [done|apply valid_va_path|done|done]).
    unfold va_path in Hlen. simpl in Hlen. lia.
Qed.

Lemma new_valid : valid_path (pre ++ [i]).
Proof. apply valid_path_snoc. done. Qed.

Lemma new_is_table s' t' :
  m_mem s' = m' → is_table s' root t' ↔ t' = p ∨ is_table s root t'.
Proof.
  intros Hs. unfold is_table. rewrite Hs. split.
  - intros (path & Hv & E). rewrite new_node in E by done. case_decide as D.
    + left. congruence.
    + right. by exists path.
  - intros [->|(path & Hv & E)].
    + exists (pre ++ [i]). split; [apply new_valid|]. rewrite new_node by apply new_valid.
      by rewrite decide_True.
    + exists path. split; [done|by apply new_node_old].
Qed.

Lemma new_wf s' :
  m_mem s' = m' → (∀ k, m_pgrc s' k = if decide (k = p / PGSIZE) then 1 else m_pgrc s k) →
  pt_wf s' root.
Proof.
  intros Hs Hc. split.
  - intros t' [->|H]%new_is_table; [done|by apply (pw_page _ _ Hwf)|done].
  - intros t' [->|H]%new_is_table; [by rewrite Hc, decide_True| |done].
    rewrite Hc. case_decide; [done|by apply (pw_rc _ _ Hwf)].
  - intros p1 p2 t' Hv1 Hv2. rewrite Hs, !new_node by done.
    assert (∀ path, valid_path path → node (m_mem s) root path ≠ Some p) as Hnp
      by (intros path Hv E; apply new_not_table; by exists path).
    case_decide as D1; case_decide as D2; intros E1 E2.
    + congruence.
    + simplify_eq. by apply Hnp in E2.
    + simplify_eq. by apply Hnp in E1.
    + by apply (pw_inj _ _ Hwf _ _ t').
  - intros path t' k Hv Hl. rewrite Hs, new_node by done. case_decide as D.
    + intros [= <-] Hk. by rewrite new_zero.
    + intros E Hk. destruct (decide (t' = t ∧ k = i)) as [[-> ->]|Hne].
      * intros _. rewrite new_entry. pose proof (page_ok_range p Hp).
        rewrite PTE_FLAGS_make by (done || lia). split; [done|]. intros ->. apply Hlow.
        by apply (pw_inj _ _ Hwf _ _ t).
      * rewrite new_other by (done || by exists path). by apply (pw_inner _ _ Hwf path).
Qed.

Lemma new_table_ext s' :
  m_mem s' = m' → (∀ k, m_pgrc s' k = if decide (k = p / PGSIZE) then 1 else m_pgrc s k) →
  m_held s' = m_held s → pt_ext root s s'.
Proof.
  intros Hs Hc Hh. split; [|by apply new_wf| |].
  - split.
    + done.
    + intros x Hx Hf. rewrite Hs, Hm, rd8_st64_ne.
      * rewrite memset_page, decide_False; [done|by apply Hf].
      * intros Hx'. apply (Hx t); [by exists pre|]. unfold in_page. consts. lia.
    + intros k Hk. rewrite Hc. case_decide; [by subst|done].
    + intros q Hq H0 H1. apply new_is_table; [done|]. left.
      rewrite Hc in H1. case_decide as D; [|done]. destruct Hp, Hq. by apply page_index_inj.
    + intros t' [->|H]%new_is_table; [by right|by left|done].
    + intros t' H. apply new_is_table; [done|by right].
  - rewrite Hs. intros. by apply new_node_old.
  - rewrite Hs. apply new_leaf.
Qed.
End new_table.

(** * walk *)

Lemma walk_loop_pure levels root pre t va s :
  pt_wf s root → node (m_mem s) root pre = Some t →
  valid_path (pre ++ ((λ l, PX l va) <$> levels)) →
  walk_loop levels t va false s =
  Ok (node (m_mem s) root (pre ++ ((λ l, PX l va) <$> levels))) s.
Proof.
  intros Hwf. revert t pre. induction levels as [|l levels IH]; intros t pre Ht Hv.
  { simpl. rewrite app_nil_r, Ht. done. }
  rewrite fmap_cons in *. rewrite (cons_middle (PX l va)), app_assoc in *. simpl.
  pose proof (valid_path_app _ _ Hv) as Hv'.
  assert (is_table s root t) as Hit by (exists pre; split; [apply (valid_path_app _ _ Hv')|done]).
  unfold kload64. rewrite page_ok_ram8 by (by apply (pw_page _ _ Hwf) || apply PX_range).
  unfold mbind, kM_bind, gets. pose proof (node_snoc (m_mem s) root pre (PX l va)) as Hn.
  rewrite Ht in Hn. simpl in Hn. unfold pt_next in Hn.
  destruct (truth _) eqn:E; [by apply IH|].
  by rewrite node_none_app.
Qed.

(** [walk] without allocation reads the tree and changes nothing. *)
Lemma walk_pure root va s :
  pt_wf s root → va < MAXVA →
  walk root va false s = Ok (default 0 (leaf_addr (m_mem s) root va)) s.
Proof.
  intros Hwf Hva. unfold walk. destruct (Z.leb_spec MAXVA va); [lia|].
  erewrite bind_ok; [|by apply (walk_loop_pure [2; 1] root [] root); [| |apply valid_va_path]].
  simpl. unfold leaf_addr, va_path. by destruct (node _ _ _).
Qed.

Lemma leaf_addr_ok root va a s :
  pt_wf s root → leaf_addr (m_mem s) root va = Some a →
  in_ram a 8 = true ∧ 0 < a ∧ ∃ t, is_table s root t ∧ a = t + 8 * PX 0 va.
Proof.
  intros Hwf. unfold leaf_addr. destruct (node _ _ _) as [t|] eqn:E; simpl; [|done].
  intros [= <-]. assert (is_table s root t) as Ht by (exists (va_path va); auto with kernel).
  pose proof (pw_page _ _ Hwf t Ht) as Hok. pose proof (PX_range 0 va).
  pose proof (page_ok_range t Hok). split_and!; [by apply page_ok_ram8|lia|eauto].
Qed.

(** [walk] with allocation extends the tree, or fails with no page left. *)
Lemma walk_loop_alloc levels root pre t va s fl :
  pt_wf s root → kmem_inv s fl → alloc_unlocked s → node (m_mem s) root pre = Some t →
  valid_path (pre ++ ((λ l, PX l va) <$> levels)) →
  (pre = [] → Forall (λ l, PX l va < 256) (take 1 levels)) →
  wp (walk_loop levels t va true) (λ r s', pt_ext root s s' ∧ ∃ used fl',
    fl = used ++ fl' ∧ (length used <= length levels)%nat ∧ kmem_inv s' fl' ∧
    match r with
    | Some t' => node (m_mem s') root (pre ++ ((λ l, PX l va) <$> levels)) = Some t'
    | None => fl' = [] ∧ node (m_mem s) root (pre ++ ((λ l, PX l va) <$> levels)) = None
    end) s.
Proof.
  revert pre t s fl. induction levels as [|l levels IH]; intros pre t s fl Hwf Hk Hu Ht Hv Hlo.
  { simpl. wp_step. split; [by apply pt_ext_refl|]. exists [], fl. by rewrite app_nil_r. }
  rewrite fmap_cons in *. set (rest := (λ l, PX l va) <$> levels) in *.
  rewrite (cons_middle (PX l va)), app_assoc in *.
  pose proof (valid_path_app _ _ Hv) as Hv'.
  pose proof (proj1 (valid_path_snoc _ _) Hv') as (Hlen & Hpre & _).
  assert (is_table s root t) as Hit by (by exists pre).
  pose proof (pw_page _ _ Hwf t Hit) as Hok. pose proof (PX_range l va) as Hr.
  simpl. wp_step. unfold kload64. rewrite page_ok_ram8 by done. wp_step.
  pose proof (node_snoc (m_mem s) root pre (PX l va)) as Hn.
  rewrite Ht in Hn. simpl in Hn. unfold pt_next in Hn.
  assert (∀ Q : Prop, pre ++ [PX l va] = [] → Q) as Hnil by (intros Q; by destruct pre).
  assert (pre = [] → PX l va < 256) as Hlow by (intros H; by apply Hlo, Forall_inv in H).
  destruct (truth _) eqn:E.
  { wp_use (IH (pre ++ [PX l va])); [done|done|done|done|done|apply Hnil|]. simpl.
    intros r s' (He & used & fl' & ? & ? & ? & ?). split; [done|]. exists used, fl'.
    split_and!; [done|lia|done|done]. }
  pose proof (node_none_app _ _ _ rest Hn) as Hnone.
  wp_step. destruct fl as [|p fl].
  { unfold wp. rewrite kalloc_empty by done. simpl. split; [by apply pt_ext_refl|].
    exists [], []. rewrite Hnone. split_and!; try done. simpl. lia. }
  wp_use kalloc_spec; [done|done|]. intros r s1 (-> & (Hh & Hm & Hc) & Hk1).
  assert (page_ok p) as Hp by (apply (ki_page _ _ Hk); constructor).
  assert (m_pgrc s (p / PGSIZE) = 0) as H0 by (apply (ki_free _ _ Hk); [done|constructor]).
  pose proof (page_ok_range p Hp). destruct (Z.eqb_spec p 0) as [|_]; [lia|].
  wp_step. unfold kmemset. rewrite page_ok_ram by done. wp_step. wp_step.
  unfold kstore64. rewrite page_ok_ram8 by done. wp_step.
  set (s2 := _ <| m_mem := _ |>). set (v := Z.lor (PA2PTE p) PTE_V) in *.
  assert (∀ x, rd8 (m_mem s2) x =
    rd8 (st64 (KString.memset (m_mem s) p 0 PGSIZE) (t + 8 * PX l va) v) x) as Hm2.
  { intros x. apply rd8_st64_cong. intros y. cbn. rewrite !memset_page, Hm.
    by case_decide. }
  assert (pt_ext root s s2) as He by (by eapply (new_table_ext s root t (PX l va) p pre)).
  assert (kmem_inv s2 fl) as Hk2.
  { apply (kmem_inv_mem s1); [done|done|done|]. intros q x Hq Hx. cbn.
    assert (page_ok q) as Hqo by (apply (ki_page _ _ Hk1); done).
    pose proof (ki_nodup _ _ Hk) as [Hpf _]%NoDup_cons.
    rewrite rd8_st64_ne, memset_page, decide_False; [done| |].
    - apply (page_ok_disjoint q); [done|done|by intros ->|done].
    - intros Hx'. apply (page_ok_disjoint q t x); [done|done| |done|unfold in_page; consts; lia].
      intros ->. apply (ki_free _ _ Hk1) in Hq; [|done]. rewrite Hc in Hq.
      case_decide; [done|]. rewrite (pw_rc _ _ Hwf) in Hq by done. done. }
  wp_use (IH (pre ++ [PX l va]) p s2 fl).
  - by apply (pe_wf _ _ _ He).
  - done.
  - unfold alloc_unlocked. by rewrite (pf_held _ _ _ (pe_frame _ _ _ He)).
  - rewrite (new_node s root t (PX l va) p pre); try done. by rewrite decide_True.
  - done.
  - apply Hnil.
  - simpl. intros r s' (He' & used & fl' & -> & ? & ? & Hres).
    split; [by eapply pt_ext_trans|]. exists (p :: used), fl'.
    split_and!; [done|simpl; lia|done|]. destruct r; [done|]. split; [apply Hres|done].
Qed.

Lemma PX_top va : 0 <= va < MAXVA → PX 2 va < 256.
Proof.
  intros H. change MAXVA with (2 ^ 38) in H. rewrite PX_val by lia. change (2 ^ (12 + 9 * 2)) with (2 ^ 30).
  rewrite Z.mod_small; [apply Z.div_lt_upper_bound; lia|].
  split; [apply Z.div_pos; lia|apply Z.div_lt_upper_bound; lia].
Qed.

Lemma walk_alloc root va s fl :
  pt_wf s root → kmem_inv s fl → alloc_unlocked s → 0 <= va < MAXVA →
  wp (walk root va true) (λ a s', pt_ext root s s' ∧ ∃ used fl',
    fl = used ++ fl' ∧ (length used <= 2)%nat ∧ kmem_inv s' fl' ∧
    if a =? 0 then fl' = [] ∧ leaf_addr (m_mem s) root va = None
    else leaf_addr (m_mem s') root va = Some a) s.
Proof.
  intros Hwf Hk Hu Hva. unfold walk. destruct (Z.leb_spec MAXVA va); [lia|].
  wp_step. wp_use (walk_loop_alloc [2; 1] root [] root va s fl);
    [done|done|done|done|apply valid_va_path|intros _; simpl; repeat constructor; by apply PX_top|].
  intros r s' (He & used & fl' & Hfl & Hl & Hk' & Hr). wp_step. split; [done|].
  exists used, fl'. split_and!; [done|done|done|]. unfold leaf_addr, va_path.
  destruct r as [t|]; simpl in Hr.
  - assert (is_table s' root t) as Ht by (exists (va_path va); auto with kernel).
    pose proof (page_ok_range t (pw_page _ _ (pe_wf _ _ _ He) t Ht)). pose proof (PX_range 0 va).
    destruct (Z.eqb_spec (t + 8 * PX 0 va) 0); [lia|]. by rewrite Hr.
  - destruct Hr as [-> ->]. done.
Qed.

(** * Storing a leaf entry *)

Definition store_mem (a v : Z) (s : mach) : mach := s <| m_mem := st64 (m_mem s) a v |>.

Lemma leaf_addr_disjoint s root va a va' a' :
  pt_wf s root → 0 <= va < MAXVA → 0 <= va' < MAXVA →
  leaf_addr (m_mem s) root va = Some a → leaf_addr (m_mem s) root va' = Some a' →
  va / PGSIZE ≠ va' / PGSIZE → a' + 8 <= a ∨ a + 8 <= a'.
Proof.
  intros Hwf Hva Hva'. unfold leaf_addr.
  destruct (node _ _ (va_path va)) as [t|] eqn:E; [|done].
  destruct (node _ _ (va_path va')) as [t'|] eqn:E'; [|done]. simpl. intros [= <-] [= <-] Hne.
  pose proof (PX_range 0 va). pose proof (PX_range 0 va').
  assert (page_ok t) as Ht by (apply (pw_page _ _ Hwf); exists (va_path va); auto with kernel).
  assert (page_ok t') as Ht' by (apply (pw_page _ _ Hwf); exists (va_path va'); auto with kernel).
  destruct (decide (t = t')) as [->|Htt].
  - assert (va_path va = va_path va') as [= H2 H1]
      by (apply (pw_inj _ _ Hwf _ _ t'); auto with kernel).
    assert (PX 0 va ≠ PX 0 va') by (intros HP; by apply Hne, PX_inj). lia.
  - destruct (aligned_disjoint t t'); [apply Ht|apply Ht'|done|consts; lia|consts; lia].
Qed.

Section leaf_store.
  Context (s : mach) (root va a v : Z).
  Context (Hwf : pt_wf s root) (Hva : 0 <= va < MAXVA) (Hv : 0 <= v < 2 ^ 64).
  Context (Ha : leaf_addr (m_mem s) root va = Some a).

Lemma leaf_store_inner p t i :
  valid_path p → (length p <= 1)%nat → node (m_mem s) root p = Some t → 0 <= i < 512 →
  ld64 (m_mem (store_mem a v s)) (t + 8 * i) = ld64 (m_mem s) (t + 8 * i).
Proof.
  intros Hp Hl Ht Hi. apply ld64_st64_ne.
  revert Ha. unfold leaf_addr. destruct (node _ _ (va_path va)) as [t'|] eqn:E; [|done].
  simpl. intros [= <-]. pose proof (PX_range 0 va).
  assert (page_ok t) as Hok by (apply (pw_page _ _ Hwf); by exists p).
  assert (page_ok t') as Hok' by (apply (pw_page _ _ Hwf); exists (va_path va); auto with kernel).
  destruct (aligned_disjoint t t'); [apply Hok|apply Hok'| |consts; lia|consts; lia].
  intros Ett. rewrite Ett in Ht.
  assert (p = va_path va) as Hpv by (apply (pw_inj _ _ Hwf _ _ t'); auto with kernel).
  rewrite Hpv in Hl. unfold va_path in Hl. simpl in Hl. lia.
Qed.

Lemma leaf_store_node path :
  valid_path path → node (m_mem (store_mem a v s)) root path = node (m_mem s) root path.
Proof. apply node_agree. intros. by eapply leaf_store_inner. Qed.

Lemma leaf_store_table t : is_table (store_mem a v s) root t ↔ is_table s root t.
Proof.
  split; intros (path & Hp & E); exists path; (split; [done|]);
    [by rewrite <- leaf_store_node|by rewrite leaf_store_node].
Qed.

Lemma leaf_store_wf : pt_wf (store_mem a v s) root.
Proof.
  destruct Hwf as [Hp Hr Hi Hin]. split.
  - intros t H%leaf_store_table. by apply Hp.
  - intros t H%leaf_store_table. by apply Hr.
  - intros p1 p2 t Hv1 Hv2. rewrite !leaf_store_node by done. by apply Hi.
  - intros path t i Hvp Hl. rewrite leaf_store_node by done. intros E Hir.
    rewrite (leaf_store_inner path) by done. by apply (Hin path).
Qed.

Lemma leaf_store_addr va' :
  leaf_addr (m_mem (store_mem a v s)) root va' = leaf_addr (m_mem s) root va'.
Proof. unfold leaf_addr. by rewrite leaf_store_node by apply valid_va_path. Qed.

Lemma leaf_store_pte va' :
  0 <= va' < MAXVA → leaf_pte (m_mem (store_mem a v s)) root va' =
  if decide (va / PGSIZE = va' / PGSIZE) then v else leaf_pte (m_mem s) root va'.
Proof.
  intros Hva'. unfold leaf_pte. rewrite leaf_store_addr. case_decide as D.
  - assert (leaf_addr (m_mem s) root va' = Some a) as ->; [|by apply ld64_st64_same].
    rewrite <- Ha. unfold leaf_addr, va_path. rewrite !PX_val by lia.
    change (2 ^ (12 + 9 * 0)) with PGSIZE. change (2 ^ (12 + 9 * 1)) with (PGSIZE * 512).
    change (2 ^ (12 + 9 * 2)) with (PGSIZE * (512 * 512)).
    rewrite <- !Z.div_div by done. by rewrite D.
  - destruct (leaf_addr (m_mem s) root va') as [a'|] eqn:E; [|done].
    apply ld64_st64_ne. by eapply (leaf_addr_disjoint s root va a va' a').
Qed.

Lemma leaf_store_outside x :
  (∀ t, is_table s root t → ¬ in_page t x) → rd8 (m_mem (store_mem a v s)) x = rd8 (m_mem s) x.
Proof.
  intros Hx. apply rd8_st64_ne. intros H.
  destruct (leaf_addr_ok root va a s Hwf Ha) as (_ & _ & t & Ht & ->).
  apply (Hx t Ht). pose proof (PX_range 0 va). unfold in_page. consts. lia.
Qed.

Lemma leaf_store_frame : pt_frame root s (store_mem a v s).
Proof.
  split; try done.
  - intros. by apply leaf_store_outside.
  - intros t H%leaf_store_table. by left.
  - intros t H. by apply leaf_store_table.
Qed.

Lemma leaf_store_kmem fl : kmem_inv s fl → kmem_inv (store_mem a v s) fl.
Proof.
  intros Hk. apply (kmem_inv_mem s); [done|done|done|]. intros p x Hp Hx.
  apply leaf_store_outside. intros t Ht.
  pose proof (ki_page _ _ Hk p Hp) as Hok. pose proof (pw_page _ _ Hwf t Ht) as Hokt.
  apply (page_ok_disjoint p); [done|done| |done].
  intros E. rewrite E in Hp. apply (ki_free _ _ Hk) in Hp; [|done].
  rewrite (pw_rc _ _ Hwf) in Hp by done. done.
Qed.
End leaf_store.

(** * Address spaces *)

(** The table at [root] maps the virtual page numbers as [M] does. *)
Record aspace (s : mach) (root : Z) (M : gmap Z Z) : Prop := {
  as_wf : pt_wf s root;
  as_leaf : ∀ va, 0 <= va < MAXVA → leaf_pte (m_mem s) root va = default 0 (M !! (va / PGSIZE));
  as_valid : ∀ vpn pte, M !! vpn = Some pte →
    truth (Z.land pte PTE_V) = true ∧ 0 <= vpn < MAXVA / PGSIZE
}.

Lemma vpn_range va : 0 <= va < MAXVA → 0 <= va / PGSIZE < MAXVA / PGSIZE.
Proof.
  intros H. change (MAXVA / PGSIZE) with (2 ^ 26). change MAXVA with (2 ^ 38) in H.
  split; [apply Z.div_pos; [lia|done]|]. apply Z.div_lt_upper_bound; [done|]. consts. lia.
Qed.

Lemma vpn_va vpn : 0 <= vpn < MAXVA / PGSIZE → 0 <= vpn * PGSIZE < MAXVA.
Proof.
  change (MAXVA / PGSIZE) with (2 ^ 26). change MAXVA with (2 ^ 38). intros H. consts. lia.
Qed.

Lemma aspace_ext s s' root M : aspace s root M → pt_ext root s s' → aspace s' root M.
Proof.
  intros [Hw Hl Hv] [Hf Hw' Hn Hl']. split; [done| |done]. intros va Hva. by rewrite Hl', Hl.
Qed.

Lemma aspace_same s s' root M :
  aspace s root M →
  (∀ t x, is_table s root t → in_page t x → rd8 (m_mem s') x = rd8 (m_mem s) x) →
  (∀ t, is_table s root t → m_pgrc s' (t / PGSIZE) = m_pgrc s (t / PGSIZE)) →
  aspace s' root M ∧ ∀ t, is_table s' root t ↔ is_table s root t.
Proof.
  intros [Hw Hl Hv] Hm Hc. destruct (pt_wf_same s s' root Hw Hm Hc) as (Hw' & Ht & Hl' & _).
  split; [|done]. split; [done| |done]. intros va Hva. by rewrite Hl', Hl.
Qed.

(** What is mapped has a leaf entry in memory. *)
Lemma aspace_lookup s root M va pte :
  aspace s root M → 0 <= va < MAXVA → M !! (va / PGSIZE) = Some pte →
  ∃ a, leaf_addr (m_mem s) root va = Some a ∧ ld64 (m_mem s) a = pte.
Proof.
  intros [Hw Hl Hv] Hva HM. specialize (Hl va Hva). rewrite HM in Hl. unfold leaf_pte in Hl.
  destruct (leaf_addr _ _ _) as [a|]; [by exists a|]. simpl in Hl.
  destruct (Hv _ _ HM) as [Ht _]. by rewrite <- Hl in Ht.
Qed.

Lemma aspace_unmapped s root M va a :
  aspace s root M → 0 <= va < MAXVA → M !! (va / PGSIZE) = None →
  leaf_addr (m_mem s) root va = Some a → ld64 (m_mem s) a = 0.
Proof.
  intros [Hw Hl Hv] Hva HM Ha. specialize (Hl va Hva). unfold leaf_pte in Hl.
  by rewrite HM, Ha in Hl.
Qed.

Lemma aspace_insert s root M va a v :
  aspace s root M → 0 <= va < MAXVA → leaf_addr (m_mem s) root va = Some a → 0 <= v < 2 ^ 64 →
  truth (Z.land v PTE_V) = true → aspace (store_mem a v s) root (<[va / PGSIZE := v]> M).
Proof.
  intros [Hw Hl Hv] Hva Ha Hr Ht. split.
  - by eapply leaf_store_wf.
  - intros va' Hva'. rewrite (leaf_store_pte s root va) by done. rewrite lookup_insert.
    case_decide; [done|by apply Hl].
  - intros vpn pte. rewrite lookup_insert. case_decide as E.
    + intros [= <-]. subst vpn. split; [done|by apply vpn_range].
    + apply Hv.
Qed.

Lemma aspace_delete s root M va a :
  aspace s root M → 0 <= va < MAXVA → leaf_addr (m_mem s) root va = Some a →
  aspace (store_mem a 0 s) root (delete (va / PGSIZE) M).
Proof.
  intros [Hw Hl Hv] Hva Ha. split.
  - by eapply leaf_store_wf.
  - intros va' Hva'. rewrite (leaf_store_pte s root va) by done. rewrite lookup_delete.
    case_decide; [done|by apply Hl].
  - intros vpn pte. rewrite lookup_delete. case_decide; [done|apply Hv].
Qed.

(** * walkaddr *)

(** The physical page of a user address, as [walkaddr] computes it. *)
Definition uaddr (M : gmap Z Z) (va : Z) : Z :=
  if MAXVA <=? va then 0 else
  match M !! (va / PGSIZE) with
  | Some pte => if truth (Z.land pte PTE_U) then PTE2PA pte else 0
  | None => 0
  end.

Lemma walkaddr_aspace s root M va :
  aspace s root M → 0 <= va → walkaddr root va s = Ok (uaddr M va) s.
Proof.
  intros Ha Hva. unfold walkaddr, uaddr. destruct (Z.leb_spec MAXVA va) as [|Hlt]; [done|].
  pose proof (as_wf _ _ _ Ha) as Hw. erewrite bind_ok; [|by apply walk_pure].
  pose proof (as_leaf _ _ _ Ha va ltac:(lia)) as Hl. unfold leaf_pte in Hl.
  destruct (leaf_addr (m_mem s) root va) as [a|] eqn:E; simpl.
  - destruct (leaf_addr_ok root va a s Hw E) as (Hram & Hpos & _).
    destruct (Z.eqb_spec a 0) as [|_]; [lia|]. unfold kload64. rewrite Hram.
    erewrite bind_ok; [|done]. rewrite Hl. destruct (M !! (va / PGSIZE)) as [pte|] eqn:EM; simpl.
    + rewrite (proj1 (as_valid _ _ _ Ha _ _ EM)). simpl. by destruct (truth _).
    + done.
  - destruct (M !! (va / PGSIZE)) as [pte|] eqn:EM; [|done]. simpl in Hl. subst pte.
    by destruct (as_valid _ _ _ Ha _ _ EM).
Qed.

(** * mappages *)

Definition mkpte (pa perm : Z) : Z := Z.lor (Z.lor (PA2PTE pa) perm) PTE_V.

Lemma mkpte_make pa perm : mkpte pa perm = Z.lor (PA2PTE pa) (Z.lor perm PTE_V).
Proof. unfold mkpte. by rewrite Z.lor_assoc. Qed.

Lemma lor_flags_range a b : 0 <= a < 1024 → 0 <= b < 1024 → 0 <= Z.lor a b < 1024.
Proof.
  intros Ha Hb. split; [apply Z.lor_nonneg; lia|].
  apply (Z.log2_lt_cancel _ (2 ^ 10)). rewrite Z.log2_lor, Z.log2_pow2 by lia.
  destruct (Z.eq_dec a 0) as [->|]; destruct (Z.eq_dec b 0) as [->|];
    rewrite ?Z.max_lub_lt_iff; try (split); try (by compute); apply Z.log2_lt_pow2; lia.
Qed.

Lemma mkpte_ok pa perm :
  0 <= pa < 2 ^ 56 → 0 <= perm < 1024 →
  0 <= mkpte pa perm < 2 ^ 54 ∧ truth (Z.land (mkpte pa perm) PTE_V) = true ∧
  PTE_FLAGS (mkpte pa perm) = Z.lor perm PTE_V.
Proof.
  intros Hpa Hp. rewrite mkpte_make.
  assert (0 <= Z.lor perm PTE_V < 1024) as Hr by (apply lor_flags_range; done).
  split_and!; [by apply pte_make_range..| |by apply PTE_FLAGS_make].
  rewrite (truth_flag_make pa (Z.lor perm PTE_V) 0 Hpa Hr ltac:(lia) : truth (Z.land _ PTE_V) = _).
  by rewrite Z.lor_spec, orb_true_r.
Qed.

Lemma mkpte_pa pa perm :
  0 <= pa < 2 ^ 56 → pa mod PGSIZE = 0 → 0 <= perm < 1024 → PTE2PA (mkpte pa perm) = pa.
Proof.
  intros Hpa Ha Hp. rewrite mkpte_make. apply PTE2PA_make; [done|done|].
  by apply lor_flags_range.
Qed.

(** The map after [k] pages from [vpn] on are mapped to consecutive pages from
    [pa] on. *)
Fixpoint map_run (k : nat) (M : gmap Z Z) (vpn pa perm : Z) : gmap Z Z :=
  match k with
  | O => M
  | S k' => <[vpn + Z.of_nat k' := mkpte (pa + Z.of_nat k' * PGSIZE) perm]> (map_run k' M vpn pa perm)
  end.

Lemma map_run_lookup k M vpn pa perm i :
  map_run k M vpn pa perm !! i =
  if decide (vpn <= i < vpn + Z.of_nat k) then Some (mkpte (pa + (i - vpn) * PGSIZE) perm)
  else M !! i.
Proof.
  induction k as [|k IH]; simpl.
  - rewrite decide_False; [done|lia].
  - rewrite lookup_insert, IH. repeat case_decide; try lia; try done.
    subst i. do 3 f_equal. lia.
Qed.

(** One page: the entry is stored, or no page-table page could be allocated. *)
Lemma map_one s root M fl va pa perm :
  aspace s root M → kmem_inv s fl → alloc_unlocked s → 0 <= va < MAXVA →
  M !! (va / PGSIZE) = None → 0 <= pa < 2 ^ 56 → 0 <= perm < 1024 →
  ∀ {B} (k : kM mach B) (Q : B → mach → Prop) (ret : B),
  (∀ s' used fl', pt_frame root s s' → fl = used ++ fl' → (length used <= 2)%nat →
     kmem_inv s' fl' →
     aspace s' root (<[va / PGSIZE := mkpte pa perm]> M) → wp k Q s') →
  (∀ s' used, pt_frame root s s' → fl = used → (length used <= 2)%nat → kmem_inv s' [] →
     aspace s' root M → Q ret s') →
  wp (pte ← walk root va true;
      if pte =? 0 then mret ret else
      v ← kload64 pte;
      if truth (Z.land v PTE_V) then panic "mappages: remap" else
      kstore64 pte (Z.lor (Z.lor (PA2PTE pa) perm) PTE_V) ;; k) Q s.
Proof.
  intros Ha Hk Hu Hva HM Hpa Hpe B k Q ret Hgo Hfail. wp_step.
  wp_use walk_alloc; [by eapply as_wf|done|done|lia|].
  intros a s1 (He & used & fl' & Hfl & Hlen & Hk1 & Hres). simpl.
  pose proof (aspace_ext _ _ _ _ Ha He) as Ha1. destruct (a =? 0) eqn:E.
  { wp_step. destruct Hres as [-> _]. rewrite app_nil_r in Hfl.
    eapply Hfail; [apply He|done|done|done|done]. }
  destruct (leaf_addr_ok root va a s1 (as_wf _ _ _ Ha1) Hres) as (Hram & _).
  wp_step. unfold kload64. rewrite Hram. wp_step. cbn beta.
  rewrite (aspace_unmapped _ _ _ va a Ha1 Hva HM Hres). simpl.
  wp_step. unfold kstore64. rewrite Hram. wp_step.
  destruct (mkpte_ok pa perm Hpa Hpe) as (Hr & Hv & _).
  eapply (Hgo (store_mem a (mkpte pa perm) s1)); [|done|done| |].
  - eapply pt_frame_trans; [apply He|]. eapply leaf_store_frame; [apply Ha1|done].
  - eapply leaf_store_kmem; [apply Ha1|done|done].
  - apply aspace_insert; [done|done|done|lia|done].
Qed.

(** [mappages] maps the pages that [va .. va+size-1] touches; when memory runs
    out it returns -1 with a proper prefix of them mapped. *)
Lemma mappages_spec s root M fl va size pa perm n :
  aspace s root M → kmem_inv s fl → alloc_unlocked s →
  0 <= va → 0 < size → va + size <= MAXVA → 0 <= perm < 1024 →
  PGROUNDDOWN (va + size - 1) = PGROUNDDOWN va + Z.of_nat n * PGSIZE →
  0 <= pa → pa + Z.of_nat n * PGSIZE < 2 ^ 56 →
  (∀ i, va / PGSIZE <= i <= va / PGSIZE + Z.of_nat n → M !! i = None) →
  wp (mappages root va size pa perm) (λ r s', pt_frame root s s' ∧ ∃ k used fl',
    fl = used ++ fl' ∧ (length used <= 2 * Datatypes.S n)%nat ∧ kmem_inv s' fl' ∧
    aspace s' root (map_run k M (va / PGSIZE) pa perm) ∧
    ((r = 0 ∧ k = Datatypes.S n) ∨ (r = -1 ∧ (k <= n)%nat ∧ fl' = []))) s.
Proof.
  intros Ha Hk Hu Hva Hsz Hmax Hpe Hlast Hpa Hpa2 HM. unfold mappages.
  destruct (Z.eqb_spec size 0) as [|_]; [lia|].
  rewrite u64_small by (change MAXVA with (2 ^ 38) in Hmax; lia). rewrite Hlast.
  rewrite PGROUNDDOWN_div in Hlast |- *. set (v0 := va / PGSIZE) in *.
  rewrite PGROUNDDOWN_div in Hlast.
  assert (0 <= v0) by (apply Z.div_pos; [lia|done]).
  assert ((va + size - 1) / PGSIZE = v0 + Z.of_nat n) as Hq by (unfold PGSIZE in *; lia).
  assert (v0 + Z.of_nat n < MAXVA / PGSIZE) as Hmaxn.
  { rewrite <- Hq. apply vpn_range. lia. }
  change (MAXVA / PGSIZE) with (2 ^ 26) in Hmaxn.
  eapply (wp_while (λ '(a, pa') s', ∃ k used fl', a = PGSIZE * (v0 + Z.of_nat k) ∧
      pa' = pa + Z.of_nat k * PGSIZE ∧ (k <= n)%nat ∧ pt_frame root s s' ∧
      fl = used ++ fl' ∧ (length used <= 2 * k)%nat ∧ kmem_inv s' fl' ∧
      aspace s' root (map_run k M v0 pa perm))
    (λ '(a, _) _, v0 + Z.of_nat n - a / PGSIZE)).
  2: { exists 0%nat, [], fl. rewrite Z.add_0_r. split_and!; try done; [lia|lia|apply pt_frame_refl]. }
  2: { rewrite (Z.mul_comm PGSIZE), Z.div_mul by done. lia. }
  intros [a pa'] s1 (k & used & fl1 & -> & -> & Hkn & Hf1 & -> & Hl1 & Hk1 & Ha1).
  assert (PGSIZE * (v0 + Z.of_nat k) / PGSIZE = v0 + Z.of_nat k) as Hdiv
    by (rewrite (Z.mul_comm PGSIZE); by apply Z.div_mul).
  assert (0 <= PGSIZE * (v0 + Z.of_nat k) < MAXVA) as Hvk
    by (rewrite Z.mul_comm; apply vpn_va; change (MAXVA / PGSIZE) with (2 ^ 26); lia).
  apply (map_one s1 root (map_run k M v0 pa perm) fl1); try done.
  - unfold alloc_unlocked. by rewrite (pf_held _ _ _ Hf1).
  - rewrite Hdiv, map_run_lookup, decide_False by lia. apply HM. lia.
  - unfold PGSIZE in *. lia.
  - intros s2 used2 fl2 Hf2 -> Hl2 Hk2 Ha2. rewrite Hdiv in Ha2.
    pose proof (pt_frame_trans _ _ _ _ Hf1 Hf2) as Hf.
    destruct (Z.eqb_spec (PGSIZE * (v0 + Z.of_nat k)) (PGSIZE * v0 + Z.of_nat n * PGSIZE)) as [E|E].
    + wp_step. split; [done|]. exists (Datatypes.S k), (used ++ used2), fl2.
      assert (k = n) as -> by (unfold PGSIZE in E; lia).
      rewrite length_app, app_assoc. split_and!; [done|lia|done|done|by left].
    + wp_step. assert (k ≠ n) by (intros ->; apply E; unfold PGSIZE; lia). split.
      * exists (Datatypes.S k), (used ++ used2), fl2. rewrite length_app, app_assoc.
        split_and!; [|..]; try done; try lia.
        -- rewrite u64_small by (unfold PGSIZE in *; lia). lia.
        -- rewrite u64_small by (unfold PGSIZE in *; lia). lia.
      * rewrite Hdiv, u64_small by (unfold PGSIZE in *; lia).
        replace (PGSIZE * (v0 + Z.of_nat k) + PGSIZE) with ((v0 + Z.of_nat k + 1) * PGSIZE) by lia.
        rewrite Z.div_mul by done. lia.
  - intros s2 used2 Hf2 -> Hl2 Hk2 Ha2. split; [by eapply pt_frame_trans|].
    exists k, (used ++ used2), []. rewrite length_app, app_nil_r.
    split_and!; [done|lia|done|done|by right].
Qed.

End pagetable.
