(* ===== verification/Uvm.v ===== *)
(** Address spaces together: the reference counts of copy-on-write pages.

    [vm s fl T K] describes the machine [s] whose user page tables are the keys
    of [T], each mapping pages as its finite map says.  Every page-table page
    belongs to one table; the reference count of any other page is the number
    of user mappings of the page plus the references [K] the kernel itself
    holds (a page between [kalloc] and [mappages], a trapframe, a pipe).  A page
    that is mapped writable is mapped once. *)
From S2P Require Import Prelude CString Spinlock Riscv Kalloc Vm PageTable.

(** * Counting mappings *)

(** The two pages at the top of a user address space, the trapframe and the
    trampoline, are mapped without holding a reference. *)
Definition owned (vpn : Z) : bool := vpn <? TRAPFRAME / PGSIZE.

Definition ref1 (vpn pte p : Z) : Z := if owned vpn && (PTE2PA pte =? p) then 1 else 0.

Definition refs1 (M : gmap Z Z) (p : Z) : Z :=
  Z.of_nat (size (filter (λ kv, owned kv.1 && (PTE2PA kv.2 =? p) = true) M)).

Definition refs (T : gmap Z (gmap Z Z)) (p : Z) : Z :=
  foldr Z.add 0 ((λ kv, refs1 kv.2 p) <$> map_to_list T).

Lemma refs1_insert M vpn pte p :
  M !! vpn = None → refs1 (<[vpn := pte]> M) p = refs1 M p + ref1 vpn pte p.
Proof.
  intros H. unfold refs1, ref1. destruct (owned vpn && (PTE2PA pte =? p)) eqn:E.
  - rewrite map_filter_insert_True by done. rewrite map_size_insert_None; [lia|].
    apply map_lookup_filter_None. by left.
  - rewrite map_filter_insert_False by (simpl; by rewrite E).
    rewrite delete_id by done. lia.
Qed.

Lemma refs1_delete M vpn pte p :
  M !! vpn = Some pte → refs1 (delete vpn M) p = refs1 M p - ref1 vpn pte p.
Proof.
  intros H. rewrite <- (insert_delete_id M vpn pte H) at 2.
  rewrite refs1_insert by apply lookup_delete_eq. lia.
Qed.

Lemma refs1_update M vpn pte pte' p :
  M !! vpn = Some pte →
  refs1 (<[vpn := pte']> M) p = refs1 M p - ref1 vpn pte p + ref1 vpn pte' p.
Proof.
  intros H. rewrite <- insert_delete_eq, refs1_insert by apply lookup_delete_eq.
  rewrite (refs1_delete _ _ pte) by done. lia.
Qed.

Lemma refs1_empty p : refs1 ∅ p = 0.
Proof. unfold refs1. by rewrite map_filter_empty, map_size_empty. Qed.

Lemma refs1_nonneg M p : 0 <= refs1 M p.
Proof. unfold refs1. lia. Qed.

Lemma foldr_add_perm (l1 l2 : list Z) : l1 ≡ₚ l2 → foldr Z.add 0 l1 = foldr Z.add 0 l2.
Proof. induction 1; simpl; lia. Qed.

Lemma refs_insert T r M p : T !! r = None → refs (<[r := M]> T) p = refs1 M p + refs T p.
Proof.
  intros H. unfold refs.
  rewrite (foldr_add_perm _ ((λ kv, refs1 kv.2 p) <$> (r, M) :: map_to_list T)); [done|].
  by rewrite map_to_list_insert.
Qed.

Lemma refs_lookup T r M p : T !! r = Some M → refs T p = refs1 M p + refs (delete r T) p.
Proof.
  intros H. rewrite <- (insert_delete_id T r M H) at 1. apply refs_insert, lookup_delete_eq.
Qed.

Lemma refs_update T r M M' p :
  T !! r = Some M → refs (<[r := M']> T) p = refs T p - refs1 M p + refs1 M' p.
Proof.
  intros H. rewrite <- insert_delete_eq, refs_insert by apply lookup_delete_eq.
  rewrite (refs_lookup T r M) by done. lia.
Qed.

Lemma refs_nonneg T p : 0 <= refs T p.
Proof.
  unfold refs. induction (map_to_list T) as [|[r M] l IH]; [done|].
  rewrite fmap_cons. simpl.
  pose proof (refs1_nonneg M p). lia.
Qed.

(** A mapping counts. *)
Lemma refs_mapped T r M vpn pte :
  T !! r = Some M → M !! vpn = Some pte → owned vpn = true → 1 <= refs T (PTE2PA pte).
Proof.
  intros HT HM Ho. rewrite (refs_lookup T r M) by done.
  pose proof (refs_nonneg (delete r T) (PTE2PA pte)).
  pose proof (refs1_delete M vpn pte (PTE2PA pte) HM) as Hd.
  pose proof (refs1_nonneg (delete vpn M) (PTE2PA pte)).
  unfold ref1 in Hd. rewrite Ho, Z.eqb_refl in Hd. simpl in Hd. lia.
Qed.

(** A page mapped once is mapped in one place. *)
Lemma refs_one T r1 M1 v1 pte1 r2 M2 v2 pte2 :
  T !! r1 = Some M1 → M1 !! v1 = Some pte1 → owned v1 = true →
  T !! r2 = Some M2 → M2 !! v2 = Some pte2 → owned v2 = true →
  PTE2PA pte1 = PTE2PA pte2 → refs T (PTE2PA pte1) <= 1 → r1 = r2 ∧ v1 = v2.
Proof.
  intros HT1 HM1 Ho1 HT2 HM2 Ho2 Hpa Hle.
  destruct (decide (r1 = r2)) as [->|Hr].
  - split; [done|]. destruct (decide (v1 = v2)) as [|Hv]; [done|]. exfalso. simplify_eq.
    pose proof (refs_mapped (<[r2 := delete v1 M1]> T) r2 (delete v1 M1) v2 pte2
      (lookup_insert_eq _ _ _)) as Hm.
    rewrite lookup_delete_ne in Hm by done. specialize (Hm HM2 Ho2).
    rewrite (refs_update T r2 M1), (refs1_delete M1 v1 pte1) in Hm by done.
    unfold ref1 in Hm. rewrite Ho1, Hpa, Z.eqb_refl in Hm. rewrite Hpa in Hle. simpl in Hm. lia.
  - exfalso. rewrite (refs_lookup T r1 M1) in Hle by done.
    pose proof (refs_mapped (delete r1 T) r2 M2 v2 pte2) as Hm.
    rewrite lookup_delete_ne in Hm by done. specialize (Hm HT2 HM2 Ho2).
    pose proof (refs1_delete M1 v1 pte1 (PTE2PA pte1) HM1) as Hd.
    pose proof (refs1_nonneg (delete v1 M1) (PTE2PA pte1)).
    unfold ref1 in Hd. rewrite Ho1, Z.eqb_refl in Hd. simpl in Hd. rewrite Hpa in *. lia.
Qed.

Section uvm.
Context `{KI : !KernelImage}.

Definition table_of (s : mach) (T : gmap Z (gmap Z Z)) (t : Z) : Prop :=
  ∃ r M, T !! r = Some M ∧ is_table s r t.

Record vm (s : mach) (fl : list Z) (T : gmap Z (gmap Z Z)) (K : Z → Z) : Prop := {
  vm_kmem : kmem_inv s fl;
  vm_space : ∀ r M, T !! r = Some M → aspace s r M;
  vm_disj : ∀ r1 r2 M1 M2 t, T !! r1 = Some M1 → T !! r2 = Some M2 →
    is_table s r1 t → is_table s r2 t → r1 = r2;
  vm_user : ∀ r M vpn pte, T !! r = Some M → M !! vpn = Some pte → owned vpn = true →
    page_ok (PTE2PA pte) ∧ 0 <= pte < 2 ^ 54;
  vm_rc : ∀ p, page_ok p → ¬ table_of s T p → m_pgrc s (p / PGSIZE) = K p + refs T p;
  vm_tab : ∀ p, table_of s T p → K p = 0 ∧ refs T p = 0;
  vm_cow : ∀ r M vpn pte, T !! r = Some M → M !! vpn = Some pte → owned vpn = true →
    truth (Z.land pte PTE_W) = true → m_pgrc s (PTE2PA pte / PGSIZE) <= 1
}.

(** The data pages keep their contents. *)
Definition data_same (s : mach) (T : gmap Z (gmap Z Z)) (s' : mach) : Prop :=
  ∀ p x, page_ok p → m_pgrc s (p / PGSIZE) ≠ 0 → ¬ table_of s T p → in_page p x →
    rd8 (m_mem s') x = rd8 (m_mem s) x.

(** An entry [M'] may hold in a table after an update of the state to [s']. *)
Definition entry_ok (s' : mach) (vpn pte : Z) : Prop :=
  owned vpn = true → page_ok (PTE2PA pte) ∧ 0 <= pte < 2 ^ 54 ∧
    (truth (Z.land pte PTE_W) = true → m_pgrc s' (PTE2PA pte / PGSIZE) <= 1).

Lemma table_page s fl T K t : vm s fl T K → table_of s T t → page_ok t ∧ m_pgrc s (t / PGSIZE) = 1.
Proof.
  intros Hvm (r & M & HT & Ht). destruct (as_wf _ _ _ (vm_space _ _ _ _ Hvm r M HT)) as [Hp Hr _].
  auto.
Qed.

(** A mapped user page is not a page-table page, and is not free. *)
Lemma mapped_page s fl T K r M vpn pte :
  vm s fl T K → T !! r = Some M → M !! vpn = Some pte → owned vpn = true →
  page_ok (PTE2PA pte) ∧ ¬ table_of s T (PTE2PA pte) ∧
  (0 <= K (PTE2PA pte) → 1 <= m_pgrc s (PTE2PA pte / PGSIZE)).
Proof.
  intros Hvm HT HM Ho. destruct (vm_user _ _ _ _ Hvm r M vpn pte HT HM Ho) as [Hp _].
  pose proof (refs_mapped T r M vpn pte HT HM Ho) as Hr.
  assert (¬ table_of s T (PTE2PA pte)) as Hn by (intros [_ ?]%(vm_tab _ _ _ _ Hvm); lia).
  split_and!; [done|done|]. intros HK. rewrite (vm_rc _ _ _ _ Hvm) by done. lia.
Qed.

Section update.
  Context (s s' : mach) (fl fl' : list Z) (T : gmap Z (gmap Z Z)) (K K' : Z → Z).
  Context (r : Z) (M M' : gmap Z Z).
  Context (Hvm : vm s fl T K) (HT : T !! r = Some M).
  Context (Hf : pt_frame r s s') (Has : aspace s' r M') (Hk : kmem_inv s' fl').
  Context (HK : ∀ p, K' p + refs1 M' p = K p + refs1 M p).
  Context (HKt : ∀ t, is_table s' r t ∨ table_of s T t → K' t = K t).
  Context (Hnew : ∀ t, page_ok t → m_pgrc s (t / PGSIZE) = 0 → is_table s' r t → K t = 0).
  Context (Hent : ∀ vpn pte, M' !! vpn = Some pte → M !! vpn ≠ Some pte → entry_ok s' vpn pte).

Lemma update_other r' N :
  T !! r' = Some N → r' ≠ r → aspace s' r' N ∧ ∀ t, is_table s' r' t ↔ is_table s r' t.
Proof.
  intros HT' Hne. pose proof (vm_space _ _ _ _ Hvm r' N HT') as Ha.
  pose proof (as_wf _ _ _ Ha) as Hw. apply aspace_same; [done| |].
  - intros t x Ht Hx. pose proof (pw_page _ _ Hw t Ht) as Hok. apply (pf_mem _ _ _ Hf).
    + intros t' Ht'. assert (t ≠ t') as Htt
        by (intros ->; by apply Hne, (vm_disj _ _ _ _ Hvm r' r N M t')).
      apply (page_ok_disjoint t); [done| |done|done].
      by apply (pw_page _ _ (as_wf _ _ _ (vm_space _ _ _ _ Hvm r M HT))).
    + intros p Hp H0. apply (page_ok_disjoint t); [done|done| |done].
      intros <-. rewrite (pw_rc _ _ Hw) in H0 by done. done.
  - intros t Ht. apply (pf_rc _ _ _ Hf). by rewrite (pw_rc _ _ Hw t Ht).
Qed.

Lemma update_refs p : K' p + refs (<[r := M']> T) p = K p + refs T p.
Proof. rewrite (refs_update T r M) by done. specialize (HK p). lia. Qed.

Lemma update_table t :
  table_of s' (<[r := M']> T) t ↔ is_table s' r t ∨ table_of s T t.
Proof.
  split.
  - intros (r' & N & HT' & Ht). rewrite lookup_insert in HT'. case_decide as E.
    + subst r'. by left.
    + right. exists r', N. split; [done|]. by apply (update_other r' N).
  - intros [Ht|(r' & N & HT' & Ht)].
    + exists r, M'. by rewrite lookup_insert_eq.
    + destruct (decide (r = r')) as [<-|E].
      * exists r, M'. rewrite lookup_insert_eq. split; [done|by apply (pf_mono _ _ _ Hf)].
      * exists r', N. rewrite lookup_insert_ne by done. split; [done|]. by apply (update_other r' N).
Qed.

Lemma update_disj r1 r2 M1 M2 t :
  <[r := M']> T !! r1 = Some M1 → <[r := M']> T !! r2 = Some M2 →
  is_table s' r1 t → is_table s' r2 t → r1 = r2.
Proof.
  assert (∀ r' N, T !! r' = Some N → r' ≠ r → is_table s' r' t → ¬ is_table s' r t) as Hx.
  { intros r' N HN Hne Ht. apply (update_other r' N HN Hne) in Ht.
    intros [Ht'|[Hok H0]]%(pf_tables _ _ _ Hf).
    - by apply Hne, (vm_disj _ _ _ _ Hvm r' r N M t).
    - rewrite (pw_rc _ _ (as_wf _ _ _ (vm_space _ _ _ _ Hvm r' N HN))) in H0; done. }
  intros [[E1 _]|[E1 H1]]%lookup_insert_Some [[E2 _]|[E2 H2]]%lookup_insert_Some Ht1 Ht2.
  - congruence.
  - rewrite <- E1 in Ht1. by destruct (Hx r2 M2 H2 ltac:(congruence) Ht2 Ht1).
  - rewrite <- E2 in Ht2. by destruct (Hx r1 M1 H1 ltac:(congruence) Ht1 Ht2).
  - apply (update_other r1 M1) in Ht1; [|done|done]. apply (update_other r2 M2) in Ht2; [|done|done].
    by apply (vm_disj _ _ _ _ Hvm r1 r2 M1 M2 t).
Qed.

Lemma update_entry r' N vpn pte :
  <[r := M']> T !! r' = Some N → N !! vpn = Some pte → owned vpn = true →
  (page_ok (PTE2PA pte) ∧ 0 <= pte < 2 ^ 54) ∧
  (truth (Z.land pte PTE_W) = true → m_pgrc s' (PTE2PA pte / PGSIZE) <= 1).
Proof.
  intros HN Hp Ho.
  assert (∀ r' N, T !! r' = Some N → N !! vpn = Some pte →
    (page_ok (PTE2PA pte) ∧ 0 <= pte < 2 ^ 54) ∧
    (truth (Z.land pte PTE_W) = true → m_pgrc s' (PTE2PA pte / PGSIZE) <= 1)) as Hold.
  { clear r' N HN Hp. intros r' N HN Hp. split; [by apply (vm_user _ _ _ _ Hvm r' N vpn)|].
    intros Hw. pose proof (vm_cow _ _ _ _ Hvm r' N vpn pte HN Hp Ho Hw) as Hle.
    destruct (mapped_page _ _ _ _ _ _ _ _ Hvm HN Hp Ho) as (Hok & Hnt & _).
    destruct (decide (m_pgrc s (PTE2PA pte / PGSIZE) = 0)) as [E|E].
    - destruct (decide (m_pgrc s' (PTE2PA pte / PGSIZE) = 0)) as [->|E']; [lia|].
      pose proof (pf_new _ _ _ Hf _ Hok E E') as Htab.
      by rewrite (pw_rc _ _ (as_wf _ _ _ Has) _ Htab).
    - by rewrite (pf_rc _ _ _ Hf _ E). }
  rewrite lookup_insert in HN. case_decide as E; [|by eapply Hold].
  simplify_eq. destruct (decide (M !! vpn = Some pte)) as [D|D]; [by eapply Hold|].
  destruct (Hent _ _ Hp D Ho) as (? & ? & ?). done.
Qed.

Lemma vm_update : vm s' fl' (<[r := M']> T) K'.
Proof.
  split.
  - done.
  - intros r' N HN. rewrite lookup_insert in HN. case_decide as E; [by simplify_eq|].
    by apply update_other.
  - apply update_disj.
  - intros. by eapply update_entry.
  - intros p Hp Hn. rewrite update_refs. rewrite update_table in Hn.
    destruct (decide (m_pgrc s (p / PGSIZE) = 0)) as [E|E].
    + destruct (decide (m_pgrc s' (p / PGSIZE) = 0)) as [E'|E'].
      * rewrite E', <- E. apply (vm_rc _ _ _ _ Hvm); [done|tauto].
      * destruct Hn. left. by apply (pf_new _ _ _ Hf).
    + rewrite (pf_rc _ _ _ Hf _ E). apply (vm_rc _ _ _ _ Hvm); [done|tauto].
  - intros p Hp%update_table. pose proof (update_refs p) as Hr.
    rewrite (HKt p Hp) in *. pose proof (refs_nonneg (<[r := M']> T) p).
    assert (table_of s T p ∨ (page_ok p ∧ m_pgrc s (p / PGSIZE) = 0 ∧ is_table s' r p))
      as [Ht|(Hok & H0 & Ht)].
    { destruct Hp as [Ht|Ht]; [|by left]. pose proof Ht as [Ht'|[? ?]]%(pf_tables _ _ _ Hf).
      - left. by exists r, M.
      - by right. }
    + destruct (vm_tab _ _ _ _ Hvm p Ht). lia.
    + assert (¬ table_of s T p) as Hn by (intros [_ ?]%(table_page _ _ _ _ _ Hvm); lia).
      pose proof (vm_rc _ _ _ _ Hvm p Hok Hn). rewrite (Hnew p Hok H0 Ht) in *. lia.
  - intros r' N vpn pte HN HM Ho Hw. by eapply update_entry.
Qed.

(** The update only touches page-table pages and free pages. *)
Lemma update_data : data_same s T s'.
Proof.
  intros p x Hp H0 Hn Hx. apply (pf_mem _ _ _ Hf).
  - intros t Ht. assert (table_of s T t) as Ht' by (by exists r, M).
    apply (page_ok_disjoint p); [done|by apply (table_page _ _ _ _ _ Hvm)| |done].
    intros E. apply Hn. by rewrite E.
  - intros q Hq Hq0. apply (page_ok_disjoint p); [done|done| |done].
    intros E. by rewrite <- E in Hq0.
Qed.
End update.
(** ** Changes outside the page tables *)

Definition kpos (K : Z → Z) : Prop := ∀ p, 0 <= K p.
Definition kadd (K : Z → Z) (p n : Z) : Z → Z := λ q, if q =? p then K q + n else K q.

Lemma kadd_eq K p n : kadd K p n p = K p + n.
Proof. unfold kadd. by rewrite Z.eqb_refl. Qed.
Lemma kadd_ne K p n q : q ≠ p → kadd K p n q = K q.
Proof. unfold kadd. intros H. by destruct (Z.eqb_spec q p). Qed.

(** Pages with no reference have none of the kernel's. *)
Lemma free_no_ref s fl T K p :
  vm s fl T K → kpos K → page_ok p → m_pgrc s (p / PGSIZE) = 0 →
  K p = 0 ∧ refs T p = 0 ∧ ¬ table_of s T p.
Proof.
  intros Hvm HK Hp H0.
  assert (¬ table_of s T p) as Hn by (intros [_ ?]%(table_page _ _ _ _ _ Hvm); lia).
  pose proof (vm_rc _ _ _ _ Hvm p Hp Hn). pose proof (refs_nonneg T p). specialize (HK p).
  split_and!; [lia|lia|done].
Qed.

Lemma vm_data s s' fl fl' T K K' :
  vm s fl T K → kmem_inv s' fl' →
  (∀ t x, table_of s T t → in_page t x → rd8 (m_mem s') x = rd8 (m_mem s) x) →
  (∀ t, table_of s T t → m_pgrc s' (t / PGSIZE) = m_pgrc s (t / PGSIZE) ∧ K' t = K t) →
  (∀ p, page_ok p → ¬ table_of s T p →
     m_pgrc s' (p / PGSIZE) - m_pgrc s (p / PGSIZE) = K' p - K p) →
  (∀ r M vpn pte, T !! r = Some M → M !! vpn = Some pte → owned vpn = true →
     truth (Z.land pte PTE_W) = true → m_pgrc s' (PTE2PA pte / PGSIZE) <= 1) →
  vm s' fl' T K' ∧ ∀ t, table_of s' T t ↔ table_of s T t.
Proof.
  intros Hvm Hk Hm Ht Hrc Hcow.
  assert (∀ r M, T !! r = Some M → aspace s' r M ∧ ∀ t, is_table s' r t ↔ is_table s r t) as Hs.
  { intros r M HT. apply aspace_same; [by apply (vm_space _ _ _ _ Hvm)| |].
    - intros t x Hit. apply Hm. by exists r, M.
    - intros t Hit. apply Ht. by exists r, M. }
  assert (∀ t, table_of s' T t ↔ table_of s T t) as Htab.
  { intros t. split; intros (r & M & HT & Hit); exists r, M; (split; [done|]); by apply (Hs r M). }
  split; [|done]. split.
  - done.
  - intros r M HT. by apply Hs.
  - intros r1 r2 M1 M2 t H1 H2 Hi1 Hi2.
    apply (Hs r1 M1 H1) in Hi1. apply (Hs r2 M2 H2) in Hi2.
    by apply (vm_disj _ _ _ _ Hvm r1 r2 M1 M2 t).
  - apply Hvm.
  - intros p Hp. rewrite Htab. intros Hn. pose proof (vm_rc _ _ _ _ Hvm p Hp Hn).
    specialize (Hrc p Hp Hn). lia.
  - intros p. rewrite Htab. intros Hp. destruct (Ht p Hp) as [_ ->]. by apply (vm_tab _ _ _ _ Hvm).
  - done.
Qed.

Lemma kfree_vm s fl T K pa :
  vm s fl T K → alloc_unlocked s → page_ok pa → ¬ table_of s T pa →
  1 <= m_pgrc s (pa / PGSIZE) →
  wp (kfree pa) (λ _ s', freed pa s s' ∧ (∀ t, table_of s' T t ↔ table_of s T t) ∧
    vm s' (if m_pgrc s (pa / PGSIZE) =? 1 then pa :: fl else fl) T (kadd K pa (-1))) s.
Proof.
  intros Hvm Hu Hp Hn Hrc. wp_use kfree_spec; [done|done|apply Hvm|lia|].
  intros _ s' (Hf & Hk). pose proof Hf as (Hh & Hm & Hc).
  assert (∀ t, table_of s T t → t ≠ pa ∧ page_ok t) as Htp.
  { intros t Ht. split; [by intros ->|]. by apply (table_page _ _ _ _ _ Hvm). }
  destruct (vm_data s s' fl _ T K (kadd K pa (-1)) Hvm Hk) as [Hvm' Htab]; [..|done].
  - intros t x Ht Hx. apply Hm. left. destruct (Htp t Ht). by apply (page_ok_disjoint t).
  - intros t Ht. destruct (Htp t Ht). rewrite kadd_ne, Hc, decide_False by (done || by apply page_index_ne).
    split; [lia|done].
  - intros p Hp' Hn'. rewrite Hc. unfold kadd. destruct (Z.eqb_spec p pa) as [->|Hne].
    + rewrite decide_True by done. lia.
    + rewrite decide_False by (by apply page_index_ne). lia.
  - intros r M vpn pte HT HM Ho Hw. rewrite Hc.
    pose proof (vm_cow _ _ _ _ Hvm r M vpn pte HT HM Ho Hw). case_decide; lia.
Qed.

Lemma kalloc_vm s fl T K p :
  vm s (p :: fl) T K → kpos K → alloc_unlocked s →
  wp kalloc (λ r s', r = p ∧ page_ok p ∧ m_pgrc s (p / PGSIZE) = 0 ∧ ¬ table_of s T p ∧
    allocated p s s' ∧ (∀ t, table_of s' T t ↔ table_of s T t) ∧ vm s' fl T (kadd K p 1)) s.
Proof.
  intros Hvm HK Hu. pose proof (vm_kmem _ _ _ _ Hvm) as Hki.
  assert (page_ok p) as Hp by (apply (ki_page _ _ Hki); constructor).
  assert (m_pgrc s (p / PGSIZE) = 0) as H0 by (apply (ki_free _ _ Hki); [done|constructor]).
  destruct (free_no_ref _ _ _ _ _ Hvm HK Hp H0) as (HK0 & Hr0 & Hn).
  wp_use kalloc_spec; [done|done|]. intros r s' (-> & Ha & Hk). pose proof Ha as (Hh & Hm & Hc).
  assert (∀ t, table_of s T t → t ≠ p ∧ page_ok t) as Htp.
  { intros t Ht. split; [by intros ->|]. by apply (table_page _ _ _ _ _ Hvm). }
  destruct (vm_data s s' (p :: fl) fl T K (kadd K p 1) Hvm Hk) as [Hvm' Htab]; [..|done].
  - intros t x Ht Hx. rewrite Hm, decide_False; [done|]. destruct (Htp t Ht).
    by apply (page_ok_disjoint t).
  - intros t Ht. destruct (Htp t Ht). rewrite kadd_ne, Hc, decide_False by (done || by apply page_index_ne).
    done.
  - intros q Hq Hnq. rewrite Hc. unfold kadd. destruct (Z.eqb_spec q p) as [->|Hne].
    + rewrite decide_True by done. lia.
    + rewrite decide_False by (by apply page_index_ne). lia.
  - intros r M vpn pte HT HM Ho Hw. rewrite Hc.
    pose proof (vm_cow _ _ _ _ Hvm r M vpn pte HT HM Ho Hw). case_decide; lia.
Qed.

Lemma kalloc_vm_empty s T K : vm s [] T K → alloc_unlocked s → kalloc s = Ok 0 s.
Proof. intros Hvm Hu. apply kalloc_empty; [apply Hvm|done]. Qed.

Lemma incpgrc_vm s fl T K pa (Q : () → mach → Prop) :
  vm s fl T K → alloc_unlocked s → page_ok pa → ¬ table_of s T pa →
  1 <= m_pgrc s (pa / PGSIZE) →
  (∀ r M vpn pte, T !! r = Some M → M !! vpn = Some pte → owned vpn = true →
     truth (Z.land pte PTE_W) = true → PTE2PA pte ≠ pa) →
  (∀ s', m_mem s' = m_mem s → m_held s' = m_held s →
     m_pgrc s' = upd (m_pgrc s) (pa / PGSIZE) (m_pgrc s (pa / PGSIZE) + 1) →
     (∀ t, table_of s' T t ↔ table_of s T t) → vm s' fl T (kadd K pa 1) → Q () s') →
  wp (incpgrc pa) Q s.
Proof.
  intros Hvm [_ Hu] Hp Hn Hrc Hw HQ.
  apply incpgrc_spec; rewrite page_ok_index by done; [apply Hu|lia|].
  assert (∀ q, page_ok q → q ≠ pa → q / PGSIZE ≠ pa / PGSIZE) as Hne by (intros; by apply page_index_ne).
  set (s' := s <| m_pgrc := _ |>).
  assert (∀ q, page_ok q → m_pgrc s' (q / PGSIZE) =
    m_pgrc s (q / PGSIZE) + if decide (q = pa) then 1 else 0) as Hc.
  { intros q Hq. cbn. unfold upd. destruct (Z.eqb_spec (q / PGSIZE) (pa / PGSIZE)) as [E|E].
    - assert (q = pa) as -> by (destruct Hp, Hq; by apply page_index_inj).
      by rewrite decide_True.
    - rewrite decide_False by (by intros ->). lia. }
  destruct (vm_data s s' fl fl T K (kadd K pa 1) Hvm) as [Hvm' Htab]; [..|by apply (HQ s')].
  - destruct (vm_kmem _ _ _ _ Hvm) as [H1 H2 H3 H4 H5]. split; try done.
    + intros q Hq. rewrite Hc, H4 by done. case_decide; [subst q; lia|rewrite Z.add_0_r; done].
    + intros q Hq. rewrite Hc by done. specialize (H5 q Hq). case_decide; lia.
  - done.
  - intros t Ht. destruct (table_page _ _ _ _ _ Hvm Ht) as [Hok _].
    assert (t ≠ pa) by (by intros ->). rewrite Hc, decide_False, kadd_ne by done. split; [lia|done].
  - intros q Hq _. rewrite Hc by done. unfold kadd.
    destruct (Z.eqb_spec q pa); case_decide; try done; lia.
  - intros r M vpn pte HT HM Ho Hpw. destruct (vm_user _ _ _ _ Hvm r M vpn pte HT HM Ho) as [Hok _].
    rewrite Hc, decide_False by (done || by eapply Hw).
    pose proof (vm_cow _ _ _ _ Hvm r M vpn pte HT HM Ho Hpw). lia.
Qed.

End uvm.
