(* ===== verification/UvmOps.v ===== *)
(** The user-memory operations of [kernel/vm.c] on address spaces: mapping,
    unmapping, growing, shrinking, and the copy-on-write copy of [fork]. *)
From S2P Require Import Prelude CString Spinlock Riscv Kalloc Vm PageTable Uvm.

Section uvmops.
Context `{KI : !KernelImage}.
Implicit Types (T : gmap Z (gmap Z Z)) (M : gmap Z Z) (K : Z → Z).

(** Operations that only add references keep every data page in use. *)
Definition grows (s : mach) T (s' : mach) T' : Prop :=
  m_held s' = m_held s ∧
  ∀ p, page_ok p → 0 < m_pgrc s (p / PGSIZE) → ¬ table_of s T p →
    ¬ table_of s' T' p ∧ m_pgrc s (p / PGSIZE) <= m_pgrc s' (p / PGSIZE) ∧
    ∀ x, in_page p x → rd8 (m_mem s') x = rd8 (m_mem s) x.

(** Operations that only drop references keep the data pages still in use. *)
Definition drops (s : mach) T (s' : mach) T' : Prop :=
  m_held s' = m_held s ∧
  ∀ p, page_ok p → 0 < m_pgrc s' (p / PGSIZE) → ¬ table_of s T p →
    ¬ table_of s' T' p ∧ m_pgrc s' (p / PGSIZE) <= m_pgrc s (p / PGSIZE) ∧
    ∀ x, in_page p x → rd8 (m_mem s') x = rd8 (m_mem s) x.

Lemma grows_refl s T : grows s T s T.
Proof. split; [done|]. intros. split_and!; [done|lia|done]. Qed.

Lemma grows_trans s1 T1 s2 T2 s3 T3 : grows s1 T1 s2 T2 → grows s2 T2 s3 T3 → grows s1 T1 s3 T3.
Proof.
  intros [H1 G1] [H2 G2]. split; [congruence|]. intros p Hp Hr Hn.
  destruct (G1 p Hp Hr Hn) as (Hn2 & Hle & Hd). destruct (G2 p Hp ltac:(lia) Hn2) as (Hn3 & Hle' & Hd').
  split_and!; [done|lia|]. intros x Hx. by rewrite Hd', Hd.
Qed.

Lemma drops_refl s T : drops s T s T.
Proof. split; [done|]. intros. split_and!; [done|lia|done]. Qed.

Lemma drops_trans s1 T1 s2 T2 s3 T3 :
  (∀ p, table_of s2 T2 p ↔ table_of s1 T1 p) →
  (∀ p, page_ok p → ¬ table_of s2 T2 p → m_pgrc s3 (p / PGSIZE) <= m_pgrc s2 (p / PGSIZE)) →
  drops s1 T1 s2 T2 → drops s2 T2 s3 T3 → drops s1 T1 s3 T3.
Proof.
  intros Ht Hle [H1 G1] [H2 G2]. split; [congruence|]. intros p Hp Hr Hn.
  rewrite <- Ht in Hn. destruct (G2 p Hp Hr Hn) as (Hn3 & Hl3 & Hd3).
  rewrite Ht in Hn. destruct (G1 p Hp ltac:(lia) Hn) as (Hn2 & Hl2 & Hd2).
  split_and!; [done|lia|]. intros x Hx. by rewrite Hd3, Hd2.
Qed.

Lemma vm_ext s fl T K K' : (∀ p, K' p = K p) → vm s fl T K → vm s fl T K'.
Proof.
  intros H [H1 H2 H3 H4 H5 H6 H7]. split; try done.
  - intros p Hp Hn. rewrite H. by apply H5.
  - intros p Hp. rewrite H. by apply H6.
Qed.

(** * Mapping a page *)

Lemma ref1_self vpn pte : owned vpn = true → ref1 vpn pte (PTE2PA pte) = 1.
Proof. intros H. unfold ref1. by rewrite H, Z.eqb_refl. Qed.

Lemma ref1_ne vpn pte p : p ≠ PTE2PA pte ∨ owned vpn = false → ref1 vpn pte p = 0.
Proof.
  unfold ref1. intros [H|H]; [|by rewrite H]. destruct (Z.eqb_spec (PTE2PA pte) p); [by subst|].
  by rewrite andb_false_r.
Qed.

Lemma pt_frame_grows s s' fl T K r M M' T' :
  vm s fl T K → T !! r = Some M → pt_frame r s s' →
  (∀ t, table_of s' T' t → is_table s' r t ∨ table_of s T t) → grows s T s' T'.
Proof.
  intros Hvm HT Hf Htab. split; [apply Hf|]. intros p Hp Hr Hn. split_and!.
  - intros [Ht|Ht]%Htab; [|done]. apply (pf_tables _ _ _ Hf) in Ht as [Ht|[_ H0]]; [|lia].
    apply Hn. by exists r, M.
  - rewrite (pf_rc _ _ _ Hf) by lia. lia.
  - intros x Hx. eapply (update_data s s' fl T K r M); [done|done|done|done|lia|done|done].
Qed.

(** What [mappages] of one page requires of the new entry. *)
Definition may_map (s : mach) T (vpn pa perm : Z) : Prop :=
  0 <= pa < 2 ^ 56 ∧ pa mod PGSIZE = 0 ∧ 0 <= perm < 1024 ∧
  (owned vpn = true → page_ok pa ∧ ¬ table_of s T pa ∧ 0 < m_pgrc s (pa / PGSIZE) ∧
     (Z.testbit perm 2 = true → m_pgrc s (pa / PGSIZE) <= 1)).

Lemma mkpte_w pa perm :
  0 <= pa < 2 ^ 56 → 0 <= perm < 1024 →
  truth (Z.land (mkpte pa perm) PTE_W) = Z.testbit perm 2.
Proof.
  intros Hpa Hpe. unfold PTE_W. rewrite truth_flag by lia.
  destruct (mkpte_ok pa perm Hpa Hpe) as (_ & _ & ->).
  rewrite Z.lor_spec. change (Z.testbit PTE_V 2) with false. apply orb_false_r.
Qed.

Lemma mappages_vm s fl T K r M va pa perm :
  vm s fl T K → kpos K → alloc_unlocked s → T !! r = Some M →
  0 <= va < MAXVA → va mod PGSIZE = 0 → M !! (va / PGSIZE) = None →
  may_map s T (va / PGSIZE) pa perm →
  wp (mappages r va PGSIZE pa perm) (λ x s', ∃ used fl', fl = used ++ fl' ∧
    (length used <= 2)%nat ∧ m_held s' = m_held s ∧
    (∀ i, m_pgrc s i ≠ 0 → m_pgrc s' i = m_pgrc s i) ∧
    let pte := mkpte pa perm in let T' := <[r := <[va / PGSIZE := pte]> M]> T in
    ((x = 0 ∧ grows s T s' T' ∧ vm s' fl' T' (λ p, K p - ref1 (va / PGSIZE) pte p)) ∨
     (x = -1 ∧ fl' = [] ∧ grows s T s' T ∧ vm s' fl' T K))) s.
Proof.
  intros Hvm HK Hu HT Hva Hal HM (Hpa & Hpal & Hpe & Hown).
  pose proof (vm_space _ _ _ _ Hvm r M HT) as Ha.
  assert (∀ t s', page_ok t → m_pgrc s (t / PGSIZE) = 0 → is_table s' r t → K t = 0) as Hnew
    by (intros t s' Hp H0 _; by apply (free_no_ref _ _ _ _ _ Hvm HK)).
  pose proof (Z.div_mod va PGSIZE ltac:(done)) as Hdiv.
  wp_use (mappages_spec s r M fl va PGSIZE pa perm 0);
    [done|apply Hvm|done|lia|done| |done| |lia|lia| |].
  { pose proof (aligned_lt_add va MAXVA Hal ltac:(done)). lia. }
  { replace (va + PGSIZE - 1) with (PGSIZE - 1 + va / PGSIZE * PGSIZE) by lia.
    rewrite !PGROUNDDOWN_div, Z.div_add by done. change ((PGSIZE - 1) / PGSIZE) with 0. lia. }
  { intros i Hi. by replace i with (va / PGSIZE) by lia. }
  intros x s' (Hf & k & used & fl' & Hfl & Hlen & Hk & Has & Hres).
  exists used, fl'. split_and!; [done|lia|apply Hf|apply Hf|]. cbn zeta.
  destruct Hres as [[-> ->]|(-> & Hk0 & ->)]; [left|right].
  - simpl in Has. rewrite Z.add_0_r, Z.mul_0_l, Z.add_0_r in Has.
    set (pte := mkpte pa perm) in *. set (vpn := va / PGSIZE) in *.
    destruct (mkpte_ok pa perm Hpa Hpe) as (Hr & Hv & Hfl').
    pose proof (mkpte_pa pa perm Hpa Hpal Hpe) as Hppa.
    assert (∀ t, is_table s' r t ∨ table_of s T t → owned vpn = true → t ≠ pa) as Hnt.
    { intros t Ht Ho ->. destruct (Hown Ho) as (Hok & Hntab & Hrc & _).
      destruct Ht as [[Ht|[_ ?]]%(pf_tables _ _ _ Hf)|Ht]; [|lia|done].
      apply Hntab. by exists r, M. }
    assert (vm s' fl' (<[r := <[vpn := pte]> M]> T) (λ p, K p - ref1 vpn pte p)) as Hvm'.
    { apply (vm_update s s' fl fl' T K _ r M _ Hvm HT Hf Has Hk).
      - intros p. rewrite refs1_insert by done. lia.
      - intros t Ht. destruct (owned vpn) eqn:Ho; [|by rewrite ref1_ne; [lia|right]].
        rewrite ref1_ne; [lia|]. left. unfold pte. rewrite Hppa. by apply Hnt.
      - eauto.
      - intros v q. rewrite lookup_insert. case_decide as E; [|by intros ->].
        intros [= <-] _ Ho. rewrite <- E in Ho. destruct (Hown Ho) as (Hok & Hntab & Hrc & Hw).
        unfold pte. rewrite Hppa. split_and!; [done|lia|lia|]. rewrite mkpte_w by done.
        rewrite (pf_rc _ _ _ Hf) by lia. done. }
    split_and!; [done| |done]. eapply pt_frame_grows; [done|done|done|done|].
    intros t Ht. by apply (update_table s s' fl T K r M _ Hvm HT Hf) in Ht.
  - assert (k = 0%nat) as -> by lia. simpl in Has.
    assert (vm s' [] (<[r := M]> T) K) as Hvm'.
    { apply (vm_update s s' fl [] T K _ r M _ Hvm HT Hf Has Hk); eauto. done. }
    rewrite insert_id in Hvm' by done. split_and!; [done|done| |done].
    eapply pt_frame_grows; [done|done|done|done|]. intros t Ht.
    rewrite <- (insert_id T r M HT) in Ht.
    by apply (update_table s s' fl T K r M _ Hvm HT Hf) in Ht.
Qed.

(** * Changing and removing an entry *)

(** The loop head of [uvmunmap], [uvmcopy] and others: look up the entry of a
    mapped page. *)
Lemma walk_mapped s r M va pte {B} (k : Z → kM mach B) (Q : B → mach → Prop) :
  aspace s r M → 0 <= va < MAXVA → M !! (va / PGSIZE) = Some pte →
  (∀ a, leaf_addr (m_mem s) r va = Some a → in_ram a 8 = true → ld64 (m_mem s) a = pte →
     a ≠ 0 → wp (k a) Q s) →
  wp (walk r va false ≫= k) Q s.
Proof.
  intros Ha Hva HM Hk. wp_step. unfold wp at 1.
  rewrite walk_pure by (apply Ha || lia). destruct (aspace_lookup s r M va pte Ha Hva HM) as (a & Hl & Hld).
  destruct (leaf_addr_ok r va a s (as_wf _ _ _ Ha) Hl) as (Hram & Hpos & _).
  rewrite Hl. simpl. apply Hk; [done|done|done|lia].
Qed.

Section store.
  Context (s : mach) (fl : list Z) (T : gmap Z (gmap Z Z)) (K : Z → Z) (r va a pte : Z) (M : gmap Z Z).
  Context (Hvm : vm s fl T K) (HT : T !! r = Some M) (Hva : 0 <= va < MAXVA).
  Context (HM : M !! (va / PGSIZE) = Some pte) (Ha : leaf_addr (m_mem s) r va = Some a).

Lemma store_frame v : 0 <= v < 2 ^ 64 → pt_frame r s (store_mem a v s).
Proof. intros Hv. eapply leaf_store_frame; [|done]. by apply (vm_space _ _ _ _ Hvm r M). Qed.

Lemma store_tables v t M' : 0 <= v < 2 ^ 64 →
  table_of (store_mem a v s) (<[r := M']> T) t ↔ table_of s T t.
Proof.
  intros Hv. rewrite (update_table s _ fl T K r M M' Hvm HT (store_frame v Hv)).
  split; [|by right]. intros [Ht|?]; [|done]. exists r, M. split; [done|].
  eapply leaf_store_table; [|done|done]. by apply (vm_space _ _ _ _ Hvm r M).
Qed.

(** Changing the flags of an entry. *)
Lemma vm_store v :
  0 <= v < 2 ^ 54 → truth (Z.land v PTE_V) = true → PTE2PA v = PTE2PA pte →
  (truth (Z.land v PTE_W) = true → truth (Z.land pte PTE_W) = true) →
  vm (store_mem a v s) fl (<[r := <[va / PGSIZE := v]> M]> T) K ∧
  grows s T (store_mem a v s) (<[r := <[va / PGSIZE := v]> M]> T).
Proof.
  intros Hv Hval Hpa Hw. pose proof (vm_space _ _ _ _ Hvm r M HT) as Hasp.
  pose proof (store_frame v ltac:(lia)) as Hf.
  assert (vm (store_mem a v s) fl (<[r := <[va / PGSIZE := v]> M]> T) K) as Hvm'.
  { apply (vm_update s _ fl fl T K K r M _ Hvm HT Hf).
    - apply aspace_insert; [done|done|done|lia|done].
    - eapply leaf_store_kmem; [by apply Hasp|done|apply Hvm].
    - intros p. rewrite (refs1_update M _ pte) by done. unfold ref1. rewrite Hpa. lia.
    - done.
    - intros t Hok H0 Ht. apply (leaf_store_table s r va a v (as_wf _ _ _ Hasp) Ha) in Ht.
      rewrite (pw_rc _ _ (as_wf _ _ _ Hasp)) in H0; done.
    - intros v' q. rewrite lookup_insert. case_decide as E; [|by intros ->].
      intros [= <-] _ Ho. rewrite <- E in Ho.
      destruct (vm_user _ _ _ _ Hvm r M _ pte HT HM Ho) as [Hok _].
      rewrite Hpa. split_and!; [done|lia|lia|]. intros Hvw.
      apply (vm_cow _ _ _ _ Hvm r M _ pte HT HM Ho). by apply Hw. }
  split; [done|]. eapply pt_frame_grows; [done|done|done|done|].
  intros t Ht%store_tables; [by right|lia].
Qed.

(** Pointing an entry to another page. *)
Lemma vm_replace v :
  0 <= v < 2 ^ 54 → truth (Z.land v PTE_V) = true → owned (va / PGSIZE) = true →
  page_ok (PTE2PA v) → ¬ table_of s T (PTE2PA v) → ¬ table_of s T (PTE2PA pte) →
  (truth (Z.land v PTE_W) = true → m_pgrc s (PTE2PA v / PGSIZE) <= 1) →
  vm (store_mem a v s) fl (<[r := <[va / PGSIZE := v]> M]> T)
     (kadd (kadd K (PTE2PA pte) 1) (PTE2PA v) (-1)).
Proof.
  intros Hv Hval Ho Hok Hnt Hnt' Hw. pose proof (vm_space _ _ _ _ Hvm r M HT) as Hasp.
  pose proof (store_frame v ltac:(lia)) as Hf.
  apply (vm_update s _ fl fl T K _ r M _ Hvm HT Hf).
  - apply aspace_insert; [done|done|done|lia|done].
  - eapply leaf_store_kmem; [by apply Hasp|done|apply Hvm].
  - intros p. rewrite (refs1_update M _ pte) by done. unfold ref1, kadd. rewrite Ho. simpl.
    rewrite (Z.eqb_sym (PTE2PA pte)), (Z.eqb_sym (PTE2PA v)).
    destruct (p =? PTE2PA pte), (p =? PTE2PA v); lia.
  - intros t Ht. assert (table_of s T t) as Ht'.
    { destruct Ht as [Ht|?]; [|done]. exists r, M. split; [done|].
      by apply (leaf_store_table s r va a v (as_wf _ _ _ Hasp) Ha) in Ht. }
    rewrite !kadd_ne; [done|by intros ->|by intros ->].
  - intros t Hok' H0 Ht. apply (leaf_store_table s r va a v (as_wf _ _ _ Hasp) Ha) in Ht.
    rewrite (pw_rc _ _ (as_wf _ _ _ Hasp)) in H0; done.
  - intros v' q. rewrite lookup_insert. case_decide as E; [|by intros ->].
    intros [= <-] _ _. split_and!; [done|lia|lia|done].
Qed.

(** Removing an entry returns the reference it held to the kernel. *)
Lemma vm_clear :
  (∀ p, table_of s T p → owned (va / PGSIZE) = true → p ≠ PTE2PA pte) →
  vm (store_mem a 0 s) fl (<[r := delete (va / PGSIZE) M]> T) (λ p, K p + ref1 (va / PGSIZE) pte p).
Proof.
  intros Hnt. pose proof (vm_space _ _ _ _ Hvm r M HT) as Hasp.
  pose proof (store_frame 0 ltac:(lia)) as Hf.
  apply (vm_update s _ fl fl T K _ r M _ Hvm HT Hf).
  - by apply aspace_delete.
  - eapply leaf_store_kmem; [by apply Hasp|done|apply Hvm].
  - intros p. rewrite (refs1_delete M _ pte) by done. lia.
  - intros t Ht. assert (table_of s T t) as Ht'.
    { destruct Ht as [Ht|?]; [|done]. exists r, M. split; [done|].
      eapply leaf_store_table; [|done|done]. apply Hasp. }
    rewrite ref1_ne; [lia|]. destruct (owned (va / PGSIZE)) eqn:Ho; [left|by right]. by apply Hnt.
  - intros t Hok H0 Ht. apply (leaf_store_table s r va a 0 (as_wf _ _ _ Hasp) Ha) in Ht.
    rewrite (pw_rc _ _ (as_wf _ _ _ Hasp)) in H0; done.
  - intros v' q. rewrite lookup_delete. case_decide; [done|]. by intros ->.
Qed.
End store.

(** ** uvmunmap *)

Definition unmap_run (n : nat) M (v0 : Z) : gmap Z Z :=
  filter (λ kv, ¬ (v0 <= kv.1 < v0 + Z.of_nat n)) M.

Lemma unmap_run_lookup n M v0 i :
  unmap_run n M v0 !! i = if decide (v0 <= i < v0 + Z.of_nat n) then None else M !! i.
Proof.
  unfold unmap_run. rewrite map_lookup_filter. destruct (M !! i); simpl; [|by case_decide].
  repeat case_guard; repeat case_decide; simpl; done.
Qed.

Lemma unmap_run_0 M v0 : unmap_run 0 M v0 = M.
Proof. apply map_eq. intros i. rewrite unmap_run_lookup, decide_False; [done|lia]. Qed.

Lemma unmap_run_S n M v0 :
  delete (v0 + Z.of_nat n) (unmap_run n M v0) = unmap_run (S n) M v0.
Proof.
  apply map_eq. intros i. rewrite lookup_delete, !unmap_run_lookup.
  repeat case_decide; try lia; done.
Qed.

(** One iteration of [uvmunmap(..., 1)]. *)
Lemma unmap_one s fl T K r M va pte {B} (k : kM mach B) (Q : B → mach → Prop) :
  vm s fl T K → kpos K → alloc_unlocked s → T !! r = Some M → 0 <= va < MAXVA →
  M !! (va / PGSIZE) = Some pte → owned (va / PGSIZE) = true → PTE_FLAGS pte ≠ PTE_V →
  (∀ s' fl', let T' := <[r := delete (va / PGSIZE) M]> T in
     vm s' fl' T' K → drops s T s' T' → (∀ t, table_of s' T' t ↔ table_of s T t) →
     (∀ p, page_ok p → m_pgrc s' (p / PGSIZE) <= m_pgrc s (p / PGSIZE)) → wp k Q s') →
  wp (pte ← walk r va false;
    if pte =? 0 then panic "uvmunmap: walk" else
    v ← kload64 pte;
    if negb (truth (Z.land v PTE_V)) then panic "uvmunmap: not mapped" else
    if PTE_FLAGS v =? PTE_V then panic "uvmunmap: not a leaf" else
    when true (kfree (PTE2PA v)) ;;
    kstore64 pte 0 ;; k) Q s.
Proof.
  intros Hvm HK Hu HT Hva HM Ho Hfl Hk. pose proof (vm_space _ _ _ _ Hvm r M HT) as Ha.
  eapply walk_mapped; [done|done|done|]. intros a Hl Hram Hld Hne.
  destruct (Z.eqb_spec a 0) as [|_]; [done|]. wp_step. unfold kload64. rewrite Hram. wp_step. cbn beta.
  rewrite Hld, (proj1 (as_valid _ _ _ Ha _ _ HM)). simpl.
  destruct (Z.eqb_spec (PTE_FLAGS pte) PTE_V) as [|_]; [done|].
  destruct (mapped_page _ _ _ _ _ _ _ _ Hvm HT HM Ho) as (Hok & Hnt & Hrc).
  specialize (Hrc (HK _)). wp_step. apply wp_when_t; [done|].
  wp_use kfree_vm; [done|done|done|done|done|]. intros _ s1 ((Hh1 & Hm1 & Hc1) & Ht1 & Hvm1).
  wp_step. unfold kstore64. rewrite Hram. wp_step.
  assert (leaf_addr (m_mem s1) r va = Some a) as Hl1.
  { rewrite <- Hl. unfold leaf_addr. f_equal.
    destruct (pt_same _ (m_mem s1) s r eq_refl) as [Hn _]; [|apply Hn, valid_va_path].
    intros t x Ht Hx. apply Hm1. left. assert (table_of s T t) as Ht' by (by exists r, M).
    apply (page_ok_disjoint t); [by apply (table_page _ _ _ _ _ Hvm)|done|by intros ->|done]. }
  pose proof (vm_clear s1 _ T _ r va a pte M Hvm1 HT Hva HM Hl1) as Hvm2.
  assert (∀ p, page_ok p → m_pgrc s1 (p / PGSIZE) <= m_pgrc s (p / PGSIZE)) as Hle
    by (intros p _; rewrite Hc1; case_decide; lia).
  eapply (Hk (store_mem a 0 s1)); [| | |done].
  - eapply vm_ext; [|apply Hvm2].
    + intros p. unfold kadd, ref1. rewrite Ho. simpl. destruct (Z.eqb_spec p (PTE2PA pte)), (Z.eqb_spec (PTE2PA pte) p); try done; lia.
    + intros p Hp _ ->. by apply Ht1 in Hp.
  - split; [done|]. intros p Hp Hr Hn.
    rewrite (store_tables s1 _ T _ r va a M Hvm1 HT Hl1 0) by lia. rewrite Ht1.
    split_and!; [done|by apply Hle|]. intros x Hx. cbn in Hr.
    assert (¬ in_page (PTE2PA pte) x ∨ 1 < m_pgrc s (PTE2PA pte / PGSIZE)) as Hx'.
    { destruct (decide (p = PTE2PA pte)) as [->|Hpn].
      - right. rewrite Hc1, decide_True in Hr by done. lia.
      - left. by apply (page_ok_disjoint p). }
    rewrite <- (Hm1 x Hx'). eapply leaf_store_outside; [apply (vm_space _ _ _ _ Hvm1 r M HT)|done|].
    intros t Ht. assert (table_of s T t) as Ht' by (apply Ht1; by exists r, M).
    apply (page_ok_disjoint p); [done|by apply (table_page _ _ _ _ _ Hvm)|by intros ->|done].
  - intros t. rewrite (store_tables s1 _ T _ r va a M Hvm1 HT Hl1 0) by lia. apply Ht1.
Qed.

Lemma owned_va vpn : 0 <= vpn → owned vpn = true → 0 <= vpn * PGSIZE < TRAPFRAME ∧ TRAPFRAME < MAXVA.
Proof.
  unfold owned. intros H0 H%Z.ltb_lt. change (TRAPFRAME / PGSIZE) with (2 ^ 26 - 2) in H.
  change TRAPFRAME with ((2 ^ 26 - 2) * PGSIZE). change MAXVA with (2 ^ 26 * PGSIZE).
  unfold PGSIZE. lia.
Qed.

Lemma uvmunmap_vm s fl T K r M v0 (n : nat) :
  vm s fl T K → kpos K → alloc_unlocked s → T !! r = Some M → 0 <= v0 →
  (∀ i, v0 <= i < v0 + Z.of_nat n → owned i = true ∧
     ∃ pte, M !! i = Some pte ∧ PTE_FLAGS pte ≠ PTE_V) →
  (v0 + Z.of_nat n) * PGSIZE <= MAXVA →
  wp (uvmunmap r (v0 * PGSIZE) (Z.of_nat n) true) (λ _ s', ∃ fl',
    vm s' fl' (<[r := unmap_run n M v0]> T) K ∧
    drops s T s' (<[r := unmap_run n M v0]> T) ∧
    ∀ t, table_of s' (<[r := unmap_run n M v0]> T) t ↔ table_of s T t) s.
Proof.
  intros Hvm HK Hu HT Hv0 Hmap Hmax. unfold uvmunmap. rewrite Z.mod_mul by done. simpl.
  change MAXVA with (2 ^ 38) in Hmax.
  rewrite u64_small by (unfold PGSIZE in *; lia).
  replace (v0 * PGSIZE + Z.of_nat n * PGSIZE) with ((v0 + Z.of_nat n) * PGSIZE) by lia.
  eapply (wp_while (λ a s', ∃ k fl', a = (v0 + Z.of_nat k) * PGSIZE ∧ (k <= n)%nat ∧
      vm s' fl' (<[r := unmap_run k M v0]> T) K ∧
      drops s T s' (<[r := unmap_run k M v0]> T) ∧
      ∀ t, table_of s' (<[r := unmap_run k M v0]> T) t ↔ table_of s T t)
    (λ a _, (v0 + Z.of_nat n) * PGSIZE - a)).
  2: { exists 0%nat, fl. rewrite unmap_run_0, insert_id by done.
       split_and!; [lia|lia|done|apply drops_refl|done]. }
  2: { unfold PGSIZE in *. lia. }
  intros a s1 (k & fl1 & -> & Hkn & Hvm1 & Hd1 & Ht1).
  destruct (Z.leb_spec ((v0 + Z.of_nat n) * PGSIZE) ((v0 + Z.of_nat k) * PGSIZE)) as [Hge|Hlt].
  { wp_step. assert (k = n) as -> by (unfold PGSIZE in Hge; lia). eauto. }
  assert (k < n)%nat as Hkn' by (unfold PGSIZE in Hlt; lia).
  destruct (Hmap (v0 + Z.of_nat k) ltac:(lia)) as (Ho & pte & HM & Hfl).
  eapply (unmap_one s1 fl1 _ K r (unmap_run k M v0) _ pte); try done.
  - unfold alloc_unlocked. by rewrite (proj1 Hd1).
  - by rewrite lookup_insert_eq.
  - change MAXVA with (2 ^ 38). unfold PGSIZE in *. lia.
  - rewrite Z.div_mul, unmap_run_lookup, decide_False by (done || lia). done.
  - by rewrite Z.div_mul.
  - cbn zeta. rewrite insert_insert_eq, Z.div_mul, unmap_run_S by done.
    intros s2 fl2 Hvm2 Hd2 Ht2 Hle. wp_step. split.
    + exists (S k), fl2. split_and!; [|lia|done| |].
      * rewrite u64_small by (unfold PGSIZE in *; lia). lia.
      * eapply drops_trans; [done| |done|done]. intros. by apply Hle.
      * intros t. by rewrite Ht2, Ht1.
    + rewrite u64_small by (unfold PGSIZE in *; lia). unfold PGSIZE in *. lia.
Qed.

(** * Copy-on-write *)

(** What [uvmcopy] does to an entry. *)
Definition cow_pte (pte : Z) : Z :=
  if truth (Z.land pte PTE_W) then Z.lor (Z.land pte (Z.lnot PTE_W)) PTE_C else pte.

(** Changing bits below 10 of an entry keeps its address. *)
Lemma PTE2PA_high x y : (∀ i, 10 <= i → Z.testbit x i = Z.testbit y i) → PTE2PA x = PTE2PA y.
Proof.
  intros H. unfold PTE2PA. f_equal. f_equal. apply Z.bits_inj'. intros i Hi.
  rewrite !Z.shiftr_spec by done. apply H. lia.
Qed.

(** Clearing or setting a flag of an entry. *)
Lemma pte_clear_flag pte n :
  0 <= pte < 2 ^ 54 → 0 <= n < 10 →
  let v := Z.land pte (Z.lnot (Z.shiftl 1 n)) in
  0 <= v < 2 ^ 54 ∧ PTE2PA v = PTE2PA pte ∧
  ∀ i, 0 <= i → Z.testbit v i = Z.testbit pte i && negb (n =? i).
Proof.
  intros Hp Hn v.
  assert (∀ i, 0 <= i → Z.testbit v i = Z.testbit pte i && negb (n =? i)) as Hb.
  { intros i Hi. unfold v. by rewrite Z.land_spec, Z.lnot_spec, flag_bit by lia. }
  split; [|split; [|done]].
  - apply bits_bound; [lia|]. intros i Hi. rewrite Hb by lia. by rewrite (bits_above pte 54).
  - apply PTE2PA_high. intros i Hi. rewrite Hb by lia.
    destruct (Z.eqb_spec n i); [lia|]. by rewrite andb_true_r.
Qed.

Lemma pte_set_flag pte n :
  0 <= pte < 2 ^ 54 → 0 <= n < 10 →
  let v := Z.lor pte (Z.shiftl 1 n) in
  0 <= v < 2 ^ 54 ∧ PTE2PA v = PTE2PA pte ∧
  ∀ i, 0 <= i → Z.testbit v i = Z.testbit pte i || (n =? i).
Proof.
  intros Hp Hn v.
  assert (∀ i, 0 <= i → Z.testbit v i = Z.testbit pte i || (n =? i)) as Hb.
  { intros i Hi. unfold v. by rewrite Z.lor_spec, flag_bit by lia. }
  split; [|split; [|done]].
  - apply bits_bound; [lia|]. intros i Hi. rewrite Hb by lia. rewrite (bits_above pte 54) by lia.
    by destruct (Z.eqb_spec n i); [lia|].
  - apply PTE2PA_high. intros i Hi. rewrite Hb by lia.
    destruct (Z.eqb_spec n i); [lia|]. by rewrite orb_false_r.
Qed.

(** An entry is its address and its flags. *)
Lemma pte_split pte : 0 <= pte < 2 ^ 54 → Z.lor (PA2PTE (PTE2PA pte)) (PTE_FLAGS pte) = pte.
Proof.
  intros Hp. rewrite PTE2PA_val by lia.
  assert (0 <= pte / 1024 < 2 ^ 44).
  { split; [apply Z.div_pos; lia|]. apply Z.div_lt_upper_bound; lia. }
  rewrite pte_make; [|unfold PGSIZE; lia|apply PTE_FLAGS_range].
  rewrite (Z.mul_comm PGSIZE), Z.div_mul, PTE_FLAGS_mod by done.
  pose proof (Z.div_mod pte 1024 ltac:(done)). lia.
Qed.

Lemma mkpte_split pte :
  0 <= pte < 2 ^ 54 → truth (Z.land pte PTE_V) = true → mkpte (PTE2PA pte) (PTE_FLAGS pte) = pte.
Proof.
  intros Hp Hv. unfold mkpte. rewrite pte_split by done. unfold PTE_V in *.
  rewrite truth_land_pow2 in Hv by lia. apply Z.bits_inj'. intros i Hi.
  rewrite Z.lor_spec, flag_bit by lia. destruct (Z.eqb_spec 0 i) as [<-|]; [by rewrite Hv|].
  apply orb_false_r.
Qed.

Lemma PTE_FLAGS_cow pte :
  Z.lor (Z.land (PTE_FLAGS pte) (Z.lnot PTE_W)) PTE_C =
  PTE_FLAGS (Z.lor (Z.land pte (Z.lnot PTE_W)) PTE_C).
Proof.
  apply Z.bits_inj'. intros i Hi. unfold PTE_FLAGS. change 0x3FF with (Z.ones 10).
  rewrite ?Z.lor_spec, ?Z.land_spec, ?Z.lor_spec, ?Z.land_spec.
  assert (Z.testbit PTE_C i = true → Z.testbit (Z.ones 10) i = true) as Hc.
  { unfold PTE_C. rewrite flag_bit by lia. intros <-%Z.eqb_eq. done. }
  destruct (Z.testbit PTE_C i); [rewrite (Hc eq_refl)|]; rewrite ?orb_true_r, ?orb_false_r; [done|].
  destruct (Z.testbit pte i), (Z.testbit (Z.ones 10) i), (Z.testbit (Z.lnot PTE_W) i); done.
Qed.

Lemma cow_pte_ok pte :
  0 <= pte < 2 ^ 54 →
  0 <= cow_pte pte < 2 ^ 54 ∧ PTE2PA (cow_pte pte) = PTE2PA pte ∧
  truth (Z.land (cow_pte pte) PTE_W) = false ∧
  (∀ i, 0 <= i → i ≠ 2 → i ≠ 5 → Z.testbit (cow_pte pte) i = Z.testbit pte i) ∧
  (PTE_FLAGS pte ≠ PTE_V → PTE_FLAGS (cow_pte pte) ≠ PTE_V).
Proof.
  intros Hp. unfold cow_pte. destruct (truth (Z.land pte PTE_W)) eqn:E; [|done].
  destruct (pte_clear_flag pte 2 Hp ltac:(lia)) as (Hr1 & Hpa1 & Hb1).
  destruct (pte_set_flag _ 5 Hr1 ltac:(lia)) as (Hr2 & Hpa2 & Hb2).
  change (Z.shiftl 1 2) with PTE_W in *. change (Z.shiftl 1 5) with PTE_C in *.
  set (v := Z.lor _ _) in *.
  assert (∀ i, 0 <= i → Z.testbit v i = (Z.testbit pte i && negb (2 =? i)) || (5 =? i)) as Hb
    by (intros i Hi; rewrite Hb2, Hb1 by done; done).
  split_and!; [lia|lia|congruence| | |].
  - unfold PTE_W. rewrite truth_land_pow2, Hb by lia. simpl. by rewrite andb_false_r.
  - intros i Hi H2 H5. rewrite Hb by done. destruct (Z.eqb_spec 2 i), (Z.eqb_spec 5 i); try lia.
    by rewrite andb_true_r, orb_false_r.
  - intros _ HF. apply (f_equal (λ z, Z.testbit z 5)) in HF.
    rewrite testbit_PTE_FLAGS, Hb in HF by lia. simpl in HF. by rewrite orb_true_r in HF.
Qed.

Lemma cow_pte_v pte :
  0 <= pte < 2 ^ 54 → truth (Z.land pte PTE_V) = true → truth (Z.land (cow_pte pte) PTE_V) = true.
Proof.
  intros Hp. unfold PTE_V. rewrite !truth_land_pow2 by lia.
  destruct (cow_pte_ok pte Hp) as (_ & _ & _ & Hb & _). by rewrite Hb.
Qed.

(** The parent's and the child's map after [k] iterations of [uvmcopy]. *)
Fixpoint cow_run (k : nat) M : gmap Z Z :=
  match k with
  | O => M
  | S k' => alter cow_pte (Z.of_nat k') (cow_run k' M)
  end.

Fixpoint share_run (k : nat) (Mo Mn : gmap Z Z) : gmap Z Z :=
  match k with
  | O => Mn
  | S k' =>
      match Mo !! Z.of_nat k' with
      | Some pte => <[Z.of_nat k' := cow_pte pte]> (share_run k' Mo Mn)
      | None => share_run k' Mo Mn
      end
  end.

Lemma cow_run_lookup k M i :
  cow_run k M !! i = if decide (0 <= i < Z.of_nat k) then cow_pte <$> M !! i else M !! i.
Proof.
  induction k as [|k IH]; simpl.
  - by rewrite decide_False by lia.
  - destruct (decide (i = Z.of_nat k)) as [->|Hne].
    + rewrite lookup_alter_eq, IH, decide_False, decide_True by lia. done.
    + rewrite lookup_alter_ne, IH by done. repeat case_decide; try lia; done.
Qed.

Lemma share_run_lookup k Mo Mn i :
  share_run k Mo Mn !! i =
  if decide (0 <= i < Z.of_nat k) then
    match Mo !! i with Some pte => Some (cow_pte pte) | None => Mn !! i end
  else Mn !! i.
Proof.
  induction k as [|k IH]; simpl.
  - by rewrite decide_False by lia.
  - destruct (decide (i = Z.of_nat k)) as [->|Hne].
    + rewrite decide_True by lia. destruct (Mo !! Z.of_nat k) as [pte|] eqn:E.
      * by rewrite lookup_insert_eq.
      * rewrite IH, decide_False by lia. done.
    + assert (∀ x, (<[Z.of_nat k := x]> (share_run k Mo Mn)) !! i = share_run k Mo Mn !! i) as Hx
        by (intros; by apply lookup_insert_ne).
      transitivity (share_run k Mo Mn !! i); [by destruct (Mo !! Z.of_nat k)|].
      rewrite IH. repeat case_decide; try lia; done.
Qed.

Lemma unmap_share k Mo Mn :
  (∀ i, 0 <= i < Z.of_nat k → Mn !! i = None) → unmap_run k (share_run k Mo Mn) 0 = Mn.
Proof.
  intros H. apply map_eq. intros i. rewrite unmap_run_lookup, share_run_lookup.
  rewrite Z.add_0_l. case_decide as E; [by rewrite H|done].
Qed.

(** Sharing does not change who refers to what in the parent. *)
Lemma refs1_cow_run k M p :
  (∀ i pte, 0 <= i < Z.of_nat k → M !! i = Some pte → 0 <= pte < 2 ^ 54) →
  refs1 (cow_run k M) p = refs1 M p.
Proof.
  intros Hr. induction k as [|k IH]; [done|]. simpl.
  assert (refs1 (cow_run k M) p = refs1 M p) as <- by (apply IH; intros i q Hi; apply Hr; lia).
  destruct (cow_run k M !! Z.of_nat k) as [pte|] eqn:E.
  - assert (alter cow_pte (Z.of_nat k) (cow_run k M) = <[Z.of_nat k := cow_pte pte]> (cow_run k M)) as ->
      by (apply map_eq; intros i; rewrite lookup_alter, lookup_insert; case_decide; [subst; by rewrite E|done]).
    rewrite (refs1_update _ _ pte) by done.
    rewrite cow_run_lookup, decide_False in E by lia. unfold ref1.
    destruct (cow_pte_ok pte) as (_ & -> & _); [by apply (Hr (Z.of_nat k)); [lia|]|]. lia.
  - f_equal. apply map_eq. intros i. rewrite lookup_alter. case_decide; [subst; by rewrite E|done].
Qed.

(** A page that is mapped writable is mapped nowhere else. *)
Lemma writable_once s fl T K r1 M1 v1 pte1 r2 M2 v2 pte2 :
  vm s fl T K → kpos K →
  T !! r1 = Some M1 → M1 !! v1 = Some pte1 → owned v1 = true →
  truth (Z.land pte1 PTE_W) = true →
  T !! r2 = Some M2 → M2 !! v2 = Some pte2 → owned v2 = true →
  PTE2PA pte1 = PTE2PA pte2 → r1 = r2 ∧ v1 = v2.
Proof.
  intros Hvm HK H1 HM1 Ho1 Hw H2 HM2 Ho2 Hpa.
  apply (refs_one T r1 M1 v1 pte1 r2 M2 v2 pte2); try done.
  destruct (mapped_page _ _ _ _ _ _ _ _ Hvm H1 HM1 Ho1) as (Hok & Hnt & _).
  pose proof (vm_cow _ _ _ _ Hvm r1 M1 v1 pte1 H1 HM1 Ho1 Hw) as Hle.
  rewrite (vm_rc _ _ _ _ Hvm) in Hle by done. specialize (HK (PTE2PA pte1)). lia.
Qed.

(** The parent's half of an iteration: write-protect the entry. *)
Lemma cow_entry s fl T K r M va a pte {B} (k : Z → kM mach B) (Q : B → mach → Prop) :
  vm s fl T K → T !! r = Some M → 0 <= va < MAXVA → M !! (va / PGSIZE) = Some pte →
  0 <= pte < 2 ^ 54 → leaf_addr (m_mem s) r va = Some a → in_ram a 8 = true →
  (∀ s', let T' := <[r := <[va / PGSIZE := cow_pte pte]> M]> T in
     vm s' fl T' K → grows s T s' T' → wp (k (PTE_FLAGS (cow_pte pte))) Q s') →
  wp ((if truth (Z.land pte PTE_W) then
         kstore64 a (Z.land pte (Z.lnot PTE_W)) ;;
         v ← kload64 a;
         kstore64 a (Z.lor v PTE_C) ;;
         mret (Z.lor (Z.land (PTE_FLAGS pte) (Z.lnot PTE_W)) PTE_C)
       else mret (PTE_FLAGS pte)) ≫= k) Q s.
Proof.
  intros Hvm HT Hva HM Hr Hl Hram Hk. wp_step. destruct (truth (Z.land pte PTE_W)) eqn:E.
  2: { wp_step. assert (cow_pte pte = pte) as Hc by (unfold cow_pte; by rewrite E).
       specialize (Hk s). cbn zeta in Hk. rewrite Hc, (insert_id M), (insert_id T) in Hk by done.
       apply Hk; [done|apply grows_refl]. }
  pose proof (as_valid _ _ _ (vm_space _ _ _ _ Hvm r M HT) _ _ HM) as [Hv _].
  destruct (pte_clear_flag pte 2 Hr ltac:(lia)) as (Hr1 & Hpa1 & Hb1).
  change (Z.shiftl 1 2) with PTE_W in *. set (v1 := Z.land pte (Z.lnot PTE_W)) in *.
  destruct (vm_store s fl T K r va a pte M Hvm HT Hva HM Hl v1) as [Hvm1 Hg1];
    [done| |done|by rewrite E|].
  { revert Hv. unfold PTE_V. rewrite !truth_land_pow2, Hb1 by lia. by intros ->. }
  unfold kstore64, kload64. rewrite Hram. wp_step. wp_step. wp_step. wp_step. cbn beta.
  change (m_mem (s <| m_mem := st64 (m_mem s) a v1 |>)) with (st64 (m_mem s) a v1).
  rewrite ld64_st64_same by lia. wp_step. wp_step. wp_step.
  assert (cow_pte pte = Z.lor v1 PTE_C) as Hc by (unfold cow_pte; by rewrite E).
  destruct (cow_pte_ok pte Hr) as (Hr2 & Hpa2 & Hw2 & _). rewrite PTE_FLAGS_cow. fold v1.
  destruct (vm_store (store_mem a v1 s) fl _ K r va a v1 (<[va / PGSIZE := v1]> M) Hvm1
    ltac:(apply lookup_insert_eq) Hva ltac:(apply lookup_insert_eq)) with (v := cow_pte pte)
    as [Hvm2 Hg2]; [|done|by apply cow_pte_v|congruence|by rewrite Hw2|].
  { rewrite <- Hl. eapply leaf_store_addr; [apply (vm_space _ _ _ _ Hvm r M HT)|done]. }
  rewrite !insert_insert_eq, Hc in Hvm2, Hg2. rewrite Hc in Hk.
  apply (Hk _ Hvm2). by eapply grows_trans.
Qed.

(** The child's half: map the same page and count the reference. *)
Lemma share_one s fl T K old new Mo Mn va pte {B} (kok kfail : kM mach B) (Q : B → mach → Prop) :
  vm s fl T K → kpos K → alloc_unlocked s → old ≠ new →
  T !! old = Some Mo → Mo !! (va / PGSIZE) = Some pte → truth (Z.land pte PTE_W) = false →
  T !! new = Some Mn → Mn !! (va / PGSIZE) = None →
  0 <= va < MAXVA → va mod PGSIZE = 0 → owned (va / PGSIZE) = true →
  (∀ s' fl', let T' := <[new := <[va / PGSIZE := pte]> Mn]> T in
     vm s' fl' T' K → grows s T s' T' → (length fl <= length fl' + 2)%nat → wp kok Q s') →
  (∀ s', vm s' [] T K → grows s T s' T → (length fl <= 2)%nat → wp kfail Q s') →
  wp (r ← mappages new va PGSIZE (PTE2PA pte) (PTE_FLAGS pte);
      if negb (r =? 0) then kfail else incpgrc (PTE2PA pte) ;; kok) Q s.
Proof.
  intros Hvm HK Hu Hne HTo HMo Hw HTn HMn Hva Hal Ho Hok Hfail.
  destruct (mapped_page _ _ _ _ _ _ _ _ Hvm HTo HMo Ho) as (Hpok & Hnt & Hrc). specialize (Hrc (HK _)).
  destruct (vm_user _ _ _ _ Hvm old Mo _ pte HTo HMo Ho) as [_ Hr].
  pose proof (as_valid _ _ _ (vm_space _ _ _ _ Hvm old Mo HTo) _ _ HMo) as [Hv _].
  pose proof (page_ok_range _ Hpok) as Hrange.
  wp_step. wp_use (mappages_vm s fl T K new Mn va (PTE2PA pte) (PTE_FLAGS pte)); try done.
  { split_and!; [lia|lia|apply Hpok|apply PTE_FLAGS_range|apply PTE_FLAGS_range|].
    intros _. split_and!; [done|done|lia|]. rewrite <- truth_flag by lia.
    change (Z.shiftl 1 2) with PTE_W. by rewrite Hw. }
  intros x s1 (used & fl1 & -> & Hused & Hh & Hrc1 & Hres). cbn zeta in Hres. rewrite length_app in Hok, Hfail.
  rewrite mkpte_split in Hres by done. destruct Hres as [(-> & Hg & Hvm1)|(-> & -> & Hg & Hvm1)]; simpl.
  2: { apply Hfail; [done|done|simpl; lia]. }
  set (T1 := <[new := _]> T) in *. destruct (proj2 Hg _ Hpok ltac:(lia) Hnt) as (Hnt1 & _ & _).
  assert (m_pgrc s1 (PTE2PA pte / PGSIZE) = m_pgrc s (PTE2PA pte / PGSIZE)) as Hrc2 by (apply Hrc1; lia).
  wp_step. eapply incpgrc_vm; [done| |done|done|lia| |].
  - unfold alloc_unlocked. by rewrite Hh.
  - intros r M vpn q HT HM Ho' Hwq Hpa. unfold T1 in HT.
    assert (∀ r M, T !! r = Some M → M !! vpn = Some q → False) as Hx.
    { intros r' M' HT' HM'.
      destruct (writable_once s (used ++ fl1) T K r' M' vpn q old Mo (va / PGSIZE) pte); try done.
      subst. simplify_eq. by rewrite Hw in Hwq. }
    apply lookup_insert_Some in HT as [[-> <-]|[_ HT]]; [|by eapply Hx].
    apply lookup_insert_Some in HM as [[_ <-]|[_ HM]]; [by rewrite Hw in Hwq|by eapply Hx].
  - intros s2 Hm2 Hh2 Hc2 Ht2 Hvm2. apply (Hok s2 fl1).
    + eapply vm_ext; [|done]. intros p. unfold kadd, ref1. rewrite Ho. simpl.
      destruct (Z.eqb_spec p (PTE2PA pte)), (Z.eqb_spec (PTE2PA pte) p); try done; lia.
    + eapply grows_trans; [done|]. split; [done|]. intros p Hp Hr1 Hn1. rewrite Ht2, Hm2, Hc2.
      split_and!; [done| |done]. unfold upd. destruct (Z.eqb_spec (p / PGSIZE) (PTE2PA pte / PGSIZE)) as [->|]; lia.
    + lia.
Qed.

Definition cow_state (k : nat) (old new : Z) (Mo Mn : gmap Z Z) T : gmap Z (gmap Z Z) :=
  <[new := share_run k Mo Mn]> (<[old := cow_run k Mo]> T).

Lemma cow_state_0 old new Mo Mn T :
  T !! old = Some Mo → T !! new = Some Mn → cow_state 0 old new Mo Mn T = T.
Proof. intros Ho Hn. unfold cow_state. simpl. by rewrite (insert_id T), insert_id. Qed.

Lemma cow_run_S k M pte :
  M !! Z.of_nat k = Some pte → <[Z.of_nat k := cow_pte pte]> (cow_run k M) = cow_run (S k) M.
Proof.
  intros HM. simpl. apply map_eq. intros i. rewrite lookup_insert, lookup_alter.
  case_decide; [subst i|done]. rewrite cow_run_lookup, decide_False by lia. by rewrite HM.
Qed.

Lemma cow_state_S k old new Mo Mn T pte :
  old ≠ new → Mo !! Z.of_nat k = Some pte →
  <[new := <[Z.of_nat k := cow_pte pte]> (share_run k Mo Mn)]>
    (<[old := <[Z.of_nat k := cow_pte pte]> (cow_run k Mo)]> (cow_state k old new Mo Mn T)) =
  cow_state (S k) old new Mo Mn T.
Proof.
  intros Hne HM. unfold cow_state. rewrite cow_run_S by done. simpl. rewrite HM.
  by rewrite (insert_insert_ne _ old new), insert_insert_eq, insert_insert_eq.
Qed.

(** What [uvmcopy] requires of the parent: [n] pages mapped from 0 on. *)
Definition mapped_run (n : nat) M : Prop :=
  ∀ i, 0 <= i < Z.of_nat n → owned i = true ∧ ∃ pte, M !! i = Some pte ∧ PTE_FLAGS pte ≠ PTE_V.

(** Failing half way: the child's mappings are removed again. *)
Lemma uvmcopy_undo s s1 fl fl1 T K old new Mo Mn (k : nat) :
  let T1 := <[new := share_run k Mo Mn]> (<[old := cow_run (S k) Mo]> T) in
  vm s fl T K → kpos K → alloc_unlocked s → old ≠ new → T !! old = Some Mo → T !! new = Some Mn →
  vm s1 fl1 T1 K → grows s T s1 T1 → mapped_run (S k) Mo →
  (∀ i, 0 <= i < Z.of_nat k → Mn !! i = None) →
  wp (uvmunmap new 0 (Z.of_nat k) true) (λ _ s', ∃ fl',
    vm s' fl' (<[old := cow_run (S k) Mo]> T) K ∧ grows s T s' (<[old := cow_run (S k) Mo]> T)) s1.
Proof.
  intros T1 Hvm HK Hu Hne HTo HTn Hvm1 Hg Hmap HMn.
  assert (∀ i pte, 0 <= i < Z.of_nat (S k) → Mo !! i = Some pte → 0 <= pte < 2 ^ 54) as Hr.
  { intros i pte Hi HM. destruct (Hmap i Hi) as [Ho _]. by apply (vm_user _ _ _ _ Hvm old Mo i). }
  wp_use (uvmunmap_vm s1 fl1 T1 K new (share_run k Mo Mn) 0 k); [done|done| |apply lookup_insert_eq|lia| | |].
  - unfold alloc_unlocked. by rewrite (proj1 Hg).
  - intros i Hi. destruct (Hmap i ltac:(lia)) as (Ho & pte & HM & Hf). split; [done|].
    exists (cow_pte pte). rewrite share_run_lookup, decide_True, HM by lia. split; [done|].
    apply cow_pte_ok; [|done]. apply (Hr i); [lia|done].
  - destruct k as [|k]; [done|].
    destruct (Hmap (Z.of_nat k) ltac:(lia)) as [[? ?]%(owned_va (Z.of_nat k)) _]; [|lia].
    change MAXVA with (TRAPFRAME + 2 * PGSIZE). unfold PGSIZE in *. lia.
  - intros _ s2 (fl2 & Hvm2 & Hd2 & Ht2). unfold T1 in Hvm2, Hd2, Ht2.
    rewrite insert_insert_eq, unmap_share in Hvm2, Hd2, Ht2 by done.
    assert (<[new := Mn]> (<[old := cow_run (S k) Mo]> T) = <[old := cow_run (S k) Mo]> T) as HTe
      by (apply insert_id; by rewrite lookup_insert_ne).
    rewrite HTe in Hvm2, Hd2, Ht2.
    exists fl2. split; [done|]. split; [by rewrite (proj1 Hd2), (proj1 Hg)|]. intros p Hp Hr0 Hn.
    destruct (proj2 Hg p Hp Hr0 Hn) as (Hn1 & Hle1 & Hdat1).
    assert (m_pgrc s2 (p / PGSIZE) = m_pgrc s (p / PGSIZE)) as Heq.
    { rewrite (vm_rc _ _ _ _ Hvm2) by (done || by rewrite Ht2). rewrite (vm_rc _ _ _ _ Hvm) by done.
      rewrite (refs_update T old Mo), refs1_cow_run by (done || intros i q ?; apply Hr; lia). lia. }
    split_and!; [by rewrite Ht2|lia|]. intros x Hx. rewrite <- Hdat1 by done.
    apply (proj2 Hd2 p Hp); [lia|done|done].
Qed.

(** [uvmcopy] shares the parent's pages copy-on-write; it needs at most two
    free pages for each page it shares. *)
Lemma uvmcopy_vm s fl T K old new Mo Mn sz (n : nat) :
  vm s fl T K → kpos K → alloc_unlocked s → old ≠ new →
  T !! old = Some Mo → T !! new = Some Mn → mapped_run n Mo →
  (∀ i, 0 <= i < Z.of_nat n → Mn !! i = None) →
  sz <= Z.of_nat n * PGSIZE < sz + PGSIZE →
  wp (uvmcopy old new sz) (λ r s', ∃ fl',
    (r = 0 ∧ (length fl <= length fl' + 2 * n)%nat ∧ vm s' fl' (cow_state n old new Mo Mn T) K ∧
       grows s T s' (cow_state n old new Mo Mn T)) ∨
    (r = -1 ∧ (length fl <= 2 * n)%nat ∧ ∃ j, (j <= n)%nat ∧ vm s' fl' (<[old := cow_run j Mo]> T) K ∧
       grows s T s' (<[old := cow_run j Mo]> T))) s.
Proof.
  intros Hvm HK Hu Hne HTo HTn Hmap HMn Hsz. unfold uvmcopy.
  eapply (wp_while (λ i s', ∃ k fl', i = Z.of_nat k * PGSIZE ∧ (k <= n)%nat ∧
      vm s' fl' (cow_state k old new Mo Mn T) K ∧ grows s T s' (cow_state k old new Mo Mn T) ∧
      (length fl <= length fl' + 2 * k)%nat)
    (λ i _, Z.of_nat n * PGSIZE - i)).
  2: { exists 0%nat, fl. rewrite cow_state_0 by done. split_and!; [lia|lia|done|apply grows_refl|lia]. }
  2: { assert (n = 0%nat ∨ ∃ n', n = S n') as [->|[n' ->]] by (destruct n; eauto); [done|].
       destruct (Hmap (Z.of_nat n') ltac:(lia)) as [[? Hx]%(owned_va (Z.of_nat n')) _]; [|lia].
       change MAXVA with (2 ^ 38) in Hx. unfold PGSIZE in *. lia. }
  intros i s1 (k & fl1 & -> & Hkn & Hvm1 & Hg1 & Hlen1).
  destruct (Z.leb_spec sz (Z.of_nat k * PGSIZE)) as [Hge|Hlt].
  { wp_step. exists fl1. left. assert (k = n) as -> by (unfold PGSIZE in *; lia). done. }
  assert (k < n)%nat as Hkn' by (unfold PGSIZE in *; lia).
  destruct (Hmap (Z.of_nat k) ltac:(lia)) as (Ho & pte & HM & Hfl).
  destruct (owned_va (Z.of_nat k) ltac:(lia) Ho) as [Hva Htf].
  pose proof (vm_user _ _ _ _ Hvm old Mo _ pte HTo HM Ho) as [_ Hr].
  set (T1 := cow_state k old new Mo Mn T) in *.
  assert (T1 !! old = Some (cow_run k Mo)) as HT1o
    by (unfold T1, cow_state; by rewrite lookup_insert_ne, lookup_insert_eq).
  assert (Z.of_nat k * PGSIZE / PGSIZE = Z.of_nat k) as Hdiv by (by apply Z.div_mul).
  assert (cow_run k Mo !! (Z.of_nat k * PGSIZE / PGSIZE) = Some pte) as HMk
    by (rewrite Hdiv, cow_run_lookup, decide_False by lia; done).
  pose proof (vm_space _ _ _ _ Hvm1 old _ HT1o) as Ha1.
  eapply (walk_mapped s1 old (cow_run k Mo)); [done|lia|done|]. intros a Hl Hram Hld Ha0.
  destruct (Z.eqb_spec a 0) as [|_]; [done|].
  wp_step. unfold kload64 at 1. rewrite Hram. wp_step. cbn beta. rewrite Hld.
  rewrite (proj1 (as_valid _ _ _ Ha1 _ _ HMk)). cbn [negb].
  eapply (cow_entry s1 fl1 T1 K old (cow_run k Mo) (Z.of_nat k * PGSIZE)); try done; [lia|].
  cbn zeta. rewrite Hdiv. intros s2 Hvm2 Hg2. pose proof (grows_trans _ _ _ _ _ _ Hg1 Hg2) as Hg.
  destruct (cow_pte_ok pte Hr) as (Hr2 & Hpa2 & Hw2 & _). rewrite <- Hpa2.
  eapply (share_one s2 fl1 _ K old new (<[Z.of_nat k := cow_pte pte]> (cow_run k Mo)) (share_run k Mo Mn));
    try done; rewrite ?Hdiv; try done; try lia.
  - unfold alloc_unlocked. by rewrite (proj1 Hg).
  - apply lookup_insert_eq.
  - apply lookup_insert_eq.
  - unfold T1, cow_state. by rewrite lookup_insert_ne, lookup_insert_eq.
  - rewrite share_run_lookup, decide_False by lia. apply HMn. lia.
  - by apply Z.mod_mul.
  - cbn zeta. unfold T1. rewrite cow_state_S by done. intros s3 fl3 Hvm3 Hg3 Hlen3. wp_step.
    change MAXVA with (2 ^ 38) in Htf. rewrite u64_small by (unfold PGSIZE in *; lia). split.
    + exists (S k), fl3. split_and!; [lia|lia|done| |lia]. by eapply grows_trans.
    + unfold PGSIZE in *. lia.
  - intros s3 Hvm3 Hg3 Hlen3. pose proof (grows_trans _ _ _ _ _ _ Hg Hg3) as Hg'. wp_step.
    rewrite cow_run_S in Hvm3, Hg' by done.
    assert (∀ X, <[old := X]> T1 = <[new := share_run k Mo Mn]> (<[old := X]> T)) as Hcomm
      by (intros X; unfold T1, cow_state; by rewrite insert_insert_ne, insert_insert_eq).
    rewrite Hcomm in Hvm3, Hg'.
    wp_use (uvmcopy_undo s s3 fl [] T K old new Mo Mn k); try done.
    + intros i Hi. apply Hmap. lia.
    + intros i Hi. apply HMn. lia.
    + intros _ s4 (fl4 & Hvm4 & Hg4). wp_step. exists fl4. right. split; [done|]. split; [lia|].
      exists (S k). split_and!; [lia|done|done].
Qed.

End uvmops.
