(* ===== verification/UvmGrow.v ===== *)
(** Creating, growing and shrinking an address space: [uvmcreate], [uvmalloc]
    and [uvmdealloc] of [kernel/vm.c]. *)
From S2P Require Import Prelude CString Spinlock Riscv Kalloc Vm PageTable Uvm UvmOps.

Section uvmgrow.
Context `{KI : !KernelImage}.
Implicit Types (T : gmap Z (gmap Z Z)) (M : gmap Z Z) (K : Z → Z).

(** Writing a data page that is not free. *)
Lemma vm_write s fl T K p m' :
  vm s fl T K → page_ok p → ¬ table_of s T p → p ∉ fl →
  (∀ x, ¬ in_page p x → rd8 m' x = rd8 (m_mem s) x) →
  let s' := s <| m_mem := m' |> in vm s' fl T K ∧ ∀ t, table_of s' T t ↔ table_of s T t.
Proof.
  intros Hvm Hp Hn Hfl Hm s'. apply (vm_data s s' fl fl T K K Hvm); [|..|done| |].
  - apply (kmem_inv_mem s); [apply Hvm|done|done|]. intros q x Hq Hx. apply Hm.
    apply (page_ok_disjoint q); [by apply (ki_page _ _ (vm_kmem _ _ _ _ Hvm))|done|by intros ->|done].
  - intros t x Ht Hx. apply Hm.
    apply (page_ok_disjoint t); [by apply (table_page _ _ _ _ _ Hvm)|done|by intros ->|done].
  - intros p' _ _. cbn. lia.
  - apply Hvm.
Qed.

(** ** uvmcreate *)

(** A zeroed page is a page table that maps nothing. *)
Lemma zero_table s p :
  page_ok p → m_pgrc s (p / PGSIZE) = 1 → (∀ x, in_page p x → rd8 (m_mem s) x = 0) →
  aspace s p ∅ ∧ ∀ t, is_table s p t ↔ t = p.
Proof.
  intros Hp Hc Hz.
  assert (∀ i, 0 <= i < 512 → pt_next (m_mem s) p i = None) as Hnext.
  { intros i Hi. unfold pt_next. rewrite ld64_zero; [done|]. intros x Hx. apply Hz.
    unfold in_page. consts. lia. }
  assert (∀ path, valid_path path → path ≠ [] → node (m_mem s) p path = None) as Hnode.
  { intros [|i path] [_ Hf] Hne; [done|]. apply Forall_cons in Hf as [Hi _].
    unfold node; fold node. by rewrite Hnext. }
  assert (∀ path t, valid_path path → node (m_mem s) p path = Some t → path = []) as Hnil.
  { intros path t Hv E. destruct path; [done|]. by rewrite Hnode in E. }
  assert (∀ t, is_table s p t ↔ t = p) as Ht.
  { intros t. split; [|intros ->; apply is_table_root]. intros (path & Hv & E).
    rewrite (Hnil _ _ Hv E) in E. by injection E. }
  split; [|done]. split.
  - split; [intros t ->%Ht; done|intros t ->%Ht; done| |].
    + intros p1 p2 t Hv1 Hv2 E1 E2. by rewrite (Hnil _ _ Hv1 E1), (Hnil _ _ Hv2 E2).
    + intros path t i Hv _ E Hi. rewrite (Hnil _ _ Hv E) in E. injection E as <-.
      rewrite ld64_zero; [done|]. intros x Hx. apply Hz. unfold in_page. consts. lia.
  - intros va Hva. unfold leaf_pte, leaf_addr.
    rewrite Hnode by (apply valid_va_path || done). done.
  - intros vpn pte. by rewrite lookup_empty.
Qed.

Lemma vm_new_root s fl T K p :
  vm s fl T (kadd K p 1) → kpos K → K p = 0 → page_ok p → refs T p = 0 → ¬ table_of s T p →
  m_pgrc s (p / PGSIZE) = 1 → (∀ x, in_page p x → rd8 (m_mem s) x = 0) → T !! p = None →
  vm s fl (<[p := ∅]> T) K ∧ (∀ t, table_of s (<[p := ∅]> T) t ↔ t = p ∨ table_of s T t).
Proof.
  intros Hvm HK HK0 Hp Hr Hn Hc Hz HT. destruct (zero_table s p Hp Hc Hz) as [Ha Ht].
  assert (∀ t, table_of s (<[p := ∅]> T) t ↔ t = p ∨ table_of s T t) as Htab.
  { intros t. split.
    - intros (r & M & [[-> <-]|[_ HM]]%lookup_insert_Some & Hit); [left; by apply Ht|].
      right. by exists r, M.
    - intros [->|(r & M & HM & Hit)].
      + exists p, ∅. rewrite lookup_insert_eq. split; [done|by apply Ht].
      + exists r, M. rewrite lookup_insert_ne; [done|]. intros ->. by rewrite HT in HM. }
  assert (∀ q, refs (<[p := ∅]> T) q = refs T q) as Href
    by (intros q; by rewrite refs_insert, refs1_empty).
  split; [|done]. split.
  - apply Hvm.
  - intros r M [[-> <-]|[_ HM]]%lookup_insert_Some; [done|by apply (vm_space _ _ _ _ Hvm)].
  - intros r1 r2 M1 M2 t [[-> <-]|[? H1]]%lookup_insert_Some [[-> <-]|[? H2]]%lookup_insert_Some Ht1 Ht2.
    + done.
    + apply Ht in Ht1 as ->. destruct Hn. by exists r2, M2.
    + apply Ht in Ht2 as ->. destruct Hn. by exists r1, M1.
    + by apply (vm_disj _ _ _ _ Hvm r1 r2 M1 M2 t).
  - intros r M vpn pte [[-> <-]|[_ HM]]%lookup_insert_Some HM'; [by rewrite lookup_empty in HM'|].
    by apply (vm_user _ _ _ _ Hvm r M).
  - intros q Hq. rewrite Htab, Href. intros Hnq. rewrite (vm_rc _ _ _ _ Hvm) by tauto.
    by rewrite kadd_ne by tauto.
  - intros q. rewrite Htab, Href. intros [->|Hq]; [done|].
    destruct (vm_tab _ _ _ _ Hvm q Hq) as [HKq Hrq]. rewrite kadd_ne in HKq; [done|].
    by intros ->.
  - intros r M vpn pte [[-> <-]|[_ HM]]%lookup_insert_Some HM'; [by rewrite lookup_empty in HM'|].
    by apply (vm_cow _ _ _ _ Hvm r M).
Qed.

(** Allocating a page and clearing it. *)
Lemma kalloc_zero_vm s fl T K p {B} (k : kM mach B) (Q : B → mach → Prop) c :
  vm s (p :: fl) T K → kpos K → alloc_unlocked s →
  (∀ s', page_ok p → m_pgrc s (p / PGSIZE) = 0 → ¬ table_of s T p → K p = 0 → refs T p = 0 → p ∉ fl →
     vm s' fl T (kadd K p 1) → m_held s' = m_held s → (∀ t, table_of s' T t ↔ table_of s T t) →
     (∀ i, m_pgrc s' i = if decide (i = p / PGSIZE) then 1 else m_pgrc s i) →
     (∀ x, rd8 (m_mem s') x = if decide (in_page p x) then u8 c else rd8 (m_mem s) x) →
     wp k Q s') →
  wp kalloc (λ r s1, r = p ∧ p ≠ 0 ∧ wp (kmemset p c PGSIZE ;; k) Q s1) s.
Proof.
  intros Hvm HK Hu Hk. wp_use kalloc_vm; [done|done|done|].
  intros r s1 (-> & Hp & H0 & Hn & (Hh & Hm & Hc) & Ht & Hvm1).
  pose proof (page_ok_range p Hp). split_and!; [done|lia|].
  destruct (free_no_ref _ _ _ _ _ Hvm HK Hp H0) as (HK0 & Hr0 & _).
  pose proof (ki_nodup _ _ (vm_kmem _ _ _ _ Hvm)) as [Hpf _]%NoDup_cons.
  wp_step. unfold kmemset. rewrite page_ok_ram by done. wp_step.
  destruct (vm_write s1 fl T (kadd K p 1) p (KString.memset (m_mem s1) p c PGSIZE) Hvm1 Hp)
    as [Hvm2 Ht2]; [by rewrite Ht|done|intros x Hx; by rewrite memset_page, decide_False|].
  apply Hk; try done.
  - intros t. by rewrite Ht2, Ht.
  - intros x. cbn. rewrite memset_page, Hm. by case_decide.
Qed.

Lemma uvmcreate_vm s fl T K :
  vm s fl T K → kpos K → alloc_unlocked s →
  wp uvmcreate (λ r s',
    (fl = [] ∧ r = 0 ∧ s' = s) ∨
    (∃ fl', fl = r :: fl' ∧ r ≠ 0 ∧ T !! r = None ∧ vm s' fl' (<[r := ∅]> T) K ∧
       grows s T s' (<[r := ∅]> T))) s.
Proof.
  intros Hvm HK Hu. unfold uvmcreate. wp_step. destruct fl as [|p fl].
  { unfold wp. rewrite (kalloc_vm_empty s T K) by done. simpl. by left. }
  eapply wp_mono; [eapply (kalloc_zero_vm s fl T K p (mret p) (λ r s', _) 0); try done|].
  2: { intros r s1 (-> & Hne & Hk). destruct (Z.eqb_spec p 0); [done|]. exact Hk. }
  intros s2 Hp H0 Hn HK0 Hr0 Hpf Hvm2 Hh2 Ht2 Hc2 Hm2. wp_step. right. exists fl.
  assert (T !! p = None) as HT.
  { destruct (T !! p) as [M|] eqn:E; [|done]. destruct Hn. exists p, M. split; [done|apply is_table_root]. }
  destruct (vm_new_root s2 fl T K p) as [Hvm3 Htab]; try done.
  - by rewrite Ht2.
  - by rewrite Hc2, decide_True.
  - intros x Hx. by rewrite Hm2, decide_True.
  - pose proof (page_ok_range p Hp). split_and!; [done|lia|done|done|]. split; [done|].
    intros q Hq Hrq Hnq. assert (q ≠ p) by (intros ->; lia). split_and!.
    + rewrite Htab, Ht2. tauto.
    + rewrite Hc2, decide_False by (by apply page_index_ne). lia.
    + intros x Hx. rewrite Hm2, decide_False; [done|]. by apply (page_ok_disjoint q).
Qed.

(** ** uvmdealloc *)

(** Shrinking from [oldsz] to [newsz] unmaps the [n] pages between them. *)
Lemma uvmdealloc_vm s fl T K r M oldsz newsz v0 (n : nat) :
  vm s fl T K → kpos K → alloc_unlocked s → T !! r = Some M →
  0 <= newsz → 0 <= oldsz <= MAXVA → PGROUNDUP newsz = v0 * PGSIZE →
  (newsz < oldsz → PGROUNDUP oldsz = (v0 + Z.of_nat n) * PGSIZE) → (oldsz <= newsz → n = 0%nat) →
  (∀ i, v0 <= i < v0 + Z.of_nat n → owned i = true ∧
     ∃ pte, M !! i = Some pte ∧ PTE_FLAGS pte ≠ PTE_V) →
  wp (uvmdealloc r oldsz newsz) (λ x s', x = Z.min oldsz newsz ∧ ∃ fl',
    let T' := <[r := unmap_run n M v0]> T in
    vm s' fl' T' K ∧ drops s T s' T' ∧ ∀ t, table_of s' T' t ↔ table_of s T t) s.
Proof.
  intros Hvm HK Hu HT Hn0 Ho0 Hup Hup' Hz Hmap. unfold uvmdealloc.
  assert (MAXVA < 2 ^ 64 - PGSIZE) as HMX by done.
  assert (n = 0%nat → ∃ fl', vm s fl' (<[r := unmap_run n M v0]> T) K ∧
    drops s T s (<[r := unmap_run n M v0]> T) ∧
    ∀ t, table_of s (<[r := unmap_run n M v0]> T) t ↔ table_of s T t) as Hnone.
  { intros ->. exists fl. rewrite unmap_run_0, insert_id by done. split_and!; [done|apply drops_refl|done]. }
  destruct (Z.leb_spec oldsz newsz) as [Hle|Hlt].
  { wp_step. split; [lia|]. by apply Hnone, Hz. }
  specialize (Hup' Hlt). rewrite Hup, Hup'. wp_step. apply wp_when; intros Hb; b2p.
  - assert (0 < Z.of_nat n) by (unfold PGSIZE in Hb; lia).
    destruct (PGROUNDUP_spec newsz) as [Hb1 _]; [lia|]. destruct (PGROUNDUP_spec oldsz) as [Hb2 _]; [lia|].
    assert (0 <= v0) by (unfold PGSIZE in *; lia).
    replace ((v0 + Z.of_nat n) * PGSIZE - v0 * PGSIZE) with (Z.of_nat n * PGSIZE) by lia.
    rewrite Z.div_mul by done. change MAXVA with (2 ^ 38) in *.
    rewrite i32_small by (unfold PGSIZE in *; lia).
    wp_use (uvmunmap_vm s fl T K r M v0 n); try done.
    + assert ((v0 + Z.of_nat n) * PGSIZE < MAXVA + PGSIZE) as Hx by (change MAXVA with (2 ^ 38); lia).
      change MAXVA with (2 ^ 26 * PGSIZE) in *. unfold PGSIZE in *. lia.
    + intros _ s1 (fl1 & Hvm1 & Hd1 & Ht1). wp_step. split; [lia|]. by exists fl1.
  - wp_step. split; [lia|]. apply Hnone. unfold PGSIZE in Hb. lia.
Qed.

(** ** uvmalloc *)

(** [M'] is [M] with [k] fresh zeroed pages mapped from [v0] on. *)
Definition grown s M (s' : mach) M' (v0 : Z) (k : nat) perm : Prop :=
  (∀ i, ¬ (v0 <= i < v0 + Z.of_nat k) → M' !! i = M !! i) ∧
  (∀ i, v0 <= i < v0 + Z.of_nat k → ∃ p, M' !! i = Some (mkpte p perm) ∧ page_ok p ∧
     m_pgrc s (p / PGSIZE) = 0 ∧ m_pgrc s' (p / PGSIZE) = 1 ∧
     ∀ x, in_page p x → rd8 (m_mem s') x = 0).

Lemma grown_0 s M s' v0 perm : grown s M s' M v0 0 perm.
Proof. split; [done|]. intros i Hi. lia. Qed.

Lemma unmap_grown M M' v0 k :
  (∀ i, ¬ (v0 <= i < v0 + Z.of_nat k) → M' !! i = M !! i) → (∀ i, v0 <= i < v0 + Z.of_nat k → M !! i = None) →
  unmap_run k M' v0 = M.
Proof.
  intros H1 HM. apply map_eq. intros i. rewrite unmap_run_lookup.
  case_decide; [by rewrite HM|by apply H1].
Qed.

Lemma grown_mapped s M s' M' v0 k perm i :
  grown s M s' M' v0 k perm → 0 <= perm < 1024 → Z.testbit perm 1 = true →
  v0 <= i < v0 + Z.of_nat k → ∃ pte, M' !! i = Some pte ∧ PTE_FLAGS pte ≠ PTE_V.
Proof.
  intros [_ H2] Hpe Hr Hi. destruct (H2 i Hi) as (p & HM & Hp & _).
  pose proof (page_ok_range p Hp). eexists. split; [done|].
  destruct (mkpte_ok p perm ltac:(lia) Hpe) as (_ & _ & ->). intros E.
  apply (f_equal (λ z, Z.testbit z 1)) in E. rewrite Z.lor_spec, Hr in E. done.
Qed.

(** Mapping one more page. *)
Lemma grown_S s M s1 s2 M1 v0 k perm p T1 T2 :
  grown s M s1 M1 v0 k perm → grows s1 T1 s2 T2 →
  (∀ i q, v0 <= i < v0 + Z.of_nat k → M1 !! i = Some (mkpte q perm) → page_ok q → ¬ table_of s1 T1 q) →
  (∀ i, m_pgrc s1 i ≠ 0 → m_pgrc s2 i = m_pgrc s1 i) →
  page_ok p → m_pgrc s (p / PGSIZE) = 0 → m_pgrc s2 (p / PGSIZE) = 1 →
  (∀ x, in_page p x → rd8 (m_mem s2) x = 0) →
  grown s M s2 (<[v0 + Z.of_nat k := mkpte p perm]> M1) v0 (S k) perm.
Proof.
  intros [H1 H2] [_ Hg] Hnt Hc Hp Hp0 Hp1 Hz. split.
  - intros i Hi. rewrite lookup_insert_ne by lia. apply H1. lia.
  - intros i Hi. destruct (decide (i = v0 + Z.of_nat k)) as [->|Hne].
    + exists p. by rewrite lookup_insert_eq.
    + destruct (H2 i ltac:(lia)) as (q & HM & Hq & Hq0 & Hq1 & Hqz).
      destruct (Hg q Hq ltac:(lia) ltac:(apply (Hnt i); [lia|done|done])) as (_ & _ & Hd).
      exists q. rewrite lookup_insert_ne by done. split_and!; [done|done|done| |].
      * rewrite Hc; lia.
      * intros x Hx. rewrite Hd by done. by apply Hqz.
Qed.

(** Giving the pages back after a failure. *)
Lemma uvmalloc_undo s1 fl1 T K r M M1 v0 (k : nat) :
  vm s1 fl1 (<[r := M1]> T) K → kpos K → alloc_unlocked s1 → T !! r = Some M →
  (∀ i, ¬ (v0 <= i < v0 + Z.of_nat k) → M1 !! i = M !! i) →
  (∀ i, v0 <= i < v0 + Z.of_nat k → ∃ pte, M1 !! i = Some pte ∧ PTE_FLAGS pte ≠ PTE_V) → 0 <= v0 →
  (∀ i, v0 <= i < v0 + Z.of_nat k → owned i = true ∧ M !! i = None) →
  (v0 + Z.of_nat k) * PGSIZE <= MAXVA →
  wp (uvmdealloc r ((v0 + Z.of_nat k) * PGSIZE) (v0 * PGSIZE)) (λ _ s', ∃ fl',
    vm s' fl' T K ∧ drops s1 (<[r := M1]> T) s' T ∧
    ∀ t, table_of s' T t ↔ table_of s1 (<[r := M1]> T) t) s1.
Proof.
  intros Hvm HK Hu HT Hout Hin Hv0 HM Hmax. assert (MAXVA < 2 ^ 64 - PGSIZE) as HMX by done.
  wp_use (uvmdealloc_vm s1 fl1 (<[r := M1]> T) K r M1 ((v0 + Z.of_nat k) * PGSIZE) (v0 * PGSIZE) v0 k);
    [done|done|done|apply lookup_insert_eq|unfold PGSIZE; lia|unfold PGSIZE in *; lia| | | | |].
  - apply PGROUNDUP_id; [unfold PGSIZE in *; lia|]. by apply Z.mod_mul.
  - intros _. apply PGROUNDUP_id; [unfold PGSIZE in *; lia|]. by apply Z.mod_mul.
  - unfold PGSIZE. lia.
  - intros i Hi. split; [by apply HM|by apply Hin].
  - cbn zeta. rewrite insert_insert_eq, (unmap_grown M), insert_id by
      (done || intros i Hi; by apply HM). by intros x s' [_ H].
Qed.

(** An operation that fails gives back what it took. *)
Lemma grows_drops s fl T K s1 T1 s2 fl2 :
  vm s fl T K → vm s2 fl2 T K → grows s T s1 T1 → drops s1 T1 s2 T → grows s T s2 T.
Proof.
  intros Hvm Hvm2 [Hh1 Hg] [Hh2 Hd]. split; [congruence|]. intros p Hp Hr Hn.
  destruct (Hg p Hp Hr Hn) as (Hn1 & Hle & Hx1).
  assert (¬ table_of s2 T p) as Hn2.
  { intros Ht. destruct (table_page _ _ _ _ _ Hvm2 Ht) as [_ Hc].
    destruct (Hd p Hp ltac:(lia) Hn1) as [Hnt _]. by apply Hnt. }
  assert (m_pgrc s2 (p / PGSIZE) = m_pgrc s (p / PGSIZE)) as Heq
    by (by rewrite (vm_rc _ _ _ _ Hvm2), (vm_rc _ _ _ _ Hvm)).
  split_and!; [done|lia|]. intros x Hx. rewrite <- Hx1 by done. apply (Hd p Hp); [lia|done|done].
Qed.

(** One iteration of [uvmalloc]. *)
Lemma uvmalloc_step s fl T K r M va perm p {B} (kok kfail : kM mach B) (Q : B → mach → Prop) :
  vm s (p :: fl) T K → kpos K → alloc_unlocked s → T !! r = Some M →
  0 <= va < MAXVA → va mod PGSIZE = 0 → owned (va / PGSIZE) = true → M !! (va / PGSIZE) = None →
  0 <= perm < 1024 →
  (∀ s' fl', let T' := <[r := <[va / PGSIZE := mkpte p perm]> M]> T in
     vm s' fl' T' K → grows s T s' T' → page_ok p → m_pgrc s (p / PGSIZE) = 0 →
     (∀ i, m_pgrc s i ≠ 0 → m_pgrc s' i = m_pgrc s i) → m_pgrc s' (p / PGSIZE) = 1 →
     (∀ x, in_page p x → rd8 (m_mem s') x = 0) → (length fl <= length fl' + 2)%nat → wp kok Q s') →
  (∀ s' fl', vm s' fl' T K → grows s T s' T → (length fl <= 2)%nat → wp kfail Q s') →
  wp kalloc (λ m s1, m = p ∧ m ≠ 0 ∧
    wp (kmemset m 0 PGSIZE ;;
        r ← mappages r va PGSIZE m perm;
        if negb (r =? 0) then kfree m ;; kfail else kok) Q s1) s.
Proof.
  intros Hvm HK Hu HT Hva Hal Ho HM Hpe Hok Hfail.
  wp_use (kalloc_zero_vm s fl T K p _ Q 0); [done|done|done| |].
  2: { intros m s1 (-> & Hne & Hk). split_and!; [done|done|]. exact Hk. }
  intros s2 Hp H0 Hn HK0 Hr0 Hpf Hvm2 Hh2 Ht2 Hc2 Hm2.
  assert (m_pgrc s2 (p / PGSIZE) = 1) as Hc2p by (by rewrite Hc2, decide_True).
  assert (¬ table_of s2 T p) as Hn2 by (by rewrite Ht2).
  assert (grows s T s2 T) as Hg2.
  { split; [done|]. intros q Hq Hrq Hnq. assert (q ≠ p) by (intros ->; lia).
    rewrite Ht2, Hc2, decide_False by (by apply page_index_ne). split_and!; [done|lia|].
    intros x Hx. rewrite Hm2, decide_False; [done|]. by apply (page_ok_disjoint q). }
  pose proof (page_ok_range p Hp) as Hpr. wp_step.
  wp_use (mappages_vm s2 fl T (kadd K p 1) r M va p perm); try done.
  { intros q. unfold kadd. specialize (HK q). destruct (q =? p); lia. }
  { unfold alloc_unlocked. by rewrite Hh2. }
  { split_and!; [lia|lia|apply Hp|lia|lia|]. intros _. split_and!; [done|done|lia|lia]. }
  intros x s3 (used & fl3 & -> & Hused & Hh3 & Hc3 & Hres). cbn zeta in Hres.
  destruct Hres as [(-> & Hg3 & Hvm3)|(-> & -> & Hg3 & Hvm3)]; simpl.
  - apply (Hok s3 fl3); try done.
    + eapply vm_ext; [|done]. intros q. unfold kadd, ref1. rewrite Ho, mkpte_pa by (done || lia || apply Hp).
      simpl. destruct (Z.eqb_spec q p), (Z.eqb_spec p q); try done; lia.
    + by eapply grows_trans.
    + intros i Hi. assert (i ≠ p / PGSIZE) by (by intros ->). rewrite Hc3; rewrite Hc2, decide_False by done; done.
    + rewrite Hc3; lia.
    + intros y Hy. destruct (proj2 Hg3 p Hp ltac:(lia) Hn2) as (_ & _ & ->); [|done].
      by rewrite Hm2, decide_True.
    + rewrite length_app. lia.
  - destruct (proj2 Hg3 p Hp ltac:(lia) Hn2) as (Hn3 & _).
    wp_step. wp_use kfree_vm; [done| |done|done|rewrite Hc3; lia|].
    { unfold alloc_unlocked. by rewrite Hh3, Hh2. }
    intros _ s4 ((Hh4 & Hm4 & Hc4) & Ht4 & Hvm4).
    eapply Hfail.
    + eapply vm_ext; [|done]. intros q. unfold kadd. destruct (q =? p); lia.
    + destruct (grows_trans _ _ _ _ _ _ Hg2 Hg3) as [Hh Hg]. split; [congruence|].
      intros q Hq Hrq Hnq. assert (q ≠ p) by (intros ->; lia).
      destruct (Hg q Hq Hrq Hnq) as (Hnq3 & Hle & Hd). rewrite Ht4, Hc4, decide_False by (by apply page_index_ne).
      split_and!; [done|lia|]. intros y Hy. rewrite <- Hd by done. apply Hm4. left.
      by apply (page_ok_disjoint q).
    + rewrite length_app. simpl. lia.
Qed.

(** [uvmalloc] maps fresh zeroed pages between the old and the new size, or
    returns 0 and leaves the address space as it was; it needs at most three
    free pages for each page it maps. *)
Lemma uvmalloc_vm s fl T K r M oldsz newsz xperm v0 (n : nat) :
  let perm := Z.lor (Z.lor PTE_R PTE_U) xperm in
  vm s fl T K → kpos K → alloc_unlocked s → T !! r = Some M →
  0 <= oldsz <= newsz → newsz <= MAXVA → 0 <= xperm < 1024 →
  PGROUNDUP oldsz = v0 * PGSIZE → newsz <= (v0 + Z.of_nat n) * PGSIZE →
  ((0 < n)%nat → (v0 + Z.of_nat n - 1) * PGSIZE < newsz) →
  (∀ i, v0 <= i < v0 + Z.of_nat n → owned i = true ∧ M !! i = None) →
  wp (uvmalloc r oldsz newsz xperm) (λ x s',
    (x = newsz ∧ ∃ fl' M', vm s' fl' (<[r := M']> T) K ∧ grown s M s' M' v0 n perm ∧
       grows s T s' (<[r := M']> T) ∧ (length fl <= length fl' + 3 * n)%nat) ∨
    (x = 0 ∧ (length fl <= 3 * n)%nat ∧ ∃ fl', vm s' fl' T K ∧ grows s T s' T)) s.
Proof.
  intros perm Hvm HK Hu HT Hsz Hmax Hx Hup Hn1 Hn2 HM. unfold uvmalloc.
  assert (0 <= perm < 1024) as Hpe by (repeat apply lor_flags_range; done).
  assert (Z.testbit perm 1 = true) as Hpr by (unfold perm; by rewrite !Z.lor_spec).
  destruct (PGROUNDUP_spec oldsz) as [Hb _]; [assert (MAXVA < 2 ^ 64 - PGSIZE) by done; lia|].
  rewrite Hup in *. assert (0 <= v0) as Hv0 by (unfold PGSIZE in *; lia).
  destruct (Z.ltb_spec newsz oldsz); [lia|].
  eapply (wp_while (λ a s', ∃ k fl' M', a = (v0 + Z.of_nat k) * PGSIZE ∧ (k <= n)%nat ∧
      vm s' fl' (<[r := M']> T) K ∧ grown s M s' M' v0 k perm ∧ grows s T s' (<[r := M']> T) ∧
      (∀ i, m_pgrc s i ≠ 0 → m_pgrc s' i = m_pgrc s i) ∧ (length fl <= length fl' + 3 * k)%nat)
    (λ a _, (v0 + Z.of_nat n) * PGSIZE - a)).
  2: { exists 0%nat, fl, M. rewrite insert_id by done.
       split_and!; [lia|lia|done|apply grown_0|apply grows_refl|done|lia]. }
  2: { change MAXVA with (2 ^ 38) in *. unfold PGSIZE in *. lia. }
  intros a s1 (k & fl1 & M1 & -> & Hkn & Hvm1 & Hgr1 & Hg1 & Hc1 & Hlen1).
  destruct (Z.leb_spec newsz ((v0 + Z.of_nat k) * PGSIZE)) as [Hge|Hlt].
  { wp_step. left. split; [done|]. assert (k = n) as -> by (unfold PGSIZE in *; lia). by exists fl1, M1. }
  assert (k < n)%nat as Hkn' by (unfold PGSIZE in *; lia).
  destruct (HM (v0 + Z.of_nat k) ltac:(lia)) as [Ho HMk].
  destruct (owned_va (v0 + Z.of_nat k) ltac:(lia) Ho) as [Hva Htf].
  assert ((v0 + Z.of_nat k) * PGSIZE / PGSIZE = v0 + Z.of_nat k) as Hdiv by (by apply Z.div_mul).
  assert (alloc_unlocked s1) as Hu1 by (unfold alloc_unlocked; by rewrite (proj1 Hg1)).
  assert (∀ s2 fl2 (Q : Z → mach → Prop), vm s2 fl2 (<[r := M1]> T) K → grows s T s2 (<[r := M1]> T) →
    (∀ s' fl', vm s' fl' T K → grows s T s' T → Q 0 s') →
    wp (uvmdealloc r ((v0 + Z.of_nat k) * PGSIZE) (v0 * PGSIZE) ;; mret (inr 0 : Z + Z))
       (λ x s', match x with inl _ => False | inr b => Q b s' end) s2) as Hundo.
  { intros s2 fl2 Q Hvm2 Hg2 HQ. wp_step. wp_use (uvmalloc_undo s2 fl2 T K r M M1 v0 k); try done.
    - unfold alloc_unlocked. by rewrite (proj1 Hg2).
    - apply Hgr1.
    - intros i Hi. by eapply grown_mapped.
    - intros i Hi. apply HM. lia.
    - lia.
    - intros _ s3 (fl3 & Hvm3 & Hd3 & Ht3). wp_step. apply (HQ s3 fl3); [done|].
      by eapply (grows_drops s fl T K s2 _ s3 fl3). }
  wp_step. destruct fl1 as [|p fl1].
  { unfold wp at 1. rewrite (kalloc_vm_empty s1 _ K) by done. simpl.
    wp_use (Hundo s1 [] (λ b s', b = 0 ∧ ∃ fl', vm s' fl' T K ∧ grows s T s' T)); [done|done|eauto|].
    intros [?|?] s' Hres; [done|]. destruct Hres as [? Hres]. right. simpl in Hlen1. split_and!; [done|lia|done]. }
  eapply wp_mono; [eapply (uvmalloc_step s1 fl1 _ K r M1 ((v0 + Z.of_nat k) * PGSIZE) perm p)|
    intros m s2 (-> & Hne & Hk); destruct (Z.eqb_spec p 0); [done|]; exact Hk];
    try done; rewrite ?Hdiv; try done.
  - apply lookup_insert_eq.
  - lia.
  - by apply Z.mod_mul.
  - rewrite (proj1 Hgr1) by lia. done.
  - cbn zeta. rewrite insert_insert_eq. intros s2 fl2 Hvm2 Hg2 Hp Hp0 Hc2 Hp1 Hz Hlen2. wp_step. simpl in Hlen1.
    change MAXVA with (2 ^ 38) in *. rewrite u64_small by (unfold PGSIZE in *; lia).
    split; [|unfold PGSIZE in *; lia]. exists (S k), fl2, (<[v0 + Z.of_nat k := mkpte p perm]> M1).
    assert (m_pgrc s (p / PGSIZE) = 0) as Hps by (destruct (decide (m_pgrc s (p / PGSIZE) = 0)) as [|E]; [done|]; by rewrite (Hc1 _ E) in Hp0).
    split_and!; [lia|lia|done| |by eapply grows_trans| |lia].
    2: { intros i Hi. rewrite Hc2; rewrite (Hc1 _ Hi); done. }
    eapply (grown_S s M s1 s2 M1 v0 k perm p (<[r := M1]> T)); try done.
    intros i q Hi Hq Hqok. destruct (HM i ltac:(lia)) as [Hoi _].
    destruct (mapped_page _ _ _ _ r M1 i _ Hvm1 (lookup_insert_eq _ _ _) Hq Hoi) as (_ & Hnt & _).
    pose proof (page_ok_range q Hqok). rewrite mkpte_pa in Hnt by (done || lia || apply Hqok). done.
  - intros s2 fl2 Hvm2 Hg2 Hlen2. simpl in Hlen1.
    wp_use (Hundo s2 fl2 (λ b s', b = 0 ∧ ∃ fl', vm s' fl' T K ∧ grows s T s' T)); [done|by eapply grows_trans|eauto|].
    intros [?|?] s' Hres; [done|]. destruct Hres as [? Hres]. right. split_and!; [done|lia|done].
Qed.

End uvmgrow.
