(* ===== verification/UvmFree.v ===== *)
(** Freeing an address space: [freewalk] and [uvmfree] of [kernel/vm.c] give
    back every page-table page and every reference of the table. *)
From S2P Require Import Prelude CString Spinlock Riscv Kalloc Vm PageTable Uvm UvmOps UvmGrow.

Section uvmfree.
Context `{KI : !KernelImage}.
Implicit Types (T : gmap Z (gmap Z Z)) (M : gmap Z Z) (K : Z → Z).

#[local] Arguments seqZ : simpl never.

(** ** The pages of a table *)

(** The page-table pages below [t], with [k] levels of tables under it, in the
    order in which [freewalk] reaches them. *)
Fixpoint tnodes (m : mem) (k : nat) (t : Z) : list Z :=
  t :: match k with
       | O => []
       | S k' => seqZ 0 512 ≫= λ i, from_option (tnodes m k') [] (pt_next m t i)
       end.

(** Those below entry [i]. *)
Definition kids (m : mem) (k : nat) (t i : Z) : list Z :=
  match k with O => [] | S k' => from_option (tnodes m k') [] (pt_next m t i) end.

(** Entries point to tables, and the last level is empty. *)
Fixpoint tree_ok (m : mem) (k : nat) (t : Z) : Prop :=
  ∀ i, 0 <= i < 512 → truth (Z.land (ld64 m (t + 8 * i)) PTE_V) = true →
    match k with
    | O => False
    | S k' => PTE_FLAGS (ld64 m (t + 8 * i)) = PTE_V ∧ tree_ok m k' (PTE2PA (ld64 m (t + 8 * i)))
    end.

Lemma bind_nil {A B} (l : list A) : (l ≫= λ _, []) = ([] : list B).
Proof. induction l; [done|]. done. Qed.

Lemma tnodes_kids m k t : tnodes m k t = t :: (seqZ 0 512 ≫= kids m k t).
Proof. destruct k as [|k]; [|done]. unfold kids. by rewrite bind_nil. Qed.

Lemma kids_node m k t i p : 0 <= i < 512 → p ∈ kids m k t i → p ∈ tnodes m k t.
Proof.
  intros Hi Hp. rewrite tnodes_kids. apply elem_of_cons. right. apply list_elem_of_bind.
  exists i. split; [done|]. apply elem_of_seqZ. lia.
Qed.

(** The tree depends on the memory of its own pages. *)
Lemma tnodes_ext m m' k t :
  (∀ p x, p ∈ tnodes m k t → in_page p x → rd8 m' x = rd8 m x) →
  tnodes m' k t = tnodes m k t ∧ (tree_ok m k t → tree_ok m' k t).
Proof.
  revert t. induction k as [|k IH]; intros t H.
  all: assert (∀ i, 0 <= i < 512 → ld64 m' (t + 8 * i) = ld64 m (t + 8 * i)) as Hld
    by (intros i Hi; apply ld64_page_ext; [done|]; intros x; apply H; rewrite tnodes_kids; constructor).
  { split; [done|]. intros Hok i Hi. rewrite Hld by done. by apply Hok. }
  assert (∀ i c, 0 <= i < 512 → pt_next m t i = Some c → tnodes m' k c = tnodes m k c ∧
    (tree_ok m k c → tree_ok m' k c)) as Hkid.
  { intros i c Hi Hc. apply IH. intros p x Hp. apply H. apply (kids_node m (S k) t i); [done|].
    simpl. by rewrite Hc. }
  split.
  - rewrite !tnodes_kids. f_equal. apply Forall_bind_ext, Forall_forall. intros i Hi%elem_of_seqZ.
    unfold kids. rewrite (pt_next_ext m m') by (apply Hld; lia).
    destruct (pt_next m t i) as [c|] eqn:E; [|done]. simpl. apply (Hkid i); [lia|done].
  - intros Hok i Hi. rewrite Hld by done. intros HV. destruct (Hok i Hi HV) as [? Hc]. split; [done|].
    apply (Hkid i); [done| |done]. unfold pt_next. by rewrite HV.
Qed.

(** ** freewalk *)

(** The pages [N] are given back. *)
Record released (s s' : mach) (N : list Z) : Prop := {
  rl_held : m_held s' = m_held s;
  rl_mem : ∀ x, (∀ p, p ∈ N → ¬ in_page p x) → rd8 (m_mem s') x = rd8 (m_mem s) x;
  rl_zero : ∀ p, p ∈ N → m_pgrc s' (p / PGSIZE) = 0;
  rl_rc : ∀ i, (∀ p, p ∈ N → i ≠ p / PGSIZE) → m_pgrc s' i = m_pgrc s i
}.

Definition allocated_pages (s : mach) (N : list Z) : Prop :=
  NoDup N ∧ ∀ p, p ∈ N → page_ok p ∧ m_pgrc s (p / PGSIZE) = 1.

Lemma flags_table pte :
  PTE_FLAGS pte = PTE_V → (Z.land pte (Z.lor (Z.lor PTE_R PTE_W) PTE_X) =? 0) = true.
Proof.
  intros H. apply Z.eqb_eq.
  replace (Z.lor (Z.lor PTE_R PTE_W) PTE_X) with (Z.land 0x3FF 0xe) by done.
  rewrite Z.land_assoc. change (Z.land pte 0x3FF) with (PTE_FLAGS pte). by rewrite H.
Qed.

Lemma seqZ_split (n i : Z) : 0 <= i < n → seqZ 0 n = seqZ 0 i ++ i :: seqZ (i + 1) (n - i - 1).
Proof.
  intros Hi. replace n with (i + (1 + (n - i - 1))) at 1 by lia.
  rewrite (seqZ_app 0 i), (seqZ_app (0 + i) 1) by lia. rewrite Z.add_0_l. done.
Qed.

(** The state of the loop of [freewalk] before entry [i]. *)
Record walking (s : mach) (k : nat) (t i : Z) (s1 : mach) : Prop := {
  wk_held : m_held s1 = m_held s;
  wk_entry : ∀ j, i <= j < 512 → ld64 (m_mem s1) (t + 8 * j) = ld64 (m_mem s) (t + 8 * j);
  wk_mem : ∀ x, (∀ p, p ∈ t :: (seqZ 0 i ≫= kids (m_mem s) k t) → ¬ in_page p x) →
    rd8 (m_mem s1) x = rd8 (m_mem s) x;
  wk_zero : ∀ p, p ∈ (seqZ 0 i ≫= kids (m_mem s) k t) → m_pgrc s1 (p / PGSIZE) = 0;
  wk_rc : ∀ j, (∀ p, p ∈ (seqZ 0 i ≫= kids (m_mem s) k t) → j ≠ p / PGSIZE) → m_pgrc s1 j = m_pgrc s j;
  wk_kmem : ∃ fl, kmem_inv s1 fl
}.

Lemma walk_done m k t i :
  0 <= i → (seqZ 0 (i + 1) ≫= kids m k t) = (seqZ 0 i ≫= kids m k t) ++ kids m k t i.
Proof.
  intros Hi. rewrite seqZ_app by lia. rewrite bind_app. f_equal. simpl. apply app_nil_r.
Qed.

Section loop.
  Context (s : mach) (k : nat) (t : Z).
  Context (Hpages : allocated_pages s (tnodes (m_mem s) k t)).
  Abbreviation kids := (kids (m_mem s) k t).

Lemma kid_page i p : 0 <= i < 512 → p ∈ kids i → page_ok p ∧ m_pgrc s (p / PGSIZE) = 1 ∧ p ≠ t.
Proof.
  intros Hi Hp. destruct (proj2 Hpages p (kids_node _ _ _ _ _ Hi Hp)) as [Hok Hc]. split_and!; [done|done|].
  intros ->. destruct Hpages as [Hnd _]. rewrite tnodes_kids in Hnd. apply NoDup_cons in Hnd as [Hn _].
  apply Hn, list_elem_of_bind. exists i. split; [done|]. apply elem_of_seqZ. lia.
Qed.

Lemma done_page i p :
  0 <= i <= 512 → p ∈ (seqZ 0 i ≫= kids) → page_ok p ∧ m_pgrc s (p / PGSIZE) = 1 ∧ p ≠ t.
Proof.
  intros Hi (j & Hp & Hj%elem_of_seqZ)%list_elem_of_bind. apply (kid_page j); [lia|done].
Qed.

Lemma root_page : page_ok t ∧ m_pgrc s (t / PGSIZE) = 1.
Proof. apply (proj2 Hpages). rewrite tnodes_kids. constructor. Qed.

Lemma kids_fresh i p : 0 <= i < 512 → p ∈ kids i → p ∉ (seqZ 0 i ≫= kids).
Proof.
  intros Hi Hp Hd. destruct Hpages as [Hnd _]. rewrite tnodes_kids in Hnd.
  apply NoDup_cons in Hnd as [_ Hnd]. rewrite (seqZ_split 512 i), bind_app in Hnd by lia.
  apply NoDup_app in Hnd as (_ & Hdis & _). apply (Hdis p Hd). apply elem_of_app. by left.
Qed.

Lemma walking_0 fl : kmem_inv s fl → walking s k t 0 s.
Proof. intros Hk. split; try done; [intros p Hp; by apply elem_of_nil in Hp|by exists fl]. Qed.

Lemma walking_skip i s1 : 0 <= i < 512 → kids i = [] → walking s k t i s1 → walking s k t (i + 1) s1.
Proof.
  intros Hi Hnil [Hh He Hm Hz Hr Hk]. split; rewrite ?walk_done, ?Hnil, ?app_nil_r by lia; try done.
  intros j Hj. apply He. lia.
Qed.

(** The pages of the next child are as they were. *)
Lemma walking_kids i s1 p x :
  0 <= i < 512 → walking s k t i s1 → p ∈ kids i → in_page p x → rd8 (m_mem s1) x = rd8 (m_mem s) x.
Proof.
  intros Hi Hw Hp Hx. apply (wk_mem _ _ _ _ _ Hw). intros q Hq.
  destruct (kid_page i p Hi Hp) as (Hok & _ & Hne).
  apply (page_ok_disjoint p); [done| | |done].
  - apply elem_of_cons in Hq as [->|Hq]; [apply root_page|by apply (done_page i); [lia|]].
  - apply elem_of_cons in Hq as [->|Hq]; [done|]. intros ->. by apply (kids_fresh i q).
Qed.

Lemma walking_rc i s1 p :
  0 <= i < 512 → walking s k t i s1 → p ∈ kids i → m_pgrc s1 (p / PGSIZE) = 1.
Proof.
  intros Hi Hw Hp. destruct (kid_page i p Hi Hp) as (Hok & Hc & _). rewrite <- Hc.
  apply (wk_rc _ _ _ _ _ Hw). intros q Hq. apply page_index_ne; [done|by apply (done_page i); [lia|]|].
  intros ->. by apply (kids_fresh i q).
Qed.

Lemma walking_child i s1 s2 fl2 :
  0 <= i < 512 → walking s k t i s1 → released s1 s2 (kids i) → kmem_inv s2 fl2 →
  walking s k t (i + 1) (s2 <| m_mem := st64 (m_mem s2) (t + 8 * i) 0 |>).
Proof.
  intros Hi [Hh He Hm Hz Hr Hk] [Rh Rm Rz Rr] Hk2. destruct root_page as [Ht Htc].
  assert (∀ x, in_page t x → rd8 (m_mem s2) x = rd8 (m_mem s1) x) as Hsame.
  { intros x Hx. apply Rm. intros p Hp. destruct (kid_page i p Hi Hp) as (Hok & _ & Hne).
    by apply (page_ok_disjoint t). }
  assert (∀ x, ¬ in_page t x → rd8 (st64 (m_mem s2) (t + 8 * i) 0) x = rd8 (m_mem s2) x) as Hst.
  { intros x Hx. apply rd8_st64_ne. unfold in_page in Hx. consts. lia. }
  split; cbn; rewrite ?walk_done by lia.
  - congruence.
  - intros j Hj. rewrite <- He by lia. rewrite ld64_st64_ne by lia. apply ld64_page_ext; [lia|done].
  - intros x Hx. rewrite Hst by (apply Hx; constructor). rewrite Rm.
    + apply Hm. intros p Hp. apply Hx. set_solver.
    + intros p Hp. apply Hx. set_solver.
  - intros p [Hp|Hp]%elem_of_app; [|by apply Rz]. rewrite Rr; [by apply Hz|].
    intros q Hq. destruct (kid_page i q Hi Hq) as (Hok & _ & _).
    apply page_index_ne; [by apply (done_page i); [lia|]|done|]. intros ->. by apply (kids_fresh i q).
  - intros j Hj. rewrite Rr, Hr; [done| |]; intros p Hp; apply Hj, elem_of_app; auto.
  - exists fl2. apply (kmem_inv_mem s2); [done|done|done|]. intros p x Hp Hx. cbn. apply Hst.
    apply (page_ok_disjoint p); [by apply (ki_page _ _ Hk2)|done| |done]. intros ->.
    apply (ki_free _ _ Hk2) in Hp; [|done]. rewrite Rr in Hp.
    + rewrite Hr in Hp; [lia|]. intros q Hq. destruct (done_page i q ltac:(lia) Hq) as (? & _ & ?).
      by apply page_index_ne.
    + intros q Hq. destruct (kid_page i q Hi Hq) as (? & _ & ?). by apply page_index_ne.
Qed.

(** The loop is over and the table itself is given back. *)
Lemma walking_free s1 :
  alloc_unlocked s → walking s k t 512 s1 →
  wp (kfree t) (λ _ s', released s s' (tnodes (m_mem s) k t) ∧ ∃ fl, kmem_inv s' fl) s1.
Proof.
  intros Hu [Hh He Hm Hz Hr [fl Hk]]. destruct root_page as [Ht Htc]. rewrite tnodes_kids.
  assert (m_pgrc s1 (t / PGSIZE) = 1) as Htc1.
  { rewrite Hr; [done|]. intros p Hp. destruct (done_page 512 p ltac:(lia) Hp) as (? & _ & ?).
    by apply page_index_ne. }
  wp_use kfree_spec; [done|unfold alloc_unlocked; by rewrite Hh|done|lia|].
  intros _ s2 ((Fh & Fm & Fc) & Hk2). split; [|by eexists]. split.
  - congruence.
  - intros x Hx. rewrite Fm by (left; apply Hx; constructor). by apply Hm.
  - intros p [->|Hp]%elem_of_cons; rewrite Fc.
    + rewrite decide_True by done. lia.
    + destruct (done_page 512 p ltac:(lia) Hp) as (? & _ & ?).
      rewrite decide_False by (by apply page_index_ne). rewrite Hz; [lia|done].
  - intros i Hi. rewrite Fc, decide_False by (apply Hi; constructor). rewrite Hr; [lia|].
    intros p Hp. apply Hi. by constructor.
Qed.
End loop.

Lemma freewalk_spec depth k t s fl :
  (k < depth)%nat → kmem_inv s fl → alloc_unlocked s → tree_ok (m_mem s) k t →
  allocated_pages s (tnodes (m_mem s) k t) →
  wp (freewalk depth t) (λ _ s', released s s' (tnodes (m_mem s) k t) ∧ ∃ fl', kmem_inv s' fl') s.
Proof.
  revert k t s fl. induction depth as [|depth IH]; intros k t s fl Hd Hk Hu Htree Hpages; [lia|].
  cbn [freewalk]. wp_step. unfold for_range.
  eapply (wp_for_step (λ i s1, 0 <= i <= 512 ∧ walking s k t i s1)); [| | |done|done].
  - intros i s1 [Hi0 Hw] Hi. destruct (root_page s k t Hpages) as [Ht _].
    wp_step. unfold kload64. rewrite page_ok_ram8 by done. wp_step. cbn beta.
    rewrite (wk_entry _ _ _ _ _ Hw) by lia.
    assert (∀ c, kids (m_mem s) k t i = c → c = [] →
      0 <= i + 1 <= 512 ∧ walking s k t (i + 1) s1) as Hskip
      by (intros c <- Hc; split; [lia|by apply walking_skip]).
    destruct (truth (Z.land (ld64 (m_mem s) (t + 8 * i)) PTE_V)) eqn:HV; cbn [andb].
    2: { wp_step. eapply Hskip; [done|]. unfold kids. destruct k; [done|]. unfold pt_next. by rewrite HV. }
    destruct k as [|k]; [by destruct (Htree i Hi HV)|]. destruct (Htree i Hi HV) as [Hfl Hsub].
    rewrite flags_table by done. set (c := PTE2PA _) in *.
    assert (kids (m_mem s) (S k) t i = tnodes (m_mem s) k c) as Hkc
      by (unfold kids, pt_next; by rewrite HV).
    destruct (tnodes_ext (m_mem s) (m_mem s1) k c) as [Heq Hok1].
    { intros p x Hp. apply (walking_kids s (S k) t Hpages i); [done|done|]. by rewrite Hkc. }
    destruct (wk_kmem _ _ _ _ _ Hw) as [fl1 Hk1].
    wp_step. wp_use (IH k c s1 fl1); [lia|done| |by apply Hok1| |].
    + unfold alloc_unlocked. by rewrite (wk_held _ _ _ _ _ Hw).
    + rewrite Heq, <- Hkc. split.
      * eapply sublist_NoDup; [apply Hpages|]. rewrite tnodes_kids.
        apply sublist_cons. rewrite (seqZ_split 512 i), bind_app by lia.
        apply sublist_inserts_l. simpl. apply sublist_inserts_r. done.
      * intros p Hp. destruct (kid_page s (S k) t Hpages i p Hi Hp) as (? & _). split; [done|].
        by apply (walking_rc s (S k) t Hpages i).
    + intros _ s2 [Hrel [fl2 Hk2]]. unfold kstore64. rewrite page_ok_ram8 by done. wp_step.
      split; [lia|]. rewrite Heq, <- Hkc in Hrel. by apply (walking_child s (S k) t Hpages i s1 s2 fl2).
  - intros i s1 [Hi Hw] Hge. assert (i = 512) as -> by lia. by apply walking_free.
  - split; [lia|]. by apply (walking_0 s k t fl).
Qed.

(** ** The pages of a table are those [freewalk] frees *)

Lemma node_app m t p1 p2 : node m t (p1 ++ p2) = node m t p1 ≫= λ t', node m t' p2.
Proof.
  revert t. induction p1 as [|i p1 IH]; intros t; [done|]. cbn [node app].
  destruct (pt_next m t i); [apply IH|done].
Qed.

Lemma tnodes_node m k t p :
  p ∈ tnodes m k t ↔
  ∃ path, (length path <= k)%nat ∧ Forall (λ i, 0 <= i < 512) path ∧ node m t path = Some p.
Proof.
  revert t. induction k as [|k IH]; intros t.
  { cbn [tnodes]. rewrite list_elem_of_singleton. split.
    - intros ->. exists []. by split_and!.
    - intros ([|] & Hl & _ & E); [by injection E|simpl in Hl; lia]. }
  rewrite tnodes_kids, elem_of_cons, list_elem_of_bind. split.
  - intros [->|(i & Hp & Hi%elem_of_seqZ)]; [exists []; split_and!; [simpl; lia|done|done]|].
    unfold kids in Hp. destruct (pt_next m t i) as [c|] eqn:E; [|by apply elem_of_nil in Hp].
    apply IH in Hp as (path & Hl & Hf & Hn). exists (i :: path).
    split_and!; [simpl; lia|constructor; [lia|done]|]. cbn [node]. by rewrite E.
  - intros ([|i path] & Hl & Hf & E); [left; by injection E|right].
    apply Forall_cons in Hf as [Hi Hf]. cbn [node] in E. exists i. unfold kids.
    destruct (pt_next m t i) as [c|]; [|done]. split; [|apply elem_of_seqZ; lia].
    apply IH. exists path. split_and!; [simpl in Hl; lia|done|done].
Qed.

Lemma tnodes_tables s r p : p ∈ tnodes (m_mem s) 2 r ↔ is_table s r p.
Proof.
  rewrite tnodes_node. unfold is_table, valid_path. split.
  - intros (path & ? & ? & ?). by exists path.
  - intros (path & [? ?] & ?). by exists path.
Qed.

Lemma kids_path s r pre k t i p :
  (length pre + k = 2)%nat → valid_path pre → node (m_mem s) r pre = Some t → 0 <= i < 512 →
  p ∈ kids (m_mem s) k t i →
  ∃ path, valid_path (pre ++ i :: path) ∧ node (m_mem s) r (pre ++ i :: path) = Some p.
Proof.
  intros Hlen [Hl Hf] Ht Hi Hp. unfold kids in Hp. destruct k as [|k]; [by apply elem_of_nil in Hp|].
  destruct (pt_next _ t i) as [c|] eqn:E; [|by apply elem_of_nil in Hp].
  apply tnodes_node in Hp as (path & Hl' & Hf' & Hn). exists path. split.
  - split; [rewrite length_app; simpl; lia|]. apply Forall_app. split; [done|by constructor].
  - rewrite node_app, Ht. simpl. by rewrite E.
Qed.

Lemma tnodes_nodup s r k t pre :
  pt_wf s r → (length pre + k = 2)%nat → valid_path pre → node (m_mem s) r pre = Some t →
  NoDup (tnodes (m_mem s) k t).
Proof.
  intros Hwf. revert t pre. induction k as [|k IH]; intros t pre Hlen Hv Ht; [by apply NoDup_singleton|].
  rewrite tnodes_kids. apply NoDup_cons. split.
  - intros (i & Hp & Hi%elem_of_seqZ)%list_elem_of_bind.
    destruct (kids_path s r pre (S k) t i t) as (path & Hv' & E); try done.
    pose proof (pw_inj _ _ Hwf _ _ _ Hv Hv' Ht E) as Heq.
    apply (f_equal length) in Heq. rewrite length_app in Heq. simpl in Heq. lia.
  - apply NoDup_bind; [| |apply NoDup_seqZ].
    + intros i j p Hi%elem_of_seqZ Hj%elem_of_seqZ Hpi Hpj.
      destruct (kids_path s r pre (S k) t i p) as (p1 & Hv1 & E1); try done.
      destruct (kids_path s r pre (S k) t j p) as (p2 & Hv2 & E2); try done.
      pose proof (pw_inj _ _ Hwf _ _ _ Hv1 Hv2 E1 E2) as Heq%app_inv_head. by injection Heq.
    + intros i Hi%elem_of_seqZ. unfold kids. destruct (pt_next _ t i) as [c|] eqn:E; [|apply NoDup_nil_2].
      apply (IH c (pre ++ [i])); [rewrite length_app; simpl; lia| |].
      * apply valid_path_snoc. split_and!; [lia|done|lia|lia].
      * by rewrite node_snoc, Ht.
Qed.

(** The address whose path and last index are given. *)
Lemma path_va a b i :
  0 <= a < 256 → 0 <= b < 512 → 0 <= i < 512 →
  let va := a * 2 ^ 30 + b * 2 ^ 21 + i * 2 ^ 12 in
  0 <= va < MAXVA ∧ va_path va = [a; b] ∧ PX 0 va = i.
Proof.
  intros Ha Hb Hi va. unfold va_path. rewrite !PX_val by lia. change MAXVA with (2 ^ 38).
  change (2 ^ (12 + 9 * 2)) with 1073741824. change (2 ^ (12 + 9 * 1)) with 2097152.
  change (2 ^ (12 + 9 * 0)) with 4096.
  change (2 ^ 30) with 1073741824 in *. change (2 ^ 21) with 2097152 in *. change (2 ^ 12) with 4096 in *.
  assert (va / 1073741824 = a ∧ va / 2097152 = a * 512 + b ∧ va / 4096 = (a * 512 + b) * 512 + i) as (-> & -> & ->)
    by (unfold va; split_and!; Z.to_euclidean_division_equations; lia).
  rewrite (Z.mod_small a), !(Z.add_comm (_ * 512)), !Z.mod_add, !Z.mod_small by lia.
  split_and!; try done; unfold va; lia.
Qed.

Lemma empty_tree_ok s r k t pre :
  aspace s r ∅ → (length pre + k = 2)%nat → valid_path pre → node (m_mem s) r pre = Some t →
  tree_ok (m_mem s) k t.
Proof.
  intros Ha. pose proof (as_wf _ _ _ Ha) as Hwf. revert t pre.
  induction k as [|k IH]; intros t pre Hlen Hv Ht i Hi HV.
  - destruct pre as [|a [|b [|]]]; simpl in Hlen; try lia. destruct Hv as [_ Hf].
    apply Forall_cons in Hf as [Har [Hbr _]%Forall_cons].
    assert (a < 256) as Halo.
    { cbn [node] in Ht. destruct (pt_next (m_mem s) r a) as [c|] eqn:E; [|done]. unfold pt_next in E.
      destruct (truth (Z.land (ld64 (m_mem s) (r + 8 * a)) PTE_V)) eqn:EV; [|done].
      apply (pw_inner _ _ Hwf [] r a); [apply valid_path_nil|simpl; lia|done|lia|done|done]. }
    destruct (path_va a b i) as (Hva & Hpath & Hpx); [lia|lia|lia|]. set (va := a * 2 ^ 30 + _ + _) in *.
    pose proof (as_leaf _ _ _ Ha va Hva) as Hleaf. unfold leaf_pte, leaf_addr in Hleaf.
    rewrite Hpath, Ht in Hleaf. simpl in Hleaf. rewrite Hpx, lookup_empty in Hleaf. simpl in Hleaf.
    by rewrite Hleaf in HV.
  - destruct (pw_inner _ _ Hwf pre t i Hv ltac:(lia) Ht Hi HV) as [Hfl _]. split; [done|].
    apply (IH _ (pre ++ [i])); [rewrite length_app; simpl; lia| |].
    + apply valid_path_snoc. split_and!; [lia|done|lia|lia].
    + rewrite node_snoc, Ht. simpl. unfold pt_next. by rewrite HV.
Qed.

(** ** Address spaces *)

Section drop_root.
  Context (s s' : mach) (fl fl' : list Z) (T : gmap Z (gmap Z Z)) (K : Z → Z) (r : Z) (N : list Z).
  Context (Hvm : vm s fl T K) (HT : T !! r = Some ∅) (HN : ∀ p, p ∈ N ↔ is_table s r p).
  Context (Hrel : released s s' N) (Hk : kmem_inv s' fl').

Lemma drop_other p : page_ok p → ¬ is_table s r p →
  m_pgrc s' (p / PGSIZE) = m_pgrc s (p / PGSIZE) ∧ ∀ x, in_page p x → rd8 (m_mem s') x = rd8 (m_mem s) x.
Proof.
  intros Hp Hn.
  assert (∀ q, q ∈ N → page_ok q ∧ p ≠ q) as Hq.
  { intros q Hq%HN. split; [|by intros ->].
    by apply (pw_page _ _ (as_wf _ _ _ (vm_space _ _ _ _ Hvm r ∅ HT))). }
  split.
  - apply (rl_rc _ _ _ Hrel). intros q [? ?]%Hq. by apply page_index_ne.
  - intros x Hx. apply (rl_mem _ _ _ Hrel). intros q [? ?]%Hq. by apply (page_ok_disjoint p).
Qed.

Lemma drop_space r' M :
  T !! r' = Some M → r' ≠ r → aspace s' r' M ∧ ∀ t, is_table s' r' t ↔ is_table s r' t.
Proof.
  intros HT' Hne. pose proof (vm_space _ _ _ _ Hvm r' M HT') as Ha.
  assert (∀ t, is_table s r' t → page_ok t ∧ ¬ is_table s r t) as Ht.
  { intros t Ht. split; [by apply (pw_page _ _ (as_wf _ _ _ Ha))|].
    intros Ht'. by apply Hne, (vm_disj _ _ _ _ Hvm r' r M ∅ t). }
  apply aspace_same; [done| |].
  - intros t x [? ?]%Ht Hx. by apply (drop_other t).
  - intros t [? ?]%Ht. by apply (drop_other t).
Qed.

Lemma drop_table t : table_of s' (delete r T) t ↔ table_of s T t ∧ ¬ is_table s r t.
Proof.
  split.
  - intros (r' & M & [Hne HM]%lookup_delete_Some & Ht). apply (drop_space r' M) in Ht; [|done|done].
    split; [by exists r', M|]. intros Ht'. by apply Hne, (vm_disj _ _ _ _ Hvm r r' ∅ M t).
  - intros [(r' & M & HM & Ht) Hn]. assert (r ≠ r') by (intros ->; done). exists r', M.
    rewrite lookup_delete_ne by done. split; [done|]. by apply (drop_space r' M).
Qed.

Lemma vm_drop_root : vm s' fl' (delete r T) K ∧ drops s T s' (delete r T).
Proof.
  assert (∀ p, refs (delete r T) p = refs T p) as Href
    by (intros p; rewrite (refs_lookup T r ∅ p HT), refs1_empty; lia).
  split; [split|].
  - done.
  - intros r' M [Hne HM]%lookup_delete_Some. by apply drop_space.
  - intros r1 r2 M1 M2 t [Hn1 H1]%lookup_delete_Some [Hn2 H2]%lookup_delete_Some Ht1 Ht2.
    apply (drop_space r1 M1) in Ht1; [|done|done]. apply (drop_space r2 M2) in Ht2; [|done|done].
    by apply (vm_disj _ _ _ _ Hvm r1 r2 M1 M2 t).
  - intros r' M vpn pte [Hne HM]%lookup_delete_Some. by apply (vm_user _ _ _ _ Hvm r' M).
  - intros p Hp Hn. rewrite Href. destruct (decide (p ∈ N)) as [Hin|Hnin].
    + rewrite (rl_zero _ _ _ Hrel) by done. apply HN in Hin.
      destruct (vm_tab _ _ _ _ Hvm p) as [-> ->]; [by exists r, ∅|done].
    + rewrite HN in Hnin. destruct (drop_other p Hp Hnin) as [-> _].
      apply (vm_rc _ _ _ _ Hvm); [done|]. rewrite drop_table in Hn. tauto.
  - intros p [Hp _]%drop_table. rewrite Href. by apply (vm_tab _ _ _ _ Hvm).
  - intros r' M vpn pte [Hne HM]%lookup_delete_Some HM' Ho Hw.
    destruct (mapped_page _ _ _ _ _ _ _ _ Hvm HM HM' Ho) as (Hok & Hnt & _).
    destruct (drop_other (PTE2PA pte)) as [-> _]; [done|intros Ht; apply Hnt; by exists r, ∅|].
    by apply (vm_cow _ _ _ _ Hvm r' M vpn).
  - split; [apply Hrel|]. intros p Hp Hc Hn.
    assert (¬ is_table s r p) as Hnt by (intros Ht; apply Hn; by exists r, ∅).
    destruct (drop_other p Hp Hnt) as [-> Hm]. split_and!; [|lia|done]. rewrite drop_table. tauto.
Qed.
End drop_root.

Lemma freewalk_vm s fl T K r :
  vm s fl T K → alloc_unlocked s → T !! r = Some ∅ →
  wp (freewalk freewalk_depth r) (λ _ s', ∃ fl', vm s' fl' (delete r T) K ∧ drops s T s' (delete r T)) s.
Proof.
  intros Hvm Hu HT. pose proof (vm_space _ _ _ _ Hvm r ∅ HT) as Ha. pose proof (as_wf _ _ _ Ha) as Hwf.
  wp_use (freewalk_spec freewalk_depth 2 r s fl); [unfold freewalk_depth; lia|apply Hvm|done| | |].
  - apply (empty_tree_ok s r 2 r []); [done|done|apply valid_path_nil|done].
  - split; [by apply (tnodes_nodup s r 2 r []); [..|apply valid_path_nil|]|].
    intros p Hp%tnodes_tables. split; [by apply (pw_page _ _ Hwf)|by apply (pw_rc _ _ Hwf)].
  - intros _ s' [Hrel [fl' Hk]]. exists fl'. eapply vm_drop_root; try done. apply tnodes_tables.
Qed.

Lemma unmap_run_all n M :
  (∀ i pte, M !! i = Some pte → 0 <= i < Z.of_nat n) → unmap_run n M 0 = ∅.
Proof.
  intros H. apply map_eq. intros i. rewrite unmap_run_lookup, lookup_empty.
  case_decide as Hi; [done|]. destruct (M !! i) as [pte|] eqn:E; [|done]. apply H in E. lia.
Qed.

Lemma uvmfree_vm s fl T K r M sz (n : nat) :
  vm s fl T K → kpos K → alloc_unlocked s → T !! r = Some M →
  0 <= sz <= MAXVA → PGROUNDUP sz = Z.of_nat n * PGSIZE → mapped_run n M →
  (∀ i pte, M !! i = Some pte → 0 <= i < Z.of_nat n) →
  wp (uvmfree r sz) (λ _ s', ∃ fl', vm s' fl' (delete r T) K ∧ drops s T s' (delete r T)) s.
Proof.
  intros Hvm HK Hu HT Hsz Hup Hmap Hall. unfold uvmfree.
  assert (n = 0%nat → M = ∅) as Hzero.
  { intros ->. rewrite <- (unmap_run_all 0 M Hall). by rewrite unmap_run_0. }
  wp_step. apply wp_when.
  - intros _. rewrite Hup, Z.div_mul by done.
    wp_use (uvmunmap_vm s fl T K r M 0 n); try done.
    + destruct n as [|n]; [done|]. destruct (Hmap (Z.of_nat n) ltac:(lia)) as [[Ho ?]%(owned_va (Z.of_nat n)) _]; [|lia].
      change MAXVA with (TRAPFRAME + 2 * PGSIZE). unfold PGSIZE in *. lia.
    + intros _ s1 (fl1 & Hvm1 & Hd1 & Ht1). rewrite unmap_run_all in * by done.
      wp_use (freewalk_vm s1 fl1 _ K r); [done| |apply lookup_insert_eq|].
      { unfold alloc_unlocked. by rewrite (proj1 Hd1). }
      intros _ s2 (fl2 & Hvm2 & Hd2). rewrite delete_insert_eq in *. exists fl2. split; [done|].
      eapply drops_trans; try done. intros p Hp Hn.
      destruct (Z.leb_spec (m_pgrc s2 (p / PGSIZE)) 0) as [Hle|Hgt].
      * pose proof (ki_pos _ _ (vm_kmem _ _ _ _ Hvm1) p Hp). lia.
      * by apply (proj2 Hd2 p).
  - intros Hz. b2p. assert (n = 0%nat) as Hn.
    { assert (sz = 0) as -> by lia. change (PGROUNDUP 0) with 0 in Hup. unfold PGSIZE in Hup. lia. }
    rewrite (Hzero Hn) in HT. by eapply freewalk_vm.
Qed.
End uvmfree.
