(* ===== verification/UserCopy.v ===== *)
(** Copying between the kernel and user memory: [copyin], [copyinstr] and
    [copyout] of [kernel/vm.c], and the copy-on-write break that [copyout]
    shares with the page-fault handler of [kernel/trap.c]. *)
From S2P Require Import Prelude CString Spinlock Riscv Kalloc Vm PageTable Uvm UvmOps UvmGrow.

(** ** Bytes *)

Lemma load_bytes_length m a n : length (load_bytes m a n) = n.
Proof. revert a. induction n as [|n IH]; intros a; simpl; [done|by rewrite IH]. Qed.

Lemma load_bytes_lookup m a n (i : nat) :
  load_bytes m a n !! i = if decide (i < n)%nat then Some (rd8 m (a + Z.of_nat i)) else None.
Proof.
  revert a i. induction n as [|n IH]; intros a [|i]; simpl; try done.
  - by rewrite Z.add_0_r.
  - rewrite IH. repeat case_decide; try lia; [|done]. do 2 f_equal. lia.
Qed.

Lemma rd8_store_bytes m a l x :
  rd8 (store_bytes m a l) x =
  if decide (a <= x < a + Z.of_nat (length l)) then u8 (nth (Z.to_nat (x - a)) l 0) else rd8 m x.
Proof.
  revert m a. induction l as [|c l IH]; intros m a; simpl.
  - by rewrite decide_False by lia.
  - rewrite IH, rd8_wr8. destruct (Z.eqb_spec x a) as [->|Hne].
    + rewrite decide_False, decide_True by lia. by rewrite Z.sub_diag.
    + repeat case_decide; try lia.
      replace (Z.to_nat (x - a)) with (S (Z.to_nat (x - (a + 1)))) by lia. done.
Qed.

Section usercopy.
Context `{KI : !KernelImage}.
Implicit Types (T : gmap Z (gmap Z Z)) (M : gmap Z Z) (K : Z → Z).

Lemma PGROUNDDOWN_vpn va : 0 <= va → PGROUNDDOWN va / PGSIZE = va / PGSIZE ∧ 0 <= PGROUNDDOWN va <= va.
Proof.
  intros Hva. pose proof (Z.div_pos va PGSIZE Hva ltac:(done)). pose proof (PGROUNDDOWN_bounds va).
  rewrite PGROUNDDOWN_div in *. rewrite (Z.mul_comm PGSIZE), Z.div_mul by done.
  split; [done|]. unfold PGSIZE in *. lia.
Qed.

(** ** What a user address holds *)

Definition uread (s : mach) M (va : Z) : option Z :=
  if uaddr M va =? 0 then None else Some (rd8 (m_mem s) (uaddr M va + va mod PGSIZE)).

(** User-accessible pages lie below the trapframe. *)
Definition user_low M : Prop :=
  ∀ vpn pte, M !! vpn = Some pte → truth (Z.land pte PTE_U) = true → owned vpn = true.

Lemma uaddr_mapped s fl T K r M va :
  vm s fl T K → T !! r = Some M → user_low M → 0 <= va → uaddr M va ≠ 0 →
  va < MAXVA ∧ ∃ pte, M !! (va / PGSIZE) = Some pte ∧ truth (Z.land pte PTE_U) = true ∧
    owned (va / PGSIZE) = true ∧ uaddr M va = PTE2PA pte ∧ page_ok (uaddr M va) ∧
    ¬ table_of s T (uaddr M va).
Proof.
  intros Hvm HT Hlow Hva. unfold uaddr. destruct (Z.leb_spec MAXVA va); [done|].
  destruct (M !! (va / PGSIZE)) as [pte|] eqn:E; [|done].
  destruct (truth _) eqn:EU; [|done]. intros _. split; [done|]. exists pte.
  pose proof (Hlow _ _ E EU) as Ho.
  destruct (mapped_page _ _ _ _ _ _ _ _ Hvm HT E Ho) as (Hok & Hnt & _). done.
Qed.

Lemma uaddr_page M va i :
  0 <= i → va mod PGSIZE + i < PGSIZE → uaddr M (va + i) = uaddr M va ∧
  (va + i) mod PGSIZE = va mod PGSIZE + i.
Proof.
  intros Hi Hlt. pose proof (Z.mod_pos_bound va PGSIZE ltac:(done)) as Hb.
  pose proof (Z.div_mod va PGSIZE ltac:(done)) as Hd.
  assert ((va + i) / PGSIZE = va / PGSIZE) as Hq.
  { symmetry. apply (Z.div_unique (va + i) PGSIZE (va / PGSIZE) (va mod PGSIZE + i)); lia. }
  assert ((va + i) mod PGSIZE = va mod PGSIZE + i) as Hm.
  { symmetry. apply (Z.mod_unique (va + i) PGSIZE (va / PGSIZE)); lia. }
  split; [|done]. unfold uaddr. rewrite Hq.
  assert (MAXVA mod PGSIZE = 0) by done. pose proof (Z.div_mod MAXVA PGSIZE ltac:(done)).
  destruct (Z.leb_spec MAXVA va), (Z.leb_spec MAXVA (va + i)); try done; [lia|].
  exfalso. unfold PGSIZE in *. lia.
Qed.

Lemma uaddr_round M va : 0 <= va → uaddr M (PGROUNDDOWN va) = uaddr M va.
Proof.
  intros Hva. pose proof (Z.mod_pos_bound va PGSIZE ltac:(done)).
  destruct (uaddr_page M (PGROUNDDOWN va) (va mod PGSIZE)) as [<- _]; [lia| |].
  - rewrite PGROUNDDOWN_aligned. lia.
  - f_equal. rewrite PGROUNDDOWN_mod. lia.
Qed.

Lemma uread_page s M va i :
  0 <= i → va mod PGSIZE + i < PGSIZE → uaddr M va ≠ 0 →
  uread s M (va + i) = Some (rd8 (m_mem s) (uaddr M va + va mod PGSIZE + i)).
Proof.
  intros Hi Hlt Hne. destruct (uaddr_page M va i Hi Hlt) as [E1 E2]. unfold uread.
  rewrite E1, E2. destruct (Z.eqb_spec (uaddr M va) 0); [done|]. by rewrite Z.add_assoc.
Qed.

(** The bytes [bs] are what the user has at [va]. *)
Definition ureads s M (va : Z) (bs : list Z) : Prop :=
  ∀ (i : nat) c, bs !! i = Some c → uread s M (va + Z.of_nat i) = Some c.

Lemma ureads_app s M va bs bs' :
  ureads s M va bs → ureads s M (va + Z.of_nat (length bs)) bs' → ureads s M va (bs ++ bs').
Proof.
  intros H1 H2 i c. rewrite lookup_app_Some. intros [Hi|[Hle Hi]]; [by apply H1|].
  specialize (H2 _ _ Hi). rewrite <- H2. f_equal. lia.
Qed.

(** ** copyin *)

(** The part of a transfer that lies in the page of [va]. *)
Definition chunk (va len : Z) : Z := Z.min (PGSIZE - va mod PGSIZE) len.

Lemma chunk_code va len :
  (if PGSIZE - (va - PGROUNDDOWN va) >? len then len else PGSIZE - (va - PGROUNDDOWN va)) = chunk va len.
Proof.
  unfold chunk. rewrite PGROUNDDOWN_mod. rewrite Z.gtb_ltb.
  destruct (Z.ltb_spec len (PGSIZE - (va - (va - va mod PGSIZE)))); lia.
Qed.

Lemma chunk_pos va len : 0 < len → 0 < chunk va len <= len ∧ va mod PGSIZE + chunk va len <= PGSIZE.
Proof. unfold chunk. pose proof (Z.mod_pos_bound va PGSIZE ltac:(done)). lia. Qed.

(** After a full page the next address is the next page boundary. *)
Lemma chunk_next va len :
  0 < len → chunk va len = len ∨ PGROUNDDOWN va + PGSIZE = va + chunk va len.
Proof. unfold chunk. rewrite PGROUNDDOWN_mod. lia. Qed.

Lemma copyin_spec s fl T K r M srcva len :
  vm s fl T K → T !! r = Some M → user_low M → 0 <= srcva < 2 ^ 64 → 0 <= len < 2 ^ 64 →
  wp (copyin r srcva len) (λ x s', s' = s ∧ ureads s M srcva x.2 ∧
    ((x.1 = 0 ∧ Z.of_nat (length x.2) = len) ∨
     (x.1 = -1 ∧ Z.of_nat (length x.2) < len ∧ uread s M (srcva + Z.of_nat (length x.2)) = None))) s.
Proof.
  intros Hvm HT Hlow Hva Hlen. pose proof (vm_space _ _ _ _ Hvm r M HT) as Ha. unfold copyin.
  eapply (wp_while (λ '(va, l, dst) s', s' = s ∧ 0 <= va < 2 ^ 64 ∧ 0 <= l ∧
      l + Z.of_nat (length dst) = len ∧ (0 < l → va = srcva + Z.of_nat (length dst)) ∧
      ureads s M srcva dst) (λ '(_, l, _) _, l)).
  2: { simpl. split_and!; try done; try lia. }
  2: { lia. }
  intros [[va l] dst] s1 (-> & Hva1 & Hl & Hsum & Heq & Hr).
  destruct (Z.leb_spec l 0) as [Hz|Hpos].
  { wp_step. split_and!; [done|done|]. left. split; [done|]. simpl. lia. }
  specialize (Heq Hpos). wp_step. unfold wp at 1.
  rewrite (walkaddr_aspace s r M) by (done || rewrite PGROUNDDOWN_div; pose proof (Z.div_pos va PGSIZE); unfold PGSIZE in *; lia).
  rewrite uaddr_round by lia. destruct (Z.eqb_spec (uaddr M va) 0) as [E|E].
  { wp_step. split_and!; [done|done|]. right. simpl. split_and!; [done|lia|].
    unfold uread. rewrite <- Heq, E. done. }
  destruct (uaddr_mapped _ _ _ _ _ _ va Hvm HT Hlow ltac:(lia) E) as (Hmax & pte & _ & _ & _ & _ & Hok & _).
  destruct (chunk_pos va l Hpos) as [Hc1 Hc2].
  rewrite chunk_code. replace (va - PGROUNDDOWN va) with (va mod PGSIZE) by (rewrite PGROUNDDOWN_mod; lia).
  pose proof (Z.mod_pos_bound va PGSIZE ltac:(done)).
  unfold kread_bytes. rewrite (in_ram_sub (uaddr M va) PGSIZE) by (by apply page_ok_ram || lia).
  wp_step. wp_step. wp_step. rewrite length_app, load_bytes_length. split; [split_and!|].
  - done.
  - apply u64_range.
  - apply u64_range.
  - lia.
  - lia.
  - intros Hl'. destruct (chunk_next va l Hpos) as [?|Hn]; [lia|]. rewrite Hn.
    rewrite u64_small; [lia|]. change MAXVA with (2 ^ 38) in Hmax. unfold PGSIZE in *. lia.
  - apply ureads_app; [done|]. intros i c. rewrite load_bytes_lookup.
    case_decide as Hi; [|done]. intros [= <-]. rewrite <- Heq.
    rewrite (uread_page s M va) by (done || lia). done.
  - lia.
Qed.

(** ** copyinstr *)

Lemma copyinstr_inner_spec n p dst max s :
  in_ram p (Z.of_nat n) = true →
  wp (copyinstr_inner n p dst max) (λ x s', s' = s ∧ ∃ l,
    (0 ∉ l) ∧ (∀ (i : nat) c, l !! i = Some c → rd8 (m_mem s) (p + Z.of_nat i) = c) ∧
    ((x = (true, dst ++ l ++ [0], max - Z.of_nat (length l)) ∧ (length l < n)%nat ∧
        rd8 (m_mem s) (p + Z.of_nat (length l)) = 0) ∨
     (x = (false, dst ++ l, max - Z.of_nat (length l)) ∧ length l = n))) s.
Proof.
  revert p dst max. induction n as [|n IH]; intros p dst max Hram; simpl.
  { wp_step. split; [done|]. exists []. simpl. rewrite app_nil_r, Z.sub_0_r. split_and!; [set_solver|done|].
    by right. }
  wp_step. unfold kload8. rewrite (in_ram_sub p (Z.of_nat (S n))) by (done || lia). wp_step. cbn beta.
  destruct (Z.eqb_spec (rd8 (m_mem s) p) 0) as [E|E].
  { wp_step. split; [done|]. exists []. simpl. rewrite Z.add_0_r, Z.sub_0_r. split_and!; [set_solver|done|].
    left. split_and!; [done|lia|done]. }
  wp_use IH; [by apply (in_ram_sub p (Z.of_nat (S n))); [done|lia|lia]|].
  intros x s' (-> & l & Hn & Hl & Hres). split; [done|]. exists (rd8 (m_mem s) p :: l). split_and!.
  - set_solver.
  - intros [|i] c; simpl; [by intros [= <-]; rewrite Z.add_0_r|].
    intros Hi. rewrite <- (Hl _ _ Hi). f_equal. lia.
  - simpl. destruct Hres as [(-> & Hlt & Hz)|(-> & Hlen)]; [left|right].
    + split_and!; [|lia|].
      * rewrite <- app_assoc. simpl. by replace (max - 1 - Z.of_nat (length l)) with (max - Z.of_nat (S (length l))) by lia.
      * rewrite <- Hz. f_equal. lia.
    + split; [|lia]. rewrite <- app_assoc. simpl. by replace (max - 1 - Z.of_nat (length l)) with (max - Z.of_nat (S (length l))) by lia.
Qed.

(** [copyinstr] copies up to and including the first NUL, at most [max] bytes. *)
Lemma copyinstr_spec s fl T K r M srcva max :
  vm s fl T K → T !! r = Some M → user_low M → 0 <= srcva < 2 ^ 64 → 0 <= max < 2 ^ 64 →
  wp (copyinstr r srcva max) (λ x s', s' = s ∧ ureads s M srcva x.2 ∧ ∃ l, (0 ∉ l) ∧
    ((x = (0, l ++ [0]) ∧ Z.of_nat (length l) < max) ∨
     (x = (-1, l) ∧ (Z.of_nat (length l) = max ∨
        Z.of_nat (length l) < max ∧ uread s M (srcva + Z.of_nat (length l)) = None)))) s.
Proof.
  intros Hvm HT Hlow Hva Hmax. pose proof (vm_space _ _ _ _ Hvm r M HT) as Ha. unfold copyinstr.
  eapply (wp_while (λ '(va, mx, dst, g) s', s' = s ∧ 0 <= va < 2 ^ 64 ∧ ureads s M srcva dst ∧ ∃ l,
      (0 ∉ l) ∧ mx = max - Z.of_nat (length l) ∧ 0 <= mx ∧
      if (g : bool) then dst = l ++ [0] ∧ 0 < mx
      else dst = l ∧ (0 < mx → va = srcva + Z.of_nat (length l)))
    (λ '(_, mx, _, g) _, if g : bool then 0 else mx)).
  2: { split_and!; try done; try lia. exists []. simpl. split_and!; try lia; try done. set_solver. }
  2: { lia. }
  intros [[[va mx] dst] g] s1 (-> & Hva1 & Hr & l & Hn & Hmx & Hmx0 & Hg).
  destruct g; simpl.
  { wp_step. destruct Hg as [-> Hpos]. split_and!; [done|done|]. exists l. split; [done|]. left.
    split; [done|lia]. }
  destruct Hg as [-> Hnext]. destruct (Z.leb_spec mx 0) as [Hz|Hpos].
  { wp_step. split_and!; [done|done|]. exists l. split; [done|]. right. split; [done|]. left. lia. }
  specialize (Hnext Hpos). wp_step. unfold wp at 1.
  rewrite (walkaddr_aspace s r M) by (done || rewrite PGROUNDDOWN_div; pose proof (Z.div_pos va PGSIZE); unfold PGSIZE in *; lia).
  rewrite uaddr_round by lia. destruct (Z.eqb_spec (uaddr M va) 0) as [E|E].
  { wp_step. split_and!; [done|done|]. exists l. split; [done|]. right. split; [done|]. right.
    split; [lia|]. unfold uread. rewrite <- Hnext, E. done. }
  destruct (uaddr_mapped _ _ _ _ _ _ va Hvm HT Hlow ltac:(lia) E) as (Hmaxva & pte & _ & _ & _ & _ & Hok & _).
  destruct (chunk_pos va mx Hpos) as [Hc1 Hc2].
  rewrite chunk_code. replace (va - PGROUNDDOWN va) with (va mod PGSIZE) by (rewrite PGROUNDDOWN_mod; lia).
  pose proof (Z.mod_pos_bound va PGSIZE ltac:(done)).
  wp_step. wp_use copyinstr_inner_spec.
  { apply (in_ram_sub (uaddr M va) PGSIZE); [by apply page_ok_ram|lia|lia]. }
  intros x s1 (-> & l' & Hn' & Hl' & Hres).
  assert (∀ bs, (∀ (i : nat) c, bs !! i = Some c → rd8 (m_mem s) (uaddr M va + va mod PGSIZE + Z.of_nat i) = c) →
    Z.of_nat (length bs) <= chunk va mx → ureads s M srcva (l ++ bs)) as Happ.
  { intros bs Hbs Hlen. apply ureads_app; [done|]. rewrite <- Hnext. intros i c Hi.
    pose proof (lookup_lt_Some _ _ _ Hi). rewrite (uread_page s M va) by (done || lia). by rewrite (Hbs i c). }
  assert (u64 (PGROUNDDOWN va + PGSIZE) = PGROUNDDOWN va + PGSIZE) as Hu.
  { apply u64_small. pose proof (PGROUNDDOWN_bounds va). change MAXVA with (2 ^ 38) in Hmaxva. unfold PGSIZE in *. lia. }
  destruct Hres as [(-> & Hlt & Hz)|(-> & Hlen)]; wp_step; (split; [|lia]); split_and!;
    try done; try apply u64_range.
  - apply Happ; [|rewrite length_app; simpl; lia]. intros i c. rewrite lookup_app_Some.
    intros [Hi|[Hge Hi]]; [by apply Hl'|]. apply list_lookup_singleton_Some in Hi as [Hi <-].
    rewrite <- Hz. f_equal. lia.
  - exists (l ++ l'). rewrite length_app, <- app_assoc. split_and!; [set_solver|lia|lia|done|lia].
  - apply Happ; [done|lia].
  - exists (l ++ l'). rewrite length_app. split_and!; [set_solver|lia|lia|done|].
    intros Hp. rewrite Hu. destruct (chunk_next va mx Hpos) as [?|Hnx]; [lia|]. lia.
Qed.

(** ** Breaking a copy-on-write page *)

Definition break_flags (flags : Z) : Z := Z.lor (Z.land flags (Z.lnot PTE_C)) PTE_W.
Definition break_pte (p pte : Z) : Z := Z.lor (PA2PTE p) (break_flags (PTE_FLAGS pte)).

Lemma break_flags_bit fl n : 0 <= n → Z.testbit (break_flags fl) n = (Z.testbit fl n && negb (5 =? n)) || (2 =? n).
Proof.
  intros Hn. unfold break_flags, PTE_C, PTE_W.
  by rewrite Z.lor_spec, Z.land_spec, Z.lnot_spec, !flag_bit by lia.
Qed.

Lemma break_flags_range pte : 0 <= break_flags (PTE_FLAGS pte) < 1024.
Proof.
  apply (bits_bound _ 10); [lia|]. intros i Hi. rewrite break_flags_bit by lia.
  rewrite (bits_above (PTE_FLAGS pte) 10) by (apply PTE_FLAGS_range || lia).
  by destruct (Z.eqb_spec 2 i); [lia|].
Qed.

Lemma break_pte_ok p pte :
  page_ok p → 0 <= break_pte p pte < 2 ^ 54 ∧ PTE2PA (break_pte p pte) = p ∧
  ∀ n, 0 <= n < 10 → truth (Z.land (break_pte p pte) (Z.shiftl 1 n)) =
    (truth (Z.land pte (Z.shiftl 1 n)) && negb (5 =? n)) || (2 =? n).
Proof.
  intros Hp. pose proof (page_ok_range p Hp). pose proof (break_flags_range pte).
  unfold break_pte. split; [apply pte_make_range; lia|]. split; [apply PTE2PA_make; [lia|apply Hp|lia]|].
  intros n Hn. rewrite truth_flag_make, break_flags_bit, truth_flag by lia. done.
Qed.

(** The page [pa] shared by others is untouched; if it was not shared it is
    freed.  Everything else stays, and the new page holds a copy. *)
Record broken (s : mach) T (s' : mach) (pa p : Z) : Prop := {
  bk_held : m_held s' = m_held s;
  bk_page : page_ok p;
  bk_fresh : m_pgrc s (p / PGSIZE) = 0;
  bk_one : m_pgrc s' (p / PGSIZE) = 1;
  bk_copy : ∀ i, 0 <= i < PGSIZE → rd8 (m_mem s') (p + i) = rd8 (m_mem s) (pa + i);
  bk_rest : ∀ q, page_ok q → 0 < m_pgrc s (q / PGSIZE) → ¬ table_of s T q →
    q ≠ pa ∨ 1 < m_pgrc s (pa / PGSIZE) → ∀ x, in_page q x → rd8 (m_mem s') x = rd8 (m_mem s) x
}.

Lemma cow_break s fl T K r M va a pte p {B} (k : kM mach B) (Q : B → mach → Prop) :
  let T' := <[r := <[va / PGSIZE := break_pte p pte]> M]> T in
  vm s (p :: fl) T K → kpos K → alloc_unlocked s → T !! r = Some M → 0 <= va < MAXVA →
  M !! (va / PGSIZE) = Some pte → owned (va / PGSIZE) = true →
  leaf_addr (m_mem s) r va = Some a → in_ram a 8 = true →
  (∀ s' fl', vm s' fl' T' K → broken s T s' (PTE2PA pte) p →
     (length fl <= length fl')%nat → wp k Q s') →
  wp kalloc (λ m s1, m = p ∧ m ≠ 0 ∧ wp (
    kmemmove m (PTE2PA pte) PGSIZE ;;
    kstore64 a (Z.lor (PA2PTE m) (break_flags (PTE_FLAGS pte))) ;;
    kfree (PTE2PA pte) ;; k) Q s1) s.
Proof.
  intros T' Hvm HK Hu HT Hva HM Ho Hl Hram Hk.
  destruct (mapped_page _ _ _ _ _ _ _ _ Hvm HT HM Ho) as (Hpa & Hnt & Hrc). specialize (Hrc (HK _)).
  pose proof (ki_nodup _ _ (vm_kmem _ _ _ _ Hvm)) as [Hpf _]%NoDup_cons.
  wp_use kalloc_vm; [done|done|done|]. intros m s1 (-> & Hp & H0 & Hn & (Hh1 & Hm1 & Hc1) & Ht1 & Hvm1).
  pose proof (page_ok_range p Hp) as Hpr. split_and!; [done|lia|].
  assert (PTE2PA pte ≠ p) as Hne by (intros Hx; rewrite Hx in Hrc; lia).
  assert (m_pgrc s1 (PTE2PA pte / PGSIZE) = m_pgrc s (PTE2PA pte / PGSIZE)) as Hc1pa
    by (by rewrite Hc1, decide_False by (by apply page_index_ne)).
  destruct (break_pte_ok p pte Hp) as (Hr & Hbpa & Hbit).
  wp_step. unfold kmemmove. rewrite !page_ok_ram by done. cbn [andb]. wp_step.
  set (m2 := KString.memmove _ _ _ _). set (s2 := s1 <| m_mem := m2 |>).
  assert (∀ x, rd8 m2 x = if decide (in_page p x) then rd8 (m_mem s1) (PTE2PA pte + (x - p)) else rd8 (m_mem s1) x) as Hm2.
  { intros x. unfold m2. rewrite memmove_spec by done. unfold in_page.
    destruct (Z.leb_spec p x), (Z.ltb_spec x (p + PGSIZE)); simpl; case_decide; try done; lia. }
  destruct (vm_write s1 fl T (kadd K p 1) p m2 Hvm1 Hp) as [Hvm2 Ht2];
    [by rewrite Ht1|done|intros x Hx; by rewrite Hm2, decide_False|]. fold s2 in Hvm2, Ht2.
  assert (∀ t x, table_of s T t → in_page t x → rd8 (m_mem s2) x = rd8 (m_mem s) x) as Htabmem.
  { intros t x Ht Hx. destruct (table_page _ _ _ _ _ Hvm Ht) as [Htok _].
    cbn. assert (¬ in_page p x) by (apply (page_ok_disjoint t); [done|done|by intros ->|done]).
    by rewrite Hm2, decide_False, Hm1, decide_False. }
  assert (leaf_addr (m_mem s2) r va = Some a) as Hl2.
  { rewrite <- Hl. unfold leaf_addr. f_equal.
    destruct (pt_same _ (m_mem s2) s r eq_refl) as [Hx _]; [|apply Hx, valid_va_path].
    intros t x Ht Hx. apply (Htabmem t); [by exists r, M|done]. }
  wp_step. unfold kstore64. rewrite Hram. wp_step. fold (break_pte p pte).
  pose proof (vm_replace s2 fl T _ r va a pte M Hvm2 HT Hva HM Hl2 (break_pte p pte) Hr) as Hvm3.
  rewrite Hbpa in Hvm3. fold T' in Hvm3.
  pose proof (as_valid _ _ _ (vm_space _ _ _ _ Hvm r M HT) _ _ HM) as [Hv _].
  specialize (Hvm3 ltac:(change PTE_V with (Z.shiftl 1 0); rewrite Hbit by lia; change (Z.shiftl 1 0) with PTE_V; by rewrite Hv)
    Ho Hp ltac:(by rewrite Ht2, Ht1) ltac:(by rewrite Ht2, Ht1) ltac:(intros _; cbn; rewrite Hc1, decide_True by done; lia)).
  assert (∀ t, table_of (store_mem a (break_pte p pte) s2) T' t ↔ table_of s T t) as Ht3.
  { intros t. unfold T'. rewrite (store_tables s2 fl T _ r va a M Hvm2 HT Hl2) by lia. by rewrite Ht2, Ht1. }
  set (s3 := store_mem a (break_pte p pte) s2) in *.
  change (s2 <| m_mem := st64 (m_mem s2) a (break_pte p pte) |>) with s3.
  assert (∀ q x, page_ok q → ¬ table_of s T q → in_page q x → rd8 (m_mem s3) x = rd8 (m_mem s2) x) as Hm3.
  { intros q x Hq Hnq Hx. eapply (leaf_store_outside s2 r va); [apply (vm_space _ _ _ _ Hvm2 r M HT)|done|].
    intros t Ht. assert (table_of s T t) as Ht' by (apply Ht1, Ht2; by exists r, M).
    apply (page_ok_disjoint q); [done|by apply (table_page _ _ _ _ _ Hvm)|by intros ->|done]. }
  wp_step. wp_use kfree_vm; [exact Hvm3| |done|by rewrite Ht3|cbn; lia|].
  { unfold alloc_unlocked. cbn. by rewrite Hh1. }
  intros _ s4 ((Hh4 & Hm4 & Hc4) & Ht4 & Hvm4).
  eapply (Hk s4); [eapply vm_ext; [|exact Hvm4]|..].
  - intros q. unfold kadd. destruct (Z.eqb_spec q (PTE2PA pte)), (Z.eqb_spec q p); lia.
  - split.
    + rewrite Hh4. cbn. done.
    + done.
    + done.
    + rewrite Hc4. cbn. rewrite Hc1, decide_True by done.
      rewrite decide_False by (by apply page_index_ne). lia.
    + intros i Hi. assert (in_page p (p + i)) by (unfold in_page; lia).
      rewrite Hm4 by (left; by apply (page_ok_disjoint p)). rewrite (Hm3 p) by done. cbn.
      rewrite Hm2, decide_True, Hm1 by done.
      rewrite decide_False by (apply (page_ok_disjoint (PTE2PA pte)); [done|done|done|unfold in_page; lia]).
      f_equal. lia.
    + intros q Hq Hrq Hnq Hor x Hx. assert (q ≠ p) by (intros ->; lia).
      assert (¬ in_page p x) by (by apply (page_ok_disjoint q)).
      rewrite Hm4.
      * rewrite (Hm3 q) by done. cbn. by rewrite Hm2, decide_False, Hm1, decide_False.
      * destruct Hor as [Hqp|Hgt]; [left; by apply (page_ok_disjoint q)|right]. cbn. by rewrite Hc1pa.
  - destruct (m_pgrc s3 _ =? 1); simpl; lia.
Qed.

(** ** Views *)

(** Every other address space reads what it read before. *)
Definition others_same (s : mach) T (r : Z) (s' : mach) : Prop :=
  ∀ r2 M2 va, r2 ≠ r → T !! r2 = Some M2 → 0 <= va → uread s' M2 va = uread s M2 va.

Definition all_low T : Prop := ∀ r M, T !! r = Some M → user_low M.

(** The pages the kernel holds keep their contents. *)
Definition kernel_same (s : mach) K (s' : mach) : Prop :=
  ∀ p x, page_ok p → 0 < K p → in_page p x → rd8 (m_mem s') x = rd8 (m_mem s) x.

(** They are not page tables. *)
Lemma kernel_not_table s fl T K p : vm s fl T K → page_ok p → 0 < K p → ¬ table_of s T p.
Proof. intros Hvm Hp HK Ht. destruct (vm_tab _ _ _ _ Hvm p Ht). lia. Qed.

Lemma uaddr_insert M va va' v :
  0 <= va' → uaddr (<[va / PGSIZE := v]> M) va' =
  if decide (va' / PGSIZE = va / PGSIZE ∧ va' < MAXVA) then (if truth (Z.land v PTE_U) then PTE2PA v else 0)
  else uaddr M va'.
Proof.
  intros Hva'. unfold uaddr. destruct (Z.leb_spec MAXVA va').
  - rewrite decide_False; [done|lia].
  - rewrite lookup_insert. case_decide as E; case_decide as E'; try done.
    + destruct E'. split; [done|lia].
    + destruct E' as [E' _]. by destruct E.
Qed.

(** Breaking a copy-on-write page is invisible. *)
Lemma broken_view s fl T K r M va pte p s' :
  vm s fl T K → kpos K → all_low T → T !! r = Some M →
  M !! (va / PGSIZE) = Some pte → owned (va / PGSIZE) = true → broken s T s' (PTE2PA pte) p →
  (∀ va', 0 <= va' → uread s' (<[va / PGSIZE := break_pte p pte]> M) va' = uread s M va') ∧
  others_same s T r s' ∧ kernel_same s K s'.
Proof.
  intros Hvm HK Hlow HT HM Ho [_ Hp _ _ Hcopy Hrest].
  destruct (break_pte_ok p pte Hp) as (_ & Hbpa & Hbit). pose proof (page_ok_range p Hp) as Hpr.
  destruct (mapped_page _ _ _ _ _ _ _ _ Hvm HT HM Ho) as (Hpa & Hnt & Hrc). specialize (Hrc (HK _)).
  pose proof (page_ok_range _ Hpa) as Hpar.
  assert (∀ r2 M2 vpn2 pte2 i, T !! r2 = Some M2 → M2 !! vpn2 = Some pte2 → owned vpn2 = true →
    ¬ (r2 = r ∧ vpn2 = va / PGSIZE) → 0 <= i < PGSIZE →
    rd8 (m_mem s') (PTE2PA pte2 + i) = rd8 (m_mem s) (PTE2PA pte2 + i)) as Hsame.
  { intros r2 M2 vpn2 pte2 i HT2 HM2 Ho2 Hne Hi.
    destruct (mapped_page _ _ _ _ _ _ _ _ Hvm HT2 HM2 Ho2) as (Hpa2 & Hnt2 & Hrc2). specialize (Hrc2 (HK _)).
    apply (Hrest (PTE2PA pte2)); [done|lia|done| |unfold in_page; lia].
    destruct (decide (PTE2PA pte2 = PTE2PA pte)) as [E|E]; [right|by left].
    rewrite (vm_rc _ _ _ _ Hvm) by done. specialize (HK (PTE2PA pte)).
    destruct (Z.leb_spec (refs T (PTE2PA pte)) 1); [|lia]. exfalso. apply Hne.
    apply (refs_one T r2 M2 vpn2 pte2 r M (va / PGSIZE) pte); try done. by rewrite E. }
  assert (∀ va', va' mod PGSIZE < PGSIZE ∧ 0 <= va' mod PGSIZE) as Hmod
    by (intros va'; pose proof (Z.mod_pos_bound va' PGSIZE ltac:(done)); lia).
  split_and!.
  - intros va' Hva'. unfold uread. rewrite uaddr_insert by done. case_decide as D.
    + destruct D as [D Hmax]. rewrite Hbpa. change PTE_U with (Z.shiftl 1 4). rewrite Hbit by lia.
      simpl. rewrite andb_true_r, orb_false_r. change (Z.shiftl 1 4) with PTE_U.
      unfold uaddr. rewrite D, HM. destruct (Z.leb_spec MAXVA va'); [lia|].
      destruct (truth (Z.land pte PTE_U)); [|done].
      destruct (Z.eqb_spec p 0), (Z.eqb_spec (PTE2PA pte) 0); try lia. f_equal. apply Hcopy.
      specialize (Hmod va'). lia.
    + destruct (Z.eqb_spec (uaddr M va') 0) as [|E]; [done|]. f_equal.
      destruct (uaddr_mapped _ _ _ _ _ _ va' Hvm HT (Hlow r M HT) Hva' E) as (Hmax & pte' & HM' & _ & Ho' & -> & _).
      eapply (Hsame r M); [done|done|done| |specialize (Hmod va'); lia]. intros [_ ?]. by apply D.
  - intros r2 M2 va' Hne HT2 Hva'. unfold uread. destruct (Z.eqb_spec (uaddr M2 va') 0) as [|E]; [done|].
    f_equal. destruct (uaddr_mapped _ _ _ _ _ _ va' Hvm HT2 (Hlow r2 M2 HT2) Hva' E)
      as (Hmax & pte' & HM' & _ & Ho' & -> & _).
    eapply (Hsame r2 M2); [done|done|done| |specialize (Hmod va'); lia]. by intros [? _].
  - intros q x Hq HKq Hx. pose proof (kernel_not_table _ _ _ _ _ Hvm Hq HKq) as Hnq.
    assert (0 < m_pgrc s (q / PGSIZE)) by (rewrite (vm_rc _ _ _ _ Hvm) by done; pose proof (refs_nonneg T q); lia).
    apply (Hrest q); [done|done|done| |done]. destruct (decide (q = PTE2PA pte)) as [->|]; [right|by left].
    rewrite (vm_rc _ _ _ _ Hvm) by done. pose proof (refs_mapped T r M _ _ HT HM Ho). lia.
Qed.

(** Bytes that replace the user's bytes from [va] on. *)
Definition overwrite (va : Z) (l : list Z) (f : Z → option Z) (va' : Z) : option Z :=
  if decide (va <= va' < va + Z.of_nat (length l)) then l !! Z.to_nat (va' - va) else f va'.

Lemma nth_lookup_Z (l : list Z) (i : nat) d : (i < length l)%nat → l !! i = Some (nth i l d).
Proof.
  revert i. induction l as [|c l IH]; intros [|i] Hi; simpl in *; try lia; [done|]. apply IH. lia.
Qed.

(** Writing a page that is mapped once changes one address space. *)
Lemma write_view s fl T K r M va pte l :
  vm s fl T K → kpos K → all_low T → T !! r = Some M → 0 <= va < MAXVA →
  M !! (va / PGSIZE) = Some pte → truth (Z.land pte PTE_U) = true → truth (Z.land pte PTE_W) = true →
  va mod PGSIZE + Z.of_nat (length l) <= PGSIZE → Forall (λ c, 0 <= c < 256) l →
  let s' := s <| m_mem := store_bytes (m_mem s) (PTE2PA pte + va mod PGSIZE) l |> in
  vm s' fl T K ∧ others_same s T r s' ∧ kernel_same s K s' ∧
  ∀ va', 0 <= va' → uread s' M va' = overwrite va l (uread s M) va'.
Proof.
  intros Hvm HK Hlow HT Hva HM HU HW Hlen Hbytes s'.
  assert (owned (va / PGSIZE) = true) as Ho by (by apply (Hlow r M HT _ pte)).
  destruct (mapped_page _ _ _ _ _ _ _ _ Hvm HT HM Ho) as (Hpa & Hnt & Hrc). specialize (Hrc (HK _)).
  pose proof (page_ok_range _ Hpa) as Hpar.
  assert (∀ x, 0 <= x mod PGSIZE < PGSIZE) as Hmod by (intros x; apply Z.mod_pos_bound; done).
  pose proof (Hmod va) as Hmva.
  assert (∀ x, ¬ in_page (PTE2PA pte) x → rd8 (m_mem s') x = rd8 (m_mem s) x) as Hout.
  { intros x Hx. cbn. rewrite rd8_store_bytes, decide_False; [done|]. unfold in_page in Hx. lia. }
  assert (PTE2PA pte ∉ fl) as Hfl.
  { intros Hin. apply (ki_free _ _ (vm_kmem _ _ _ _ Hvm)) in Hin; [lia|done]. }
  destruct (vm_write s fl T K (PTE2PA pte) (m_mem s') Hvm Hpa Hnt Hfl Hout) as [Hvm' _].
  assert (∀ r2 M2 va', T !! r2 = Some M2 → 0 <= va' → uaddr M2 va' ≠ 0 →
    ¬ (r2 = r ∧ va' / PGSIZE = va / PGSIZE) →
    rd8 (m_mem s') (uaddr M2 va' + va' mod PGSIZE) = rd8 (m_mem s) (uaddr M2 va' + va' mod PGSIZE)) as Hsame.
  { intros r2 M2 va' HT2 Hva' E Hne. apply Hout.
    destruct (uaddr_mapped _ _ _ _ _ _ va' Hvm HT2 (Hlow r2 M2 HT2) Hva' E) as (_ & pte' & HM' & _ & Ho' & Hpe & Hok' & _).
    rewrite Hpe in *. apply (page_ok_disjoint (PTE2PA pte')); [done|done| |specialize (Hmod va'); unfold in_page; lia].
    intros Heq. apply Hne.
    destruct (writable_once s fl T K r M (va / PGSIZE) pte r2 M2 (va' / PGSIZE) pte'); done. }
  split_and!; [exact Hvm'| | |].
  - intros r2 M2 va' Hne HT2 Hva'. unfold uread. destruct (Z.eqb_spec (uaddr M2 va') 0) as [|E]; [done|].
    f_equal. apply (Hsame r2); [done|done|done|]. by intros [? _].
  - intros q x Hq HKq Hx. apply Hout. apply (page_ok_disjoint q); [done|done| |done]. intros ->.
    pose proof (vm_cow _ _ _ _ Hvm r M _ _ HT HM Ho HW) as Hc. rewrite (vm_rc _ _ _ _ Hvm) in Hc by done.
    pose proof (refs_mapped T r M _ _ HT HM Ho). lia.
  - intros va' Hva'. unfold overwrite. pose proof (Z.div_mod va PGSIZE ltac:(done)) as Hd.
    assert (uaddr M va = PTE2PA pte) as Hua.
    { unfold uaddr. destruct (Z.leb_spec MAXVA va); [lia|]. by rewrite HM, HU. }
    case_decide as D.
    + rewrite (nth_lookup_Z l _ 0) by lia.
      replace va' with (va + (va' - va)) at 1 by lia.
      rewrite (uread_page s' M va) by (lia || rewrite Hua; lia). f_equal. cbn.
      rewrite rd8_store_bytes, Hua. rewrite decide_True by lia.
      replace (PTE2PA pte + va mod PGSIZE + (va' - va) - (PTE2PA pte + va mod PGSIZE)) with (va' - va) by lia.
      apply u8_small. rewrite Forall_lookup in Hbytes.
      apply (Hbytes (Z.to_nat (va' - va))). apply nth_lookup_Z. lia.
    + unfold uread. destruct (Z.eqb_spec (uaddr M va') 0) as [|E]; [done|]. f_equal.
      destruct (decide (va' / PGSIZE = va / PGSIZE)) as [Eq|Eq]; [|apply (Hsame r); [done|done|done|by intros [_ ?]]].
      pose proof (Z.div_mod va' PGSIZE ltac:(done)) as Hd'. rewrite Eq in Hd'.
      assert (uaddr M va' = PTE2PA pte) as ->.
      { revert E. unfold uaddr. destruct (Z.leb_spec MAXVA va'); [done|]. by rewrite Eq, HM, HU. }
      cbn. rewrite rd8_store_bytes, decide_False; [done|]. lia.
Qed.

(** ** copyout *)

Lemma overwrite_nil va f va' : overwrite va [] f va' = f va'.
Proof. unfold overwrite. rewrite decide_False; [done|simpl; lia]. Qed.

Lemma overwrite_app va l l' f va' :
  overwrite (va + Z.of_nat (length l)) l' (overwrite va l f) va' = overwrite va (l ++ l') f va'.
Proof.
  unfold overwrite. rewrite length_app. repeat case_decide; try lia; try done.
  - rewrite lookup_app_r by lia. f_equal. lia.
  - rewrite lookup_app_l by lia. done.
Qed.

Lemma overwrite_ext va l f g va' : f va' = g va' → overwrite va l f va' = overwrite va l g va'.
Proof. unfold overwrite. by case_decide. Qed.

(** The first half of an iteration: the page is made writable if it is shared. *)
Lemma copyout_page s fl T K r M va {B} (k : Z → kM mach B) (Q : B → mach → Prop) pte :
  vm s fl T K → kpos K → alloc_unlocked s → all_low T → T !! r = Some M → 0 <= va < MAXVA →
  M !! (va / PGSIZE) = Some pte → truth (Z.land pte PTE_U) = true →
  truth (Z.land pte PTE_W) = true ∨ truth (Z.land pte PTE_C) = true → (truth (Z.land pte PTE_C) = true → fl ≠ []) →
  (∀ s' fl' pte', let M' := <[va / PGSIZE := pte']> M in
     vm s' fl' (<[r := M']> T) K → m_held s' = m_held s →
     (length fl <= (if truth (Z.land pte PTE_C) then 1 else 0) + length fl')%nat →
     truth (Z.land pte' PTE_U) = true → truth (Z.land pte' PTE_W) = true → truth (Z.land pte' PTE_C) = false →
     (∀ va', 0 <= va' → uread s' M' va' = uread s M va') → others_same s T r s' → kernel_same s K s' →
     wp (k (PTE2PA pte')) Q s') →
  wp (a ← walk r (PGROUNDDOWN va) false;
      v ← kload64 a;
      pa0 ← (if truth (Z.land (PTE_FLAGS v) PTE_C) then
        m ← kalloc;
        kmemmove m (PTE2PA pte) PGSIZE ;;
        kstore64 a (Z.lor (PA2PTE m) (Z.lor (Z.land (PTE_FLAGS v) (Z.lnot PTE_C)) PTE_W)) ;;
        kfree (PTE2PA pte) ;;
        walkaddr r (PGROUNDDOWN va)
      else mret (PTE2PA pte));
      k pa0) Q s.
Proof.
  intros Hvm HK Hu Hlow HT Hva HM HU HWC Hfl Hk.
  assert (owned (va / PGSIZE) = true) as Ho by (by apply (Hlow r M HT _ pte)).
  destruct (PGROUNDDOWN_vpn va ltac:(lia)) as [Hvpn Hrd].
  pose proof (vm_space _ _ _ _ Hvm r M HT) as Ha.
  eapply (walk_mapped s r M _ pte); [done|lia|by rewrite Hvpn|]. intros a Hl Hram Hld Hne.
  wp_step. unfold kload64. rewrite Hram. wp_step. cbn beta. rewrite Hld. wp_step.
  assert (truth (Z.land (PTE_FLAGS pte) PTE_C) = truth (Z.land pte PTE_C)) as ->.
  { unfold PTE_C. by rewrite truth_land_pow2, truth_flag by lia. }
  destruct (truth (Z.land pte PTE_C)) eqn:EC.
  - destruct fl as [|p fl]; [by destruct Hfl|]. wp_step.
    eapply wp_mono; [eapply (cow_break s fl T K r M (PGROUNDDOWN va) a pte p)|
      intros m s1 (-> & _ & Hx); exact Hx]; try done; rewrite ?Hvpn; try done; [lia|].
    intros s' fl' Hvm' Hbk Hlen. destruct (break_pte_ok p pte (bk_page _ _ _ _ _ Hbk)) as (_ & Hbpa & Hbit).
    assert (truth (Z.land (break_pte p pte) PTE_U) = true) as HU'.
    { change PTE_U with (Z.shiftl 1 4). rewrite Hbit by lia. change (Z.shiftl 1 4) with PTE_U. by rewrite HU. }
    pose proof (vm_space _ _ _ _ Hvm' r _ (lookup_insert_eq _ _ _)) as Ha'.
    unfold wp at 1. rewrite (walkaddr_aspace s' r _ (PGROUNDDOWN va) Ha') by lia.
    rewrite uaddr_round by lia. unfold uaddr. destruct (Z.leb_spec MAXVA va); [lia|].
    rewrite lookup_insert_eq, HU'.
    destruct (broken_view s (p :: fl) T K r M va pte p s') as (Hv1 & Hv2 & Hv3); try done.
    eapply (Hk s' fl' (break_pte p pte)); try done.
    + apply Hbk.
    + simpl. lia.
    + change PTE_W with (Z.shiftl 1 2). rewrite Hbit by lia. by rewrite orb_true_r.
    + change PTE_C with (Z.shiftl 1 5). rewrite Hbit by lia. by rewrite andb_false_r.
  - wp_step. destruct HWC as [HW|]; [|done]. specialize (Hk s fl pte). cbn zeta in Hk.
    rewrite (insert_id M), (insert_id T) in Hk by done. by apply Hk.
Qed.

(** [copyout] writes the user's bytes, whatever pages were shared, and nobody
    else's; it stops at the first address that is not mapped. *)
Lemma copyout_spec s fl T K r M dstva src :
  vm s fl T K → kpos K → alloc_unlocked s → all_low T → T !! r = Some M →
  0 <= dstva < 2 ^ 64 → Z.of_nat (length src) < 2 ^ 63 → Forall (λ c, 0 <= c < 256) src →
  (∀ va pte, dstva <= va < dstva + Z.of_nat (length src) → M !! (va / PGSIZE) = Some pte →
     truth (Z.land pte PTE_U) = true →
     truth (Z.land pte PTE_W) = true ∨ truth (Z.land pte PTE_C) = true) →
  Z.of_nat (length src) + PGSIZE <= Z.of_nat (length fl) * PGSIZE →
  wp (copyout r dstva src) (λ x s', m_held s' = m_held s ∧ others_same s T r s' ∧ kernel_same s K s' ∧ ∃ fl' M' n,
    vm s' fl' (<[r := M']> T) K ∧ user_low M' ∧
    (∀ va, 0 <= va → uread s' M' va = overwrite dstva (take n src) (uread s M) va) ∧
    ((x = 0 ∧ n = length src) ∨
     (x = -1 ∧ (n < length src)%nat ∧ uread s M (dstva + Z.of_nat n) = None))) s.
Proof.
  intros Hvm HK Hu Hlow HT Hva Hlen Hbytes Hwc Hmem. unfold copyout.
  eapply (wp_while (λ '(va, l) s', ∃ fl' M' n, l = drop n src ∧ (n <= length src)%nat ∧ 0 <= va < 2 ^ 64 ∧
      ((n < length src)%nat → va = dstva + Z.of_nat n ∧
         Z.of_nat (length l) + va mod PGSIZE <= Z.of_nat (length fl') * PGSIZE) ∧
      m_held s' = m_held s ∧ others_same s T r s' ∧ kernel_same s K s' ∧
      vm s' fl' (<[r := M']> T) K ∧ user_low M' ∧
      (∀ va, 0 <= va → uread s' M' va = overwrite dstva (take n src) (uread s M) va) ∧
      (∀ vpn pte, M' !! vpn = Some pte → M !! vpn = Some pte ∨ truth (Z.land pte PTE_W) = true))
    (λ '(_, l) _, Z.of_nat (length l))).
  2: { exists fl, M, 0%nat. rewrite insert_id, drop_0, take_0 by done.
       pose proof (Z.mod_pos_bound dstva PGSIZE ltac:(done)).
       split_and!; try done; try lia; [by apply (Hlow r)|..]; intros; [by rewrite overwrite_nil|by left]. }
  2: { lia. }
  intros [va l] s1 (fl1 & M1 & n & -> & Hn & Hva1 & Hnx & Hh & Hoth & Hker & Hvm1 & Hlow1 & Hview & Hent).
  rewrite length_drop in *.
  destruct (Z.leb_spec (Z.of_nat (length src - n)) 0) as [Hz|Hpos].
  { wp_step. split_and!; [done|done|done|]. exists fl1, M1, n. split_and!; try done. left. split; [done|lia]. }
  destruct (Hnx ltac:(lia)) as [-> Hpages]. set (va := dstva + Z.of_nat n) in *.
  pose proof (vm_space _ _ _ _ Hvm1 r M1 (lookup_insert_eq _ _ _)) as Ha1.
  destruct (PGROUNDDOWN_vpn va ltac:(lia)) as [Hvpn Hrd].
  wp_step. unfold wp at 1. rewrite (walkaddr_aspace s1 r M1) by (done || lia). rewrite uaddr_round by lia.
  assert (all_low (<[r := M1]> T)) as Hlow1'.
  { intros r' N [[_ <-]|[_ HN]]%lookup_insert_Some; [done|by apply (Hlow r')]. }
  destruct (Z.eqb_spec (uaddr M1 va) 0) as [E|E].
  { wp_step. split_and!; [done|done|done|]. exists fl1, M1, n. split_and!; try done. right. split_and!; [done|lia|].
    assert (uread s1 M1 va = None) as Hnone by (unfold uread; by rewrite E).
    rewrite Hview in Hnone by lia. unfold overwrite in Hnone.
    rewrite decide_False in Hnone by (rewrite length_take; lia). done. }
  destruct (uaddr_mapped _ _ _ _ _ _ va Hvm1 (lookup_insert_eq _ _ _) Hlow1 ltac:(lia) E)
    as (Hmax & pte & HM1 & HU & Ho & Hpe & Hok & _). rewrite Hpe.
  eapply (copyout_page s1 fl1 _ K r M1 va _ _ pte); try done.
  - unfold alloc_unlocked. by rewrite Hh.
  - apply lookup_insert_eq.
  - lia.
  - destruct (Hent _ _ HM1) as [HMo|]; [|by left]. apply (Hwc va); [lia|done|done].
  - intros _ ->. simpl in Hpages. pose proof (Z.mod_pos_bound va PGSIZE ltac:(done)). lia.
  - assert (∀ b : bool, ((if b then 1 else 0) <= 1)%nat) as Hb1 by (intros []; lia).
    specialize (Hb1 (truth (Z.land pte PTE_C))). intros s2 fl2 pte2 M2 Hvm2 Hh2 Hlen2 HU2 HW2 HC2 Hview2 Hoth2 Hker2. rewrite insert_insert_eq in Hvm2.
    assert (M2 !! (va / PGSIZE) = Some pte2) as HM2 by apply lookup_insert_eq.
    assert (user_low M2) as Hlow2.
    { intros v q [[<- <-]|[_ Hq]]%lookup_insert_Some HUq; [done|by apply (Hlow1 v q)]. }
    assert (all_low (<[r := M2]> T)) as Hlow2'.
    { intros r' N [[_ <-]|[_ HN]]%lookup_insert_Some; [done|by apply (Hlow r')]. }
    destruct (chunk_pos va (Z.of_nat (length src - n)) Hpos) as [Hc1 Hc2].
    rewrite chunk_code. set (c := Z.to_nat (chunk va (Z.of_nat (length src - n)))).
    assert (Z.of_nat c = chunk va (Z.of_nat (length src - n))) as Hc by (unfold c; lia).
    replace (va - PGROUNDDOWN va) with (va mod PGSIZE) by (rewrite PGROUNDDOWN_mod; lia).
    destruct (write_view s2 fl2 (<[r := M2]> T) K r M2 va pte2 (take c (drop n src))) as (Hvm3 & Hoth3 & Hker3 & Hview3);
      [done|done|done|apply lookup_insert_eq|lia|done|done|done| | |].
    { rewrite length_take, length_drop. lia. }
    { by apply Forall_take, Forall_drop. }
    destruct (mapped_page _ _ _ _ r M2 _ _ Hvm2 (lookup_insert_eq _ _ _) HM2 Ho) as (Hok2 & _).
    pose proof (Z.mod_pos_bound va PGSIZE ltac:(done)).
    assert (Z.of_nat (length (take c (drop n src))) = Z.of_nat c) as Hlc by (rewrite length_take, length_drop; lia).
    wp_step. unfold kwrite_bytes. rewrite Hlc.
    rewrite (in_ram_sub (PTE2PA pte2) PGSIZE (PTE2PA pte2 + va mod PGSIZE)) by (by apply page_ok_ram || lia).
    wp_step. wp_step. rewrite drop_drop, length_drop. split; [|lia].
    exists fl2, M2, (n + c)%nat. split_and!; try done; try apply u64_range; try lia.
    + intros Hlt. destruct (chunk_next va (Z.of_nat (length src - n)) Hpos) as [?|Hnext]; [lia|].
      change MAXVA with (2 ^ 38) in Hmax. rewrite Hnext, u64_small by lia. split; [lia|].
      rewrite <- Hnext, Z.add_mod, PGROUNDDOWN_aligned by done.
      change (((0 + PGSIZE mod PGSIZE) mod PGSIZE)) with 0. rewrite PGROUNDDOWN_mod in Hnext.
      unfold PGSIZE in *. lia.
    + cbn. by rewrite Hh2.
    + intros r2 N va' Hr2 HN Hva'. rewrite (Hoth3 r2 N), (Hoth2 r2 N), (Hoth r2 N); try done;
        by rewrite lookup_insert_ne.
    + intros q x Hq HKq Hx. by rewrite (Hker3 q), (Hker2 q), (Hker q).
    + intros va' Hva'. rewrite Hview3, <- take_take_drop by done.
      rewrite <- overwrite_app, length_take. replace (Z.of_nat (n `min` length src)) with (Z.of_nat n) by lia.
      apply overwrite_ext. by rewrite Hview2, Hview.
    + intros v q [[<- <-]|[_ Hq]]%lookup_insert_Some; [by right|by apply Hent].
Qed.

(** One byte.  Only a shared page needs a free one, and it is shared no longer
    afterwards. *)
Lemma copyout_byte s fl T K r M va c :
  vm s fl T K → kpos K → alloc_unlocked s → all_low T → T !! r = Some M → 0 <= va < 2 ^ 64 → 0 <= c < 256 →
  (∀ pte, M !! (va / PGSIZE) = Some pte → truth (Z.land pte PTE_U) = true →
     (truth (Z.land pte PTE_W) = true ∨ truth (Z.land pte PTE_C) = true) ∧ (truth (Z.land pte PTE_C) = true → fl ≠ [])) →
  wp (copyout r va [c]) (λ x s',
    (x = -1 ∧ s' = s ∧ uread s M va = None) ∨
    (x = 0 ∧ uread s M va ≠ None ∧ m_held s' = m_held s ∧ others_same s T r s' ∧ kernel_same s K s' ∧
     ∃ fl' pte pte', let M' := <[va / PGSIZE := pte']> M in
       vm s' fl' (<[r := M']> T) K ∧ all_low (<[r := M']> T) ∧ M !! (va / PGSIZE) = Some pte ∧ owned (va / PGSIZE) = true ∧
       truth (Z.land pte' PTE_W) = true ∧ truth (Z.land pte' PTE_C) = false ∧
       (length fl <= (if truth (Z.land pte PTE_C) then 1 else 0) + length fl')%nat ∧
       ∀ va', 0 <= va' → uread s' M' va' = overwrite va [c] (uread s M) va')) s.
Proof.
  intros Hvm HK Hu Hlow HT Hva Hc Hpte. unfold copyout. apply (wp_while_n 2); [done|].
  pose proof (vm_space _ _ _ _ Hvm r M HT) as Ha. destruct (PGROUNDDOWN_vpn va ltac:(lia)) as [Hvpn Hrd].
  cbn [kloopn length]. change (Z.of_nat 1 <=? 0) with false. cbv iota. wp_step. wp_step.
  unfold wp at 1. rewrite (walkaddr_aspace s r M) by (done || lia). rewrite uaddr_round by lia.
  destruct (Z.eqb_spec (uaddr M va) 0) as [E|E].
  { wp_step. wp_step. left. split_and!; [done|done|]. unfold uread. by rewrite E. }
  destruct (uaddr_mapped _ _ _ _ _ _ va Hvm HT (Hlow r M HT) ltac:(lia) E) as (Hmax & pte & HM & HU & Ho & Hpe & Hok & _).
  rewrite Hpe. destruct (Hpte pte HM HU) as [Hwc Hfl].
  eapply (copyout_page s fl T K r M va _ _ pte); try done; [lia|].
  intros s2 fl2 pte2 M2 Hvm2 Hh2 Hlen2 HU2 HW2 HC2 Hview2 Hoth2 Hker2.
  assert (all_low (<[r := M2]> T)) as Hlow2.
  { intros r' N [[_ <-]|[_ HN]]%lookup_insert_Some; [|by apply (Hlow r')].
    intros v q [[<- <-]|[_ Hq]]%lookup_insert_Some HUq; [done|by apply (Hlow r M HT v q)]. }
  assert (M2 !! (va / PGSIZE) = Some pte2) as HM2 by apply lookup_insert_eq.
  pose proof (Z.mod_pos_bound va PGSIZE ltac:(done)) as Hm.
  rewrite chunk_code. destruct (chunk_pos va 1 ltac:(lia)) as [Hc1 Hc2].
  assert (chunk va (Z.of_nat 1) = 1) as -> by (unfold chunk in *; rewrite PGROUNDDOWN_mod in *; lia).
  replace (va - PGROUNDDOWN va) with (va mod PGSIZE) by (rewrite PGROUNDDOWN_mod; lia).
  destruct (write_view s2 fl2 (<[r := M2]> T) K r M2 va pte2 [c]) as (Hvm3 & Hoth3 & Hker3 & Hview3);
    [done|done|done|apply lookup_insert_eq|lia|done|done|done|simpl; lia|by apply Forall_singleton|].
  destruct (mapped_page _ _ _ _ r M2 _ _ Hvm2 (lookup_insert_eq _ _ _) HM2 Ho) as (Hok2 & _).
  wp_step. change (take (Z.to_nat 1) [c]) with [c]. unfold kwrite_bytes.
  change (Z.of_nat (length [c])) with 1.
  rewrite (in_ram_sub (PTE2PA pte2) PGSIZE (PTE2PA pte2 + va mod PGSIZE)) by (by apply page_ok_ram || lia).
  wp_step. wp_step. change (drop (Z.to_nat 1) [c]) with (@nil Z).
  cbn [kloopn length]. change (Z.of_nat 0 <=? 0) with true. cbv iota. wp_step. wp_step. wp_step.
  right. split_and!; try done.
  - unfold uread. destruct (Z.eqb_spec (uaddr M va) 0); done.
  - intros r2 N va' Hr2 HN Hva'. rewrite (Hoth3 r2 N), (Hoth2 r2 N); try done. by rewrite lookup_insert_ne.
  - intros q x Hq HKq Hx. by rewrite (Hker3 q), (Hker2 q).
  - exists fl2, pte, pte2. split_and!; try done. intros va' Hva'. rewrite Hview3 by done.
    apply overwrite_ext. by apply Hview2.
Qed.

(** When no page is left for the copy, [copyout] goes on with a null pointer:
    the kernel faults. *)
Lemma copyout_oom s T K r M va pte c src :
  vm s [] T K → alloc_unlocked s → T !! r = Some M → 0 <= va < MAXVA →
  M !! (va / PGSIZE) = Some pte → truth (Z.land pte PTE_U) = true → PTE2PA pte ≠ 0 →
  truth (Z.land pte PTE_C) = true → copyout r va (c :: src) s = Fault.
Proof.
  intros Hvm Hu HT Hva HM HU Hpa HC. pose proof (vm_space _ _ _ _ Hvm r M HT) as Ha.
  destruct (PGROUNDDOWN_vpn va ltac:(lia)) as [Hvpn Hrd].
  destruct (aspace_lookup s r M (PGROUNDDOWN va) pte Ha ltac:(lia) ltac:(by rewrite Hvpn)) as (a & Hl & Hld).
  destruct (leaf_addr_ok r (PGROUNDDOWN va) a s (as_wf _ _ _ Ha) Hl) as (Hram & _).
  unfold copyout. match goal with |- while ?b ?x s = _ => assert (b x s = Fault) as Hbody end.
  { change (Z.of_nat (length (c :: src)) <=? 0) with false. cbn [negb].
    erewrite bind_ok; [|by apply (walkaddr_aspace s r M); [|lia]]. rewrite uaddr_round by lia.
    assert (uaddr M va = PTE2PA pte) as ->.
    { unfold uaddr. destruct (Z.leb_spec MAXVA va); [lia|]. by rewrite HM, HU. }
    destruct (Z.eqb_spec (PTE2PA pte) 0) as [|_]; [done|].
    erewrite bind_ok; [|by apply walk_pure; [apply Ha|lia]]. rewrite Hl. simpl default.
    erewrite bind_ok; [|unfold kload64; by rewrite Hram]. rewrite Hld.
    assert (truth (Z.land (PTE_FLAGS pte) PTE_C) = true) as ->.
    { rewrite <- HC. unfold PTE_C. by rewrite truth_land_pow2, truth_flag by lia. }
    cbv [mbind kM_bind]. by rewrite (kalloc_vm_empty s T K). }
  rewrite while_stop; by rewrite Hbody.
Qed.

End usercopy.
