(* ===== verification/CowView.v ===== *)
(** What user programs see of the sharing of pages: [uvmcopy] gives the child
    the parent's memory and leaves everyone's memory as it is. *)
From S2P Require Import Prelude CString Spinlock Riscv Kalloc Vm PageTable Uvm UvmOps UvmGrow UserCopy.

Section cowview.
Context `{KI : !KernelImage}.
Implicit Types (T : gmap Z (gmap Z Z)) (M : gmap Z Z) (K : Z → Z).

(** Operations that only add references are invisible. *)
Lemma grows_view s fl T K s' T' r M va :
  vm s fl T K → kpos K → T !! r = Some M → user_low M → grows s T s' T' → 0 <= va →
  uread s' M va = uread s M va.
Proof.
  intros Hvm HK HT Hlow [_ Hg] Hva. unfold uread.
  destruct (Z.eqb_spec (uaddr M va) 0) as [|E]; [done|]. f_equal.
  destruct (uaddr_mapped _ _ _ _ _ _ va Hvm HT Hlow Hva E) as (_ & pte & HM & _ & Ho & Hpa & Hok & Hnt).
  destruct (mapped_page _ _ _ _ _ _ _ _ Hvm HT HM Ho) as (_ & _ & Hrc). specialize (Hrc (HK _)).
  rewrite <- Hpa in Hrc. destruct (Hg _ Hok ltac:(lia) Hnt) as (_ & _ & Hd). apply Hd.
  pose proof (Z.mod_pos_bound va PGSIZE ltac:(done)). unfold in_page. lia.
Qed.

(** Marking entries copy-on-write keeps the pages and who may read them. *)
Lemma cow_uaddr pte : 0 <= pte < 2 ^ 54 →
  truth (Z.land (cow_pte pte) PTE_U) = truth (Z.land pte PTE_U) ∧ PTE2PA (cow_pte pte) = PTE2PA pte.
Proof.
  intros Hp. destruct (cow_pte_ok pte Hp) as (_ & -> & _ & Hb & _). split; [|done].
  unfold PTE_U. rewrite !truth_land_pow2 by lia. by apply Hb.
Qed.

Lemma uread_uaddr s M M' va : uaddr M va = uaddr M' va → uread s M va = uread s M' va.
Proof. unfold uread. by intros ->. Qed.

Lemma mapped_range s fl T K r M n i pte :
  vm s fl T K → T !! r = Some M → mapped_run n M → 0 <= i < Z.of_nat n → M !! i = Some pte →
  0 <= pte < 2 ^ 54.
Proof. intros Hvm HT Hmap Hi HM. destruct (Hmap i Hi) as [Ho _]. by apply (vm_user _ _ _ _ Hvm r M i). Qed.

Lemma cow_run_uaddr s fl T K r M n va :
  vm s fl T K → T !! r = Some M → mapped_run n M → uaddr (cow_run n M) va = uaddr M va.
Proof.
  intros Hvm HT Hmap. unfold uaddr. destruct (MAXVA <=? va); [done|].
  rewrite cow_run_lookup. case_decide as Hi; [|done].
  destruct (M !! (va / PGSIZE)) as [pte|] eqn:E; [|done]. cbn.
  destruct (cow_uaddr pte) as [-> ->]; [by eapply mapped_range|done].
Qed.

Lemma share_run_uaddr s fl T K r M Mn n va :
  vm s fl T K → T !! r = Some M → mapped_run n M →
  uaddr (share_run n M Mn) va =
  if decide (0 <= va < Z.of_nat n * PGSIZE) then uaddr M va else uaddr Mn va.
Proof.
  intros Hvm HT Hmap. unfold uaddr. destruct (MAXVA <=? va); [by case_decide|].
  rewrite share_run_lookup.
  assert (0 <= va / PGSIZE < Z.of_nat n ↔ 0 <= va < Z.of_nat n * PGSIZE) as Hiff
    by (unfold PGSIZE; split; intros; split; Z.to_euclidean_division_equations; lia).
  case_decide as Hi; case_decide as Hj; try tauto.
  destruct (Hmap _ Hi) as (_ & pte & E & _). rewrite E.
  destruct (cow_uaddr pte) as [-> ->]; [by eapply mapped_range|done].
Qed.

Lemma cow_run_low s fl T K r M n :
  vm s fl T K → T !! r = Some M → mapped_run n M → user_low M → user_low (cow_run n M).
Proof.
  intros Hvm HT Hmap Hlow vpn pte. rewrite cow_run_lookup. case_decide as Hi; [|by apply Hlow].
  intros _ _. by apply Hmap.
Qed.

Lemma share_run_low M Mn n : mapped_run n M → user_low Mn → user_low (share_run n M Mn).
Proof.
  intros Hmap Hlow vpn pte. rewrite share_run_lookup. case_decide as Hi; [|by apply Hlow].
  intros _ _. by apply Hmap.
Qed.

(** The shared pages are write-protected on both sides. *)
Lemma cow_run_ro s fl T K r M n i pte :
  vm s fl T K → T !! r = Some M → mapped_run n M → 0 <= i < Z.of_nat n →
  cow_run n M !! i = Some pte → truth (Z.land pte PTE_W) = false.
Proof.
  intros Hvm HT Hmap Hi. rewrite cow_run_lookup, decide_True by done.
  destruct (M !! i) as [q|] eqn:E; [|done]. cbn. intros [= <-].
  by apply cow_pte_ok; eapply mapped_range.
Qed.

(** ** The contract of [uvmcopy] *)

(** Memory seen through every page table of [T] is the same in both states. *)
Definition views_same (s : mach) T (s' : mach) T' : Prop :=
  ∀ r M, T !! r = Some M → ∃ M', T' !! r = Some M' ∧ ∀ va, 0 <= va → uread s' M' va = uread s M va.

Lemma refs_pos T p :
  0 < refs T p → ∃ r M vpn pte, T !! r = Some M ∧ M !! vpn = Some pte ∧ owned vpn = true ∧ PTE2PA pte = p.
Proof.
  induction T as [|r M T HT IH] using map_ind; [done|].
  rewrite refs_insert by done. intros Hpos. destruct (Z.leb_spec (refs1 M p) 0) as [Hle|Hgt].
  - destruct IH as (r' & M' & vpn & pte & HT' & ?); [lia|]. exists r', M', vpn, pte.
    rewrite lookup_insert_ne; [done|]. by intros ->; rewrite HT in HT'.
  - unfold refs1 in Hgt. destruct (map_choose (filter (λ kv, owned kv.1 && (PTE2PA kv.2 =? p) = true) M))
      as (vpn & pte & [HM Hf]%map_lookup_filter_Some).
    { intros E. rewrite E, map_size_empty in Hgt. done. }
    cbn in Hf. b2p. exists r, M, vpn, pte. by rewrite lookup_insert_eq.
Qed.

(** Sharing pages copy-on-write gives the kernel's pages to nobody. *)
Lemma cow_refs_zero m fl T K old new Mo Mn n q :
  vm m fl T K → T !! old = Some Mo → T !! new = Some Mn → mapped_run n Mo →
  refs T q = 0 → refs (cow_state n old new Mo Mn T) q = 0.
Proof.
  intros Hvm Ho Hn Hmap Hz. pose proof (refs_nonneg (cow_state n old new Mo Mn T) q) as Hnn.
  destruct (Z.leb_spec (refs (cow_state n old new Mo Mn T) q) 0) as [Hle|Hgt]; [lia|]. exfalso.
  apply refs_pos in Hgt as (r & M & vpn & pte & HT & HM & Hown & Hpa).
  assert (∀ r' M' pte', T !! r' = Some M' → M' !! vpn = Some pte' → PTE2PA pte' = q → False) as Hno.
  { intros r' M' pte' HT' HM' Hq. pose proof (refs_mapped T r' M' vpn pte' HT' HM' Hown). rewrite Hq in *. lia. }
  assert (∀ pte', 0 <= vpn < Z.of_nat n → Mo !! vpn = Some pte' → PTE2PA (cow_pte pte') = PTE2PA pte') as Hcow.
  { intros pte' Hi HMo. apply cow_pte_ok. by eapply (mapped_range m fl T K old Mo n vpn). }
  unfold cow_state in HT. apply lookup_insert_Some in HT as [[_ <-]|[_ [[_ <-]|[_ HT]]%lookup_insert_Some]].
  - rewrite share_run_lookup in HM. case_decide as Hi; [|by apply (Hno new Mn pte)].
    destruct (Mo !! vpn) as [pte'|] eqn:E; [|by apply (Hno new Mn pte)]. injection HM as <-.
    apply (Hno old Mo pte'); try done. by rewrite <- Hcow.
  - rewrite cow_run_lookup in HM. case_decide as Hi; [|by apply (Hno old Mo pte)].
    destruct (Mo !! vpn) as [pte'|] eqn:E; [|done]. injection HM as <-.
    apply (Hno old Mo pte'); try done. by rewrite <- Hcow.
  - by apply (Hno r M pte).
Qed.
Lemma cow_run_refs m fl T K old Mo n q :
  vm m fl T K → T !! old = Some Mo → mapped_run n Mo → refs (<[old := cow_run n Mo]> T) q = refs T q.
Proof.
  intros Hvm Ho Hmap. rewrite (refs_update T old Mo) by done. rewrite refs1_cow_run; [lia|].
  intros i pte Hi HM. by eapply (mapped_range m fl T K old Mo n i).
Qed.

Lemma cow_state_low s fl T K old new Mo Mn n :
  vm s fl T K → all_low T → T !! old = Some Mo → T !! new = Some Mn → mapped_run n Mo →
  all_low (cow_state n old new Mo Mn T).
Proof.
  intros Hvm Hlow HTo HTn Hmap r M. unfold cow_state.
  intros [[_ <-]|[_ [[_ <-]|[_ HM]]%lookup_insert_Some]]%lookup_insert_Some.
  - apply share_run_low; [done|by apply (Hlow new)].
  - apply (cow_run_low s fl T K old); try done. by apply (Hlow old).
  - by apply (Hlow r).
Qed.

Lemma uvmcopy_views s fl T K old new Mo Mn sz (n : nat) :
  vm s fl T K → kpos K → alloc_unlocked s → all_low T → old ≠ new →
  T !! old = Some Mo → T !! new = Some Mn → mapped_run n Mo →
  (∀ i, 0 <= i < Z.of_nat n → Mn !! i = None) →
  sz <= Z.of_nat n * PGSIZE < sz + PGSIZE →
  wp (uvmcopy old new sz) (λ r s', ∃ fl',
    (r = 0 ∧ (length fl <= length fl' + 2 * n)%nat ∧ let T' := cow_state n old new Mo Mn T in
       vm s' fl' T' K ∧ grows s T s' T' ∧ views_same s (delete new T) s' T' ∧
       (∀ va, 0 <= va < Z.of_nat n * PGSIZE → uread s' (share_run n Mo Mn) va = uread s Mo va) ∧
       (∀ va, Z.of_nat n * PGSIZE <= va → uread s' (share_run n Mo Mn) va = uread s Mn va)) ∨
    (r = -1 ∧ (length fl <= 2 * n)%nat ∧ ∃ j, (j <= n)%nat ∧ let T' := <[old := cow_run j Mo]> T in
       vm s' fl' T' K ∧ grows s T s' T' ∧ all_low T' ∧ views_same s T s' T')) s.
Proof.
  intros Hvm HK Hu Hlow Hne HTo HTn Hmap HMn Hsz.
  wp_use (uvmcopy_vm s fl T K old new Mo Mn sz n); try done.
  assert (∀ s' T' r M va, grows s T s' T' → T !! r = Some M → 0 <= va → uread s' M va = uread s M va) as Hsame
    by (intros s' T' r M va Hg HT Hva; eapply grows_view; try done; by apply (Hlow r)).
  assert (∀ s' T' r M j, grows s T s' T' → (j <= n)%nat → T !! r = Some M → ∃ M', (<[old := cow_run j Mo]> T) !! r = Some M' ∧
    ∀ va, 0 <= va → uread s' M' va = uread s M va) as Hold.
  { intros s' T' r M j Hg Hj HM. destruct (decide (r = old)) as [->|Hro].
    - rewrite lookup_insert_eq. eexists; split; [done|]. intros va Hva. simplify_eq.
      rewrite <- (Hsame s' T' old Mo va) by done. apply uread_uaddr. apply (cow_run_uaddr s fl T K old); try done.
      intros i Hi. apply Hmap. lia.
    - rewrite lookup_insert_ne by done. exists M. split; [done|]. intros. by apply (Hsame s' T' r). }
  intros r s' (fl' & [(-> & Hlen & Hvm' & Hg)|(-> & Hlen & j & Hj & Hvm' & Hg)]); exists fl';
    [left|right; split; [done|]; split; [done|]; exists j].
  - split; [done|]. split; [done|]. cbn zeta. split_and!; [done|done| | |].
    + intros r M [Hr HM]%lookup_delete_Some. unfold cow_state. rewrite lookup_insert_ne by done.
      by apply (Hold _ (cow_state n old new Mo Mn T)).
    + intros va Hva. rewrite <- (Hsame _ _ old Mo va Hg) by (done || lia). apply uread_uaddr.
      by rewrite (share_run_uaddr s fl T K old), decide_True by done.
    + intros va Hva. rewrite <- (Hsame _ _ new Mn va Hg) by (done || unfold PGSIZE in *; lia). apply uread_uaddr.
      by rewrite (share_run_uaddr s fl T K old), decide_False by (done || (unfold PGSIZE in *; lia)).
  - split; [done|]. cbn zeta. split_and!; [done|done| |].
    + intros r M [[_ <-]|[_ HM]]%lookup_insert_Some; [|by apply (Hlow r)].
      apply (cow_run_low s fl T K old); try done; [|by apply (Hlow old)]. intros i Hi. apply Hmap. lia.
    + intros r M HM. by apply (Hold _ (<[old := cow_run j Mo]> T)).
Qed.

(** Operations that only drop references are invisible to the tables that stay. *)
Lemma drops_view s fl T K s' fl' T' K' r M va :
  vm s fl T K → vm s' fl' T' K' → kpos K' → T !! r = Some M → T' !! r = Some M → user_low M →
  drops s T s' T' → 0 <= va → uread s' M va = uread s M va.
Proof.
  intros Hvm Hvm' HK HT HT' Hlow [_ Hd] Hva. unfold uread.
  destruct (Z.eqb_spec (uaddr M va) 0) as [|E]; [done|]. f_equal.
  destruct (uaddr_mapped _ _ _ _ _ _ va Hvm HT Hlow Hva E) as (_ & pte & HM & _ & Ho & Hpa & Hok & Hnt).
  destruct (mapped_page _ _ _ _ _ _ _ _ Hvm' HT' HM Ho) as (_ & _ & Hrc). specialize (Hrc (HK _)).
  rewrite <- Hpa in Hrc. destruct (Hd _ Hok ltac:(lia) Hnt) as (_ & _ & Hx). apply Hx.
  pose proof (Z.mod_pos_bound va PGSIZE ltac:(done)). unfold in_page. lia.
Qed.

End cowview.
