(* ===== verification/Proc.v ===== *)
(** The process table and the operations on it: [kernel/proc.h], [kernel/proc.c].

    The scheduler is chosen at compile time; the configuration is a parameter
    and [struct proc] has the fields of all of them.  Control transfer between
    a kernel thread and the CPU's scheduler ([swtch]) is a parameter too: the
    computation that runs until the caller is switched to again. *)
From S2P Require Import Prelude CString Spinlock Riscv Kalloc Vm.

(** ** Data *)

Inductive sched_cfg := RR | FCFS | LBS | PBS | MLFQ.
#[export] Instance sched_cfg_eq_dec : EqDecision sched_cfg.
Proof. solve_decision. Defined.

Inductive procstate := UNUSED | USED | SLEEPING | RUNNABLE | RUNNING | ZOMBIE.
#[export] Instance procstate_eq_dec : EqDecision procstate.
Proof. solve_decision. Defined.

Definition NOFILE : Z := 16.
Definition NQUEUE : Z := 5.

(** [struct context]: the two registers that [allocproc] sets. *)
Record context := mkContext { ra : Z; sp : Z }.

Record proc := mkProc {
  state : procstate;
  chan : Z;
  killed_ : Z;                 (* p->killed *)
  xstate : Z;
  pid : Z;
  stick : Z;                   (* FCFS, PBS *)
  priority : Z;                (* PBS *)
  tickls : Z;
  tickslp : Z;
  tickrng : Z;
  niceness : Z;
  nscheduled : Z;
  queue : Z;                   (* MLFQ *)
  waittime : Z;
  ticksused : Z;
  intime : Z;
  tickets : Z;                 (* LBS *)
  parent : option Z;           (* index in proc[], or null *)
  kstack : Z;
  sz : Z;
  pagetable : Z;
  trapframe : Z;               (* address of the page, or 0 *)
  context_ : context;
  ofile : list Z;              (* struct file pointers, 0 for a free descriptor *)
  cwd : Z;
  name : list Z;
  ticksn : Z;
  ticksp : Z;
  tickspa : Z;
  sigalarm : Z;
  handler : Z;
  trapcopy : Z;
  trace : Z;
  tracemask : Z;
  rtime : Z;
  ctime : Z;
  etime : Z
}.
#[export] Instance proc_settable : Settable proc := λ x,
  mkProc (state x) (chan x) (killed_ x) (xstate x) (pid x) (stick x) (priority x) (tickls x)
    (tickslp x) (tickrng x) (niceness x) (nscheduled x) (queue x) (waittime x) (ticksused x)
    (intime x) (tickets x) (parent x) (kstack x) (sz x) (pagetable x) (trapframe x) (context_ x)
    (ofile x) (cwd x) (name x) (ticksn x) (ticksp x) (tickspa x) (sigalarm x) (handler x)
    (trapcopy x) (trace x) (tracemask x) (rtime x) (ctime x) (etime x).

(** Offsets of the fields of [struct trapframe] that the kernel uses. *)
Definition tf_kernel_satp : Z := 0.
Definition tf_kernel_sp : Z := 8.
Definition tf_kernel_trap : Z := 16.
Definition tf_epc : Z := 24.
Definition tf_kernel_hartid : Z := 32.
Definition tf_sp : Z := 48.
Definition tf_a0 : Z := 112.
Definition tf_a (n : Z) : Z := tf_a0 + 8 * n.
Definition tf_a7 : Z := 168.
Definition tf_size : Z := 288.

(** The supervisor registers of the hart that the trap code reads and writes. *)
Record csr := mkCsr {
  sstatus : Z;
  scause : Z;
  stval : Z;
  sepc : Z;
  stvec : Z;
  satp : Z;
  tp : Z;
  sip : Z
}.
#[export] Instance csr_settable : Settable csr := λ x,
  mkCsr (sstatus x) (scause x) (stval x) (sepc x) (stvec x) (satp x) (tp x) (sip x).

Definition SSTATUS_SIE : Z := Z.shiftl 1 1.

(** The state of the kernel that processes share, seen from one CPU; [F] is the
    state of the file system. *)
Record pstate (F : Type) := mkPstate {
  ps_m : mach;
  ps_proc : Z → proc;          (* proc[NPROC] *)
  ps_cur : option Z;           (* mycpu()->proc *)
  ps_initproc : option Z;
  ps_nextpid : Z;
  ps_ticks : Z;
  ps_totaltickets : Z;
  ps_ctickets : Z;             (* static in scheduler() *)
  ps_rand_next : Z;
  ps_first : bool;             (* static in forkret() *)
  ps_csr : csr;
  ps_fs : F
}.
Arguments mkPstate {F}.
Arguments ps_m {F}.
Arguments ps_proc {F}.
Arguments ps_cur {F}.
Arguments ps_initproc {F}.
Arguments ps_nextpid {F}.
Arguments ps_ticks {F}.
Arguments ps_totaltickets {F}.
Arguments ps_ctickets {F}.
Arguments ps_rand_next {F}.
Arguments ps_first {F}.
Arguments ps_csr {F}.
Arguments ps_fs {F}.
#[export] Instance pstate_settable F : Settable (pstate F) := λ x,
  mkPstate (ps_m x) (ps_proc x) (ps_cur x) (ps_initproc x) (ps_nextpid x) (ps_ticks x)
    (ps_totaltickets x) (ps_ctickets x) (ps_rand_next x) (ps_first x) (ps_csr x) (ps_fs x).

#[export] Instance pstate_locks F : LockState (pstate F).
Proof.
  refine {| held := λ s, m_held (ps_m s);
            set_held := λ l s, s <| ps_m := ps_m s <| m_held := l |> |> |};
    intros; try done; by destruct s as [[] ? ? ? ? ? ? ? ? ? ? ?].
Defined.

(** The file-system operations that process management calls. *)
Record fileops (F : Type) := {
  filedup : Z → kM (pstate F) Z;
  fileclose : Z → kM (pstate F) ();
  idup : Z → kM (pstate F) Z;
  iput : Z → kM (pstate F) ();
  begin_op : kM (pstate F) ();
  end_op : kM (pstate F) ();
  namei : string → kM (pstate F) Z;
  fsinit : Z → kM (pstate F) ()
}.
Arguments filedup {F}.
Arguments fileclose {F}.
Arguments idup {F}.
Arguments iput {F}.
Arguments begin_op {F}.
Arguments end_op {F}.
Arguments namei {F}.
Arguments fsinit {F}.

(** ** Random numbers *)

(** [do_rand]: the new [*ctx], which is also the result. *)
Definition do_rand (ctx : Z) : Z :=
  let x := ctx mod 0x7ffffffe + 1 in
  let hi := Z.quot x 127773 in
  let lo := Z.rem x 127773 in
  let x := 16807 * lo - 2836 * hi in
  let x := if x <? 0 then x + 0x7fffffff else x in
  x - 1.

(** ** Scheduling decisions on data *)

Definition compute_priority (p n : Z) : Z :=
  let r := p - n + 5 in
  let r := if r >? 100 then 100 else r in
  if r <? 0 then 0 else r.

(** Whether [p] should be scheduled before [best]. *)
Definition compare_priority (best p : proc) : bool :=
  let p1 := compute_priority (priority best) (niceness best) in
  let p2 := compute_priority (priority p) (niceness p) in
  if negb (p1 =? p2) then p2 <? p1 else
  if negb (nscheduled best =? nscheduled p) then nscheduled p <? nscheduled best else
  stick p >? stick best.

(** The niceness computed when a process goes to sleep or wakes up. *)
Definition new_niceness (tickslp tickrng : Z) : Z :=
  if tickslp + tickrng =? 0 then 0 else Z.quot (tickslp * 10) (tickslp + tickrng).

(** [safestrcpy] between the arrays of two processes. *)
Fixpoint safestrcpy_l (n : nat) (s t : list Z) : list Z :=
  match n, s with
  | S (S n'), _ :: s' =>
      match t with
      | c :: t' => if c =? 0 then 0 :: 0 :: drop 1 s' else c :: safestrcpy_l (S n') s' t'
      | [] => s
      end
  | S O, _ :: s' => 0 :: s'
  | _, _ => s
  end.

Section proc.
Context `{KI : !KernelImage} {F : Type}.
Context (cfg : sched_cfg).

(** [swtch old new]: save the current registers in [old] and continue at [new],
    until something switches back to [old].  [Some i] is [proc[i].context],
    [None] the scheduler's context of this CPU. *)
Context (swtch : option Z → option Z → kM (pstate F) ()).
Context (fops : fileops F).
Context (forkret_pc : Z).                    (* the address of forkret *)

Abbreviation M := (kM (pstate F)).

(** ** Accesses *)

Definition onmem {A} (c : kM mach A) : M A := zoom ps_m (λ m s, s <| ps_m := m |>) c.
Definition getp {A} (i : Z) (f : proc → A) : M A := gets (λ s, f (ps_proc s i)).
Definition setp (i : Z) (f : proc → proc) : M () :=
  modify (λ s, s <| ps_proc := λ j, if j =? i then f (ps_proc s j) else ps_proc s j |>).
Definition ticks : M Z := gets ps_ticks.
Definition r_csr (f : csr → Z) : M Z := gets (λ s, f (ps_csr s)).
Definition w_csr (f : csr → csr) : M () := modify (λ s, s <| ps_csr := f (ps_csr s) |>).
Definition intr_on : M () := w_csr (λ c, c <| sstatus := Z.lor (sstatus c) SSTATUS_SIE |>).
Definition intr_off : M () := w_csr (λ c, c <| sstatus := Z.land (sstatus c) (Z.lnot SSTATUS_SIE) |>).

(** [myproc()], dereferenced by the caller. *)
Definition myproc : M Z :=
  c ← gets ps_cur;
  match c with Some i => mret i | None => fault end.

(** [for(p = proc; p < &proc[NPROC]; p++)] *)
Definition procs : list Z := seqZ 0 NPROC.

(** ** Creating and freeing processes *)

Definition procinit : M () :=
  onmem (initlock PidLock) ;;
  onmem (initlock WaitLock) ;;
  for_ procs (λ p,
    onmem (initlock (ProcLock p)) ;;
    setp p (λ x, x <| state := UNUSED |>) ;;
    setp p (λ x, x <| kstack := KSTACK p |>)).

Definition allocpid : M Z :=
  acquire PidLock ;;
  pid ← gets ps_nextpid;
  modify (λ s, s <| ps_nextpid := ps_nextpid s + 1 |>) ;;
  release PidLock ;;
  mret pid.

Definition proc_pagetable (p : Z) : M Z :=
  pagetable ← onmem uvmcreate;
  if pagetable =? 0 then mret 0 else
  r ← onmem (mappages pagetable TRAMPOLINE PGSIZE ktrampoline (Z.lor PTE_R PTE_X));
  if r <? 0 then
    onmem (uvmfree pagetable 0) ;;
    mret 0
  else
  tf ← getp p trapframe;
  r ← onmem (mappages pagetable TRAPFRAME PGSIZE tf (Z.lor PTE_R PTE_W));
  if r <? 0 then
    onmem (uvmunmap pagetable TRAMPOLINE 1 false) ;;
    onmem (uvmfree pagetable 0) ;;
    mret 0
  else mret pagetable.

Definition proc_freepagetable (pagetable sz : Z) : kM mach () :=
  uvmunmap pagetable TRAMPOLINE 1 false ;;
  uvmunmap pagetable TRAPFRAME 1 false ;;
  uvmfree pagetable sz.

(** The assignments of [freeproc] once the memory is given back. *)
Definition clear_proc (x : proc) : proc :=
  let x := match cfg with LBS => x <| tickets := 0 |> | _ => x end in
  let x := x <| pagetable := 0 |> <| sz := 0 |> <| pid := 0 |> <| parent := None |>
             <| name := 0 :: drop 1 (name x) |> <| chan := 0 |> <| killed_ := 0 |>
             <| xstate := 0 |> <| state := UNUSED |> <| trace := 0 |> <| sigalarm := 0 |>
             <| ticksn := 0 |> <| ticksp := 0 |> <| tickspa := 0 |> <| handler := 0 |> in
  match cfg with
  | FCFS => x <| stick := 0 |>
  | PBS => x <| stick := 0 |> <| tickls := 0 |> <| tickslp := 0 |> <| tickrng := 0 |>
             <| priority := 0 |> <| niceness := 0 |> <| nscheduled := 0 |>
  | MLFQ => x <| queue := 0 |> <| waittime := 0 |> <| ticksused := 0 |> <| intime := 0 |>
  | _ => x
  end.

Definition freeproc (p : Z) : M () :=
  tf ← getp p trapframe;
  when (truth tf) (onmem (kfree tf)) ;;
  setp p (λ x, x <| trapframe := 0 |>) ;;
  tc ← getp p trapcopy;
  when (truth tc) (onmem (kfree tc)) ;;
  setp p (λ x, x <| trapcopy := 0 |>) ;;
  pt ← getp p pagetable;
  size ← getp p sz;
  when (truth pt) (onmem (proc_freepagetable pt size)) ;;
  setp p clear_proc.

(** The assignments of [allocproc] to the slot it found. *)
Definition init_proc (newpid now : Z) (x : proc) : proc :=
  let x := x <| pid := newpid |> <| state := USED |> <| trace := 0 |> <| tracemask := 0 |> in
  match cfg with
  | FCFS => x <| stick := i32 now |>
  | PBS => x <| stick := i32 now |> <| priority := 60 |> <| tickls := 0 |> <| tickrng := 0 |>
             <| tickslp := 0 |> <| niceness := 5 |> <| nscheduled := 0 |>
  | LBS => x <| tickets := 0 |>
  | MLFQ => x <| queue := 0 |> <| waittime := 0 |> <| ticksused := 0 |> <| intime := 0 |>
  | RR => x
  end.

(** The scan for an UNUSED slot; the slot's lock stays held. *)
Definition find_unused : M (option Z) :=
  foreach procs (λ p,
    acquire (ProcLock p) ;;
    st ← getp p state;
    if decide (st = UNUSED) then mret (Some p)
    else release (ProcLock p) ;; mret None).

(** [return 0] after [freeproc] and [release]. *)
Definition alloc_fail (p : Z) : M (option Z) :=
  freeproc p ;;
  release (ProcLock p) ;;
  mret None.

Definition allocproc : M (option Z) :=
  r ← find_unused;
  match r with
  | None => mret None
  | Some p =>
      newpid ← allocpid;
      now ← ticks;
      setp p (init_proc newpid now) ;;
      tf ← onmem kalloc;
      setp p (λ x, x <| trapframe := tf |>) ;;
      if tf =? 0 then alloc_fail p else
      tc ← onmem kalloc;
      setp p (λ x, x <| trapcopy := tc |>) ;;
      if tc =? 0 then alloc_fail p else
      setp p (λ x, x <| sigalarm := 0 |> <| ticksn := 0 |> <| ticksp := 0 |>
                     <| tickspa := 0 |> <| handler := 0 |>) ;;
      pt ← proc_pagetable p;
      setp p (λ x, x <| pagetable := pt |>) ;;
      if pt =? 0 then alloc_fail p else
      setp p (λ x, x <| context_ := mkContext forkret_pc (u64 (kstack x + PGSIZE)) |>
                     <| rtime := 0 |> <| etime := 0 |>) ;;
      now ← ticks;
      setp p (λ x, x <| ctime := now |>) ;;
      mret (Some p)
  end.

Definition initcode : list Z :=
  [0x17; 0x05; 0x00; 0x00; 0x13; 0x05; 0x45; 0x02;
   0x97; 0x05; 0x00; 0x00; 0x93; 0x85; 0x35; 0x02;
   0x93; 0x08; 0x70; 0x00; 0x73; 0x00; 0x00; 0x00;
   0x93; 0x08; 0x20; 0x00; 0x73; 0x00; 0x00; 0x00;
   0xef; 0xf0; 0x9f; 0xff; 0x2f; 0x69; 0x6e; 0x69;
   0x74; 0x00; 0x00; 0x24; 0x00; 0x00; 0x00; 0x00;
   0x00; 0x00; 0x00; 0x00].

(** The bytes of "initcode" with the terminating NUL. *)
Definition initcode_name : list Z := [105; 110; 105; 116; 99; 111; 100; 101; 0].

Definition userinit : M () :=
  r ← allocproc;
  modify (λ s, s <| ps_initproc := r |>) ;;
  match r with
  | None => fault
  | Some p =>
      pt ← getp p pagetable;
      onmem (uvmfirst pt initcode) ;;
      setp p (λ x, x <| sz := PGSIZE |>) ;;
      tf ← getp p trapframe;
      onmem (kstore64 (tf + tf_epc) 0) ;;
      onmem (kstore64 (tf + tf_sp) PGSIZE) ;;
      setp p (λ x, x <| name := safestrcpy_l 16 (name x) initcode_name |>) ;;
      d ← namei fops "/";
      setp p (λ x, x <| cwd := d |>) ;;
      setp p (λ x, x <| state := RUNNABLE |>) ;;
      now ← ticks;
      match cfg with
      | MLFQ => setp p (λ x, x <| queue := 0 |> <| intime := i32 now |>)
      | LBS => setp p (λ x, x <| tickets := 1 |>) ;;
               modify (λ s, s <| ps_totaltickets := ps_totaltickets s + 1 |>)
      | _ => mret ()
      end ;;
      release (ProcLock p)
  end.

Definition growproc (n : Z) : M Z :=
  p ← myproc;
  size ← getp p sz;
  pt ← getp p pagetable;
  if n >? 0 then
    size ← onmem (uvmalloc pt size (u64 (size + n)) PTE_W);
    if size =? 0 then mret (-1) else
    setp p (λ x, x <| sz := size |>) ;; mret 0
  else
    size ← (if n <? 0 then onmem (uvmdealloc pt size (u64 (size + n))) else mret size);
    setp p (λ x, x <| sz := size |>) ;;
    mret 0.

Definition fork : M Z :=
  p ← myproc;
  r ← allocproc;
  match r with
  | None => mret (-1)
  | Some np =>
      pt ← getp p pagetable;
      npt ← getp np pagetable;
      size ← getp p sz;
      r ← onmem (uvmcopy pt npt size);
      if r <? 0 then
        freeproc np ;;
        release (ProcLock np) ;;
        mret (-1)
      else
      setp np (λ x, x <| sz := size |>) ;;
      tr ← getp p trace;
      tm ← getp p tracemask;
      setp np (λ x, x <| trace := tr |> <| tracemask := tm |>) ;;
      tf ← getp p trapframe;
      ntf ← getp np trapframe;
      onmem (kmemmove ntf tf tf_size) ;;
      onmem (kstore64 (ntf + tf_a0) 0) ;;
      for_ (seqZ 0 NOFILE) (λ i,
        f ← getp p (λ x, ofile x !!! Z.to_nat i);
        when (truth f) (
          g ← filedup fops f;
          setp np (λ x, x <| ofile := <[Z.to_nat i := g]> (ofile x) |>))) ;;
      d ← getp p cwd;
      nd ← idup fops d;
      setp np (λ x, x <| cwd := nd |>) ;;
      nm ← getp p name;
      setp np (λ x, x <| name := safestrcpy_l 16 (name x) nm |>) ;;
      newpid ← getp np pid;
      release (ProcLock np) ;;
      acquire WaitLock ;;
      setp np (λ x, x <| parent := Some p |>) ;;
      release WaitLock ;;
      acquire (ProcLock np) ;;
      setp np (λ x, x <| state := RUNNABLE |>) ;;
      now ← ticks;
      tk ← getp p tickets;
      match cfg with
      | MLFQ => setp p (λ x, x <| queue := 0 |> <| intime := i32 now |>)
      | LBS => setp np (λ x, x <| tickets := tk |>) ;;
               modify (λ s, s <| ps_totaltickets := ps_totaltickets s + tk |>)
      | _ => mret ()
      end ;;
      release (ProcLock np) ;;
      mret newpid
  end.

(** ** Sleeping and waking *)

(** Interrupts are off while the CPU holds a lock ([Concrete] in [Spinlock]),
    so the last check of [sched] never fails here. *)
Definition sched : M () :=
  p ← myproc;
  h ← gets held;
  if negb (bool_decide (ProcLock p ∈ h)) then panic "sched p->lock" else
  if negb (Z.of_nat (length h) =? 1) then panic "sched locks" else
  st ← getp p state;
  if decide (st = RUNNING) then panic "sched running" else
  swtch (Some p) None.

Definition yield : M () :=
  p ← myproc;
  acquire (ProcLock p) ;;
  match cfg with
  | LBS => tk ← getp p tickets;
           modify (λ s, s <| ps_totaltickets := ps_totaltickets s + tk |>)
  | _ => mret ()
  end ;;
  setp p (λ x, x <| state := RUNNABLE |>) ;;
  now ← ticks;
  match cfg with
  | MLFQ =>
      setp p (λ x, if negb (queue x =? NQUEUE - 1) && (ticksused x >=? Z.shiftl 1 (queue x))
                   then x <| queue := queue x + 1 |> else x) ;;
      setp p (λ x, x <| intime := i32 now |> <| ticksused := 0 |>)
  | PBS => setp p (λ x, x <| tickrng := i32 now |>)
  | _ => mret ()
  end ;;
  sched ;;
  release (ProcLock p).

(** The bookkeeping of [sleep] under PBS. *)
Definition pbs_sleep (now : Z) (x : proc) : proc :=
  if decide (state x = RUNNING) then
    let x := x <| tickrng := i32 (now - tickls x) |> <| tickls := i32 now |> in
    x <| niceness := new_niceness (tickslp x) (tickrng x) |>
  else x.

Definition sleep (c : Z) (lk : lock) : M () :=
  p ← myproc;
  acquire (ProcLock p) ;;
  release lk ;;
  now ← ticks;
  match cfg with PBS => setp p (pbs_sleep now) | _ => mret () end ;;
  setp p (λ x, x <| chan := c |>) ;;
  setp p (λ x, x <| state := SLEEPING |>) ;;
  sched ;;
  setp p (λ x, x <| chan := 0 |>) ;;
  release (ProcLock p) ;;
  acquire lk.

(** What [wakeup] and [kill] do to a sleeping process. *)
Definition pbs_wake (now : Z) (x : proc) : proc :=
  let x := x <| tickslp := i32 (now - tickls x) |> <| tickls := i32 now |> in
  x <| niceness := new_niceness (tickslp x) (tickrng x) |>.

Definition wake_proc (now : Z) (x : proc) : proc :=
  let x := match cfg with PBS => pbs_wake now x | _ => x end in
  let x := x <| state := RUNNABLE |> in
  match cfg with MLFQ => x <| ticksused := 0 |> <| intime := i32 now |> | _ => x end.

Definition wake (p : Z) : M () :=
  now ← ticks;
  setp p (wake_proc now) ;;
  match cfg with
  | LBS => tk ← getp p tickets;
           modify (λ s, s <| ps_totaltickets := ps_totaltickets s + tk |>)
  | _ => mret ()
  end.

Definition wakeup (c : Z) : M () :=
  for_ procs (λ p,
    me ← gets ps_cur;
    when (negb (bool_decide (me = Some p))) (
      acquire (ProcLock p) ;;
      st ← getp p state;
      ch ← getp p chan;
      when (bool_decide (st = SLEEPING) && (ch =? c)) (wake p) ;;
      release (ProcLock p))).

Definition kill (target : Z) : M Z :=
  r ← foreach procs (λ p,
    acquire (ProcLock p) ;;
    id ← getp p pid;
    if id =? target then
      setp p (λ x, x <| killed_ := 1 |>) ;;
      st ← getp p state;
      when (bool_decide (st = SLEEPING)) (wake p) ;;
      release (ProcLock p) ;;
      mret (Some 0)
    else
      release (ProcLock p) ;;
      mret None);
  mret (default (-1) r).

Definition setkilled (p : Z) : M () :=
  acquire (ProcLock p) ;;
  setp p (λ x, x <| killed_ := 1 |>) ;;
  release (ProcLock p).

Definition killed (p : Z) : M Z :=
  acquire (ProcLock p) ;;
  k ← getp p killed_;
  release (ProcLock p) ;;
  mret k.

(** ** Exiting and waiting *)

(** Channels are addresses; [&proc[i]], [&ticks] and the others differ. *)
Definition chan_proc (p : Z) : Z := 1 + p.
Definition chan_ticks : Z := 1 + NPROC.
Definition chan_ptr (p : option Z) : Z := match p with Some i => chan_proc i | None => 0 end.

Definition reparent (p : Z) : M () :=
  for_ procs (λ pp,
    par ← getp pp parent;
    when (bool_decide (par = Some p)) (
      init ← gets ps_initproc;
      setp pp (λ x, x <| parent := init |>) ;;
      wakeup (chan_ptr init))).

Definition exit (status : Z) : M () :=
  p ← myproc;
  init ← gets ps_initproc;
  if bool_decide (init = Some p) then panic "init exiting" else
  for_ (seqZ 0 NOFILE) (λ fd,
    f ← getp p (λ x, ofile x !!! Z.to_nat fd);
    when (truth f) (
      fileclose fops f ;;
      setp p (λ x, x <| ofile := <[Z.to_nat fd := 0]> (ofile x) |>))) ;;
  begin_op fops ;;
  d ← getp p cwd;
  iput fops d ;;
  end_op fops ;;
  setp p (λ x, x <| cwd := 0 |>) ;;
  acquire WaitLock ;;
  reparent p ;;
  par ← getp p parent;
  wakeup (chan_ptr par) ;;
  acquire (ProcLock p) ;;
  setp p (λ x, x <| xstate := status |>) ;;
  setp p (λ x, x <| state := ZOMBIE |>) ;;
  now ← ticks;
  setp p (λ x, x <| etime := now |>) ;;
  release WaitLock ;;
  sched ;;
  panic "zombie exit".

(** The bytes of an [int]. *)
Definition int_bytes (x : Z) : list Z :=
  [u8 x; u8 (x / 2 ^ 8); u8 (x / 2 ^ 16); u8 (x / 2 ^ 24)].

(** The scan of [wait] over the table: [Some r] when the function returns [r];
    the flag is [havekids]. *)
Fixpoint wait_scan (l : list Z) (p addr : Z) (havekids : bool) : M (option Z * bool) :=
  match l with
  | [] => mret (None, havekids)
  | pp :: l' =>
      par ← getp pp parent;
      if bool_decide (par = Some p) then
        acquire (ProcLock pp) ;;
        st ← getp pp state;
        if decide (st = ZOMBIE) then
          id ← getp pp pid;
          pt ← getp p pagetable;
          xs ← getp pp xstate;
          r ← (if negb (addr =? 0) then onmem (copyout pt addr (int_bytes xs)) else mret 0);
          if r <? 0 then
            release (ProcLock pp) ;;
            release WaitLock ;;
            mret (Some (-1), true)
          else
            freeproc pp ;;
            release (ProcLock pp) ;;
            release WaitLock ;;
            mret (Some id, true)
        else
          release (ProcLock pp) ;;
          wait_scan l' p addr true
      else wait_scan l' p addr havekids
  end.

Definition wait (addr : Z) : M Z :=
  p ← myproc;
  acquire WaitLock ;;
  while (λ _ : (),
    r ← wait_scan procs p addr false;
    match r with
    | (Some v, _) => mret (inr v)
    | (None, havekids) =>
        k ← (if havekids then killed p else mret 0);
        if negb havekids || truth k then
          release WaitLock ;;
          mret (inr (-1))
        else
          sleep (chan_proc p) WaitLock ;;
          mret (inl ())
    end) ().

(** [waitx] also stores the waiting and the running time of the child through
    [wtime] and [rtime]. *)
Fixpoint waitx_scan (l : list Z) (p addr : Z) (havekids : bool) (wt rt : Z) :
    M (option Z * bool * (Z * Z)) :=
  match l with
  | [] => mret (None, havekids, (wt, rt))
  | np :: l' =>
      par ← getp np parent;
      if bool_decide (par = Some p) then
        acquire (ProcLock np) ;;
        st ← getp np state;
        if decide (st = ZOMBIE) then
          id ← getp np pid;
          rt ← getp np rtime;
          wt ← getp np (λ x, u32 (etime x - ctime x - rtime x));
          pt ← getp p pagetable;
          xs ← getp np xstate;
          r ← (if negb (addr =? 0) then onmem (copyout pt addr (int_bytes xs)) else mret 0);
          if r <? 0 then
            release (ProcLock np) ;;
            release WaitLock ;;
            mret (Some (-1), true, (wt, rt))
          else
            freeproc np ;;
            release (ProcLock np) ;;
            release WaitLock ;;
            mret (Some id, true, (wt, rt))
        else
          release (ProcLock np) ;;
          waitx_scan l' p addr true wt rt
      else waitx_scan l' p addr havekids wt rt
  end.

(** The result, [*wtime] and [*rtime]. *)
Definition waitx (addr wtime0 rtime0 : Z) : M (Z * (Z * Z)) :=
  p ← myproc;
  acquire WaitLock ;;
  while (λ '(wt, rt),
    r ← waitx_scan procs p addr false wt rt;
    match r with
    | (Some v, _, wr) => mret (inr (v, wr))
    | (None, havekids, wr) =>
        k ← getp p killed_;
        if negb havekids || truth k then
          release WaitLock ;;
          mret (inr (-1, wr))
        else
          sleep (chan_proc p) WaitLock ;;
          mret (inl wr)
    end) (wtime0, rtime0).

(** ** Priorities *)

Definition set_priority (new_priority target : Z) : M Z :=
  r ← foreach procs (λ p,
    acquire (ProcLock p) ;;
    st ← getp p state;
    id ← getp p pid;
    if (bool_decide (st = SLEEPING) || bool_decide (st = RUNNING) || bool_decide (st = RUNNABLE))
       && (id =? target) then
      setp p (λ x, x <| niceness := 5 |>) ;;
      old ← getp p priority;
      setp p (λ x, x <| priority := new_priority |>) ;;
      release (ProcLock p) ;;
      when (new_priority <? old) yield ;;
      mret (Some old)
    else
      release (ProcLock p) ;;
      mret None);
  mret (default (-1) r).

(** ** The scheduler

    One round of the [for(;;)] of each configuration. *)

(** The scan of FCFS and PBS: [release] of the previous best, or of a process
    that is not better. *)
Definition scan_step (better : proc → proc → bool) (best : option Z) (p : Z) : M (option Z) :=
  acquire (ProcLock p) ;;
  st ← getp p state;
  best ← (if decide (st = RUNNABLE) then
    match best with
    | None => mret (Some p)
    | Some b =>
        xb ← gets (λ s, ps_proc s b);
        xp ← gets (λ s, ps_proc s p);
        if better xb xp then release (ProcLock b) ;; mret (Some p) else mret best
    end
  else mret best);
  when (negb (bool_decide (best = Some p))) (release (ProcLock p)) ;;
  mret best.

(** The scan of MLFQ, with its [continue]s. *)
Definition mlfq_better (best p : proc) : bool :=
  ((queue best =? queue p) && (intime p <? intime best)) || (queue p <? queue best).

Definition mlfq_step (best : option Z) (p : Z) : M (option Z) :=
  acquire (ProcLock p) ;;
  st ← getp p state;
  if decide (st = RUNNABLE) then
    match best with
    | None => mret (Some p)
    | Some b =>
        xb ← gets (λ s, ps_proc s b);
        xp ← gets (λ s, ps_proc s p);
        if mlfq_better xb xp then
          release (ProcLock b) ;;
          mret (Some p)
        else
          release (ProcLock p) ;;
          mret best
    end
  else
    release (ProcLock p) ;;
    mret best.

Fixpoint scan (step : option Z → Z → M (option Z)) (l : list Z) (best : option Z) : M (option Z) :=
  match l with
  | [] => mret best
  | p :: l' => best ← step best p; scan step l' best
  end.

Definition fcfs_better (best p : proc) : bool := stick best >? stick p.

(** Run the chosen process and take its lock back. *)
Definition run (best : Z) : M () :=
  modify (λ s, s <| ps_cur := Some best |>) ;;
  swtch None (Some best) ;;
  modify (λ s, s <| ps_cur := None |>) ;;
  release (ProcLock best).

(** The loop of LBS over the table; [i] counts the runnable processes seen. *)
Fixpoint lbs_loop (l : list Z) (i rn : Z) : M () :=
  match l with
  | [] => mret ()
  | p :: l' =>
      acquire (ProcLock p) ;;
      st ← getp p state;
      if decide (st = RUNNABLE) then
        tk ← getp p tickets;
        modify (λ s, s <| ps_ctickets := if i =? 0 then tk else tk + ps_ctickets s |>) ;;
        c ← gets ps_ctickets;
        if c >=? rn then
          setp p (λ x, x <| state := RUNNING |>) ;;
          modify (λ s, s <| ps_totaltickets := ps_totaltickets s - tk |>) ;;
          run p
        else
          release (ProcLock p) ;;
          lbs_loop l' (i + 1) rn
      else
        release (ProcLock p) ;;
        lbs_loop l' i rn
  end.

Definition rand : M Z :=
  r ← gets (λ s, do_rand (ps_rand_next s));
  modify (λ s, s <| ps_rand_next := u64 r |>) ;;
  mret (i32 r).

(** The choice and the run of a process in one iteration.  A remainder by zero
    is undefined in C. *)
Definition sched_pass : M () :=
  match cfg with
  | FCFS | PBS =>
      best ← scan (scan_step (match cfg with FCFS => fcfs_better | _ => compare_priority end)) procs None;
      match best with
      | None => mret ()
      | Some b =>
          now ← ticks;
          setp b (λ x, match cfg with
            | PBS => x <| state := RUNNING |> <| tickls := i32 now |> <| nscheduled := nscheduled x + 1 |>
            | _ => x <| state := RUNNING |>
            end) ;;
          run b
      end
  | MLFQ =>
      best ← scan mlfq_step procs None;
      match best with
      | None => mret ()
      | Some b =>
          setp b (λ x, x <| ticksused := 0 |> <| waittime := 0 |> <| state := RUNNING |>) ;;
          run b
      end
  | LBS =>
      t ← gets ps_totaltickets;
      r ← rand;
      if t =? 0 then fault else
      lbs_loop procs 0 (Z.rem r t + 1)
  | RR =>
      for_ procs (λ p,
        acquire (ProcLock p) ;;
        st ← getp p state;
        if decide (st = RUNNABLE) then
          setp p (λ x, x <| state := RUNNING |>) ;;
          run p
        else release (ProcLock p))
  end.

(** One iteration of the [for(;;)] of [scheduler]. *)
Definition scheduler_round : M () :=
  intr_on ;;
  sched_pass.

(** ** Copying for system calls *)

Definition either_copyout (user_dst : bool) (dst : Z) (src : list Z) : M Z :=
  p ← myproc;
  if user_dst then
    pt ← getp p pagetable;
    onmem (copyout pt dst src)
  else
    onmem (kwrite_bytes dst src) ;;
    mret 0.

(** The status and the bytes copied. *)
Definition either_copyin (user_src : bool) (src len : Z) : M (Z * list Z) :=
  p ← myproc;
  if user_src then
    pt ← getp p pagetable;
    onmem (copyin pt src len)
  else
    bs ← onmem (kread_bytes src len);
    mret (0, bs).

End proc.
