(* ===== verification/ProcState.v ===== *)
(** Symbolic execution of process management: the parts of the state that it
    changes, and a rule for each access. *)
From S2P Require Import Prelude CString Spinlock Riscv Kalloc Vm Proc.

Section pst.
Context {F : Type}.

(** A computation on the memory of the machine. *)
Lemma wp_onmem {A} m (c : kM mach A) (Q : A → pstate F → Prop) (st : pstate F) :
  ps_m st = m → wp c (λ a m', Q a (st <| ps_m := m' |>)) m → wp (onmem c) Q st.
Proof. intros <- H. unfold onmem. apply wp_zoom. exact H. Qed.

(** A state that differs from [st] in memory, processes, [nextpid],
    [totaltickets] and the file layer. *)
Definition pst (st : pstate F) (m : mach) (P : Z → proc) (n t : Z) (f : F) : pstate F :=
  mkPstate m P (ps_cur st) (ps_initproc st) n (ps_ticks st) t (ps_ctickets st)
    (ps_rand_next st) (ps_first st) (ps_csr st) f.

Lemma pst_eq st : st = pst st (ps_m st) (ps_proc st) (ps_nextpid st) (ps_totaltickets st) (ps_fs st).
Proof. by destruct st. Qed.

Context (st : pstate F) (m : mach) (P : Z → proc) (n t : Z) (f : F).
Abbreviation here := (pst st m P n t f).

Lemma wp_getp {A} p (g : proc → A) (Q : A → pstate F → Prop) : Q (g (P p)) here → wp (getp p g) Q here.
Proof. done. Qed.

Lemma wp_setp p (g : proc → proc) (Q : () → pstate F → Prop) :
  (∀ P', P' p = g (P p) → (∀ q, q ≠ p → P' q = P q) → Q () (pst st m P' n t f)) → wp (setp p g) Q here.
Proof.
  intros H. apply (H (λ j, if j =? p then g (P j) else P j)).
  - by rewrite Z.eqb_refl.
  - intros q Hq. by apply Z.eqb_neq in Hq as ->.
Qed.

Lemma wp_mem {A} (c : kM mach A) (Q : A → pstate F → Prop) :
  wp c (λ a m', Q a (pst st m' P n t f)) m → wp (onmem c) Q here.
Proof. intros H. by apply (wp_onmem m). Qed.

Lemma wp_when_mem b (c : kM mach ()) (Q : () → pstate F → Prop) :
  wp (when b c) (λ a m', Q a (pst st m' P n t f)) m → wp (when b (onmem c)) Q here.
Proof. destruct b; [apply wp_mem|done]. Qed.

Lemma wp_ticks (Q : Z → pstate F → Prop) : Q (ps_ticks st) here → wp ticks Q here.
Proof. done. Qed.

Lemma wp_acquire lk (Q : () → pstate F → Prop) :
  lk ∉ m_held m → Q () (pst st (m <| m_held := lk :: m_held m |>) P n t f) → wp (acquire lk) Q here.
Proof. intros Hn HQ. apply acquire_spec; [done|]. exact HQ. Qed.

Lemma wp_release lk h (Q : () → pstate F → Prop) :
  m_held m = lk :: h → lk ∉ h → Q () (pst st (m <| m_held := h |>) P n t f) → wp (release lk) Q here.
Proof. intros Hh Hn HQ. eapply release_spec; [done|done|]. exact HQ. Qed.
End pst.
