(* ===== verification/ProcMem.v ===== *)
(** The address space of a process: [proc_pagetable] and [proc_freepagetable]
    of [kernel/proc.c] on page tables. *)
From S2P Require Import Prelude CString Spinlock Riscv Kalloc Vm PageTable Uvm UvmOps UvmGrow UvmFree.
From S2P Require Import UserCopy CowView Proc ProcState.

Section procmem.
Context `{KI : !KernelImage}.
Implicit Types (T : gmap Z (gmap Z Z)) (M : gmap Z Z) (K : Z → Z).

Definition tramp_vpn : Z := TRAMPOLINE / PGSIZE.
Definition tf_vpn : Z := TRAPFRAME / PGSIZE.
Definition tramp_pte : Z := mkpte ktrampoline (Z.lor PTE_R PTE_X).
Definition tf_pte (tf : Z) : Z := mkpte tf (Z.lor PTE_R PTE_W).

(** A process has [n] user pages from address 0 on, and at the top the trap
    frame page [tf] and the trampoline, which user mode cannot access. *)
Record proc_map M (tf : Z) (n : nat) : Prop := {
  pm_user : mapped_run n M;
  pm_tramp : M !! tramp_vpn = Some tramp_pte;
  pm_tf : M !! tf_vpn = Some (tf_pte tf);
  pm_dom : ∀ i pte, M !! i = Some pte → 0 <= i < Z.of_nat n ∨ i = tramp_vpn ∨ i = tf_vpn
}.

Lemma ktrampoline_ok : 0 <= ktrampoline < 2 ^ 56 ∧ ktrampoline mod PGSIZE = 0.
Proof.
  pose proof ktrampoline_text. pose proof kend_etext. pose proof kend_phystop.
  split; [consts; lia|apply ktrampoline_aligned].
Qed.

Lemma top_pte pa perm :
  0 <= pa < 2 ^ 56 → 0 <= perm < 1024 → Z.testbit perm 4 = false → Z.testbit perm 1 = true →
  truth (Z.land (mkpte pa perm) PTE_U) = false ∧ PTE_FLAGS (mkpte pa perm) ≠ PTE_V.
Proof.
  intros Hpa Hpe Hu Hr. destruct (mkpte_ok pa perm Hpa Hpe) as (_ & _ & Hfl). split.
  - unfold PTE_U. rewrite truth_flag, Hfl, Z.lor_spec, Hu by lia. done.
  - rewrite Hfl. intros E. apply (f_equal (λ z, Z.testbit z 1)) in E. by rewrite Z.lor_spec, Hr in E.
Qed.

Lemma tramp_pte_ok : truth (Z.land tramp_pte PTE_U) = false ∧ PTE_FLAGS tramp_pte ≠ PTE_V.
Proof. destruct ktrampoline_ok. by apply top_pte. Qed.

Lemma tf_pte_ok tf : 0 <= tf < 2 ^ 56 → truth (Z.land (tf_pte tf) PTE_U) = false ∧ PTE_FLAGS (tf_pte tf) ≠ PTE_V.
Proof. intros. unfold tf_pte. by apply top_pte. Qed.

Lemma proc_map_low M tf n : 0 <= tf < 2 ^ 56 → proc_map M tf n → user_low M.
Proof.
  intros Htf [Hu Htr Ht Hd] vpn pte HM HU. destruct (Hd _ _ HM) as [Hi|[-> | ->]].
  - by apply Hu.
  - rewrite Htr in HM. injection HM as <-. by rewrite (proj1 tramp_pte_ok) in HU.
  - rewrite Ht in HM. injection HM as <-. by rewrite (proj1 (tf_pte_ok tf Htf)) in HU.
Qed.

(** ** Removing the two top mappings *)

Lemma unmap_top s fl T K r M vpn pte :
  vm s fl T K → T !! r = Some M → 0 <= vpn < MAXVA / PGSIZE → owned vpn = false →
  M !! vpn = Some pte → PTE_FLAGS pte ≠ PTE_V →
  wp (uvmunmap r (vpn * PGSIZE) 1 false) (λ _ s', let T' := <[r := delete vpn M]> T in
    vm s' fl T' K ∧ drops s T s' T' ∧ grows s T s' T' ∧ (∀ t, table_of s' T' t ↔ table_of s T t)) s.
Proof.
  intros Hvm HT Hv Ho HM Hfl. pose proof (vpn_va _ Hv) as Hva.
  pose proof (vm_space _ _ _ _ Hvm r M HT) as Ha.
  assert (vpn * PGSIZE / PGSIZE = vpn) as Hdiv by (by apply Z.div_mul).
  unfold uvmunmap. rewrite Z.mod_mul by done. cbn [Z.eqb negb].
  assert (u64 (vpn * PGSIZE + 1 * PGSIZE) = vpn * PGSIZE + PGSIZE) as ->
    by (rewrite u64_small; [lia|change MAXVA with (2 ^ 38) in Hva; unfold PGSIZE in *; lia]).
  set (T' := <[r := delete vpn M]> T).
  eapply (wp_while (λ a s', (a = vpn * PGSIZE ∧ s' = s) ∨
      (a = vpn * PGSIZE + PGSIZE ∧ vm s' fl T' K ∧ drops s T s' T' ∧ grows s T s' T' ∧
       (∀ t, table_of s' T' t ↔ table_of s T t)))
    (λ a _, vpn * PGSIZE + PGSIZE - a)); [|by left|unfold PGSIZE; lia].
  intros a s1 [[-> ->]|[-> Hdone]].
  2: { rewrite Z.leb_refl. by wp_step. }
  destruct (Z.leb_spec (vpn * PGSIZE + PGSIZE) (vpn * PGSIZE)) as [Hx|_]; [unfold PGSIZE in Hx; lia|].
  eapply walk_mapped; [done|done|by rewrite Hdiv|]. intros a Hl Hram Hld Hne.
  destruct (Z.eqb_spec a 0) as [|_]; [done|]. wp_step. unfold kload64. rewrite Hram. wp_step. cbn beta.
  rewrite Hld, (proj1 (as_valid _ _ _ Ha _ _ HM)). cbn [negb].
  destruct (Z.eqb_spec (PTE_FLAGS pte) PTE_V) as [|_]; [done|].
  wp_step. apply wp_when_f; [done|]. wp_step. unfold kstore64. rewrite Hram. wp_step. wp_step.
  change MAXVA with (2 ^ 38) in Hva. rewrite u64_small by (unfold PGSIZE in *; lia).
  change (2 ^ 38) with MAXVA in Hva. split; [right|unfold PGSIZE; lia]. split; [done|].
  change (s <| m_mem := st64 (m_mem s) a 0 |>) with (store_mem a 0 s).
  assert (∀ t, table_of (store_mem a 0 s) T' t ↔ table_of s T t) as Htab
    by (intros t; by apply (store_tables s fl T K r (vpn * PGSIZE) a M)).
  assert (∀ p x, page_ok p → ¬ table_of s T p → in_page p x →
    rd8 (m_mem (store_mem a 0 s)) x = rd8 (m_mem s) x) as Hmem.
  { intros p x Hp Hn Hx. eapply leaf_store_outside; [apply Ha|done|]. intros t Ht.
    assert (table_of s T t) as Ht' by (by exists r, M).
    apply (page_ok_disjoint p); [done|by apply (table_page _ _ _ _ _ Hvm)|by intros ->|done]. }
  split_and!; [| | |done].
  - rewrite <- Hdiv in HM. pose proof (vm_clear s fl T K r (vpn * PGSIZE) a pte M Hvm HT Hva HM Hl) as H.
    rewrite Hdiv in H. eapply vm_ext; [|apply H].
    + intros p. cbn. rewrite ref1_ne by (by right). lia.
    + intros p _ E. by rewrite Ho in E.
  - split; [done|]. intros p Hp Hr Hn. rewrite Htab. split_and!; [done|cbn; lia|]. intros x Hx. by apply (Hmem p).
  - split; [done|]. intros p Hp Hr Hn. rewrite Htab. split_and!; [done|cbn; lia|]. intros x Hx. by apply (Hmem p).
Qed.

(** ** Mapping them *)

Lemma map_top s fl T K r M vpn pa perm :
  vm s fl T K → kpos K → alloc_unlocked s → T !! r = Some M → 0 <= vpn < MAXVA / PGSIZE →
  owned vpn = false → M !! vpn = None → 0 <= pa < 2 ^ 56 → pa mod PGSIZE = 0 → 0 <= perm < 1024 →
  wp (mappages r (vpn * PGSIZE) PGSIZE pa perm) (λ x s', ∃ fl',
    (length fl <= length fl' + 2)%nat ∧ m_held s' = m_held s ∧
    let T' := <[r := <[vpn := mkpte pa perm]> M]> T in
    ((x = 0 ∧ grows s T s' T' ∧ vm s' fl' T' K) ∨
     (x = -1 ∧ (length fl <= 2)%nat ∧ grows s T s' T ∧ vm s' fl' T K))) s.
Proof.
  intros Hvm HK Hu HT Hv Ho HM Hpa Hal Hpe. pose proof (vpn_va _ Hv) as Hva.
  assert (vpn * PGSIZE / PGSIZE = vpn) as Hdiv by (by apply Z.div_mul).
  wp_use (mappages_vm s fl T K r M (vpn * PGSIZE) pa perm); try done; rewrite ?Hdiv; try done.
  - by apply Z.mod_mul.
  - split_and!; try lia; try done. intros E. by rewrite Ho in E.
  - intros x s' (used & fl' & -> & Hlen & Hh & _ & Hres). cbn zeta in *. exists fl'.
    rewrite length_app. split_and!; [lia|done|].
    destruct Hres as [(-> & Hg & Hvm')|(-> & -> & Hg & Hvm')]; [left|right; split_and!; simpl; try done; lia].
    split_and!; [done|done|]. eapply vm_ext; [|done]. intros q. cbn. rewrite ref1_ne by (by right). lia.
Qed.

Lemma top_vpns :
  0 <= tramp_vpn < MAXVA / PGSIZE ∧ 0 <= tf_vpn < MAXVA / PGSIZE ∧ owned tramp_vpn = false ∧
  owned tf_vpn = false ∧ tramp_vpn ≠ tf_vpn ∧ TRAMPOLINE = tramp_vpn * PGSIZE ∧ TRAPFRAME = tf_vpn * PGSIZE.
Proof. split_and!; done. Qed.

(** The map of a process without user memory. *)
Definition bare_map (tf : Z) : gmap Z Z := <[tf_vpn := tf_pte tf]> {[tramp_vpn := tramp_pte]}.

Lemma bare_proc_map tf : proc_map (bare_map tf) tf 0.
Proof.
  destruct top_vpns as (_ & _ & _ & _ & Hne & _). unfold bare_map. split.
  - intros i Hi. lia.
  - by rewrite lookup_insert_ne, lookup_singleton_eq.
  - apply lookup_insert_eq.
  - intros i pte [[-> _]|[_ [-> _]%lookup_singleton_Some]]%lookup_insert_Some; auto.
Qed.

(** A table without user memory is freed by [uvmfree(pagetable, 0)]. *)
Lemma uvmfree_empty s fl T K r :
  vm s fl T K → alloc_unlocked s → T !! r = Some ∅ →
  wp (uvmfree r 0) (λ _ s', ∃ fl', vm s' fl' (delete r T) K ∧ drops s T s' (delete r T)) s.
Proof. intros Hvm Hu HT. unfold uvmfree. wp_step. apply wp_when_f; [done|]. by apply (freewalk_vm s fl). Qed.

Context {F : Type}.
Implicit Types st : pstate F.

(** [proc_pagetable] builds the bare map, or gives everything back. *)
Lemma proc_pagetable_spec p st fl T K :
  let tf := trapframe (ps_proc st p) in
  vm (ps_m st) fl T K → kpos K → alloc_unlocked (ps_m st) → 0 <= tf < 2 ^ 56 → tf mod PGSIZE = 0 →
  wp (proc_pagetable p) (λ r st', ∃ m fl', st' = st <| ps_m := m |> ∧
    ((r = 0 ∧ (length fl <= 5)%nat ∧ vm m fl' T K ∧ grows (ps_m st) T m T) ∨
     (r ≠ 0 ∧ T !! r = None ∧ let T' := <[r := bare_map tf]> T in
      vm m fl' T' K ∧ grows (ps_m st) T m T' ∧ (length fl <= length fl' + 5)%nat))) st.
Proof.
  intros tf Hvm HK Hu Htf Htal. set (s := ps_m st) in *.
  destruct top_vpns as (Hv1 & Hv2 & Ho1 & Ho2 & Hne & E1 & E2). destruct ktrampoline_ok as [Hk Hka].
  unfold proc_pagetable. wp_step. apply (wp_onmem s); [done|]. wp_use uvmcreate_vm; [done..|].
  intros r s1 [(-> & -> & ->)|(fl1 & -> & Hr & HTr & Hvm1 & Hg1)].
  { simpl. exists s, []. split; [by destruct st|]. left. split_and!; [done|simpl; lia|done|apply grows_refl]. }
  assert (∀ s', grows s T s1 (<[r := ∅]> T) → m_held s' = m_held s → alloc_unlocked s') as Hun
    by (intros s' _ Hh; unfold alloc_unlocked; by rewrite Hh).
  destruct (Z.eqb_spec r 0) as [|_]; [done|].
  assert (∀ s2 fl2 (Q : Z → pstate F → Prop), vm s2 fl2 (<[r := ∅]> T) K → grows s T s2 (<[r := ∅]> T) →
    (∀ m fl', vm m fl' T K → grows s T m T → Q 0 (st <| ps_m := m |>)) →
    wp (onmem (uvmfree r 0) ;; mret 0) Q (st <| ps_m := s2 |>)) as Hundo.
  { intros s2 fl2 Q Hvm2 Hg2 HQ. wp_step. apply (wp_onmem s2); [done|].
    wp_use (uvmfree_empty s2 fl2 (<[r := ∅]> T) K r); [done| |apply lookup_insert_eq|].
    { apply Hun; [done|apply Hg2]. }
    intros _ s3 (fl3 & Hvm3 & Hd3). rewrite delete_insert_id in Hvm3, Hd3 by done. wp_step.
    eapply HQ; [done|]. by eapply grows_drops. }
  wp_step. apply (wp_onmem s1); [done|]. rewrite E1.
  wp_use (map_top s1 fl1 (<[r := ∅]> T) K r ∅ tramp_vpn ktrampoline (Z.lor PTE_R PTE_X));
    [exact Hvm1|exact HK|apply Hun; [done|apply Hg1]|apply lookup_insert_eq|exact Hv1|exact Ho1|apply lookup_empty|exact Hk|exact Hka|done|].
  intros x s2 (fl2 & Hl2 & Hh2 & Hres). cbn zeta in Hres. rewrite insert_insert_eq in Hres.
  destruct Hres as [(-> & Hg2 & Hvm2)|(-> & Hf2 & Hg2 & Hvm2)]; cbn [Z.ltb Z.compare].
  2: { eapply (Hundo s2); [done|by eapply grows_trans|]. intros m fl' Hvm' Hkept. exists m, fl'.
       split; [done|]. left. split_and!; try done. simpl. lia. }
  wp_step. unfold getp. wp_step. cbn beta. change (trapframe _) with tf. wp_step. apply (wp_onmem s2); [done|]. rewrite E2.
  assert (grows s T s2 (<[r := <[tramp_vpn := tramp_pte]> ∅]> T)) as Hg12 by (by eapply grows_trans).
  wp_use (map_top s2 fl2 (<[r := <[tramp_vpn := tramp_pte]> ∅]> T) K r (<[tramp_vpn := tramp_pte]> ∅)
    tf_vpn tf (Z.lor PTE_R PTE_W));
    [done|done|apply Hun; [done|apply Hg12]|apply lookup_insert_eq|done|done
    |by rewrite lookup_insert_ne|done|done|done|].
  intros x s3 (fl3 & Hl3 & Hh3 & Hres). cbn zeta in Hres. rewrite insert_insert_eq in Hres.
  destruct Hres as [(-> & Hg3 & Hvm3)|(-> & Hf3 & Hg3 & Hvm3)]; cbn [Z.ltb Z.compare].
  - wp_step. exists s3, fl3. split; [done|]. right. split_and!; [done|done|done| |simpl; lia].
    by eapply grows_trans.
  - wp_step. apply (wp_onmem s3); [done|].
    wp_use (unmap_top s3 fl3 (<[r := <[tramp_vpn := tramp_pte]> ∅]> T) K r (<[tramp_vpn := tramp_pte]> ∅)
      tramp_vpn tramp_pte); [done|apply lookup_insert_eq|done|done|apply lookup_insert_eq|apply tramp_pte_ok|].
    intros _ s4 (Hvm4 & _ & Hg4 & _). rewrite insert_insert_eq, delete_insert_id in Hvm4, Hg4 by done.
    eapply (Hundo s4); [done|by eapply grows_trans; [|eapply grows_trans]|]. intros m fl' Hvm' Hkept.
    exists m, fl'. split; [done|]. left. split_and!; try done. simpl. lia.
Qed.

(** ** Giving an address space back *)

Lemma drops_le s fl T K s' T' p :
  vm s fl T K → drops s T s' T' → page_ok p → ¬ table_of s T p →
  m_pgrc s' (p / PGSIZE) <= m_pgrc s (p / PGSIZE).
Proof.
  intros Hvm Hd Hp Hn. destruct (Z.leb_spec (m_pgrc s' (p / PGSIZE)) 0) as [Hle|Hgt].
  - pose proof (ki_pos _ _ (vm_kmem _ _ _ _ Hvm) p Hp). lia.
  - by apply (proj2 Hd p).
Qed.

Lemma proc_freepagetable_vm s fl T K r M tf sz (n : nat) :
  vm s fl T K → kpos K → alloc_unlocked s → T !! r = Some M → proc_map M tf n → 0 <= tf < 2 ^ 56 →
  0 <= sz <= MAXVA → PGROUNDUP sz = Z.of_nat n * PGSIZE →
  wp (proc_freepagetable r sz) (λ _ s', ∃ fl', vm s' fl' (delete r T) K ∧ drops s T s' (delete r T)) s.
Proof.
  intros Hvm HK Hu HT [Hmap Htr Htf Hdom] Htfr Hsz Hup.
  destruct top_vpns as (Hv1 & Hv2 & Ho1 & Ho2 & Hne & E1 & E2).
  assert (∀ i, 0 <= i < Z.of_nat n → i ≠ tramp_vpn ∧ i ≠ tf_vpn) as Hlow.
  { intros i Hi. destruct (Hmap i Hi) as [Ho _]. split; intros ->; by rewrite Ho in *. }
  unfold proc_freepagetable. rewrite E1, E2. wp_step.
  wp_use (unmap_top s fl T K r M tramp_vpn tramp_pte); [done|done|done|done|done|apply tramp_pte_ok|].
  intros _ s1 (Hvm1 & Hd1 & _ & Ht1). wp_step.
  wp_use (unmap_top s1 fl _ K r (delete tramp_vpn M) tf_vpn (tf_pte tf));
    [done|apply lookup_insert_eq|done|done|by rewrite lookup_delete_ne|by apply tf_pte_ok|].
  intros _ s2 (Hvm2 & Hd2 & _ & Ht2). rewrite insert_insert_eq in Hvm2, Hd2, Ht2.
  wp_use (uvmfree_vm s2 fl _ K r (delete tf_vpn (delete tramp_vpn M)) sz n);
    [done|done| |apply lookup_insert_eq|done|done| | |].
  - unfold alloc_unlocked. by rewrite (proj1 Hd2), (proj1 Hd1).
  - intros i Hi. destruct (Hlow i Hi). rewrite !lookup_delete_ne by done. by apply Hmap.
  - intros i pte [Hi1 [Hi2 HM]%lookup_delete_Some]%lookup_delete_Some. destruct (Hdom i pte HM) as [?|[?|?]]; done.
  - intros _ s3 (fl3 & Hvm3 & Hd3). rewrite delete_insert_eq in Hvm3, Hd3. exists fl3. split; [done|].
    eapply drops_trans; [done| |done|].
    { intros p Hp Hn. rewrite Ht1 in Hn. eapply Z.le_trans; [by eapply (drops_le s2); [..|by rewrite Ht2, Ht1]|].
      eapply (drops_le s1); [done|done|done|by rewrite Ht1]. }
    eapply drops_trans; [done| |done|done]. intros p Hp Hn. by eapply (drops_le s2).
Qed.
End procmem.
