(* ===== verification/Trap.v ===== *)
(** Traps and system calls: [kernel/trap.c], [kernel/syscall.c] and
    [kernel/sysproc.c]. *)
From S2P Require Import Prelude CString Spinlock Riscv Kalloc Vm Proc.

Definition SSTATUS_SPP : Z := Z.shiftl 1 8.
Definition SSTATUS_SPIE : Z := Z.shiftl 1 5.
Definition SATP_SV39 : Z := Z.shiftl 8 60.
Definition MAKE_SATP (pagetable : Z) : Z := Z.lor SATP_SV39 (Z.shiftr pagetable 12).
Definition MAX_WAIT_TIME : Z := 32.

(** The device drivers that [devintr] calls. *)
Record devops (F : Type) := {
  plic_claim : kM (pstate F) Z;
  plic_complete : Z → kM (pstate F) ();
  uartintr : kM (pstate F) ();
  virtio_disk_intr : kM (pstate F) ()
}.
Arguments plic_claim {F}.
Arguments plic_complete {F}.
Arguments uartintr {F}.
Arguments virtio_disk_intr {F}.

(** Addresses of assembly routines. *)
Record asm := {
  kernelvec : Z;
  usertrap_pc : Z;
  uservec_off : Z;             (* uservec - trampoline *)
  userret_off : Z;             (* userret - trampoline *)
  forkret_addr : Z
}.

Section trap.
Context `{KI : !KernelImage} {F : Type}.
Context (cfg : sched_cfg) (swtch : option Z → option Z → kM (pstate F) ()) (fops : fileops F).
Context (dops : devops F) (A : asm).

Abbreviation M := (kM (pstate F)).
Abbreviation yield := (yield cfg swtch).
Abbreviation exit := (exit cfg swtch fops).
Abbreviation sleep := (sleep cfg swtch).

Definition trapinit : M () := onmem (initlock TicksLock).
Definition trapinithart : M () := w_csr (λ c, c <| stvec := kernelvec A |>).

(** ** Clock *)

(** What a clock tick does to a process. *)
Definition tick_proc (x : proc) : proc :=
  if decide (state x = RUNNABLE) then
    match cfg with
    | MLFQ =>
        let x := x <| waittime := waittime x + 1 |> in
        if waittime x >=? MAX_WAIT_TIME then
          let x := x <| waittime := 0 |> in
          let x := x <| queue := queue x - 1 |> in
          if queue x <? 0 then x <| queue := 0 |> else x
        else x
    | _ => x
    end
  else if decide (state x = RUNNING) then x <| rtime := u32 (rtime x + 1) |>
  else x.

Definition clockintr : M () :=
  acquire TicksLock ;;
  modify (λ s, s <| ps_ticks := u32 (ps_ticks s + 1) |>) ;;
  for_ procs (λ p,
    acquire (ProcLock p) ;;
    setp p tick_proc ;;
    release (ProcLock p)) ;;
  wakeup cfg chan_ticks ;;
  release TicksLock.

Definition devintr : M Z :=
  sc ← r_csr scause;
  if truth (Z.land sc 0x8000000000000000) && (Z.land sc 0xff =? 9) then
    irq ← plic_claim dops;
    (if irq =? UART0_IRQ then uartintr dops
     else if irq =? VIRTIO0_IRQ then virtio_disk_intr dops
     else mret ()) ;;
    when (truth irq) (plic_complete dops irq) ;;
    mret 1
  else if sc =? 0x8000000000000001 then
    id ← r_csr tp;
    when (id =? 0) clockintr ;;
    w_csr (λ c, c <| sip := Z.land (sip c) (Z.lnot 2) |>) ;;
    mret 2
  else mret 0.

(** ** System-call arguments *)

Definition argraw (n : Z) : M Z :=
  p ← myproc;
  tf ← getp p trapframe;
  if (0 <=? n) && (n <=? 5) then onmem (kload64 (tf + tf_a n)) else panic "argraw".

Definition argint (n : Z) : M Z := v ← argraw n; mret (i32 v).
Definition argaddr (n : Z) : M Z := argraw n.

Definition fetchaddr (addr : Z) : M (Z * list Z) :=
  p ← myproc;
  size ← getp p sz;
  if (size <=? addr) || (u64 (addr + 8) >? size) then mret (-1, []) else
  pt ← getp p pagetable;
  r ← onmem (copyin pt addr 8);
  if negb (r.1 =? 0) then mret (-1, r.2) else mret (0, r.2).

(** [fetchstr] with the buffer it filled; [strlen(buf)] is the number of bytes
    before the first NUL. *)
Fixpoint blen (l : list Z) : Z :=
  match l with
  | [] => 0
  | c :: l' => if c =? 0 then 0 else 1 + blen l'
  end.

Definition fetchstr (addr max : Z) : M (Z * list Z) :=
  p ← myproc;
  pt ← getp p pagetable;
  r ← onmem (copyinstr pt addr max);
  if r.1 <? 0 then mret (-1, r.2) else mret (blen r.2, r.2).

Definition argstr (n max : Z) : M (Z * list Z) :=
  addr ← argaddr n;
  fetchstr addr max.

(** ** sysproc.c *)

Definition sys_exit : M Z := n ← argint 0; exit n ;; mret 0.

Definition sys_getpid : M Z := p ← myproc; getp p pid.

Definition sys_fork : M Z := r ← fork cfg fops (forkret_addr A); mret (u64 r).

Definition sys_wait : M Z := a ← argaddr 0; r ← wait cfg swtch a; mret (u64 r).

Definition sys_sbrk : M Z :=
  n ← argint 0;
  p ← myproc;
  addr ← getp p sz;
  r ← growproc n;
  if r <? 0 then mret (u64 (-1)) else mret addr.

(** [ticks - ticks0 < n] compares as unsigned. *)
Definition sys_sleep : M Z :=
  n ← argint 0;
  acquire TicksLock ;;
  ticks0 ← ticks;
  while (λ _ : (),
    now ← ticks;
    if u32 (now - ticks0) <? u32 n then
      p ← myproc;
      k ← killed p;
      if truth k then
        release TicksLock ;;
        mret (inr (u64 (-1)))
      else
        sleep chan_ticks TicksLock ;;
        mret (inl ())
    else
      release TicksLock ;;
      mret (inr 0)) ().

Definition sys_kill : M Z := p ← argint 0; r ← kill cfg p; mret (u64 r).

Definition sys_uptime : M Z :=
  acquire TicksLock ;;
  xticks ← ticks;
  release TicksLock ;;
  mret xticks.

Definition sys_sigalarm : M Z :=
  p ← myproc;
  n ← argint 0;
  addr ← argaddr 1;
  acquire (ProcLock p) ;;
  setp p (λ x, x <| sigalarm := if n >? 0 then 1 else 0 |> <| ticksn := n |>
                 <| tickspa := ticksp x |> <| handler := addr |>) ;;
  release (ProcLock p) ;;
  mret 0.

(** [dst->f = src->f] for a 64-bit field. *)
Definition copy_field (dst src off : Z) : M () :=
  v ← onmem (kload64 (src + off));
  onmem (kstore64 (dst + off) v).

Definition sys_sigreturn : M Z :=
  p ← myproc;
  acquire (ProcLock p) ;;
  tc ← getp p trapcopy;
  tf ← getp p trapframe;
  copy_field tc tf tf_kernel_hartid ;;
  copy_field tc tf tf_kernel_satp ;;
  copy_field tc tf tf_kernel_sp ;;
  copy_field tc tf tf_kernel_trap ;;
  onmem (kmemmove tf tc tf_size) ;;
  setp p (λ x, x <| sigalarm := if ticksn x >? 0 then 1 else 0 |> <| tickspa := ticksp x |>) ;;
  release (ProcLock p) ;;
  onmem (kload64 (tf + tf_a0)).

Definition sys_trace : M Z :=
  mask ← argint 0;
  p ← myproc;
  setp p (λ x, x <| trace := 1 |> <| tracemask := mask |>) ;;
  mret 0.

Definition sys_set_priority : M Z :=
  np ← argint 0;
  id ← argint 1;
  r ← set_priority cfg swtch np id;
  mret (u64 r).

Definition sys_settickets : M Z :=
  p ← myproc;
  n ← argint 0;
  if n <? 0 then mret (u64 (-1)) else
  acquire (ProcLock p) ;;
  setp p (λ x, x <| tickets := n |>) ;;
  release (ProcLock p) ;;
  mret 0.

(** [wtime0] and [rtime0] are the uninitialised locals. *)
Definition sys_waitx (wtime0 rtime0 : Z) : M Z :=
  addr ← argaddr 0;
  addr1 ← argaddr 1;
  addr2 ← argaddr 2;
  r ← waitx cfg swtch addr wtime0 rtime0;
  let '(ret, (wtime, rtime)) := r in
  p ← myproc;
  pt ← getp p pagetable;
  c ← onmem (copyout pt addr1 (int_bytes wtime));
  if c <? 0 then mret (u64 (-1)) else
  c ← onmem (copyout pt addr2 (int_bytes rtime));
  if c <? 0 then mret (u64 (-1)) else
  mret (u64 ret).

(** ** Dispatch *)

(** The system calls of [kernel/sysfile.c]. *)
Context (sys_file : Z → option (M Z)).
Context (wtime0 rtime0 : Z).

(** The table [syscalls]. *)
Definition syscalls (num : Z) : option (M Z) :=
  match num with
  | 1 => Some sys_fork
  | 2 => Some sys_exit
  | 3 => Some sys_wait
  | 6 => Some sys_kill
  | 11 => Some sys_getpid
  | 12 => Some sys_sbrk
  | 13 => Some sys_sleep
  | 14 => Some sys_uptime
  | 22 => Some sys_trace
  | 23 => Some sys_sigalarm
  | 24 => Some sys_sigreturn
  | 25 => Some (sys_waitx wtime0 rtime0)
  | 26 => match cfg with PBS => Some sys_set_priority | LBS => Some sys_settickets | _ => None end
  | 4 | 5 | 7 | 8 | 9 | 10 | 15 | 16 | 17 | 18 | 19 | 20 | 21 => sys_file num
  | _ => None
  end.

(** The table [sysargs]. *)
Definition sysargs (num : Z) : Z :=
  match num with
  | 1 | 11 | 14 | 24 => 0
  | 2 | 3 | 4 | 6 | 9 | 10 | 12 | 13 | 18 | 20 | 21 | 22 => 1
  | 7 | 8 | 15 | 19 | 23 => 2
  | 5 | 16 | 17 | 25 => 3
  | 26 => match cfg with PBS => 2 | LBS => 1 | _ => 0 end
  | _ => 0
  end.

(** A traced call: pid, number, arguments and result as they are printed. *)
Record trace_line := { tr_pid : Z; tr_num : Z; tr_args : list Z; tr_ret : Z }.

Definition trace_args (num f : Z) : M (list Z) :=
  (fix go (l : list Z) : M (list Z) :=
     match l with
     | [] => mret []
     | i :: l' =>
         v ← argint i;
         vs ← go l';
         mret ((if i =? 0 then f else v) :: vs)
     end) (seqZ 0 (sysargs num)).

(** [syscall()] returns what it prints when the call is traced. *)
Definition syscall : M (option trace_line) :=
  p ← myproc;
  tf ← getp p trapframe;
  a7 ← onmem (kload64 (tf + tf_a7));
  let num := i32 a7 in
  match (if num >? 0 then syscalls num else None) with
  | Some f =>
      a0 ← onmem (kload64 (tf + tf_a0));
      r ← f;
      tf' ← getp p trapframe;
      onmem (kstore64 (tf' + tf_a0) r) ;;
      t ← getp p trace;
      m ← getp p tracemask;
      if truth t && truth (Z.land (Z.shiftr m num) 1) then
        args ← trace_args num (i32 a0);
        ret ← onmem (kload64 (tf' + tf_a0));
        id ← getp p pid;
        mret (Some {| tr_pid := id; tr_num := num; tr_args := args; tr_ret := i32 ret |})
      else mret None
  | None =>
      onmem (kstore64 (tf + tf_a0) (u64 (-1))) ;;
      mret None
  end.

(** ** User traps *)

Definition kill_and_exit (p : Z) : M () := setkilled p ;; exit (-1).

(** The page-fault branch of [usertrap]. *)
Definition page_fault (p va : Z) : M () :=
  tf ← getp p trapframe;
  usp ← onmem (kload64 (tf + tf_sp));
  if (MAXVA <=? va) || ((u64 (PGROUNDDOWN usp - PGSIZE) <=? va) && (va <=? PGROUNDDOWN usp))
  then kill_and_exit p else
  let va := PGROUNDDOWN va in
  pt ← getp p pagetable;
  pte ← onmem (walk pt va false);
  if pte =? 0 then kill_and_exit p else
  v ← onmem (kload64 pte);
  let pa := PTE2PA v in
  let flags := PTE_FLAGS v in
  if negb (truth (Z.land flags PTE_V)) then kill_and_exit p else
  if negb (truth (Z.land flags PTE_U)) then kill_and_exit p else
  if truth (Z.land flags PTE_C) then
    let flags := Z.lor (Z.land flags (Z.lnot PTE_C)) PTE_W in
    m ← onmem kalloc;
    if m =? 0 then kill_and_exit p else
    onmem (kmemmove m pa PGSIZE) ;;
    onmem (kstore64 pte (Z.lor (PA2PTE m) flags)) ;;
    onmem (kfree pa)
  else setkilled p.

(** The alarm of a timer interrupt. *)
Definition alarm (p : Z) : M () :=
  setp p (λ x, x <| ticksp := ticksp x + 1 |>) ;;
  x ← gets (λ s, ps_proc s p);
  when ((ticksn x >? 0) && (ticksp x - tickspa x =? ticksn x) && truth (sigalarm x)) (
    setp p (λ x, x <| sigalarm := 0 |>) ;;
    onmem (kmemmove (trapcopy x) (trapframe x) tf_size) ;;
    onmem (kstore64 (trapframe x + tf_epc) (handler x))).

(** The preemption check of MLFQ. *)
Definition mlfq_preempt (p : Z) : M () :=
  setp p (λ x, x <| ticksused := ticksused x + 1 |>) ;;
  x ← gets (λ s, ps_proc s p);
  if ticksused x >=? Z.shiftl 1 (queue x) then yield else
  foreach procs (λ tp,
    acquire (ProcLock tp) ;;
    st ← getp tp state;
    q ← getp tp queue;
    q0 ← getp p queue;
    if bool_decide (st = RUNNABLE) && (q <? q0) then
      release (ProcLock tp) ;;
      yield ;;
      mret (Some ())
    else
      release (ProcLock tp) ;;
      mret None) ;;
  mret ().

Definition preempt (p : Z) : M () :=
  match cfg with
  | FCFS | PBS => mret ()
  | MLFQ => mlfq_preempt p
  | _ => yield
  end.

(** [usertrapret] up to the jump to [userret], whose argument is the result. *)
Definition usertrapret : M Z :=
  p ← myproc;
  intr_off ;;
  w_csr (λ c, c <| stvec := TRAMPOLINE + uservec_off A |>) ;;
  tf ← getp p trapframe;
  satp_ ← r_csr satp;
  onmem (kstore64 (tf + tf_kernel_satp) satp_) ;;
  ks ← getp p kstack;
  onmem (kstore64 (tf + tf_kernel_sp) (u64 (ks + PGSIZE))) ;;
  onmem (kstore64 (tf + tf_kernel_trap) (usertrap_pc A)) ;;
  id ← r_csr tp;
  onmem (kstore64 (tf + tf_kernel_hartid) id) ;;
  w_csr (λ c, c <| sstatus := Z.lor (Z.land (sstatus c) (Z.lnot SSTATUS_SPP)) SSTATUS_SPIE |>) ;;
  epc ← onmem (kload64 (tf + tf_epc));
  w_csr (λ c, c <| sepc := epc |>) ;;
  pt ← getp p pagetable;
  mret (MAKE_SATP pt).

Definition usertrap : M Z :=
  ss ← r_csr sstatus;
  if truth (Z.land ss SSTATUS_SPP) then panic "usertrap: not from user mode" else
  w_csr (λ c, c <| stvec := kernelvec A |>) ;;
  p ← myproc;
  tf ← getp p trapframe;
  epc ← r_csr sepc;
  onmem (kstore64 (tf + tf_epc) epc) ;;
  sc ← r_csr scause;
  which_dev ← (if sc =? 8 then
      k ← killed p;
      when (truth k) (exit (-1)) ;;
      epc ← onmem (kload64 (tf + tf_epc));
      onmem (kstore64 (tf + tf_epc) (u64 (epc + 4))) ;;
      intr_on ;;
      syscall ;;
      mret 0
    else
      which_dev ← devintr;
      if truth which_dev then mret which_dev else
      (if (sc =? 15) || (sc =? 13) then va ← r_csr stval; page_fault p va
       else setkilled p) ;;
      mret 0);
  k ← killed p;
  when (truth k) (exit (-1)) ;;
  when (which_dev =? 2) (alarm p ;; preempt p) ;;
  usertrapret.

(** ** Kernel traps *)

Definition kerneltrap : M () :=
  epc ← r_csr sepc;
  ss ← r_csr sstatus;
  if negb (truth (Z.land ss SSTATUS_SPP)) then panic "kerneltrap: not from supervisor mode" else
  if truth (Z.land ss SSTATUS_SIE) then panic "kerneltrap: interrupts enabled" else
  which_dev ← devintr;
  if which_dev =? 0 then panic "kerneltrap" else
  match cfg with
  | FCFS | PBS => mret ()
  | _ =>
      me ← gets ps_cur;
      match me with
      | Some p =>
          st ← getp p state;
          when ((which_dev =? 2) && bool_decide (st = RUNNING)) (preempt p)
      | None => mret ()
      end ;;
      w_csr (λ c, c <| sepc := epc |> <| sstatus := ss |>)
  end.

Definition forkret : M Z :=
  p ← myproc;
  release (ProcLock p) ;;
  first ← gets ps_first;
  when first (
    modify (λ s, s <| ps_first := false |>) ;;
    fsinit fops 1) ;;
  usertrapret.

End trap.
