(* ===== verification/FsState.v ===== *)
(** The data of the file system and of the devices: [kernel/fs.h],
    [kernel/buf.h], [kernel/sleeplock.h], [kernel/file.h], and the globals of
    [kernel/bio.c], [kernel/log.c], [kernel/fs.c], [kernel/file.c],
    [kernel/virtio_disk.c], [kernel/console.c], [kernel/uart.c] and
    [kernel/printf.c].

    Blocks are lists of [BSIZE] bytes.  Pointers to the elements of a static
    array are indices; where a null pointer is possible they are shifted by one
    ([iptr], [fptr]), so that 0 is null. *)
From S2P Require Import Prelude CString Spinlock Riscv Kalloc Vm Proc.

(** ** Constants *)

Definition ROOTINO : Z := 1.
Definition BSIZE : Z := 1024.
Definition FSMAGIC : Z := 0x10203040.
Definition NDIRECT : Z := 12.
Definition NINDIRECT : Z := BSIZE / 4.
Definition MAXFILE : Z := NDIRECT + NINDIRECT.
Definition DINODE_SIZE : Z := 64.              (* sizeof(struct dinode) *)
Definition IPB : Z := BSIZE / DINODE_SIZE.
Definition BPB : Z := BSIZE * 8.
Definition DIRSIZ : Z := 14.
Definition DIRENT_SIZE : Z := 16.              (* sizeof(struct dirent) *)
Definition T_DIR : Z := 1.
Definition T_FILE : Z := 2.
Definition T_DEVICE : Z := 3.
Definition NFILE : Z := 100.
Definition NINODE : Z := 50.
Definition NDEV : Z := 10.
Definition ROOTDEV : Z := 1.
Definition MAXOPBLOCKS : Z := 10.
Definition LOGSIZE : Z := MAXOPBLOCKS * 3.
Definition NBUF : Z := MAXOPBLOCKS * 3.
Definition MAXPATH : Z := 128.

(** ** Bytes of a block *)

Fixpoint le_dec (bs : list Z) : Z :=
  match bs with [] => 0 | b :: bs' => b + 256 * le_dec bs' end.
Fixpoint le_enc (n : nat) (v : Z) : list Z :=
  match n with O => [] | S n' => v mod 256 :: le_enc n' (v / 256) end.

(** The [n] bytes at offset [off], and the block with [bs] stored there. *)
Definition slice (off n : Z) (d : list Z) : list Z := take (Z.to_nat n) (drop (Z.to_nat off) d).
Definition splice (off : Z) (bs d : list Z) : list Z :=
  take (Z.to_nat off) d ++ bs ++ drop (Z.to_nat off + length bs) d.

Definition get32 (off : Z) (d : list Z) : Z := le_dec (slice off 4 d).
Definition put32 (off v : Z) (d : list Z) : list Z := splice off (le_enc 4 v) d.
Definition get16 (off : Z) (d : list Z) : Z := le_dec (slice off 2 d).
Definition put16 (off v : Z) (d : list Z) : list Z := splice off (le_enc 2 v) d.

(** ** Structures *)

Record sleeplock := mkSleeplock {
  sl_locked : Z;
  sl_pid : Z
}.
#[export] Instance sleeplock_settable : Settable sleeplock := λ x, mkSleeplock (sl_locked x) (sl_pid x).

Record buf := mkBuf {
  b_valid : Z;
  b_disk : Z;
  b_dev : Z;
  b_blockno : Z;
  b_lock : sleeplock;
  b_refcnt : Z;
  b_prev : Z;
  b_next : Z;
  b_data : list Z
}.
#[export] Instance buf_settable : Settable buf := λ x,
  mkBuf (b_valid x) (b_disk x) (b_dev x) (b_blockno x) (b_lock x) (b_refcnt x) (b_prev x) (b_next x) (b_data x).

Record superblock := mkSuperblock {
  sb_magic : Z;
  sb_size : Z;
  sb_nblocks : Z;
  sb_ninodes : Z;
  sb_nlog : Z;
  sb_logstart : Z;
  sb_inodestart : Z;
  sb_bmapstart : Z
}.

(** The arguments of [bread] are [uint]. *)
Definition IBLOCK (i : Z) (sb : superblock) : Z := u32 (i / IPB + sb_inodestart sb).
Definition BBLOCK (b : Z) (sb : superblock) : Z := u32 (b / BPB + sb_bmapstart sb).

(** [struct log] with its [struct logheader]; [lh_block] has [LOGSIZE] entries. *)
Record log := mkLog {
  l_start : Z;
  l_size : Z;
  l_outstanding : Z;
  l_committing : Z;
  l_dev : Z;
  lh_n : Z;
  lh_block : list Z
}.
#[export] Instance log_settable : Settable log := λ x,
  mkLog (l_start x) (l_size x) (l_outstanding x) (l_committing x) (l_dev x) (lh_n x) (lh_block x).

Record inode := mkInode {
  i_dev : Z;
  i_inum : Z;
  i_ref : Z;
  i_lock : sleeplock;
  i_valid : Z;
  i_type : Z;
  i_major : Z;
  i_minor : Z;
  i_nlink : Z;
  i_size : Z;
  i_addrs : list Z             (* NDIRECT+1 entries *)
}.
#[export] Instance inode_settable : Settable inode := λ x,
  mkInode (i_dev x) (i_inum x) (i_ref x) (i_lock x) (i_valid x) (i_type x) (i_major x) (i_minor x)
    (i_nlink x) (i_size x) (i_addrs x).

Inductive filetype := FD_NONE | FD_PIPE | FD_INODE | FD_DEVICE.
#[export] Instance filetype_eq_dec : EqDecision filetype.
Proof. solve_decision. Defined.

Record file := mkFile {
  f_type : filetype;
  f_ref : Z;
  f_readable : Z;
  f_writable : Z;
  f_pipe : Z;                  (* address of the pipe's page *)
  f_ip : Z;
  f_off : Z;
  f_major : Z
}.
#[export] Instance file_settable : Settable file := λ x,
  mkFile (f_type x) (f_ref x) (f_readable x) (f_writable x) (f_pipe x) (f_ip x) (f_off x) (f_major x).

(** The disk: its initial contents and the block writes it has completed, the
    last one at the end.  A crash can happen between two of them. *)
Record disk := mkDisk {
  d_image : Z → list Z;
  d_writes : list (Z * list Z)
}.
#[export] Instance disk_settable : Settable disk := λ x, mkDisk (d_image x) (d_writes x).

Definition put_block (d : Z → list Z) (w : Z * list Z) : Z → list Z :=
  λ b, if b =? w.1 then w.2 else d b.
Definition dread (d : disk) : Z → list Z := foldl put_block (d_image d) (d_writes d).

(** The rings shared with the disk device and the driver's bookkeeping.  The
    address in a descriptor points to a request header, to the data of a buffer
    or to a status byte. *)
Inductive dma := DmaNull | DmaOps (i : Z) | DmaData (b : Z) | DmaStatus (i : Z).

Record virtq_desc := mkDesc {
  q_addr : dma;
  q_len : Z;
  q_flags : Z;
  q_next : Z
}.

Record virtio_blk_req := mkReq {
  rq_type : Z;
  rq_reserved : Z;
  rq_sector : Z
}.

Record vdisk := mkVdisk {
  vd_desc : Z → virtq_desc;    (* disk.desc[NUM] *)
  vd_avail : Z → Z;            (* disk.avail->ring[NUM] *)
  vd_avail_idx : Z;            (* disk.avail->idx *)
  vd_used : Z → Z;             (* disk.used->ring[NUM].id *)
  vd_dev_idx : Z;              (* disk.used->idx, written by the device *)
  vd_free : Z → Z;             (* disk.free[NUM] *)
  vd_used_idx : Z;             (* disk.used_idx *)
  vd_info_b : Z → option Z;    (* disk.info[NUM].b *)
  vd_status : Z → Z;           (* disk.info[NUM].status *)
  vd_ops : Z → virtio_blk_req  (* disk.ops[NUM] *)
}.
#[export] Instance vdisk_settable : Settable vdisk := λ x,
  mkVdisk (vd_desc x) (vd_avail x) (vd_avail_idx x) (vd_used x) (vd_dev_idx x) (vd_free x)
    (vd_used_idx x) (vd_info_b x) (vd_status x) (vd_ops x).

(** The console's input buffer, the UART's output buffer and the globals of
    [printf]. *)
Record console := mkConsole {
  cons_buf : Z → Z;            (* cons.buf[INPUT_BUF_SIZE] *)
  cons_r : Z;
  cons_w : Z;
  cons_e : Z;
  uart_tx_buf : Z → Z;         (* uart_tx_buf[UART_TX_BUF_SIZE] *)
  uart_tx_w : Z;
  uart_tx_r : Z;
  panicked : Z;
  pr_locking : Z
}.
#[export] Instance console_settable : Settable console := λ x,
  mkConsole (cons_buf x) (cons_r x) (cons_w x) (cons_e x) (uart_tx_buf x) (uart_tx_w x) (uart_tx_r x)
    (panicked x) (pr_locking x).

Record fsys := mkFsys {
  fs_disk : disk;
  fs_vd : vdisk;
  fs_buf : Z → buf;            (* bcache.buf[NBUF]; bcache.head is at index NBUF *)
  fs_log : log;
  fs_sb : superblock;
  fs_inode : Z → inode;        (* itable.inode[NINODE] *)
  fs_file : Z → file;          (* ftable.file[NFILE] *)
  fs_cons : console
}.
#[export] Instance fsys_settable : Settable fsys := λ x,
  mkFsys (fs_disk x) (fs_vd x) (fs_buf x) (fs_log x) (fs_sb x) (fs_inode x) (fs_file x)
    (fs_cons x).

(** Index [NBUF] is [&bcache.head]. *)
Definition HEAD : Z := NBUF.

Definition iptr (i : Z) : Z := 1 + i.
Definition fptr (i : Z) : Z := 1 + i.

(** ** Accesses *)

Abbreviation FM := (kM (pstate fsys)).

Definition getfs {A} (g : fsys → A) : FM A := gets (λ s, g (ps_fs s)).
Definition modfs (g : fsys → fsys) : FM () := modify (λ s, s <| ps_fs := g (ps_fs s) |>).

Definition upd_buf (i : Z) (g : buf → buf) (f : fsys) : fsys :=
  f <| fs_buf := λ j, if j =? i then g (fs_buf f j) else fs_buf f j |>.
Definition upd_inode (i : Z) (g : inode → inode) (f : fsys) : fsys :=
  f <| fs_inode := λ j, if j =? i then g (fs_inode f j) else fs_inode f j |>.
Definition upd_file (i : Z) (g : file → file) (f : fsys) : fsys :=
  f <| fs_file := λ j, if j =? i then g (fs_file f j) else fs_file f j |>.

Definition getb {A} (i : Z) (g : buf → A) : FM A := getfs (λ f, g (fs_buf f i)).
Definition setb (i : Z) (g : buf → buf) : FM () := modfs (upd_buf i g).
Definition getl {A} (g : log → A) : FM A := getfs (λ f, g (fs_log f)).
Definition setl (g : log → log) : FM () := modfs (λ f, f <| fs_log := g (fs_log f) |>).

Definition getvd {A} (g : vdisk → A) : FM A := getfs (λ f, g (fs_vd f)).
Definition setvd (g : vdisk → vdisk) : FM () := modfs (λ f, f <| fs_vd := g (fs_vd f) |>).
Definition getc {A} (g : console → A) : FM A := getfs (λ f, g (fs_cons f)).
Definition setc (g : console → console) : FM () := modfs (λ f, f <| fs_cons := g (fs_cons f) |>).

(** A pointer to an inode or a file; null is a fault. *)
Definition geti {A} (ip : Z) (g : inode → A) : FM A :=
  if ip =? 0 then fault else getfs (λ f, g (fs_inode f (ip - 1))).
Definition seti (ip : Z) (g : inode → inode) : FM () :=
  if ip =? 0 then fault else modfs (upd_inode (ip - 1) g).
Definition getf {A} (fp : Z) (g : file → A) : FM A :=
  if fp =? 0 then fault else getfs (λ f, g (fs_file f (fp - 1))).
Definition setf (fp : Z) (g : file → file) : FM () :=
  if fp =? 0 then fault else modfs (upd_file (fp - 1) g).

(** The device registers: reads and writes at an address. *)
Record mmio := {
  mm_read : Z → FM Z;
  mm_write : Z → Z → FM ()
}.

(** ** Byte encodings *)

Definition byte (c : Z) : Prop := 0 <= c < 256.
Definition block (d : list Z) : Prop := length d = Z.to_nat BSIZE ∧ Forall byte d.

Lemma le_enc_length n v : length (le_enc n v) = n.
Proof. revert v. induction n; intros; simpl; auto. Qed.

Lemma le_enc_bytes n v : Forall byte (le_enc n v).
Proof.
  revert v. induction n; intros v; simpl; constructor; [apply Z.mod_pos_bound; lia|done].
Qed.

Lemma le_dec_enc n v : 0 <= v < 256 ^ Z.of_nat n → le_dec (le_enc n v) = v.
Proof.
  revert v. induction n as [|n IH]; intros v Hv; simpl; [simpl in Hv; lia|].
  rewrite IH; [pose proof (Z.div_mod v 256); lia|].
  rewrite Nat2Z.inj_succ, Z.pow_succ_r in Hv by lia.
  split; [apply Z.div_pos; lia|apply Z.div_lt_upper_bound; lia].
Qed.

Lemma le_dec_range bs : Forall byte bs → 0 <= le_dec bs < 256 ^ Z.of_nat (length bs).
Proof.
  induction 1 as [|b bs Hb _ IH]; simpl; [lia|]. unfold byte in Hb.
  change (length (b :: bs)) with (S (length bs)). rewrite Nat2Z.inj_succ, Z.pow_succ_r by lia. lia.
Qed.

Lemma splice_length off bs d :
  0 <= off → (Z.to_nat off + length bs <= length d)%nat → length (splice off bs d) = length d.
Proof. intros. unfold splice. rewrite !length_app, length_take, length_drop. lia. Qed.

Lemma splice_bytes off bs d : Forall byte bs → Forall byte d → Forall byte (splice off bs d).
Proof. intros. unfold splice. rewrite !Forall_app. auto using Forall_take, Forall_drop. Qed.

Lemma slice_bytes off n d : Forall byte d → Forall byte (slice off n d).
Proof. intros. by apply Forall_take, Forall_drop. Qed.

Lemma slice_length off n d :
  0 <= off → 0 <= n → (Z.to_nat off + Z.to_nat n <= length d)%nat → length (slice off n d) = Z.to_nat n.
Proof. intros. unfold slice. rewrite length_take, length_drop. lia. Qed.

Lemma slice_splice off bs d :
  0 <= off → (Z.to_nat off + length bs <= length d)%nat →
  slice off (Z.of_nat (length bs)) (splice off bs d) = bs.
Proof.
  intros. unfold slice, splice. rewrite drop_app_ge by (rewrite length_take; lia).
  rewrite length_take, Nat.min_l, Nat.sub_diag, drop_0 by lia.
  rewrite Nat2Z.id. apply take_app_length.
Qed.

(** The bytes away from the ones stored. *)
Lemma splice_lookup off bs d (i : nat) :
  0 <= off → (Z.to_nat off + length bs <= length d)%nat →
  splice off bs d !! i =
    if decide (Z.to_nat off <= i < Z.to_nat off + length bs)%nat
    then bs !! (i - Z.to_nat off)%nat else d !! i.
Proof.
  intros Ho Hl. unfold splice. case_decide as H.
  - rewrite lookup_app_r by (rewrite length_take; lia).
    rewrite length_take, Nat.min_l, lookup_app_l by lia. done.
  - destruct (decide (i < Z.to_nat off)%nat).
    + rewrite lookup_app_l by (rewrite length_take; lia). by apply lookup_take_lt.
    + rewrite lookup_app_r by (rewrite length_take; lia).
      rewrite length_take, Nat.min_l, lookup_app_r, lookup_drop by lia. f_equal. lia.
Qed.

Lemma slice_lookup off n d (i : nat) :
  0 <= off → slice off n d !! i = if decide (i < Z.to_nat n)%nat then d !! (Z.to_nat off + i)%nat else None.
Proof.
  intros. unfold slice. case_decide; [rewrite lookup_take_lt by done; apply lookup_drop|].
  apply lookup_take_ge. lia.
Qed.

Lemma slice_splice_ne off n off' bs d :
  0 <= off → 0 <= n → 0 <= off' → (Z.to_nat off' + length bs <= length d)%nat →
  off + n <= off' ∨ off' + Z.of_nat (length bs) <= off →
  slice off n (splice off' bs d) = slice off n d.
Proof.
  intros Ho Hn Ho' Hl Hd. apply list_eq. intros i. rewrite !slice_lookup by done.
  case_decide; [|done]. rewrite splice_lookup by done. case_decide; [lia|done].
Qed.

(** ** Disk writes *)

Lemma dread_write d b x c :
  dread (d <| d_writes := d_writes d ++ [(b, x)] |>) c = if c =? b then x else dread d c.
Proof. unfold dread. cbn. by rewrite foldl_app. Qed.
