(* ===== verification/Sleeplock.v ===== *)
(** Sleeping locks: [kernel/sleeplock.c].

    A sleep lock is the lock of a buffer or of an inode; the spinlock inside it
    is [SleepLock] with the same number. *)
From S2P Require Import Prelude CString Spinlock Riscv Kalloc Vm Proc FsState.

Inductive slk := BufLk (i : Z) | InodeLk (i : Z).

Definition sl_id (l : slk) : Z := match l with BufLk i => 2 * i | InodeLk i => 2 * i + 1 end.
Definition sl_spin (l : slk) : lock := SleepLock (sl_id l).

(** The address of the lock as a channel; those of processes and of [ticks] are
    smaller, those in allocated pages larger. *)
Definition chan_sleeplock (l : slk) : Z := 1000 + sl_id l.

Definition sl_get (l : slk) (f : fsys) : sleeplock :=
  match l with BufLk i => b_lock (fs_buf f i) | InodeLk i => i_lock (fs_inode f i) end.
Definition sl_upd (l : slk) (g : sleeplock → sleeplock) : fsys → fsys :=
  match l with
  | BufLk i => upd_buf i (λ x, x <| b_lock := g (b_lock x) |>)
  | InodeLk i => upd_inode i (λ x, x <| i_lock := g (i_lock x) |>)
  end.

Section sleeplock.
Context (cfg : sched_cfg) (swtch : option Z → option Z → FM ()).

Definition initsleeplock (l : slk) : FM () :=
  onmem (initlock (sl_spin l)) ;;
  modfs (sl_upd l (λ x, x <| sl_locked := 0 |>)) ;;
  modfs (sl_upd l (λ x, x <| sl_pid := 0 |>)).

Definition acquiresleep (l : slk) : FM () :=
  acquire (sl_spin l) ;;
  while (λ _ : (),
    k ← getfs (λ f, sl_locked (sl_get l f));
    if truth k then
      sleep cfg swtch (chan_sleeplock l) (sl_spin l) ;;
      mret (inl ())
    else mret (inr ())) () ;;
  modfs (sl_upd l (λ x, x <| sl_locked := 1 |>)) ;;
  p ← myproc;
  id ← getp p pid;
  modfs (sl_upd l (λ x, x <| sl_pid := id |>)) ;;
  release (sl_spin l).

Definition releasesleep (l : slk) : FM () :=
  acquire (sl_spin l) ;;
  modfs (sl_upd l (λ x, x <| sl_locked := 0 |>)) ;;
  modfs (sl_upd l (λ x, x <| sl_pid := 0 |>)) ;;
  wakeup cfg (chan_sleeplock l) ;;
  release (sl_spin l).

Definition holdingsleep (l : slk) : FM bool :=
  acquire (sl_spin l) ;;
  k ← getfs (λ f, sl_locked (sl_get l f));
  h ← getfs (λ f, sl_pid (sl_get l f));
  p ← myproc;
  id ← getp p pid;
  release (sl_spin l) ;;
  mret (truth k && (h =? id)).

End sleeplock.
