(* ===== verification/Bio.v ===== *)
(** The buffer cache: [kernel/bio.c].

    The buffers form a doubly linked list through [b_next] and [b_prev], closed
    by [bcache.head]; the most recently used one comes first.  The disk driver
    is a parameter. *)
From S2P Require Import Prelude CString Spinlock Riscv Kalloc Vm Proc FsState Sleeplock.

Section bio.
Context (cfg : sched_cfg) (swtch : option Z → option Z → FM ()).
Context (virtio_disk_rw : Z → bool → FM ()).

Definition binit : FM () :=
  onmem (initlock BcacheLock) ;;
  setb HEAD (λ x, x <| b_prev := HEAD |>) ;;
  setb HEAD (λ x, x <| b_next := HEAD |>) ;;
  for_ (seqZ 0 NBUF) (λ b,
    n ← getb HEAD b_next;
    setb b (λ x, x <| b_next := n |>) ;;
    setb b (λ x, x <| b_prev := HEAD |>) ;;
    initsleeplock (BufLk b) ;;
    n ← getb HEAD b_next;
    setb n (λ x, x <| b_prev := b |>) ;;
    setb HEAD (λ x, x <| b_next := b |>)).

(** The scan from [head.next] for the block. *)
Definition bget_cached (dev blockno : Z) : FM (option Z) :=
  first ← getb HEAD b_next;
  while (λ b,
    if b =? HEAD then mret (inr None) else
    d ← getb b b_dev;
    n ← getb b b_blockno;
    if (d =? dev) && (n =? blockno) then
      setb b (λ x, x <| b_refcnt := u32 (b_refcnt x + 1) |>) ;;
      release BcacheLock ;;
      acquiresleep cfg swtch (BufLk b) ;;
      mret (inr (Some b))
    else
      nx ← getb b b_next;
      mret (inl nx)) first.

(** The scan from [head.prev] for an unused buffer. *)
Definition bget_recycle (dev blockno : Z) : FM Z :=
  last ← getb HEAD b_prev;
  while (λ b,
    if b =? HEAD then panic "bget: no buffers" else
    r ← getb b b_refcnt;
    if r =? 0 then
      setb b (λ x, x <| b_dev := dev |> <| b_blockno := blockno |> <| b_valid := 0 |>
                     <| b_refcnt := 1 |>) ;;
      release BcacheLock ;;
      acquiresleep cfg swtch (BufLk b) ;;
      mret (inr b)
    else
      pv ← getb b b_prev;
      mret (inl pv)) last.

Definition bget (dev blockno : Z) : FM Z :=
  acquire BcacheLock ;;
  r ← bget_cached dev blockno;
  match r with
  | Some b => mret b
  | None => bget_recycle dev blockno
  end.

Definition bread (dev blockno : Z) : FM Z :=
  b ← bget dev blockno;
  v ← getb b b_valid;
  when (negb (truth v)) (
    virtio_disk_rw b false ;;
    setb b (λ x, x <| b_valid := 1 |>)) ;;
  mret b.

Definition bwrite (b : Z) : FM () :=
  h ← holdingsleep (BufLk b);
  if negb h then panic "bwrite" else
  virtio_disk_rw b true.

(** Unlinking [b] and putting it behind the head. *)
Definition move_front (b : Z) : FM () :=
  nx ← getb b b_next;
  pv ← getb b b_prev;
  setb nx (λ x, x <| b_prev := pv |>) ;;
  pv ← getb b b_prev;
  nx ← getb b b_next;
  setb pv (λ x, x <| b_next := nx |>) ;;
  hn ← getb HEAD b_next;
  setb b (λ x, x <| b_next := hn |>) ;;
  setb b (λ x, x <| b_prev := HEAD |>) ;;
  hn ← getb HEAD b_next;
  setb hn (λ x, x <| b_prev := b |>) ;;
  setb HEAD (λ x, x <| b_next := b |>).

Definition brelse (b : Z) : FM () :=
  h ← holdingsleep (BufLk b);
  if negb h then panic "brelse" else
  releasesleep cfg (BufLk b) ;;
  acquire BcacheLock ;;
  setb b (λ x, x <| b_refcnt := u32 (b_refcnt x - 1) |>) ;;
  r ← getb b b_refcnt;
  when (r =? 0) (move_front b) ;;
  release BcacheLock.

Definition bpin (b : Z) : FM () :=
  acquire BcacheLock ;;
  setb b (λ x, x <| b_refcnt := u32 (b_refcnt x + 1) |>) ;;
  release BcacheLock.

Definition bunpin (b : Z) : FM () :=
  acquire BcacheLock ;;
  setb b (λ x, x <| b_refcnt := u32 (b_refcnt x - 1) |>) ;;
  release BcacheLock.

End bio.
