(* ===== verification/Log.v ===== *)
(** The redo log: [kernel/log.c]. *)
From S2P Require Import Prelude CString Spinlock Riscv Kalloc Vm Proc FsState Sleeplock Bio.

(** [&log] as a channel. *)
Definition chan_log : Z := 2 + NPROC.

Section log.
Context (cfg : sched_cfg) (swtch : option Z → option Z → FM ()).
Context (virtio_disk_rw : Z → bool → FM ()).

Abbreviation bread := (bread cfg swtch virtio_disk_rw).
Abbreviation bwrite := (bwrite virtio_disk_rw).
Abbreviation brelse := (brelse cfg).

(** [log.lh.block[i]]; an index outside the array is a fault. *)
Definition get_lhblock (i : Z) : FM Z :=
  l ← getl lh_block;
  match l !! Z.to_nat i with
  | Some b => if 0 <=? i then mret b else fault
  | None => fault
  end.
Definition set_lhblock (i v : Z) : FM () :=
  if (0 <=? i) && (i <? LOGSIZE) then setl (λ x, x <| lh_block := <[Z.to_nat i := v]> (lh_block x) |>)
  else fault.

(** The data of two buffers: [memmove(to->data, from->data, BSIZE)]. *)
Definition copy_data (to from : Z) : FM () :=
  d ← getb from b_data;
  setb to (λ x, x <| b_data := d |>).

(** Copy block [tail] of the log to its home location. *)
Definition install_block (recovering tail : Z) : FM () :=
  dev ← getl l_dev;
  start ← getl l_start;
  lbuf ← bread dev (u32 (start + tail + 1));
  home ← get_lhblock tail;
  dbuf ← bread dev (u32 home);
  copy_data dbuf lbuf ;;
  bwrite dbuf ;;
  when (recovering =? 0) (bunpin dbuf) ;;
  brelse lbuf ;;
  brelse dbuf.

Definition install_trans (recovering : Z) : FM () :=
  while (λ tail,
    n ← getl lh_n;
    if tail <? n then
      install_block recovering tail ;;
      mret (inl (tail + 1))
    else mret (inr ())) 0.

(** Field [k] of a [struct logheader] in a block: [n], then [block[]]. *)
Definition hdr_get (k : Z) (d : list Z) : Z := i32 (get32 (4 * k) d).
Definition hdr_put (k v : Z) (d : list Z) : list Z := put32 (4 * k) (u32 v) d.

Definition read_head : FM () :=
  dev ← getl l_dev;
  start ← getl l_start;
  buf ← bread dev (u32 start);
  d ← getb buf b_data;
  setl (λ x, x <| lh_n := hdr_get 0 d |>) ;;
  while (λ i,
    n ← getl lh_n;
    if i <? n then
      set_lhblock i (hdr_get (1 + i) d) ;;
      mret (inl (i + 1))
    else mret (inr ())) 0 ;;
  brelse buf.

Definition write_head : FM () :=
  dev ← getl l_dev;
  start ← getl l_start;
  buf ← bread dev (u32 start);
  n ← getl lh_n;
  setb buf (λ x, x <| b_data := hdr_put 0 n (b_data x) |>) ;;
  while (λ i,
    n ← getl lh_n;
    if i <? n then
      v ← get_lhblock i;
      setb buf (λ x, x <| b_data := hdr_put (1 + i) v (b_data x) |>) ;;
      mret (inl (i + 1))
    else mret (inr ())) 0 ;;
  bwrite buf ;;
  brelse buf.

Definition recover_from_log : FM () :=
  read_head ;;
  install_trans 1 ;;
  setl (λ x, x <| lh_n := 0 |>) ;;
  write_head.

(** The size check compares constants, 4 + 4 * LOGSIZE and BSIZE. *)
Definition initlog (dev : Z) (sb : superblock) : FM () :=
  if 4 + 4 * LOGSIZE >=? BSIZE then panic "initlog: too big logheader" else
  onmem (initlock LogLock) ;;
  setl (λ x, x <| l_start := i32 (sb_logstart sb) |>) ;;
  setl (λ x, x <| l_size := i32 (sb_nlog sb) |>) ;;
  setl (λ x, x <| l_dev := dev |>) ;;
  recover_from_log.

Definition begin_op : FM () :=
  acquire LogLock ;;
  while (λ _ : (),
    c ← getl l_committing;
    if truth c then
      sleep cfg swtch chan_log LogLock ;;
      mret (inl ())
    else
    n ← getl lh_n;
    o ← getl l_outstanding;
    if n + (o + 1) * MAXOPBLOCKS >? LOGSIZE then
      sleep cfg swtch chan_log LogLock ;;
      mret (inl ())
    else
      setl (λ x, x <| l_outstanding := l_outstanding x + 1 |>) ;;
      release LogLock ;;
      mret (inr ())) ().

(** Copy the cached block of entry [tail] to the log. *)
Definition log_block (tail : Z) : FM () :=
  dev ← getl l_dev;
  start ← getl l_start;
  to ← bread dev (u32 (start + tail + 1));
  home ← get_lhblock tail;
  from ← bread dev (u32 home);
  copy_data to from ;;
  bwrite to ;;
  brelse from ;;
  brelse to.

Definition write_log : FM () :=
  while (λ tail,
    n ← getl lh_n;
    if tail <? n then
      log_block tail ;;
      mret (inl (tail + 1))
    else mret (inr ())) 0.

Definition commit : FM () :=
  n ← getl lh_n;
  when (n >? 0) (
    write_log ;;
    write_head ;;
    install_trans 0 ;;
    setl (λ x, x <| lh_n := 0 |>) ;;
    write_head).

Definition end_op : FM () :=
  acquire LogLock ;;
  setl (λ x, x <| l_outstanding := l_outstanding x - 1 |>) ;;
  c ← getl l_committing;
  if truth c then panic "log.committing" else
  o ← getl l_outstanding;
  do_commit ← (if o =? 0 then
      setl (λ x, x <| l_committing := 1 |>) ;;
      mret true
    else
      wakeup cfg chan_log ;;
      mret false);
  release LogLock ;;
  when do_commit (
    commit ;;
    acquire LogLock ;;
    setl (λ x, x <| l_committing := 0 |>) ;;
    wakeup cfg chan_log ;;
    release LogLock).

(** The loop of [log_write]: the index of the block in the header, or [n]. *)
Definition log_find (blockno : Z) : FM Z :=
  while (λ i,
    n ← getl lh_n;
    if i <? n then
      v ← get_lhblock i;
      if u32 v =? blockno then mret (inr i) else mret (inl (i + 1))
    else mret (inr i)) 0.

Definition log_write (b : Z) : FM () :=
  acquire LogLock ;;
  n ← getl lh_n;
  size ← getl l_size;
  if (n >=? LOGSIZE) || (n >=? size - 1) then panic "too big a transaction" else
  o ← getl l_outstanding;
  if o <? 1 then panic "log_write outside of trans" else
  blockno ← getb b b_blockno;
  i ← log_find blockno;
  set_lhblock i (i32 blockno) ;;
  n ← getl lh_n;
  when (i =? n) (
    bpin b ;;
    setl (λ x, x <| lh_n := lh_n x + 1 |>)) ;;
  release LogLock.

End log.
