(* ===== verification/Virtio.v ===== *)
(** The disk driver: [kernel/virtio_disk.c].

    The rings shared with the device and the driver's bookkeeping are the record
    [vdisk]; the device's registers are the parameter [dev]. *)
From S2P Require Import Prelude CString Spinlock Riscv Kalloc Vm Proc FsState.

Definition NUM : Z := 8.
Definition VRING_DESC_F_NEXT : Z := 1.
Definition VRING_DESC_F_WRITE : Z := 2.
Definition VIRTIO_BLK_T_IN : Z := 0.
Definition VIRTIO_BLK_T_OUT : Z := 1.

Definition VIRTIO_MMIO_MAGIC_VALUE : Z := 0x000.
Definition VIRTIO_MMIO_VERSION : Z := 0x004.
Definition VIRTIO_MMIO_DEVICE_ID : Z := 0x008.
Definition VIRTIO_MMIO_VENDOR_ID : Z := 0x00c.
Definition VIRTIO_MMIO_DEVICE_FEATURES : Z := 0x010.
Definition VIRTIO_MMIO_DRIVER_FEATURES : Z := 0x020.
Definition VIRTIO_MMIO_QUEUE_SEL : Z := 0x030.
Definition VIRTIO_MMIO_QUEUE_NUM_MAX : Z := 0x034.
Definition VIRTIO_MMIO_QUEUE_NUM : Z := 0x038.
Definition VIRTIO_MMIO_QUEUE_READY : Z := 0x044.
Definition VIRTIO_MMIO_QUEUE_NOTIFY : Z := 0x050.
Definition VIRTIO_MMIO_INTERRUPT_STATUS : Z := 0x060.
Definition VIRTIO_MMIO_INTERRUPT_ACK : Z := 0x064.
Definition VIRTIO_MMIO_STATUS : Z := 0x070.
Definition VIRTIO_MMIO_QUEUE_DESC_LOW : Z := 0x080.
Definition VIRTIO_MMIO_QUEUE_DESC_HIGH : Z := 0x084.
Definition VIRTIO_MMIO_DRIVER_DESC_LOW : Z := 0x090.
Definition VIRTIO_MMIO_DRIVER_DESC_HIGH : Z := 0x094.
Definition VIRTIO_MMIO_DEVICE_DESC_LOW : Z := 0x0a0.
Definition VIRTIO_MMIO_DEVICE_DESC_HIGH : Z := 0x0a4.

Definition VIRTIO_CONFIG_S_ACKNOWLEDGE : Z := 1.
Definition VIRTIO_CONFIG_S_DRIVER : Z := 2.
Definition VIRTIO_CONFIG_S_DRIVER_OK : Z := 4.
Definition VIRTIO_CONFIG_S_FEATURES_OK : Z := 8.

(** VIRTIO_BLK_F_RO, _SCSI, _CONFIG_WCE, _MQ, VIRTIO_F_ANY_LAYOUT,
    VIRTIO_RING_F_EVENT_IDX and _INDIRECT_DESC, in the order they are cleared. *)
Definition unwanted_features : list Z := [5; 7; 11; 12; 27; 29; 28].

(** [&disk.free[0]] and a [struct buf *] as sleep channels. *)
Definition chan_free : Z := 3 + NPROC.
Definition chan_buf (b : Z) : Z := 4096 + b.

Section virtio.
Context `{KI : !KernelImage}.
Context (cfg : sched_cfg) (swtch : option Z → option Z → FM ()) (dev : mmio).

Definition R_read (r : Z) : FM Z := mm_read dev (VIRTIO0 + r).
Definition R_write (r v : Z) : FM () := mm_write dev (VIRTIO0 + r) (u32 v).

(** ** Initialisation *)

(** The four identification registers, compared in order. *)
Definition virtio_found : FM bool :=
  v ← R_read VIRTIO_MMIO_MAGIC_VALUE;
  if negb (v =? 0x74726976) then mret false else
  v ← R_read VIRTIO_MMIO_VERSION;
  if negb (v =? 2) then mret false else
  v ← R_read VIRTIO_MMIO_DEVICE_ID;
  if negb (v =? 2) then mret false else
  v ← R_read VIRTIO_MMIO_VENDOR_ID;
  mret (v =? 0x554d4551).

(** Up to [FEATURES_OK]; the status register as read back. *)
Definition virtio_negotiate : FM Z :=
  R_write VIRTIO_MMIO_STATUS 0 ;;
  let status := VIRTIO_CONFIG_S_ACKNOWLEDGE in
  R_write VIRTIO_MMIO_STATUS status ;;
  let status := Z.lor status VIRTIO_CONFIG_S_DRIVER in
  R_write VIRTIO_MMIO_STATUS status ;;
  features ← R_read VIRTIO_MMIO_DEVICE_FEATURES;
  R_write VIRTIO_MMIO_DRIVER_FEATURES
    (foldl (λ v b, Z.land v (Z.lnot (Z.shiftl 1 b))) features unwanted_features) ;;
  let status := Z.lor status VIRTIO_CONFIG_S_FEATURES_OK in
  R_write VIRTIO_MMIO_STATUS status ;;
  R_read VIRTIO_MMIO_STATUS.

(** The three pages of the queue; the rings of [vdisk] are their contents. *)
Definition virtio_queue : FM () :=
  desc ← onmem kalloc;
  avail ← onmem kalloc;
  used ← onmem kalloc;
  if (desc =? 0) || (avail =? 0) || (used =? 0) then panic "virtio disk kalloc" else
  onmem (kmemset desc 0 PGSIZE) ;;
  onmem (kmemset avail 0 PGSIZE) ;;
  onmem (kmemset used 0 PGSIZE) ;;
  setvd (λ v, v <| vd_desc := λ _, mkDesc DmaNull 0 0 0 |> <| vd_avail := λ _, 0 |>
                <| vd_avail_idx := 0 |> <| vd_used := λ _, 0 |> <| vd_dev_idx := 0 |>) ;;
  R_write VIRTIO_MMIO_QUEUE_NUM NUM ;;
  R_write VIRTIO_MMIO_QUEUE_DESC_LOW desc ;;
  R_write VIRTIO_MMIO_QUEUE_DESC_HIGH (Z.shiftr desc 32) ;;
  R_write VIRTIO_MMIO_DRIVER_DESC_LOW avail ;;
  R_write VIRTIO_MMIO_DRIVER_DESC_HIGH (Z.shiftr avail 32) ;;
  R_write VIRTIO_MMIO_DEVICE_DESC_LOW used ;;
  R_write VIRTIO_MMIO_DEVICE_DESC_HIGH (Z.shiftr used 32).

Definition virtio_disk_init : FM () :=
  onmem (initlock VdiskLock) ;;
  found ← virtio_found;
  if negb found then panic "could not find virtio disk" else
  status ← virtio_negotiate;
  if negb (truth (Z.land status VIRTIO_CONFIG_S_FEATURES_OK)) then panic "virtio disk FEATURES_OK unset" else
  R_write VIRTIO_MMIO_QUEUE_SEL 0 ;;
  ready ← R_read VIRTIO_MMIO_QUEUE_READY;
  if truth ready then panic "virtio disk should not be ready" else
  max ← R_read VIRTIO_MMIO_QUEUE_NUM_MAX;
  if max =? 0 then panic "virtio disk has no queue 0" else
  if max <? NUM then panic "virtio disk max queue too short" else
  virtio_queue ;;
  R_write VIRTIO_MMIO_QUEUE_READY 0x1 ;;
  for_ (seqZ 0 NUM) (λ i, setvd (λ v, v <| vd_free := upd (vd_free v) i 1 |>)) ;;
  R_write VIRTIO_MMIO_STATUS (Z.lor status VIRTIO_CONFIG_S_DRIVER_OK).

(** ** Descriptors *)

Definition set_desc (i : Z) (g : virtq_desc → virtq_desc) : FM () :=
  setvd (λ v, v <| vd_desc := λ j, if j =? i then g (vd_desc v j) else vd_desc v j |>).

Definition alloc_desc : FM Z :=
  r ← foreach (seqZ 0 NUM) (λ i,
    x ← getvd (λ v, vd_free v i);
    if truth x then
      setvd (λ v, v <| vd_free := upd (vd_free v) i 0 |>) ;;
      mret (Some i)
    else mret None);
  mret (default (-1) r).

Definition free_desc (i : Z) : FM () :=
  if i >=? NUM then panic "free_desc 1" else
  x ← getvd (λ v, vd_free v i);
  if truth x then panic "free_desc 2" else
  set_desc i (λ _, mkDesc DmaNull 0 0 0) ;;
  setvd (λ v, v <| vd_free := upd (vd_free v) i 1 |>) ;;
  wakeup cfg chan_free.

Definition free_chain (i : Z) : FM () :=
  while (λ i,
    d ← getvd (λ v, vd_desc v i);
    free_desc i ;;
    if truth (Z.land (q_flags d) VRING_DESC_F_NEXT) then mret (inl (q_next d))
    else mret (inr ())) i.

(** The remaining [n] rounds of [alloc3_desc] once the descriptors [idx] are
    allocated; [None] when it fails. *)
Fixpoint alloc_descs (n : nat) (idx : list Z) : FM (option (list Z)) :=
  match n with
  | O => mret (Some idx)
  | S n' =>
      i ← alloc_desc;
      if i <? 0 then
        for_ idx free_desc ;;
        mret None
      else alloc_descs n' (idx ++ [i])
  end.
Definition alloc3_desc : FM (option (list Z)) := alloc_descs 3 [].

(** ** Requests *)

(** The loop that allocates the descriptors. *)
Definition wait_descs : FM (list Z) :=
  while (λ _ : (),
    r ← alloc3_desc;
    match r with
    | Some idx => mret (inr idx)
    | None => sleep cfg swtch chan_free VdiskLock ;; mret (inl ())
    end) ().

(** The descriptors of a request in [idx0], [idx1] and [idx2]. *)
Definition format_request (b : Z) (write : bool) (sector idx0 idx1 idx2 : Z) : FM () :=
  setvd (λ v, v <| vd_ops := λ j, if j =? idx0
    then mkReq (if write then VIRTIO_BLK_T_OUT else VIRTIO_BLK_T_IN) 0 sector else vd_ops v j |>) ;;
  set_desc idx0 (λ _, mkDesc (DmaOps idx0) 16 VRING_DESC_F_NEXT idx1) ;;
  set_desc idx1 (λ _, mkDesc (DmaData b) BSIZE
    (Z.lor (if write then 0 else VRING_DESC_F_WRITE) VRING_DESC_F_NEXT) idx2) ;;
  setvd (λ v, v <| vd_status := upd (vd_status v) idx0 0xff |>) ;;
  set_desc idx2 (λ _, mkDesc (DmaStatus idx0) 1 VRING_DESC_F_WRITE 0).

(** [while(b->disk == 1) sleep(b, &disk.vdisk_lock)] *)
Definition wait_done (b : Z) : FM () :=
  while (λ _ : (),
    d ← getb b b_disk;
    if d =? 1 then sleep cfg swtch (chan_buf b) VdiskLock ;; mret (inl ())
    else mret (inr ())) ().

Definition virtio_disk_rw (b : Z) (write : bool) : FM () :=
  bn ← getb b b_blockno;
  let sector := u32 (bn * (BSIZE / 512)) in
  acquire VdiskLock ;;
  idx ← wait_descs;
  let idx0 := nth 0 idx 0 in
  format_request b write sector idx0 (nth 1 idx 0) (nth 2 idx 0) ;;
  setb b (λ x, x <| b_disk := 1 |>) ;;
  setvd (λ v, v <| vd_info_b := λ j, if j =? idx0 then Some b else vd_info_b v j |>) ;;
  setvd (λ v, v <| vd_avail := upd (vd_avail v) (vd_avail_idx v mod NUM) idx0 |>) ;;
  setvd (λ v, v <| vd_avail_idx := u16 (vd_avail_idx v + 1) |>) ;;
  R_write VIRTIO_MMIO_QUEUE_NOTIFY 0 ;;
  wait_done b ;;
  setvd (λ v, v <| vd_info_b := λ j, if j =? idx0 then None else vd_info_b v j |>) ;;
  free_chain idx0 ;;
  release VdiskLock.

Definition virtio_disk_intr : FM () :=
  acquire VdiskLock ;;
  st ← R_read VIRTIO_MMIO_INTERRUPT_STATUS;
  R_write VIRTIO_MMIO_INTERRUPT_ACK (Z.land st 0x3) ;;
  while (λ _ : (),
    u ← getvd vd_used_idx;
    d ← getvd vd_dev_idx;
    if negb (u =? d) then
      id ← getvd (λ v, vd_used v (u mod NUM));
      st ← getvd (λ v, vd_status v id);
      if negb (st =? 0) then panic "virtio_disk_intr status" else
      b ← getvd (λ v, vd_info_b v id);
      match b with
      | None => fault
      | Some b =>
          setb b (λ x, x <| b_disk := 0 |>) ;;
          wakeup cfg (chan_buf b) ;;
          setvd (λ v, v <| vd_used_idx := u16 (vd_used_idx v + 1) |>) ;;
          mret (inl ())
      end
    else mret (inr ())) () ;;
  release VdiskLock.

End virtio.
