(* ===== verification/Console.v ===== *)
(** Console, serial port and formatted output: [kernel/console.c],
    [kernel/uart.c], [kernel/printf.c], and [procdump] of [kernel/proc.c].

    The registers of the UART are the parameter [dev].  [push_off] and [pop_off]
    in [uartputc_sync] have no effect here: interrupts are not modelled at this
    level. *)
From S2P Require Import Prelude CString Spinlock Riscv Kalloc Vm Proc FsState.

Definition RHR : Z := 0.
Definition THR : Z := 0.
Definition IER : Z := 1.
Definition IER_RX_ENABLE : Z := Z.shiftl 1 0.
Definition IER_TX_ENABLE : Z := Z.shiftl 1 1.
Definition FCR : Z := 2.
Definition FCR_FIFO_ENABLE : Z := Z.shiftl 1 0.
Definition FCR_FIFO_CLEAR : Z := Z.shiftl 3 1.
Definition LCR : Z := 3.
Definition LCR_EIGHT_BITS : Z := Z.shiftl 3 0.
Definition LCR_BAUD_LATCH : Z := Z.shiftl 1 7.
Definition LSR : Z := 5.
Definition LSR_TX_IDLE : Z := Z.shiftl 1 5.

Definition UART_TX_BUF_SIZE : Z := 32.
Definition INPUT_BUF_SIZE : Z := 128.
Definition BACKSPACE : Z := 0x100.
(** [C(x)] for a character [x]. *)
Definition C (x : Z) : Z := x - 64.

(** [&cons.r] and [&uart_tx_r] as sleep channels. *)
Definition chan_cons : Z := 4 + NPROC.
Definition chan_uart : Z := 5 + NPROC.

(** ** Numbers *)

(** [digits[d]] *)
Definition digit (d : Z) : Z := if d <? 10 then 48 + d else 87 + d.

(** The digits of [x], the last one first; [n] bounds their number. *)
Fixpoint digits_of (n : nat) (x base : Z) : list Z :=
  match n with
  | O => []
  | S n' => digit (x mod base) :: (if x / base =? 0 then [] else digits_of n' (x / base) base)
  end.

(** The characters of [printint], in the order in which they are printed; [buf]
    has room for the at most 10 digits and the sign. *)
Definition printint_chars (xx base : Z) (sign : bool) : list Z :=
  let neg := sign && (xx <? 0) in
  let x := if neg then u32 (- xx) else u32 xx in
  reverse (digits_of 16 x base ++ if neg then [45] else []).

Definition printptr_chars (x : Z) : list Z :=
  [48; 120] ++ map (λ i, digit (Z.shiftr (u64 (Z.shiftl x (4 * i))) 60)) (seqZ 0 16).

(** An argument of [printf]; a null string is [None]. *)
Inductive arg := AInt (x : Z) | APtr (x : Z) | AStr (s : option (list Z)).

(** The characters before the NUL. *)
Fixpoint chars (s : list Z) : list Z :=
  match s with [] => [] | c :: s' => if c =? 0 then [] else c :: chars s' end.

(** The characters [printf] prints; [None] when an argument is missing or of the
    wrong kind. *)
Fixpoint format (fmt : list Z) (args : list arg) : option (list Z) :=
  match fmt with
  | [] => Some []
  | c :: fmt' =>
      if c =? 0 then Some [] else
      if negb (c =? 37) then l ← format fmt' args; Some (c :: l) else
      match fmt' with
      | [] => Some []
      | c :: fmt'' =>
          if c =? 0 then Some [] else
          if c =? 100 then
            match args with
            | AInt x :: args' => l ← format fmt'' args'; Some (printint_chars x 10 true ++ l)
            | _ => None
            end
          else if c =? 120 then
            match args with
            | AInt x :: args' => l ← format fmt'' args'; Some (printint_chars x 16 true ++ l)
            | _ => None
            end
          else if c =? 112 then
            match args with
            | APtr x :: args' => l ← format fmt'' args'; Some (printptr_chars x ++ l)
            | _ => None
            end
          else if c =? 115 then
            match args with
            | AStr s :: args' =>
                l ← format fmt'' args';
                Some (chars (default (cstring "(null)") s) ++ l)
            | _ => None
            end
          else if c =? 37 then l ← format fmt'' args; Some (37 :: l)
          else l ← format fmt'' args; Some (37 :: c :: l)
      end
  end.

Section console.
Context `{KI : !KernelImage}.
Context (cfg : sched_cfg) (swtch : option Z → option Z → FM ()) (dev : mmio).

(** ** UART *)

Definition ReadReg (reg : Z) : FM Z := mm_read dev (UART0 + reg).
Definition WriteReg (reg v : Z) : FM () := mm_write dev (UART0 + reg) (u8 v).

Definition uartinit : FM () :=
  WriteReg IER 0x00 ;;
  WriteReg LCR LCR_BAUD_LATCH ;;
  WriteReg 0 0x03 ;;
  WriteReg 1 0x00 ;;
  WriteReg LCR LCR_EIGHT_BITS ;;
  WriteReg FCR (Z.lor FCR_FIFO_ENABLE FCR_FIFO_CLEAR) ;;
  WriteReg IER (Z.lor IER_TX_ENABLE IER_RX_ENABLE) ;;
  onmem (initlock UartTxLock).

Definition uartstart : FM () :=
  while (λ _ : (),
    w ← getc uart_tx_w;
    r ← getc uart_tx_r;
    if w =? r then mret (inr ()) else
    lsr ← ReadReg LSR;
    if Z.land lsr LSR_TX_IDLE =? 0 then mret (inr ()) else
    c ← getc (λ x, uart_tx_buf x (r mod UART_TX_BUF_SIZE));
    setc (λ x, x <| uart_tx_r := u64 (uart_tx_r x + 1) |>) ;;
    wakeup cfg chan_uart ;;
    WriteReg THR c ;;
    mret (inl ())) ().

Definition uartputc (c : Z) : FM () :=
  acquire UartTxLock ;;
  p ← getc panicked;
  if truth p then diverge else
  while (λ _ : (),
    w ← getc uart_tx_w;
    r ← getc uart_tx_r;
    if w =? u64 (r + UART_TX_BUF_SIZE) then sleep cfg swtch chan_uart UartTxLock ;; mret (inl ())
    else mret (inr ())) () ;;
  setc (λ x, x <| uart_tx_buf := upd (uart_tx_buf x) (uart_tx_w x mod UART_TX_BUF_SIZE) (u8 c) |>) ;;
  setc (λ x, x <| uart_tx_w := u64 (uart_tx_w x + 1) |>) ;;
  uartstart ;;
  release UartTxLock.

Definition uartputc_sync (c : Z) : FM () :=
  p ← getc panicked;
  if truth p then diverge else
  while (λ _ : (),
    lsr ← ReadReg LSR;
    if Z.land lsr LSR_TX_IDLE =? 0 then mret (inl ()) else mret (inr ())) () ;;
  WriteReg THR c.

Definition uartgetc : FM Z :=
  lsr ← ReadReg LSR;
  if truth (Z.land lsr 0x01) then ReadReg RHR else mret (-1).

(** ** [printf] *)

Definition consputc (c : Z) : FM () :=
  if c =? BACKSPACE then
    uartputc_sync 8 ;;
    uartputc_sync 32 ;;
    uartputc_sync 8
  else uartputc_sync c.

Definition printf (fmt : list Z) (args : list arg) : FM () :=
  locking ← getc pr_locking;
  when (truth locking) (acquire PrLock) ;;
  match format fmt args with
  | None => fault
  | Some l => for_ l consputc
  end ;;
  when (truth locking) (release PrLock).

(** [panic(s)]: the outcome [Panic] elsewhere. *)
Definition do_panic (s : list Z) : FM () :=
  setc (λ x, x <| pr_locking := 0 |>) ;;
  printf (cstring "panic: ") [] ;;
  printf s [] ;;
  printf [10; 0] [] ;;
  setc (λ x, x <| panicked := 1 |>) ;;
  diverge.

Definition printfinit : FM () :=
  onmem (initlock PrLock) ;;
  setc (λ x, x <| pr_locking := 1 |>).

(** ** [procdump] *)

Definition states (st : procstate) : string :=
  match st with
  | UNUSED => "unused" | USED => "used" | SLEEPING => "sleep "
  | RUNNABLE => "runble" | RUNNING => "run   " | ZOMBIE => "zombie"
  end.

Definition dump_proc (x : proc) : FM () :=
  let st := AStr (Some (cstring (states (state x)))) in
  let nm := AStr (Some (name x)) in
  match cfg with
  | PBS => printf (cstring "%d %d %d %s %s") [AInt (pid x); AInt (priority x); AInt (niceness x); st; nm]
  | FCFS => printf (cstring "%d %d %s %s") [AInt (pid x); AInt (stick x); st; nm]
  | MLFQ => printf (cstring "%d %d %d %d %d %s %s")
      [AInt (pid x); AInt (queue x); AInt (intime x); AInt (waittime x); AInt (ticksused x); st; nm]
  | LBS => printf (cstring "%d %d %s %s") [AInt (pid x); AInt (tickets x); st; nm]
  | RR => printf (cstring "%d %s %s") [AInt (pid x); st; nm]
  end.

Definition procdump : FM () :=
  printf [10; 0] [] ;;
  for_ procs (λ p,
    st ← getp p state;
    when (negb (bool_decide (st = UNUSED))) (
      x ← gets (λ s, ps_proc s p);
      dump_proc x ;;
      printf [10; 0] [])).

(** ** Console *)

Definition consolewrite (user_src src n : Z) : FM Z :=
  while (λ i,
    if i <? n then
      c ← either_copyin (truth user_src) (u64 (src + i)) 1;
      if c.1 =? -1 then mret (inr i) else
      uartputc (nth 0 c.2 0) ;;
      mret (inl (i + 1))
    else mret (inr i)) 0.

(** Waiting for input; [false] after the early return. *)
Definition cons_wait : FM bool :=
  while (λ _ : (),
    r ← getc cons_r;
    w ← getc cons_w;
    if r =? w then
      p ← myproc;
      k ← killed p;
      if truth k then release ConsLock ;; mret (inr false)
      else sleep cfg swtch chan_cons ConsLock ;; mret (inl ())
    else mret (inr true)) ().

(** The loop of [consoleread]: the remaining [n], or [None] after the early
    return. *)
Definition consoleread_loop (user_dst dst n target : Z) : FM (option Z) :=
  while (λ '(n, dst),
    if n >? 0 then
      ok ← cons_wait;
      if negb ok then mret (inr None) else
      c ← getc (λ x, cons_buf x (cons_r x mod INPUT_BUF_SIZE));
      setc (λ x, x <| cons_r := u32 (cons_r x + 1) |>) ;;
      if c =? C 68 then
        when (n <? target) (setc (λ x, x <| cons_r := u32 (cons_r x - 1) |>)) ;;
        mret (inr (Some n))
      else
      r ← either_copyout (truth user_dst) dst [c];
      if r =? -1 then mret (inr (Some n)) else
      let dst := u64 (dst + 1) in
      let n := n - 1 in
      if c =? 10 then mret (inr (Some n)) else mret (inl (n, dst))
    else mret (inr (Some n))) (n, dst).

Definition consoleread (user_dst dst n : Z) : FM Z :=
  let target := u32 n in
  acquire ConsLock ;;
  r ← consoleread_loop user_dst dst n target;
  match r with
  | None => mret (-1)
  | Some n =>
      release ConsLock ;;
      mret (i32 (target - n))
  end.

(** [C('U')] *)
Definition kill_line : FM () :=
  while (λ _ : (),
    x ← getc (λ x, x);
    if negb (cons_e x =? cons_w x) && negb (cons_buf x (u32 (cons_e x - 1) mod INPUT_BUF_SIZE) =? 10) then
      setc (λ x, x <| cons_e := u32 (cons_e x - 1) |>) ;;
      consputc BACKSPACE ;;
      mret (inl ())
    else mret (inr ())) ().

(** The default case of the switch of [consoleintr]. *)
Definition input_char (c : Z) : FM () :=
  x ← getc (λ x, x);
  when (negb (c =? 0) && (u32 (cons_e x - cons_r x) <? INPUT_BUF_SIZE)) (
    let c := if c =? 13 then 10 else c in
    consputc c ;;
    setc (λ x, x <| cons_buf := upd (cons_buf x) (cons_e x mod INPUT_BUF_SIZE) (u8 c) |>
                  <| cons_e := u32 (cons_e x + 1) |>) ;;
    x ← getc (λ x, x);
    when ((c =? 10) || (c =? C 68) || (u32 (cons_e x - cons_r x) =? INPUT_BUF_SIZE)) (
      setc (λ x, x <| cons_w := cons_e x |>) ;;
      wakeup cfg chan_cons)).

Definition consoleintr (c : Z) : FM () :=
  acquire ConsLock ;;
  (if c =? C 80 then procdump
   else if c =? C 85 then kill_line
   else if (c =? C 72) || (c =? 127) then
     x ← getc (λ x, x);
     when (negb (cons_e x =? cons_w x)) (
       setc (λ x, x <| cons_e := u32 (cons_e x - 1) |>) ;;
       consputc BACKSPACE)
   else input_char c) ;;
  release ConsLock.

Definition uartintr : FM () :=
  while (λ _ : (),
    c ← uartgetc;
    if c =? -1 then mret (inr ()) else
    consoleintr c ;;
    mret (inl ())) () ;;
  acquire UartTxLock ;;
  uartstart ;;
  release UartTxLock.

(** The functions that [consoleinit] stores in [devsw[CONSOLE]] are the ones
    above. *)
Definition consoleinit : FM () :=
  onmem (initlock ConsLock) ;;
  uartinit.

End console.
