(* ===== verification/Fs.v ===== *)
(** Blocks, inodes, directories and path names: [kernel/fs.c].

    An inode pointer is [iptr i] for [itable.inode[i]], 0 for null.  Strings are
    lists of bytes with their terminating NUL. *)
From S2P Require Import Prelude CString Spinlock Riscv Kalloc Vm Proc FsState Sleeplock Bio Log.

(** Two strings in a memory, at 0 and at [STR2]. *)
Definition STR2 : Z := 4096.
Definition strings (s t : list Z) : mem :=
  λ a, if a <? STR2 then nth (Z.to_nat a) s 0 else nth (Z.to_nat (a - STR2)) t 0.

Definition namecmp (s t : list Z) : Z := KString.strncmp (strings s t) 0 STR2 DIRSIZ.

(** The array [s] after [strncpy(s, t, n)]. *)
Definition strncpy_l (s t : list Z) (n : Z) : list Z :=
  let m := KString.strncpy (strings s t) 0 STR2 n in
  map (λ i, rd8 m (Z.of_nat i)) (seq 0 (length s)).

(** ** Path elements *)

Fixpoint skip_slashes (path : list Z) : list Z :=
  match path with
  | c :: path' => if c =? 47 then skip_slashes path' else path
  | [] => []
  end.

(** The bytes up to the next slash or NUL, and what follows. *)
Fixpoint scan_elem (path : list Z) : list Z * list Z :=
  match path with
  | c :: path' =>
      if negb (c =? 47) && negb (c =? 0)
      then let r := scan_elem path' in (c :: r.1, r.2) else ([], path)
  | [] => ([], [])
  end.

(** [skipelem(path, name)]: the rest of the path and the array [name], or null. *)
Definition skipelem (path name : list Z) : option (list Z * list Z) :=
  let path := skip_slashes path in
  if nth 0 path 0 =? 0 then None else
  let r := scan_elem path in
  let s := r.1 in
  let path := r.2 in
  let len := Z.of_nat (length s) in
  let name :=
    if len >=? DIRSIZ then splice 0 (take (Z.to_nat DIRSIZ) s) name
    else splice len [0] (splice 0 s name) in
  Some (skip_slashes path, name).

(** Where [readi] puts the bytes and where [writei] takes them from: user
    memory, a kernel address, or a local variable of the caller. *)
Inductive dest := ToUser (va : Z) | ToKernel (pa : Z) | ToLocal.
Inductive source := FromUser (va : Z) | FromKernel (pa : Z) | FromLocal (bs : list Z).

Record stat := mkStat { st_dev : Z; st_ino : Z; st_type : Z; st_nlink : Z; st_size : Z }.

(** The fields of the [struct dinode] at an offset in a block. *)
Definition din_type (o : Z) (d : list Z) : Z := i16 (get16 o d).
Definition din_major (o : Z) (d : list Z) : Z := i16 (get16 (o + 2) d).
Definition din_minor (o : Z) (d : list Z) : Z := i16 (get16 (o + 4) d).
Definition din_nlink (o : Z) (d : list Z) : Z := i16 (get16 (o + 6) d).
Definition din_size (o : Z) (d : list Z) : Z := get32 (o + 8) d.
Definition din_addrs (o : Z) (d : list Z) : list Z :=
  map (λ k, get32 (o + 12 + 4 * k) d) (seqZ 0 (NDIRECT + 1)).

Definition put_addrs (o : Z) (addrs : list Z) (d : list Z) : list Z :=
  splice (o + 12) (concat (map (le_enc 4) addrs)) d.

(** The bytes that [iupdate] stores. *)
Definition put_dinode (o : Z) (x : inode) (d : list Z) : list Z :=
  let d := put16 o (u16 (i_type x)) d in
  let d := put16 (o + 2) (u16 (i_major x)) d in
  let d := put16 (o + 4) (u16 (i_minor x)) d in
  let d := put16 (o + 6) (u16 (i_nlink x)) d in
  let d := put32 (o + 8) (i_size x) d in
  put_addrs o (i_addrs x) d.

(** The offset of inode [inum] in its block. *)
Definition inode_off (inum : Z) : Z := inum mod IPB * DINODE_SIZE.

Section fs.
Context `{KI : !KernelImage}.
Context (cfg : sched_cfg) (swtch : option Z → option Z → FM ()).
Context (virtio_disk_rw : Z → bool → FM ()).

Abbreviation bread := (bread cfg swtch virtio_disk_rw).
Abbreviation brelse := (brelse cfg).
Abbreviation acquiresleep := (acquiresleep cfg swtch).
Abbreviation releasesleep := (releasesleep cfg).

(** The global [sb]. *)
Definition get_sb : FM superblock := getfs fs_sb.

Definition set_data (b : Z) (g : list Z → list Z) : FM () :=
  setb b (λ x, x <| b_data := g (b_data x) |>).

Definition readsb (dev : Z) : FM () :=
  bp ← bread dev 1;
  d ← getb bp b_data;
  modfs (λ f, f <| fs_sb := mkSuperblock (get32 0 d) (get32 4 d) (get32 8 d) (get32 12 d)
    (get32 16 d) (get32 20 d) (get32 24 d) (get32 28 d) |>) ;;
  brelse bp.

Definition fsinit (dev : Z) : FM () :=
  readsb dev ;;
  sb ← get_sb;
  if negb (sb_magic sb =? FSMAGIC) then panic "invalid file system" else
  initlog cfg swtch virtio_disk_rw dev sb.

Definition bzero (dev bno : Z) : FM () :=
  bp ← bread dev (u32 bno);
  set_data bp (λ _, replicate (Z.to_nat BSIZE) 0) ;;
  log_write bp ;;
  brelse bp.

(** ** Blocks *)

(** Byte [i] of a block. *)
Definition byte_at (i : Z) (d : list Z) : Z := nth (Z.to_nat i) d 0.
Definition set_byte (i v : Z) (d : list Z) : list Z := <[Z.to_nat i := v]> d.

(** The scan of one bitmap block; [Some] when [balloc] returns from there. *)
Definition balloc_scan (dev b bp : Z) : FM (option Z) :=
  while (λ bi,
    sb ← get_sb;
    if (bi <? BPB) && (b + bi <? sb_size sb) then
      let m := Z.shiftl 1 (bi mod 8) in
      d ← getb bp b_data;
      if Z.land (byte_at (bi / 8) d) m =? 0 then
        set_data bp (λ d, set_byte (bi / 8) (Z.lor (byte_at (bi / 8) d) m) d) ;;
        log_write bp ;;
        brelse bp ;;
        bzero dev (b + bi) ;;
        mret (inr (Some (b + bi)))
      else mret (inl (bi + 1))
    else mret (inr None)) 0.

Definition balloc (dev : Z) : FM Z :=
  while (λ b,
    sb ← get_sb;
    if b <? sb_size sb then
      bp ← bread dev (BBLOCK b sb);
      r ← balloc_scan dev b bp;
      match r with
      | Some a => mret (inr a)
      | None => brelse bp ;; mret (inl (b + BPB))
      end
    else mret (inr 0)) 0.

Definition bfree (dev b : Z) : FM () :=
  sb ← get_sb;
  bp ← bread dev (BBLOCK b sb);
  let bi := b mod BPB in
  let m := Z.shiftl 1 (bi mod 8) in
  d ← getb bp b_data;
  if Z.land (byte_at (bi / 8) d) m =? 0 then panic "freeing free block" else
  set_data bp (λ d, set_byte (bi / 8) (Z.land (byte_at (bi / 8) d) (Z.lnot m)) d) ;;
  log_write bp ;;
  brelse bp.

(** ** Inodes *)

Definition iinit : FM () :=
  onmem (initlock ItableLock) ;;
  for_ (seqZ 0 NINODE) (λ i, initsleeplock (InodeLk i)).

(** The loop of [iget]: the entry found, with its reference taken, or the first
    empty one. *)
Fixpoint iget_scan (l : list Z) (dev inum : Z) (empty : option Z) : FM (option Z * option Z) :=
  match l with
  | [] => mret (None, empty)
  | i :: l' =>
      x ← geti (iptr i) (λ x, x);
      if (i_ref x >? 0) && (i_dev x =? dev) && (i_inum x =? inum) then
        seti (iptr i) (λ x, x <| i_ref := i_ref x + 1 |>) ;;
        release ItableLock ;;
        mret (Some i, empty)
      else
        iget_scan l' dev inum
          (match empty with Some e => Some e | None => if i_ref x =? 0 then Some i else None end)
  end.

Definition iget (dev inum : Z) : FM Z :=
  acquire ItableLock ;;
  r ← iget_scan (seqZ 0 NINODE) dev inum None;
  match r with
  | (Some i, _) => mret (iptr i)
  | (None, None) => panic "iget: no inodes"
  | (None, Some e) =>
      seti (iptr e) (λ x, x <| i_dev := dev |> <| i_inum := inum |> <| i_ref := 1 |>
                            <| i_valid := 0 |>) ;;
      release ItableLock ;;
      mret (iptr e)
  end.

Definition ialloc (dev type : Z) : FM Z :=
  while (λ inum,
    sb ← get_sb;
    if inum <? sb_ninodes sb then
      bp ← bread dev (IBLOCK inum sb);
      d ← getb bp b_data;
      if din_type (inode_off inum) d =? 0 then
        set_data bp (splice (inode_off inum) (replicate (Z.to_nat DINODE_SIZE) 0)) ;;
        set_data bp (put16 (inode_off inum) (u16 type)) ;;
        log_write bp ;;
        brelse bp ;;
        ip ← iget dev inum;
        mret (inr ip)
      else
        brelse bp ;;
        mret (inl (inum + 1))
    else mret (inr 0)) 1.

Definition iupdate (ip : Z) : FM () :=
  dev ← geti ip i_dev;
  inum ← geti ip i_inum;
  sb ← get_sb;
  bp ← bread dev (IBLOCK inum sb);
  x ← geti ip (λ x, x);
  set_data bp (put_dinode (inode_off (i_inum x)) x) ;;
  log_write bp ;;
  brelse bp.

Definition idup (ip : Z) : FM Z :=
  acquire ItableLock ;;
  seti ip (λ x, x <| i_ref := i_ref x + 1 |>) ;;
  release ItableLock ;;
  mret ip.

(** The in-memory copy of an inode read from its block. *)
Definition load_dinode (o : Z) (d : list Z) (x : inode) : inode :=
  x <| i_type := din_type o d |> <| i_major := din_major o d |> <| i_minor := din_minor o d |>
    <| i_nlink := din_nlink o d |> <| i_size := din_size o d |> <| i_addrs := din_addrs o d |>.

Definition ilock (ip : Z) : FM () :=
  if ip =? 0 then panic "ilock" else
  r ← geti ip i_ref;
  if r <? 1 then panic "ilock" else
  acquiresleep (InodeLk (ip - 1)) ;;
  v ← geti ip i_valid;
  when (v =? 0) (
    dev ← geti ip i_dev;
    inum ← geti ip i_inum;
    sb ← get_sb;
    bp ← bread dev (IBLOCK inum sb);
    d ← getb bp b_data;
    seti ip (λ x, load_dinode (inode_off (i_inum x)) d x) ;;
    brelse bp ;;
    seti ip (λ x, x <| i_valid := 1 |>) ;;
    t ← geti ip i_type;
    if t =? 0 then panic "ilock: no type" else mret ()).

Definition iunlock (ip : Z) : FM () :=
  if ip =? 0 then panic "iunlock" else
  h ← holdingsleep (InodeLk (ip - 1));
  if negb h then panic "iunlock" else
  r ← geti ip i_ref;
  if r <? 1 then panic "iunlock" else
  releasesleep (InodeLk (ip - 1)).

(** ** Contents of an inode *)

Definition get_addr (ip k : Z) : FM Z := geti ip (λ x, nth (Z.to_nat k) (i_addrs x) 0).
Definition set_addr (ip k v : Z) : FM () :=
  seti ip (λ x, x <| i_addrs := <[Z.to_nat k := v]> (i_addrs x) |>).

(** Entry [k] of an indirect block. *)
Definition ind_get (k : Z) (d : list Z) : Z := get32 (4 * k) d.
Definition ind_put (k v : Z) (d : list Z) : list Z := put32 (4 * k) v d.

Definition bmap_indirect (ip bn addr : Z) : FM Z :=
  dev ← geti ip i_dev;
  bp ← bread dev addr;
  d ← getb bp b_data;
  let addr := ind_get bn d in
  addr ← (if addr =? 0 then
      dev ← geti ip i_dev;
      addr ← balloc dev;
      when (truth addr) (
        set_data bp (ind_put bn addr) ;;
        log_write bp) ;;
      mret addr
    else mret addr);
  brelse bp ;;
  mret addr.

Definition bmap (ip bn : Z) : FM Z :=
  if bn <? NDIRECT then
    addr ← get_addr ip bn;
    if addr =? 0 then
      dev ← geti ip i_dev;
      addr ← balloc dev;
      if addr =? 0 then mret 0 else
      set_addr ip bn addr ;;
      mret addr
    else mret addr
  else
  let bn := bn - NDIRECT in
  if bn <? NINDIRECT then
    addr ← get_addr ip NDIRECT;
    if addr =? 0 then
      dev ← geti ip i_dev;
      addr ← balloc dev;
      if addr =? 0 then mret 0 else
      set_addr ip NDIRECT addr ;;
      bmap_indirect ip bn addr
    else bmap_indirect ip bn addr
  else panic "bmap: out of range".

(** [bfree(ip->dev, ...)] *)
Definition ibfree (ip a : Z) : FM () :=
  dev ← geti ip i_dev;
  bfree dev a.

Definition itrunc (ip : Z) : FM () :=
  for_ (seqZ 0 NDIRECT) (λ i,
    a ← get_addr ip i;
    when (truth a) (
      ibfree ip a ;;
      set_addr ip i 0)) ;;
  ind ← get_addr ip NDIRECT;
  when (truth ind) (
    dev ← geti ip i_dev;
    bp ← bread dev ind;
    for_ (seqZ 0 NINDIRECT) (λ j,
      a ← getb bp (λ x, ind_get j (b_data x));
      when (truth a) (ibfree ip a)) ;;
    brelse bp ;;
    ind ← get_addr ip NDIRECT;
    ibfree ip ind ;;
    set_addr ip NDIRECT 0) ;;
  seti ip (λ x, x <| i_size := 0 |>) ;;
  iupdate ip.

(** The last reference to an inode without links frees it on the disk. *)
Definition iput (ip : Z) : FM () :=
  acquire ItableLock ;;
  x ← geti ip (λ x, x);
  when ((i_ref x =? 1) && truth (i_valid x) && (i_nlink x =? 0)) (
    acquiresleep (InodeLk (ip - 1)) ;;
    release ItableLock ;;
    itrunc ip ;;
    seti ip (λ x, x <| i_type := 0 |>) ;;
    iupdate ip ;;
    seti ip (λ x, x <| i_valid := 0 |>) ;;
    releasesleep (InodeLk (ip - 1)) ;;
    acquire ItableLock) ;;
  seti ip (λ x, x <| i_ref := i_ref x - 1 |>) ;;
  release ItableLock.

Definition iunlockput (ip : Z) : FM () := iunlock ip ;; iput ip.

Definition stati (ip : Z) : FM stat :=
  geti ip (λ x, mkStat (i_dev x) (i_inum x) (i_type x) (i_nlink x) (i_size x)).

(** [dst + k], and the copy of [readi]; a local destination collects the bytes
    in the result of [readi]. *)
Definition copy_out (dst : dest) (k : Z) (bs : list Z) : FM Z :=
  match dst with
  | ToUser va => either_copyout true (u64 (va + k)) bs
  | ToKernel pa => either_copyout false (u64 (pa + k)) bs
  | ToLocal => mret 0
  end.
Definition copy_in (src : source) (k m : Z) : FM (Z * list Z) :=
  match src with
  | FromUser va => either_copyin true (u64 (va + k)) m
  | FromKernel pa => either_copyin false (u64 (pa + k)) m
  | FromLocal bs => mret (0, slice k m bs)
  end.

(** The result and the bytes read. *)
Definition readi (ip : Z) (dst : dest) (off n : Z) : FM (Z * list Z) :=
  size ← geti ip i_size;
  if (off >? size) || (u32 (off + n) <? off) then mret (0, []) else
  let n := if u32 (off + n) >? size then size - off else n in
  r ← while (λ '(tot, acc),
    if tot <? n then
      let off := off + tot in
      addr ← bmap ip (off / BSIZE);
      if addr =? 0 then mret (inr (tot, acc)) else
      dev ← geti ip i_dev;
      bp ← bread dev addr;
      let m := Z.min (n - tot) (BSIZE - off mod BSIZE) in
      d ← getb bp b_data;
      let bs := slice (off mod BSIZE) m d in
      r ← copy_out dst tot bs;
      brelse bp ;;
      if r =? -1 then mret (inr (u32 (-1), acc))
      else mret (inl (tot + m, acc ++ bs))
    else mret (inr (tot, acc))) (0, []);
  mret (i32 r.1, r.2).

(** A copy that fails half way has changed the buffer, which is not logged. *)
Definition writei (ip : Z) (src : source) (off n : Z) : FM Z :=
  size ← geti ip i_size;
  if (off >? size) || (u32 (off + n) <? off) then mret (-1) else
  if u32 (off + n) >? MAXFILE * BSIZE then mret (-1) else
  tot ← while (λ tot,
    if tot <? n then
      let off := off + tot in
      addr ← bmap ip (off / BSIZE);
      if addr =? 0 then mret (inr tot) else
      dev ← geti ip i_dev;
      bp ← bread dev addr;
      let m := Z.min (n - tot) (BSIZE - off mod BSIZE) in
      r ← copy_in src tot m;
      set_data bp (splice (off mod BSIZE) r.2) ;;
      if r.1 =? -1 then
        brelse bp ;;
        mret (inr tot)
      else
        log_write bp ;;
        brelse bp ;;
        mret (inl (tot + m))
    else mret (inr tot)) 0;
  size ← geti ip i_size;
  when (off + tot >? size) (seti ip (λ x, x <| i_size := off + tot |>)) ;;
  iupdate ip ;;
  mret (i32 tot).

(** ** Directories *)

(** [struct dirent] as bytes. *)
Definition de_inum (de : list Z) : Z := get16 0 de.
Definition de_name (de : list Z) : list Z := drop 2 de.
Definition mk_dirent (inum : Z) (name : list Z) : list Z := le_enc 2 (u16 inum) ++ name.

(** The inode and the offset of the entry. *)
Definition dirlookup (dp : Z) (name : list Z) : FM (Z * Z) :=
  t ← geti dp i_type;
  if negb (t =? T_DIR) then panic "dirlookup not DIR" else
  while (λ off,
    size ← geti dp i_size;
    if off <? size then
      r ← readi dp ToLocal off DIRENT_SIZE;
      if negb (r.1 =? DIRENT_SIZE) then panic "dirlookup read" else
      if de_inum r.2 =? 0 then mret (inl (off + DIRENT_SIZE)) else
      if namecmp name (de_name r.2) =? 0 then
        dev ← geti dp i_dev;
        ip ← iget dev (de_inum r.2);
        mret (inr (ip, off))
      else mret (inl (off + DIRENT_SIZE))
    else mret (inr (0, off))) 0.

(** The offset of the first free entry, or the size. *)
Definition dirlink_slot (dp : Z) : FM Z :=
  while (λ off,
    size ← geti dp i_size;
    if off <? size then
      r ← readi dp ToLocal off DIRENT_SIZE;
      if negb (r.1 =? DIRENT_SIZE) then panic "dirlink read" else
      if de_inum r.2 =? 0 then mret (inr off) else mret (inl (off + DIRENT_SIZE))
    else mret (inr off)) 0.

Definition dirlink (dp : Z) (name : list Z) (inum : Z) : FM Z :=
  r ← dirlookup dp name;
  if negb (r.1 =? 0) then
    iput r.1 ;;
    mret (-1)
  else
  off ← dirlink_slot dp;
  let de := mk_dirent inum (strncpy_l (replicate (Z.to_nat DIRSIZ) 0) name DIRSIZ) in
  w ← writei dp (FromLocal de) off DIRENT_SIZE;
  mret (if negb (w =? DIRENT_SIZE) then -1 else 0).

(** ** Paths *)

(** The inode, and the array [name]. *)
Definition namex (path : list Z) (nameiparent : bool) (name : list Z) : FM (Z * list Z) :=
  ip ← (if nth 0 path 0 =? 47 then iget ROOTDEV ROOTINO
        else p ← myproc; d ← getp p cwd; idup d);
  while (λ '(ip, path, name),
    match skipelem path name with
    | None =>
        if nameiparent then
          iput ip ;;
          mret (inr (0, name))
        else mret (inr (ip, name))
    | Some (path, name) =>
        ilock ip ;;
        t ← geti ip i_type;
        if negb (t =? T_DIR) then
          iunlockput ip ;;
          mret (inr (0, name))
        else
        if nameiparent && (nth 0 path 0 =? 0) then
          iunlock ip ;;
          mret (inr (ip, name))
        else
        next ← dirlookup ip name;
        if next.1 =? 0 then
          iunlockput ip ;;
          mret (inr (0, name))
        else
          iunlockput ip ;;
          mret (inl (next.1, path, name))
    end) (ip, path, name).

Definition namei (path : list Z) : FM Z :=
  r ← namex path false (replicate (Z.to_nat DIRSIZ) 0);
  mret r.1.

Definition nameiparent (path name : list Z) : FM (Z * list Z) := namex path true name.

End fs.
