(* ===== verification/Pipe.v ===== *)
(** Pipes: [pipeclose], [pipewrite] and [piperead] of [kernel/pipe.c].

    A pipe lives in a page of kernel memory; a pointer to it is the page's
    address.  [pipealloc], which also allocates the two files, is in the model
    of [kernel/file.c]. *)
From S2P Require Import Prelude CString Spinlock Riscv Kalloc Vm Proc.

Definition PIPESIZE : Z := 512.

(** Offsets of the fields of [struct pipe], behind the spinlock. *)
Definition pi_data : Z := 24.
Definition pi_nread : Z := pi_data + PIPESIZE.
Definition pi_nwrite : Z := pi_nread + 4.
Definition pi_readopen : Z := pi_nwrite + 4.
Definition pi_writeopen : Z := pi_readopen + 4.

Section pipe.
Context `{KI : !KernelImage} {F : Type}.
Context (cfg : sched_cfg) (swtch : option Z → option Z → kM (pstate F) ()).
Abbreviation M := (kM (pstate F)).
Abbreviation sleep := (sleep cfg swtch).

Definition getpi (pi fld : Z) : M Z := onmem (kload32 (pi + fld)).
Definition setpi (pi fld v : Z) : M () := onmem (kstore32 (pi + fld) v).

Definition pipeclose (pi writable : Z) : M () :=
  acquire (PipeLock pi) ;;
  (if truth writable then
     setpi pi pi_writeopen 0 ;;
     wakeup cfg (pi + pi_nread)
   else
     setpi pi pi_readopen 0 ;;
     wakeup cfg (pi + pi_nwrite)) ;;
  ro ← getpi pi pi_readopen;
  wo ← getpi pi pi_writeopen;
  if (ro =? 0) && (wo =? 0) then
    release (PipeLock pi) ;;
    onmem (kfree pi)
  else release (PipeLock pi).

(** [pi->data[pi->nwrite++ % PIPESIZE] = ch] *)
Definition push (pi ch : Z) : M () :=
  w ← getpi pi pi_nwrite;
  setpi pi pi_nwrite (u32 (w + 1)) ;;
  onmem (kstore8 (pi + pi_data + w mod PIPESIZE) ch).

(** [ch = pi->data[pi->nread++ % PIPESIZE]] *)
Definition pop (pi : Z) : M Z :=
  r ← getpi pi pi_nread;
  setpi pi pi_nread (u32 (r + 1)) ;;
  onmem (kload8 (pi + pi_data + r mod PIPESIZE)).

(** [pi->readopen == 0 || killed(pr)] *)
Definition reader_gone (pi pr : Z) : M bool :=
  ro ← getpi pi pi_readopen;
  if ro =? 0 then mret true else
  k ← killed pr;
  mret (truth k).

(** The loop of [pipewrite]: the [i] it ends with, or [None] after the early
    return. *)
Definition pipewrite_loop (pi addr n pr : Z) : M (option Z) :=
  while (λ i,
    if i <? n then
      dead ← reader_gone pi pr;
      if dead : bool then
        release (PipeLock pi) ;;
        mret (inr None)
      else
      w ← getpi pi pi_nwrite;
      r ← getpi pi pi_nread;
      if w =? u32 (r + PIPESIZE) then
        wakeup cfg (pi + pi_nread) ;;
        sleep (pi + pi_nwrite) (PipeLock pi) ;;
        mret (inl i)
      else
        pt ← getp pr pagetable;
        c ← onmem (copyin pt (u64 (addr + i)) 1);
        if c.1 =? -1 then mret (inr (Some i)) else
        push pi (nth 0 c.2 0) ;;
        mret (inl (i + 1))
    else mret (inr (Some i))) 0.

Definition pipewrite (pi addr n : Z) : M Z :=
  pr ← myproc;
  acquire (PipeLock pi) ;;
  r ← pipewrite_loop pi addr n pr;
  match r with
  | None => mret (-1)
  | Some i =>
      wakeup cfg (pi + pi_nread) ;;
      release (PipeLock pi) ;;
      mret i
  end.

(** Waiting for a byte or for the last writer to close; [false] after the early
    return. *)
Definition piperead_wait (pi pr : Z) : M bool :=
  while (λ _ : (),
    r ← getpi pi pi_nread;
    w ← getpi pi pi_nwrite;
    wo ← getpi pi pi_writeopen;
    if (r =? w) && truth wo then
      k ← killed pr;
      if truth k then
        release (PipeLock pi) ;;
        mret (inr false)
      else
        sleep (pi + pi_nread) (PipeLock pi) ;;
        mret (inl ())
    else mret (inr true)) ().

Definition piperead_copy (pi addr n pr : Z) : M Z :=
  while (λ i,
    if i <? n then
      r ← getpi pi pi_nread;
      w ← getpi pi pi_nwrite;
      if r =? w then mret (inr i) else
      ch ← pop pi;
      pt ← getp pr pagetable;
      c ← onmem (copyout pt (u64 (addr + i)) [ch]);
      if c =? -1 then mret (inr i) else mret (inl (i + 1))
    else mret (inr i)) 0.

Definition piperead (pi addr n : Z) : M Z :=
  pr ← myproc;
  acquire (PipeLock pi) ;;
  ok ← piperead_wait pi pr;
  if negb ok then mret (-1) else
  i ← piperead_copy pi addr n pr;
  wakeup cfg (pi + pi_nwrite) ;;
  release (PipeLock pi) ;;
  mret i.

End pipe.
