(* ===== verification/File.v ===== *)
(** Open files: [kernel/file.c], and [pipealloc] of [kernel/pipe.c].

    A [struct file *] is [fptr i] for [ftable.file[i]], 0 for null. *)
From S2P Require Import Prelude CString Spinlock Riscv Kalloc Vm Proc FsState Sleeplock Bio Log Fs Pipe.

(** An entry of [devsw]; a null function pointer is [None].  The arguments are
    [user], the address and the length. *)
Record devsw_entry := mkDevsw {
  dev_read : option (Z → Z → Z → FM Z);
  dev_write : option (Z → Z → Z → FM Z)
}.

(** [struct stat] in memory; the four bytes of padding are not initialised. *)
Definition stat_bytes (pad : list Z) (st : stat) : list Z :=
  le_enc 4 (u32 (st_dev st)) ++ le_enc 4 (st_ino st) ++ le_enc 2 (u16 (st_type st)) ++
  le_enc 2 (u16 (st_nlink st)) ++ pad ++ le_enc 8 (st_size st).

Section file.
Context `{KI : !KernelImage}.
Context (cfg : sched_cfg) (swtch : option Z → option Z → FM ()).
Context (virtio_disk_rw : Z → bool → FM ()).
Context (devsw : Z → devsw_entry) (pad : list Z).

Abbreviation begin_op := (begin_op cfg swtch).
Abbreviation end_op := (end_op cfg swtch virtio_disk_rw).
Abbreviation ilock := (ilock cfg swtch virtio_disk_rw).
Abbreviation iunlock := (iunlock cfg).
Abbreviation iput := (iput cfg swtch virtio_disk_rw).

Definition fileinit : FM () := onmem (initlock FtableLock).

Definition filealloc : FM Z :=
  acquire FtableLock ;;
  r ← foreach (seqZ 0 NFILE) (λ i,
    r ← getf (fptr i) f_ref;
    if r =? 0 then
      setf (fptr i) (λ x, x <| f_ref := 1 |>) ;;
      release FtableLock ;;
      mret (Some (fptr i))
    else mret None);
  match r with
  | Some f => mret f
  | None => release FtableLock ;; mret 0
  end.

Definition filedup (f : Z) : FM Z :=
  acquire FtableLock ;;
  r ← getf f f_ref;
  if r <? 1 then panic "filedup" else
  setf f (λ x, x <| f_ref := f_ref x + 1 |>) ;;
  release FtableLock ;;
  mret f.

Definition fileclose (f : Z) : FM () :=
  acquire FtableLock ;;
  r ← getf f f_ref;
  if r <? 1 then panic "fileclose" else
  setf f (λ x, x <| f_ref := f_ref x - 1 |>) ;;
  r ← getf f f_ref;
  if r >? 0 then release FtableLock else
  ff ← getf f (λ x, x);
  setf f (λ x, x <| f_ref := 0 |> <| f_type := FD_NONE |>) ;;
  release FtableLock ;;
  match f_type ff with
  | FD_PIPE => pipeclose cfg (f_pipe ff) (f_writable ff)
  | FD_INODE | FD_DEVICE =>
      begin_op ;;
      iput (f_ip ff) ;;
      end_op
  | FD_NONE => mret ()
  end.

Definition filestat (f addr : Z) : FM Z :=
  p ← myproc;
  t ← getf f f_type;
  match t with
  | FD_INODE | FD_DEVICE =>
      ip ← getf f f_ip;
      ilock ip ;;
      st ← stati ip;
      iunlock ip ;;
      pt ← getp p pagetable;
      r ← onmem (copyout pt addr (stat_bytes pad st));
      mret (if r <? 0 then -1 else 0)
  | _ => mret (-1)
  end.

(** [devsw[f->major]], when [f->major] is in range. *)
Definition device (f : Z) : FM (option devsw_entry) :=
  major ← getf f f_major;
  mret (if (major <? 0) || (major >=? NDEV) then None else Some (devsw major)).

Definition fileread (f addr n : Z) : FM Z :=
  readable ← getf f f_readable;
  if readable =? 0 then mret (-1) else
  t ← getf f f_type;
  match t with
  | FD_PIPE =>
      pi ← getf f f_pipe;
      piperead cfg swtch pi addr n
  | FD_DEVICE =>
      d ← device f;
      match d ≫= dev_read with
      | None => mret (-1)
      | Some read => read 1 addr n
      end
  | FD_INODE =>
      ip ← getf f f_ip;
      ilock ip ;;
      off ← getf f f_off;
      r ← readi cfg swtch virtio_disk_rw ip (ToUser addr) off (u32 n);
      when (r.1 >? 0) (setf f (λ x, x <| f_off := u32 (f_off x + r.1) |>)) ;;
      iunlock ip ;;
      mret r.1
  | FD_NONE => panic "fileread"
  end.

(** The bytes one transaction of [filewrite] writes at most. *)
Definition max_write : Z := Z.quot (MAXOPBLOCKS - 1 - 1 - 2) 2 * BSIZE.

(** The loop of [filewrite] on an inode: the final [i]. *)
Definition filewrite_inode (f addr n : Z) : FM Z :=
  while (λ i,
    if i <? n then
      let n1 := n - i in
      let n1 := if n1 >? max_write then max_write else n1 in
      begin_op ;;
      ip ← getf f f_ip;
      ilock ip ;;
      off ← getf f f_off;
      r ← writei cfg swtch virtio_disk_rw ip (FromUser (u64 (addr + i))) off (u32 n1);
      when (r >? 0) (setf f (λ x, x <| f_off := u32 (f_off x + r) |>)) ;;
      iunlock ip ;;
      end_op ;;
      if negb (r =? n1) then mret (inr i) else mret (inl (i + r))
    else mret (inr i)) 0.

Definition filewrite (f addr n : Z) : FM Z :=
  writable ← getf f f_writable;
  if writable =? 0 then mret (-1) else
  t ← getf f f_type;
  match t with
  | FD_PIPE =>
      pi ← getf f f_pipe;
      pipewrite cfg swtch pi addr n
  | FD_DEVICE =>
      d ← device f;
      match d ≫= dev_write with
      | None => mret (-1)
      | Some write => write 1 addr n
      end
  | FD_INODE =>
      i ← filewrite_inode f addr n;
      mret (if i =? n then n else -1)
  | FD_NONE => panic "filewrite"
  end.

(** ** [pipealloc] *)

(** The label [bad]; [pi] is null at every jump to it. *)
Definition pipealloc_bad (f0 f1 : Z) : FM (Z * Z * Z) :=
  when (truth f0) (fileclose f0) ;;
  when (truth f1) (fileclose f1) ;;
  mret (-1, f0, f1).

(** The result, [*f0] and [*f1]. *)
Definition pipealloc : FM (Z * Z * Z) :=
  f0 ← filealloc;
  if f0 =? 0 then pipealloc_bad f0 0 else
  f1 ← filealloc;
  if f1 =? 0 then pipealloc_bad f0 f1 else
  pi ← onmem kalloc;
  if pi =? 0 then pipealloc_bad f0 f1 else
  setpi pi pi_readopen 1 ;;
  setpi pi pi_writeopen 1 ;;
  setpi pi pi_nwrite 0 ;;
  setpi pi pi_nread 0 ;;
  onmem (initlock (PipeLock pi)) ;;
  setf f0 (λ x, x <| f_type := FD_PIPE |> <| f_readable := 1 |> <| f_writable := 0 |>
                  <| f_pipe := pi |>) ;;
  setf f1 (λ x, x <| f_type := FD_PIPE |> <| f_readable := 0 |> <| f_writable := 1 |>
                  <| f_pipe := pi |>) ;;
  mret (0, f0, f1).

(** ** The operations that process management uses *)

Definition fs_ops : fileops fsys := {|
  Proc.filedup := filedup;
  Proc.fileclose := fileclose;
  Proc.idup := Fs.idup;
  Proc.iput := iput;
  Proc.begin_op := begin_op;
  Proc.end_op := end_op;
  Proc.namei := λ path, Fs.namei cfg swtch virtio_disk_rw (cstring path);
  Proc.fsinit := Fs.fsinit cfg swtch virtio_disk_rw
|}.

End file.
