(* ===== verification/Exec.v ===== *)
(** [kernel/exec.c] and the headers of [kernel/elf.h]. *)
From S2P Require Import Prelude CString Spinlock Riscv Kalloc Vm Proc FsState Sleeplock Bio Log Fs.

Definition MAXARG : Z := 32.
Definition ELF_MAGIC : Z := 0x464C457F.
Definition ELF_PROG_LOAD : Z := 1.
Definition ELFHDR_SIZE : Z := 64.             (* sizeof(struct elfhdr) *)
Definition PROGHDR_SIZE : Z := 56.            (* sizeof(struct proghdr) *)

Definition get64 (off : Z) (d : list Z) : Z := le_dec (slice off 8 d).

(** The fields of [struct elfhdr] that [exec] uses. *)
Definition elf_magic (h : list Z) : Z := get32 0 h.
Definition elf_entry (h : list Z) : Z := get64 24 h.
Definition elf_phoff (h : list Z) : Z := get64 32 h.
Definition elf_phnum (h : list Z) : Z := get16 56 h.

(** The fields of [struct proghdr]. *)
Definition ph_type (h : list Z) : Z := get32 0 h.
Definition ph_flags (h : list Z) : Z := get32 4 h.
Definition ph_off (h : list Z) : Z := get64 8 h.
Definition ph_vaddr (h : list Z) : Z := get64 16 h.
Definition ph_filesz (h : list Z) : Z := get64 32 h.
Definition ph_memsz (h : list Z) : Z := get64 40 h.

Definition flags2perm (flags : Z) : Z :=
  let perm := 0 in
  let perm := if truth (Z.land flags 0x1) then PTE_X else perm in
  if truth (Z.land flags 0x2) then Z.lor perm PTE_W else perm.

(** The path behind the last slash. *)
Fixpoint last_elem (last s : list Z) : list Z :=
  match s with
  | [] => last
  | c :: s' => if c =? 0 then last else last_elem (if c =? 47 then s' else last) s'
  end.

Section exec.
Context `{KI : !KernelImage}.
Context (cfg : sched_cfg) (swtch : option Z → option Z → FM ()).
Context (virtio_disk_rw : Z → bool → FM ()).

Abbreviation begin_op := (begin_op cfg swtch).
Abbreviation end_op := (end_op cfg swtch virtio_disk_rw).
Abbreviation readi := (readi cfg swtch virtio_disk_rw).
Abbreviation iunlockput := (iunlockput cfg swtch virtio_disk_rw).

(** [strlen] of a string in kernel memory. *)
Definition kstrlen (a : Z) : FM Z :=
  onmem (zoom m_mem (λ m s, s <| m_mem := m |>) (KString.strlen a)).

Definition loadseg (pagetable va ip offset sz : Z) : FM Z :=
  while (λ i,
    if i <? sz then
      pa ← onmem (walkaddr pagetable (u64 (va + i)));
      if pa =? 0 then panic "loadseg: address should exist" else
      let n := if u32 (sz - i) <? PGSIZE then u32 (sz - i) else PGSIZE in
      r ← readi ip (ToKernel pa) (u32 (offset + i)) n;
      if negb (u32 r.1 =? n) then mret (inr (-1)) else mret (inl (u32 (i + PGSIZE)))
    else mret (inr 0)) 0.

(** The loop over the program headers, from [sz] = 0: the final [sz] and whether
    no [goto bad] was taken. *)
Definition load_program (pagetable ip : Z) (elf : list Z) : FM (Z * bool) :=
  while (λ '(i, off, sz),
    if i <? elf_phnum elf then
      r ← readi ip ToLocal (u32 off) PROGHDR_SIZE;
      if negb (r.1 =? PROGHDR_SIZE) then mret (inr (sz, false)) else
      let ph := r.2 in
      if negb (ph_type ph =? ELF_PROG_LOAD) then mret (inl (i + 1, i32 (off + PROGHDR_SIZE), sz)) else
      if ph_memsz ph <? ph_filesz ph then mret (inr (sz, false)) else
      if u64 (ph_vaddr ph + ph_memsz ph) <? ph_vaddr ph then mret (inr (sz, false)) else
      if negb (ph_vaddr ph mod PGSIZE =? 0) then mret (inr (sz, false)) else
      sz1 ← onmem (uvmalloc pagetable sz (u64 (ph_vaddr ph + ph_memsz ph)) (flags2perm (i32 (ph_flags ph))));
      if sz1 =? 0 then mret (inr (sz, false)) else
      l ← loadseg pagetable (ph_vaddr ph) ip (u32 (ph_off ph)) (u32 (ph_filesz ph));
      if l <? 0 then mret (inr (sz1, false))
      else mret (inl (i + 1, i32 (off + PROGHDR_SIZE), sz1))
    else mret (inr (sz, true))) (0, i32 (elf_phoff elf), 0).

(** The loop that pushes the argument strings: [sp], the first [argc] entries of
    [ustack], and whether no [goto bad] was taken. *)
Definition push_args (pagetable : Z) (argv : list Z) (sp stackbase : Z) : FM (Z * list Z * bool) :=
  while (λ '(sp, ustack),
    let argc := Z.of_nat (length ustack) in
    match argv !! length ustack with
    | None => fault
    | Some a =>
        if a =? 0 then mret (inr (sp, ustack, true)) else
        if argc >=? MAXARG then mret (inr (sp, ustack, false)) else
        n ← kstrlen a;
        let sp := u64 (sp - (n + 1)) in
        let sp := sp - sp mod 16 in
        if sp <? stackbase then mret (inr (sp, ustack, false)) else
        n ← kstrlen a;
        bs ← onmem (kread_bytes a (n + 1));
        r ← onmem (copyout pagetable sp bs);
        if r <? 0 then mret (inr (sp, ustack, false)) else mret (inl (sp, ustack ++ [sp]))
    end) (sp, []).

(** The label [bad] before and after the inode is released. *)
Definition exec_bad (pagetable sz : Z) : FM Z :=
  onmem (proc_freepagetable pagetable sz) ;;
  mret (-1).
Definition exec_bad_ip (pagetable sz ip : Z) : FM Z :=
  when (truth pagetable) (onmem (proc_freepagetable pagetable sz)) ;;
  iunlockput ip ;;
  end_op ;;
  mret (-1).

(** The stack, the arguments and the switch to the new image. *)
Definition exec_image (path argv elf : list Z) (pagetable sz : Z) : FM Z :=
  p ← myproc;
  oldsz ← getp p Proc.sz;
  let sz := PGROUNDUP sz in
  sz1 ← onmem (uvmalloc pagetable sz (u64 (sz + 2 * PGSIZE)) PTE_W);
  if sz1 =? 0 then exec_bad pagetable sz else
  let sz := sz1 in
  onmem (uvmclear pagetable (u64 (sz - 2 * PGSIZE))) ;;
  let sp := sz in
  let stackbase := u64 (sp - PGSIZE) in
  r ← push_args pagetable argv sp stackbase;
  let '(sp, ustack, ok) := r in
  if negb ok then exec_bad pagetable sz else
  let argc := Z.of_nat (length ustack) in
  let ustack := ustack ++ [0] in
  let sp := u64 (sp - (argc + 1) * 8) in
  let sp := sp - sp mod 16 in
  if sp <? stackbase then exec_bad pagetable sz else
  c ← onmem (copyout pagetable sp (concat (map (le_enc 8) ustack)));
  if c <? 0 then exec_bad pagetable sz else
  tf ← getp p trapframe;
  onmem (kstore64 (tf + tf_a 1) sp) ;;
  setp p (λ x, x <| name := safestrcpy_l 16 (name x) (last_elem path path) |>) ;;
  oldpagetable ← getp p Proc.pagetable;
  setp p (λ x, x <| Proc.pagetable := pagetable |>) ;;
  setp p (λ x, x <| Proc.sz := sz |>) ;;
  onmem (kstore64 (tf + tf_epc) (elf_entry elf)) ;;
  onmem (kstore64 (tf + tf_sp) sp) ;;
  onmem (proc_freepagetable oldpagetable oldsz) ;;
  mret argc.

(** [path] is the string with its NUL, [argv] the array of kernel addresses. *)
Definition exec (path argv : list Z) : FM Z :=
  p ← myproc;
  begin_op ;;
  ip ← namei cfg swtch virtio_disk_rw path;
  if ip =? 0 then end_op ;; mret (-1) else
  ilock cfg swtch virtio_disk_rw ip ;;
  r ← readi ip ToLocal 0 ELFHDR_SIZE;
  if negb (r.1 =? ELFHDR_SIZE) then exec_bad_ip 0 0 ip else
  let elf := r.2 in
  if negb (elf_magic elf =? ELF_MAGIC) then exec_bad_ip 0 0 ip else
  pagetable ← proc_pagetable p;
  if pagetable =? 0 then exec_bad_ip 0 0 ip else
  r ← load_program pagetable ip elf;
  let '(sz, ok) := r in
  if negb ok then exec_bad_ip pagetable sz ip else
  iunlockput ip ;;
  end_op ;;
  exec_image path argv elf pagetable sz.

End exec.
