(* ===== verification/Sysfile.v ===== *)
(** The system calls on files: [kernel/sysfile.c]. *)
From S2P Require Import Prelude CString Spinlock Riscv Kalloc Vm Proc Trap FsState Sleeplock Bio Log Fs Pipe File Exec.

Definition O_RDONLY : Z := 0x000.
Definition O_WRONLY : Z := 0x001.
Definition O_RDWR : Z := 0x002.
Definition O_CREATE : Z := 0x200.
Definition O_TRUNC : Z := 0x400.

(** The strings "." and "..". *)
Definition dot : list Z := [46; 0].
Definition dotdot : list Z := [46; 46; 0].

(** A local array [char name[DIRSIZ]]; [nameiparent] sets it. *)
Definition name0 : list Z := replicate (Z.to_nat DIRSIZ) 0.

Section sysfile.
Context `{KI : !KernelImage}.
Context (cfg : sched_cfg) (swtch : option Z → option Z → FM ()).
Context (virtio_disk_rw : Z → bool → FM ()).
Context (devsw : Z → devsw_entry) (pad : list Z).

Abbreviation begin_op := (begin_op cfg swtch).
Abbreviation end_op := (end_op cfg swtch virtio_disk_rw).
Abbreviation ilock := (ilock cfg swtch virtio_disk_rw).
Abbreviation iunlock := (iunlock cfg).
Abbreviation iupdate := (iupdate cfg swtch virtio_disk_rw).
Abbreviation iput := (iput cfg swtch virtio_disk_rw).
Abbreviation iunlockput := (iunlockput cfg swtch virtio_disk_rw).
Abbreviation namei := (namei cfg swtch virtio_disk_rw).
Abbreviation nameiparent := (nameiparent cfg swtch virtio_disk_rw).
Abbreviation dirlookup := (dirlookup cfg swtch virtio_disk_rw).
Abbreviation dirlink := (dirlink cfg swtch virtio_disk_rw).
Abbreviation fileclose := (fileclose cfg swtch virtio_disk_rw).

(** The descriptor and the file, or [None] for the result -1. *)
Definition argfd (n : Z) : FM (option (Z * Z)) :=
  fd ← argint n;
  if (fd <? 0) || (fd >=? NOFILE) then mret None else
  p ← myproc;
  f ← getp p (λ x, nth (Z.to_nat fd) (ofile x) 0);
  mret (if f =? 0 then None else Some (fd, f)).

Definition set_ofile (p fd f : Z) : FM () :=
  setp p (λ x, x <| ofile := <[Z.to_nat fd := f]> (ofile x) |>).

Definition fdalloc (f : Z) : FM Z :=
  p ← myproc;
  r ← foreach (seqZ 0 NOFILE) (λ fd,
    x ← getp p (λ x, nth (Z.to_nat fd) (ofile x) 0);
    if x =? 0 then set_ofile p fd f ;; mret (Some fd) else mret None);
  mret (default (-1) r).

Definition sys_dup : FM Z :=
  _ ← argint 0;
  r ← argfd 0;
  match r with
  | None => mret (u64 (-1))
  | Some (_, f) =>
      fd ← fdalloc f;
      if fd <? 0 then mret (u64 (-1)) else
      _ ← filedup f;
      mret (u64 fd)
  end.

Definition sys_read : FM Z :=
  _ ← argint 0;
  p ← argaddr 1;
  n ← argint 2;
  r ← argfd 0;
  match r with
  | None => mret (u64 (-1))
  | Some (_, f) => r ← fileread cfg swtch virtio_disk_rw devsw f p n; mret (u64 r)
  end.

Definition sys_write : FM Z :=
  _ ← argint 0;
  p ← argaddr 1;
  n ← argint 2;
  r ← argfd 0;
  match r with
  | None => mret (u64 (-1))
  | Some (_, f) => r ← filewrite cfg swtch virtio_disk_rw devsw f p n; mret (u64 r)
  end.

Definition sys_close : FM Z :=
  _ ← argint 0;
  r ← argfd 0;
  match r with
  | None => mret (u64 (-1))
  | Some (fd, f) =>
      p ← myproc;
      set_ofile p fd 0 ;;
      fileclose f ;;
      mret 0
  end.

Definition sys_fstat : FM Z :=
  _ ← argint 0;
  st ← argaddr 1;
  r ← argfd 0;
  match r with
  | None => mret (u64 (-1))
  | Some (_, f) => r ← filestat cfg swtch virtio_disk_rw pad f st; mret (u64 r)
  end.

(** [end_op(); return -1] *)
Definition fail_op : FM Z := end_op ;; mret (u64 (-1)).

(** The label [bad] of [sys_link]. *)
Definition link_bad (ip : Z) : FM Z :=
  ilock ip ;;
  seti ip (λ x, x <| i_nlink := i16 (i_nlink x - 1) |>) ;;
  iupdate ip ;;
  iunlockput ip ;;
  fail_op.

(** [dp->dev != ip->dev || dirlink(dp, name, ip->inum) < 0] *)
Definition link_fails (dp ip : Z) (name : list Z) : FM bool :=
  d1 ← geti dp i_dev;
  d2 ← geti ip i_dev;
  if negb (d1 =? d2) then mret true else
  inum ← geti ip i_inum;
  r ← dirlink dp name inum;
  mret (r <? 0).

Definition sys_link : FM Z :=
  _ ← argint 0;
  _ ← argint 1;
  old ← argstr 0 MAXPATH;
  if old.1 <? 0 then mret (u64 (-1)) else
  new ← argstr 1 MAXPATH;
  if new.1 <? 0 then mret (u64 (-1)) else
  begin_op ;;
  ip ← namei old.2;
  if ip =? 0 then fail_op else
  ilock ip ;;
  t ← geti ip i_type;
  if t =? T_DIR then iunlockput ip ;; fail_op else
  seti ip (λ x, x <| i_nlink := i16 (i_nlink x + 1) |>) ;;
  iupdate ip ;;
  iunlock ip ;;
  r ← nameiparent new.2 name0;
  let '(dp, name) := r in
  if dp =? 0 then link_bad ip else
  ilock dp ;;
  b ← link_fails dp ip name;
  if b : bool then iunlockput dp ;; link_bad ip else
  iunlockput dp ;;
  iput ip ;;
  end_op ;;
  mret 0.

(** [off < dp->size] compares as unsigned. *)
Definition isdirempty (dp : Z) : FM bool :=
  while (λ off,
    size ← geti dp i_size;
    if off <? size then
      r ← readi cfg swtch virtio_disk_rw dp ToLocal off DIRENT_SIZE;
      if negb (r.1 =? DIRENT_SIZE) then panic "isdirempty: readi" else
      if negb (de_inum r.2 =? 0) then mret (inr false) else mret (inl (off + DIRENT_SIZE))
    else mret (inr true)) (2 * DIRENT_SIZE).

(** The label [bad] of [sys_unlink]. *)
Definition unlink_bad (dp : Z) : FM Z :=
  iunlockput dp ;;
  fail_op.

(** [ip->type == T_DIR && !isdirempty(ip)] *)
Definition dir_not_empty (ip : Z) : FM bool :=
  t ← geti ip i_type;
  if t =? T_DIR then e ← isdirempty ip; mret (negb e) else mret false.

Definition sys_unlink : FM Z :=
  _ ← argint 0;
  path ← argstr 0 MAXPATH;
  if path.1 <? 0 then mret (u64 (-1)) else
  begin_op ;;
  r ← nameiparent path.2 name0;
  let '(dp, name) := r in
  if dp =? 0 then fail_op else
  ilock dp ;;
  if (namecmp name dot =? 0) || (namecmp name dotdot =? 0) then unlink_bad dp else
  r ← dirlookup dp name;
  let '(ip, off) := r in
  if ip =? 0 then unlink_bad dp else
  ilock ip ;;
  n ← geti ip i_nlink;
  if n <? 1 then panic "unlink: nlink < 1" else
  b ← dir_not_empty ip;
  if b : bool then iunlockput ip ;; unlink_bad dp else
  w ← writei cfg swtch virtio_disk_rw dp (FromLocal (replicate (Z.to_nat DIRENT_SIZE) 0)) off DIRENT_SIZE;
  if negb (w =? DIRENT_SIZE) then panic "unlink: writei" else
  t ← geti ip i_type;
  when (t =? T_DIR) (
    seti dp (λ x, x <| i_nlink := i16 (i_nlink x - 1) |>) ;;
    iupdate dp) ;;
  iunlockput dp ;;
  seti ip (λ x, x <| i_nlink := i16 (i_nlink x - 1) |>) ;;
  iupdate ip ;;
  iunlockput ip ;;
  end_op ;;
  mret 0.

(** The label [fail] of [create]. *)
Definition create_fail (ip dp : Z) : FM Z :=
  seti ip (λ x, x <| i_nlink := 0 |>) ;;
  iupdate ip ;;
  iunlockput ip ;;
  iunlockput dp ;;
  mret 0.

(** The entries "." and ".." of a new directory; [true] for [goto fail]. *)
Definition link_dots (ip dp : Z) : FM bool :=
  inum ← geti ip i_inum;
  r ← dirlink ip dot inum;
  if r <? 0 then mret true else
  inum ← geti dp i_inum;
  r ← dirlink ip dotdot inum;
  mret (r <? 0).

Definition create (path : list Z) (type major minor : Z) : FM Z :=
  r ← nameiparent path name0;
  let '(dp, name) := r in
  if dp =? 0 then mret 0 else
  ilock dp ;;
  r ← dirlookup dp name;
  let ip := r.1 in
  if negb (ip =? 0) then
    iunlockput dp ;;
    ilock ip ;;
    t ← geti ip i_type;
    if (type =? T_FILE) && ((t =? T_FILE) || (t =? T_DEVICE)) then mret ip else
    iunlockput ip ;;
    mret 0
  else
  dev ← geti dp i_dev;
  ip ← ialloc cfg swtch virtio_disk_rw dev type;
  if ip =? 0 then iunlockput dp ;; mret 0 else
  ilock ip ;;
  seti ip (λ x, x <| i_major := major |> <| i_minor := minor |> <| i_nlink := 1 |>) ;;
  iupdate ip ;;
  b ← (if type =? T_DIR then link_dots ip dp else mret false);
  if b : bool then create_fail ip dp else
  inum ← geti ip i_inum;
  r ← dirlink dp name inum;
  if r <? 0 then create_fail ip dp else
  when (type =? T_DIR) (
    seti dp (λ x, x <| i_nlink := i16 (i_nlink x + 1) |>) ;;
    iupdate dp) ;;
  iunlockput dp ;;
  mret ip.

(** [create] or [namei], with the inode locked; [None] after the early return. *)
Definition open_inode (path : list Z) (omode : Z) : FM (option Z) :=
  if truth (Z.land omode O_CREATE) then
    ip ← create path T_FILE 0 0;
    if ip =? 0 then end_op ;; mret None else mret (Some ip)
  else
    ip ← namei path;
    if ip =? 0 then end_op ;; mret None else
    ilock ip ;;
    t ← geti ip i_type;
    if (t =? T_DIR) && negb (omode =? O_RDONLY) then
      iunlockput ip ;;
      end_op ;;
      mret None
    else mret (Some ip).

(** The fields of the new file. *)
Definition open_file (x : inode) (ip omode : Z) (f : file) : file :=
  let f := if i_type x =? T_DEVICE then f <| f_type := FD_DEVICE |> <| f_major := i_major x |>
           else f <| f_type := FD_INODE |> <| f_off := 0 |> in
  f <| f_ip := ip |>
    <| f_readable := if truth (Z.land omode O_WRONLY) then 0 else 1 |>
    <| f_writable := if truth (Z.land omode O_WRONLY) || truth (Z.land omode O_RDWR) then 1 else 0 |>.

Definition sys_open : FM Z :=
  _ ← argint 0;
  omode ← argint 1;
  path ← argstr 0 MAXPATH;
  if path.1 <? 0 then mret (u64 (-1)) else
  begin_op ;;
  r ← open_inode path.2 omode;
  match r with
  | None => mret (u64 (-1))
  | Some ip =>
      x ← geti ip (λ x, x);
      if (i_type x =? T_DEVICE) && ((i_major x <? 0) || (i_major x >=? NDEV)) then
        iunlockput ip ;;
        fail_op
      else
      f ← filealloc;
      fd ← (if f =? 0 then mret (-1) else fdalloc f);
      if fd <? 0 then
        when (truth f) (fileclose f) ;;
        iunlockput ip ;;
        fail_op
      else
      x ← geti ip (λ x, x);
      setf f (open_file x ip omode) ;;
      when (truth (Z.land omode O_TRUNC) && (i_type x =? T_FILE)) (itrunc cfg swtch virtio_disk_rw ip) ;;
      iunlock ip ;;
      end_op ;;
      mret (u64 fd)
  end.

Definition sys_mkdir : FM Z :=
  begin_op ;;
  path ← argstr 0 MAXPATH;
  if path.1 <? 0 then fail_op else
  ip ← create path.2 T_DIR 0 0;
  if ip =? 0 then fail_op else
  iunlockput ip ;;
  end_op ;;
  mret 0.

Definition sys_mknod : FM Z :=
  begin_op ;;
  major ← argint 1;
  minor ← argint 2;
  path ← argstr 0 MAXPATH;
  if path.1 <? 0 then fail_op else
  ip ← create path.2 T_DEVICE (i16 major) (i16 minor);
  if ip =? 0 then fail_op else
  iunlockput ip ;;
  end_op ;;
  mret 0.

Definition sys_chdir : FM Z :=
  p ← myproc;
  begin_op ;;
  path ← argstr 0 MAXPATH;
  if path.1 <? 0 then fail_op else
  ip ← namei path.2;
  if ip =? 0 then fail_op else
  ilock ip ;;
  t ← geti ip i_type;
  if negb (t =? T_DIR) then iunlockput ip ;; fail_op else
  iunlock ip ;;
  d ← getp p cwd;
  iput d ;;
  end_op ;;
  setp p (λ x, x <| cwd := ip |>) ;;
  mret 0.

(** The loop of [sys_exec]: [argv] and whether no [goto bad] was taken. *)
Definition fetch_argv (uargv : Z) : FM (list Z * bool) :=
  while (λ '(i, argv),
    if i >=? MAXARG then mret (inr (argv, false)) else
    a ← fetchaddr (u64 (uargv + 8 * i));
    if a.1 <? 0 then mret (inr (argv, false)) else
    let uarg := le_dec a.2 in
    if uarg =? 0 then mret (inr (<[Z.to_nat i := 0]> argv, true)) else
    pg ← onmem kalloc;
    let argv := <[Z.to_nat i := pg]> argv in
    if pg =? 0 then mret (inr (argv, false)) else
    r ← fetchstr uarg PGSIZE;
    onmem (kwrite_bytes pg r.2) ;;
    if r.1 <? 0 then mret (inr (argv, false)) else mret (inl (i + 1, argv)))
  (0, replicate (Z.to_nat MAXARG) 0).

(** [for(i = 0; i < NELEM(argv) && argv[i] != 0; i++) kfree(argv[i])] *)
Fixpoint free_argv (argv : list Z) : FM () :=
  match argv with
  | [] => mret ()
  | a :: argv' => if a =? 0 then mret () else onmem (kfree a) ;; free_argv argv'
  end.

Definition sys_exec : FM Z :=
  uargv ← argaddr 1;
  path ← argstr 0 MAXPATH;
  if path.1 <? 0 then mret (u64 (-1)) else
  r ← fetch_argv uargv;
  let '(argv, ok) := r in
  if ok : bool then
    ret ← exec cfg swtch virtio_disk_rw path.2 argv;
    free_argv argv ;;
    mret (u64 ret)
  else
    free_argv argv ;;
    mret (u64 (-1)).

(** The failures of [sys_pipe] once the files exist; a negative descriptor was
    not allocated. *)
Definition pipe_bad (p fd0 fd1 rf wf : Z) : FM Z :=
  when (0 <=? fd0) (set_ofile p fd0 0) ;;
  when (0 <=? fd1) (set_ofile p fd1 0) ;;
  fileclose rf ;;
  fileclose wf ;;
  mret (u64 (-1)).

Definition sys_pipe : FM Z :=
  p ← myproc;
  fdarray ← argaddr 0;
  r ← pipealloc cfg swtch virtio_disk_rw;
  let '(r, rf, wf) := r in
  if r <? 0 then mret (u64 (-1)) else
  fd0 ← fdalloc rf;
  if fd0 <? 0 then pipe_bad p fd0 (-1) rf wf else
  fd1 ← fdalloc wf;
  if fd1 <? 0 then pipe_bad p fd0 fd1 rf wf else
  pt ← getp p pagetable;
  c ← onmem (copyout pt fdarray (int_bytes fd0));
  if c <? 0 then pipe_bad p fd0 fd1 rf wf else
  c ← onmem (copyout pt (u64 (fdarray + 4)) (int_bytes fd1));
  if c <? 0 then pipe_bad p fd0 fd1 rf wf else
  mret 0.

(** The entries of the table [syscalls] of [kernel/syscall.c] for these calls. *)
Definition sys_file (num : Z) : option (FM Z) :=
  match num with
  | 4 => Some sys_pipe
  | 5 => Some sys_read
  | 7 => Some sys_exec
  | 8 => Some sys_fstat
  | 9 => Some sys_chdir
  | 10 => Some sys_dup
  | 15 => Some sys_open
  | 16 => Some sys_write
  | 17 => Some sys_mknod
  | 18 => Some sys_unlink
  | 19 => Some sys_link
  | 20 => Some sys_mkdir
  | 21 => Some sys_close
  | _ => None
  end.

End sysfile.
