(* ===== verification/Mkfs.v ===== *)
(** The program that builds the initial disk image: [mkfs/mkfs.c].

    The state is the image, a block for each sector, and the counters
    [freeinode] and [freeblock].  [xint] and [xshort] give values whose bytes in
    memory are little endian, which [le_enc] writes.  A failed [assert] is a
    panic; the host's file operations do not fail. *)
From S2P Require Import Prelude CString Spinlock Riscv Kalloc Vm Proc FsState Sleeplock Bio Log Fs.

Definition FSSIZE : Z := 2000.
Definition NINODES : Z := 200.
Definition nbitmap : Z := FSSIZE / (BSIZE * 8) + 1.
Definition ninodeblocks : Z := NINODES / IPB + 1.
Definition nlog : Z := LOGSIZE.
Definition nmeta : Z := 2 + nlog + ninodeblocks + nbitmap.
Definition nblocks : Z := FSSIZE - nmeta.

Definition mkfs_sb : superblock :=
  mkSuperblock FSMAGIC FSSIZE nblocks NINODES nlog 2 (2 + nlog) (2 + nlog + ninodeblocks).

Record image := mkImage {
  im_sect : Z → list Z;
  im_freeinode : Z;
  im_freeblock : Z
}.
#[export] Instance image_settable : Settable image := λ x,
  mkImage (im_sect x) (im_freeinode x) (im_freeblock x).

Abbreviation IM := (kM image).

Definition zeroes : list Z := replicate (Z.to_nat BSIZE) 0.

Definition wsect (sec : Z) (buf : list Z) : IM () :=
  modify (λ s, s <| im_sect := put_block (im_sect s) (sec, buf) |>).
Definition rsect (sec : Z) : IM (list Z) := gets (λ s, im_sect s sec).

(** A [struct dinode] is the list of its bytes. *)
Definition winode (inum : Z) (din : list Z) : IM () :=
  let bn := IBLOCK inum mkfs_sb in
  buf ← rsect bn;
  wsect bn (splice (inode_off inum) din buf).

Definition rinode (inum : Z) : IM (list Z) :=
  let bn := IBLOCK inum mkfs_sb in
  buf ← rsect bn;
  mret (slice (inode_off inum) DINODE_SIZE buf).

Definition mk_ialloc (type : Z) : IM Z :=
  inum ← gets im_freeinode;
  modify (λ s, s <| im_freeinode := u32 (im_freeinode s + 1) |>) ;;
  let din := replicate (Z.to_nat DINODE_SIZE) 0 in
  let din := put16 0 type din in
  let din := put16 6 1 din in
  let din := put32 8 0 din in
  winode inum din ;;
  mret inum.

Definition set_bits (used : Z) (buf : list Z) : list Z :=
  foldl (λ d i, set_byte (i / 8) (Z.lor (byte_at (i / 8) d) (Z.shiftl 1 (i mod 8))) d) buf (seqZ 0 used).

Definition mk_balloc (used : Z) : IM () :=
  if used <? BSIZE * 8 then wsect (sb_bmapstart mkfs_sb) (set_bits used zeroes) else panic "assert".

(** [freeblock++] *)
Definition newblock : IM Z :=
  b ← gets im_freeblock;
  modify (λ s, s <| im_freeblock := u32 (im_freeblock s + 1) |>) ;;
  mret b.

(** [din.addrs[k]] *)
Definition daddr (k : Z) (din : list Z) : Z := get32 (12 + 4 * k) din.
Definition set_daddr (k v : Z) (din : list Z) : list Z := put32 (12 + 4 * k) v din.

(** The sector [x] of block [fbn], allocated when it is missing, and [din]. *)
Definition iappend_block (fbn : Z) (din : list Z) : IM (Z * list Z) :=
  if fbn <? NDIRECT then
    din ← (if daddr fbn din =? 0 then b ← newblock; mret (set_daddr fbn b din) else mret din);
    mret (daddr fbn din, din)
  else
    din ← (if daddr NDIRECT din =? 0 then b ← newblock; mret (set_daddr NDIRECT b din) else mret din);
    let k := fbn - NDIRECT in
    indirect ← rsect (daddr NDIRECT din);
    indirect ← (if ind_get k indirect =? 0 then
        b ← newblock;
        let indirect := ind_put k b indirect in
        wsect (daddr NDIRECT din) indirect ;;
        mret indirect
      else mret indirect);
    mret (ind_get k indirect, din).

Definition iappend (inum : Z) (p : list Z) : IM () :=
  din ← rinode inum;
  r ← while (λ '(p, off, din),
    if bool_decide (p = []) then mret (inr (off, din)) else
    let fbn := off / BSIZE in
    if negb (fbn <? MAXFILE) then panic "assert" else
    r ← iappend_block fbn din;
    let '(x, din) := r in
    let n1 := Z.min (Z.of_nat (length p)) ((fbn + 1) * BSIZE - off) in
    buf ← rsect x;
    wsect x (splice (off - fbn * BSIZE) (take (Z.to_nat n1) p) buf) ;;
    mret (inl (drop (Z.to_nat n1) p, off + n1, din))) (p, get32 8 din, din);
  winode inum (put32 8 r.1 r.2).

(** A directory entry with a name that [strcpy] or [strncpy] stores in the
    zeroed [de.name]. *)
Definition mk_entry (inum : Z) (name : list Z) : list Z :=
  le_enc 2 (u16 inum) ++ strncpy_l (replicate (Z.to_nat DIRSIZ) 0) name DIRSIZ.

(** The file name without "user/" and a leading underscore. *)
Definition shortname (arg : list Z) : list Z :=
  let s := if bool_decide (take 5 arg = [117; 115; 101; 114; 47]) then drop 5 arg else arg in
  if nth 0 s 0 =? 95 then drop 1 s else s.

(** [while((cc = read(fd, buf, sizeof(buf))) > 0) iappend(inum, buf, cc)] *)
Definition append_file (inum : Z) (content : list Z) : IM () :=
  while (λ c,
    if bool_decide (c = []) then mret (inr ()) else
    iappend inum (take (Z.to_nat BSIZE) c) ;;
    mret (inl (drop (Z.to_nat BSIZE) c))) content.

(** A file of the command line: its name, without the NUL, and its contents. *)
Definition add_file (rootino : Z) (f : list Z * list Z) : IM () :=
  if bool_decide (47 ∈ (if bool_decide (take 5 f.1 = [117; 115; 101; 114; 47]) then drop 5 f.1 else f.1))
  then panic "assert" else
  inum ← mk_ialloc T_FILE;
  iappend rootino (mk_entry inum (shortname f.1)) ;;
  append_file inum f.2.

(** The image starts with arbitrary contents. *)
Definition mkfs_main (files : list (list Z * list Z)) : IM () :=
  modify (λ s, s <| im_freeinode := 1 |> <| im_freeblock := nmeta |>) ;;
  for_ (seqZ 0 FSSIZE) (λ i, wsect i zeroes) ;;
  wsect 1 (splice 0 (concat (map (le_enc 4)
    [FSMAGIC; FSSIZE; nblocks; NINODES; nlog; 2; 2 + nlog; 2 + nlog + ninodeblocks])) zeroes) ;;
  rootino ← mk_ialloc T_DIR;
  if negb (rootino =? ROOTINO) then panic "assert" else
  iappend rootino (mk_entry rootino [46]) ;;
  iappend rootino (mk_entry rootino [46; 46]) ;;
  for_ files (add_file rootino) ;;
  din ← rinode rootino;
  winode rootino (put32 8 ((get32 8 din / BSIZE + 1) * BSIZE) din) ;;
  used ← gets im_freeblock;
  mk_balloc used.
