(* ===== verification/Kernel.v ===== *)
(** The kernel put together: [kernel/main.c], [kernel/plic.c], [kvminit] and
    [kvminithart] of [kernel/vm.c], and the instances of the parameters of the
    process, trap and file models. *)
From S2P Require Import Prelude CString Spinlock Riscv Kalloc Vm Proc Trap FsState Sleeplock Bio Log Fs.
From S2P Require Import Virtio Console Pipe File Exec Sysfile.

Definition CONSOLE : Z := 1.
Definition PLIC_SENABLE (hart : Z) : Z := PLIC + 0x2080 + hart * 0x100.
Definition PLIC_SPRIORITY (hart : Z) : Z := PLIC + 0x201000 + hart * 0x2000.
Definition PLIC_SCLAIM (hart : Z) : Z := PLIC + 0x201004 + hart * 0x2000.

Section kernel.
Context `{KI : !KernelImage}.
Context (cfg : sched_cfg) (swtch : option Z → option Z → FM ()) (dev : mmio) (A : asm).
(** Uninitialised bytes: the padding of a [struct stat], and the locals of
    [sys_waitx]. *)
Context (pad : list Z) (wtime0 rtime0 : Z).

(** ** Interrupt controller *)

(** [cpuid()] *)
Definition cpuid : FM Z := r_csr tp.

Definition plicinit : FM () :=
  mm_write dev (PLIC + UART0_IRQ * 4) 1 ;;
  mm_write dev (PLIC + VIRTIO0_IRQ * 4) 1.

Definition plicinithart : FM () :=
  hart ← cpuid;
  mm_write dev (PLIC_SENABLE hart) (Z.lor (Z.shiftl 1 UART0_IRQ) (Z.shiftl 1 VIRTIO0_IRQ)) ;;
  mm_write dev (PLIC_SPRIORITY hart) 0.

Definition plic_claim : FM Z :=
  hart ← cpuid;
  mm_read dev (PLIC_SCLAIM hart).

Definition plic_complete (irq : Z) : FM () :=
  hart ← cpuid;
  mm_write dev (PLIC_SCLAIM hart) irq.

(** ** Instances *)

Definition disk_rw : Z → bool → FM () := virtio_disk_rw cfg swtch dev.

Definition devsw (major : Z) : devsw_entry :=
  if major =? CONSOLE then mkDevsw (Some (consoleread cfg swtch)) (Some (consolewrite cfg swtch dev))
  else mkDevsw None None.

Definition fops : fileops fsys := fs_ops cfg swtch disk_rw.

Definition dops : devops fsys := {|
  Trap.plic_claim := plic_claim;
  Trap.plic_complete := plic_complete;
  Trap.uartintr := uartintr cfg dev;
  Trap.virtio_disk_intr := virtio_disk_intr cfg dev
|}.

Definition kernel_usertrap : FM Z :=
  usertrap cfg swtch fops dops A (sys_file cfg swtch disk_rw devsw pad) wtime0 rtime0.
Definition kernel_kerneltrap : FM () := kerneltrap cfg swtch dops.

(** ** Boot *)

(** The value of [kernel_pagetable]. *)
Definition kvminit : FM Z := onmem kvmmake.
Definition kvminithart (kernel_pagetable : Z) : FM () :=
  w_csr (λ c, c <| satp := MAKE_SATP kernel_pagetable |>).

(** A string constant that ends in a newline. *)
Definition line (s : string) : list Z := chars (cstring s) ++ [10; 0].

(** [main] on the first CPU up to [scheduler()]. *)
Definition main : FM () :=
  consoleinit dev ;;
  printfinit ;;
  printf dev [10; 0] [] ;;
  printf dev (line "xv6 kernel is booting") [] ;;
  printf dev [10; 0] [] ;;
  onmem kinit ;;
  kernel_pagetable ← kvminit;
  kvminithart kernel_pagetable ;;
  procinit ;;
  trapinit ;;
  trapinithart A ;;
  plicinit ;;
  plicinithart ;;
  binit ;;
  iinit ;;
  fileinit ;;
  virtio_disk_init dev ;;
  userinit cfg fops (forkret_addr A).

(** [main] on the other CPUs, once [started] is set. *)
Definition main_other (kernel_pagetable : Z) : FM () :=
  hart ← cpuid;
  printf dev (line "hart %d starting") [AInt hart] ;;
  kvminithart kernel_pagetable ;;
  trapinithart A ;;
  plicinithart.

End kernel.
