(* ===== verification/UserSys.v ===== *)
(** Programs that run on the kernel, as interaction trees over the system calls
    of [user/user.h], and the traces they can produce.

    A program is an [itree sysE A]: [ITree.iter] gives the loops that need not
    end.  [behaves t f tr K] says that [t], started with the descriptors [f], can
    go through the calls recorded in [tr], when what is left of the trace after
    [t] has returned is described by [K].  It is a predicate transformer, so that
    composition of programs is composition of predicates ([behaves_bind]); every
    lemma is an equivalence.  A trace is a tree: what a child of [fork] does hangs
    below the call.

    [handle] states what a program may rely on: [fork] gives the child a copy of
    the descriptors, [open], [dup] and [pipe] take the lowest free ones, [exec]
    keeps them, [read] returns no more than was asked for.  Everything else, a
    failure of any call included, is left open. *)
From ITree Require Import ITree.
From S2P Require Import Prelude CString Proc UserProg.

(** ** System calls *)

Record ustat := mkUstat { ust_dev : Z; ust_ino : Z; ust_type : Z; ust_nlink : Z; ust_size : Z }.

(** Calls with a number as their only effect on the program. *)
Inductive call :=
| Kill (pid : Z)
| Mknod (path : list Z) (major minor : Z)
| Unlink (path : list Z)
| Link (old new : list Z)
| Mkdir (path : list Z)
| Chdir (path : list Z)
| Sleep (n : Z)
| Trace (mask : Z)
| SetPriority (np pid : Z).
#[export] Instance call_eq_dec : EqDecision call.
Proof. solve_decision. Defined.

(** A failed [pipe], [read] or [fstat] is [None]. *)
Variant sysE : Type → Type :=
| Fork : sysE Z
| Exit (status : Z) : sysE Empty_set
| Wait : sysE (Z * Z)
| Pipe : sysE (option (Z * Z))
| Write (fd : Z) (l : list Z) : sysE Z
| Read (fd n : Z) : sysE (option (list Z))
| Close (fd : Z) : sysE Z
| Exec (path : list Z) (argv : list (list Z)) : sysE Z
| Open (path : list Z) (mode : Z) : sysE Z
| Fstat (fd : Z) : sysE (option ustat)
| Dup (fd : Z) : sysE Z
| Other (c : call) : sysE Z.

Abbreviation prog := (itree sysE).
#[export] Instance prog_ret : MRet prog := λ A x, Ret x.
#[export] Instance prog_bind : MBind prog := λ A B f m, ITree.bind m f.

Definition sys {X} (e : sysE X) : prog X := ITree.trigger e.
Definition exit_ {A} (status : Z) : prog A := x ← sys (Exit status); match x : Empty_set with end.

(** ** Descriptors *)

(** What a descriptor refers to. *)
Inductive obj :=
| OFile (path : list Z) (mode : Z)
| OPipeR (p : Z)
| OPipeW (p : Z)
| OConsole.
#[export] Instance obj_eq_dec : EqDecision obj.
Proof. solve_decision. Defined.

(** [p->ofile] *)
Abbreviation fds := (list (option obj)).

Definition fd_obj (f : fds) (fd : Z) : option obj :=
  if 0 <=? fd then match f !! Z.to_nat fd with Some (Some o) => Some o | _ => None end else None.

(** [fdalloc]: the first free descriptor. *)
Fixpoint lowest (f : fds) : option nat :=
  match f with
  | [] => None
  | None :: _ => Some O
  | Some _ :: f' => S <$> lowest f'
  end.

Lemma lowest_free f i : lowest f = Some i → f !! i = Some None.
Proof.
  revert i. induction f as [|[o|] f IH]; intros i; cbn; [done| |by intros [= <-]].
  destruct (lowest f) as [j|] eqn:E; [|done]. intros [= <-]. by apply IH.
Qed.

(** It is the first: there is none below it. *)
Lemma lowest_first f i : f !! i = Some None → (∀ j, (j < i)%nat → f !! j ≠ Some None) → lowest f = Some i.
Proof.
  revert i. induction f as [|[o|] f IH]; intros i Hi Hj; [done| |].
  - destruct i as [|i]; [done|]. cbn. rewrite (IH i); [done|done|]. intros j Hlt. apply (Hj (S j)). lia.
  - destruct i as [|i]; [done|]. destruct (Hj O); [lia|done].
Qed.

Lemma lowest_none f : (∀ j, f !! j ≠ Some None) → lowest f = None.
Proof. intros H. destruct (lowest f) as [i|] eqn:E; [|done]. by apply lowest_free in E as ?%H. Qed.

Definition fd_set (fd : Z) (x : option obj) (f : fds) : fds := <[Z.to_nat fd := x]> f.

(** ** Traces *)

#[warnings="-register-all"]
Inductive act :=
| AFork (pid : Z) (child : list act)
| AForkFail
| AExit (status : Z)
| AWait (pid status : Z)
| APipe (p : option Z)
| AWrite (o : option obj) (l : list Z) (r : Z)
| ARead (o : option obj) (n : Z) (r : option (list Z))
| AStart (path : list Z) (argv : list (list Z)) (f : fds)
| AExecFail (path : list Z)
| AOpen (path : list Z) (mode : Z) (ok : bool)
| AFstat (o : option obj) (r : option ustat)
| ACall (c : call) (r : Z).

(** [read] returns what was asked for at most, and fails on a bad descriptor. *)
Definition read_ok (o : option obj) (n : Z) (r : option (list Z)) : Prop :=
  match o, r with
  | _, None => True
  | None, Some _ => False
  | Some _, Some l => Z.of_nat (length l) <= Z.max 0 n
  end.

Definition handle {X} (e : sysE X) (f : fds) (tr : list act) : (X → fds → list act → Prop) → Prop :=
  match e in sysE X return (X → fds → list act → Prop) → Prop with
  | Fork => λ K,
      match tr with
      | AFork pid child :: tr => 0 < pid ∧ K 0 f child ∧ K pid f tr
      | AForkFail :: tr => K (-1) f tr
      | _ => False
      end
  | Exit status => λ _, tr = [AExit status]
  | Wait => λ K, match tr with AWait pid st :: tr => K (pid, st) f tr | _ => False end
  | Pipe => λ K,
      match tr with
      | APipe None :: tr => K None f tr
      | APipe (Some p) :: tr =>
          match lowest f with
          | Some i =>
              match lowest (<[i := Some (OPipeR p)]> f) with
              | Some j => K (Some (Z.of_nat i, Z.of_nat j)) (<[j := Some (OPipeW p)]> (<[i := Some (OPipeR p)]> f)) tr
              | None => False
              end
          | None => False
          end
      | _ => False
      end
  | Write fd l => λ K, match tr with AWrite o l' r :: tr => o = fd_obj f fd ∧ l' = l ∧ K r f tr | _ => False end
  | Read fd n => λ K,
      match tr with ARead o n' r :: tr => o = fd_obj f fd ∧ n' = n ∧ read_ok o n r ∧ K r f tr | _ => False end
  | Close fd => λ K, match fd_obj f fd with Some _ => K 0 (fd_set fd None f) tr | None => K (-1) f tr end
  | Exec path argv => λ K, tr = [AStart path argv f] ∨ ∃ tr', tr = AExecFail path :: tr' ∧ K (-1) f tr'
  | Open path mode => λ K,
      match tr with
      | AOpen path' mode' ok :: tr =>
          path' = path ∧ mode' = mode ∧
          if ok then match lowest f with Some i => K (Z.of_nat i) (<[i := Some (OFile path mode)]> f) tr | None => False end
          else K (-1) f tr
      | _ => False
      end
  | Fstat fd => λ K, match tr with AFstat o r :: tr => o = fd_obj f fd ∧ K r f tr | _ => False end
  | Dup fd => λ K,
      match fd_obj f fd, lowest f with
      | Some o, Some i => K (Z.of_nat i) (<[i := Some o]> f) tr
      | _, _ => K (-1) f tr
      end
  | Other c => λ K, match tr with ACall c' r :: tr => c' = c ∧ K r f tr | _ => False end
  end.

(** The first [n] steps of a program. *)
Fixpoint runs {A} (n : nat) (t : prog A) (f : fds) (tr : list act) (K : A → fds → list act → Prop) : Prop :=
  match n with
  | O => False
  | S n =>
      match observe t with
      | RetF a => K a f tr
      | TauF t => runs n t f tr K
      | VisF e k => handle e f tr (λ x f tr, runs n (k x) f tr K)
      end
  end.

Definition behaves {A} (t : prog A) (f : fds) (tr : list act) (K : A → fds → list act → Prop) : Prop := ∃ n, runs n t f tr K.

#[global] Arguments behaves : simpl never.

(** ** Laws *)

Lemma handle_mono {X} (e : sysE X) f tr (K K' : X → fds → list act → Prop) :
  (∀ x f tr, K x f tr → K' x f tr) → handle e f tr K → handle e f tr K'.
Proof.
  intros H. destruct e; cbn; repeat (case_match; try done); naive_solver.
Qed.

Lemma runs_mono {A} n m (t : prog A) f tr (K K' : A → fds → list act → Prop) :
  (n <= m)%nat → (∀ x f tr, K x f tr → K' x f tr) → runs n t f tr K → runs m t f tr K'.
Proof.
  intros Hnm HK. revert m t f tr Hnm. induction n as [|n IH]; intros m t f tr Hnm; [done|].
  destruct m as [|m]; [lia|]. cbn. destruct (observe t) as [a|t'|X e k]; [apply HK|apply IH; lia|].
  apply handle_mono. intros x f' tr'. apply IH. lia.
Qed.

Lemma behaves_mono {A} (t : prog A) f tr (K K' : A → fds → list act → Prop) :
  (∀ x f tr, K x f tr → K' x f tr) → behaves t f tr K → behaves t f tr K'.
Proof. intros H [n Hn]. exists n. by eapply runs_mono. Qed.

(** A bound for every continuation of a call. *)
Lemma handle_bound {X} (e : sysE X) f tr (P : nat → X → fds → list act → Prop) :
  (∀ n m x f tr, (n <= m)%nat → P n x f tr → P m x f tr) →
  handle e f tr (λ x f tr, ∃ n, P n x f tr) → ∃ n, handle e f tr (P n).
Proof.
  intros Hm. destruct e; cbn; [|repeat (case_match; try done); try naive_solver (exact O)..].
  - destruct tr as [|[pid child| | | | | | | | | | |] tr]; try done. intros (Hp & [n Hn] & [m Hm']).
    exists (n `max` m)%nat. split; [done|]. split; [eapply Hm; [|exact Hn]; lia|eapply Hm; [|exact Hm']; lia].
  - intros [->|(tr' & -> & n & Hn)]; [exists O; by left|exists n; right; eauto].
Qed.

Lemma observe_bind {A B} (m : prog A) (g : A → prog B) :
  observe (m ≫= g) = match observe m with
    | RetF a => observe (g a)
    | TauF t => TauF (t ≫= g)
    | VisF e k => VisF e (λ x, k x ≫= g)
    end.
Proof. unfold mbind, prog_bind, ITree.bind, ITree.subst, observe. cbn. by destruct (_observe m). Qed.

Lemma behaves_ret {A} (a : A) f tr (K : A → fds → list act → Prop) : behaves (mret a) f tr K ↔ K a f tr.
Proof. split; [by intros [[|n] H]|]. intros H. by exists 1%nat. Qed.

Lemma runs_bind_l {A B} n (m : prog A) (g : A → prog B) f tr (K : B → fds → list act → Prop) :
  runs n (m ≫= g) f tr K → runs n m f tr (λ a f tr, runs n (g a) f tr K).
Proof.
  revert m f tr. induction n as [|n IH]; intros m f tr; [done|]. cbn [runs]. rewrite observe_bind.
  destruct (observe m) as [a|t|X e k]; [done|..].
  - intros H%IH. eapply runs_mono; [reflexivity| |exact H]. intros a f' tr' Ha. by eapply (runs_mono n (S n)); [lia| |exact Ha].
  - apply handle_mono. intros x f' tr' H%IH. eapply runs_mono; [reflexivity| |exact H].
    intros a f1 tr1 Ha. by eapply (runs_mono n (S n)); [lia| |exact Ha].
Qed.

Lemma runs_bind_r {A B} n (m : prog A) (g : A → prog B) f tr (K : B → fds → list act → Prop) :
  runs n m f tr (λ a f tr, behaves (g a) f tr K) → behaves (m ≫= g) f tr K.
Proof.
  revert m f tr. induction n as [|n IH]; intros m f tr; [done|]. cbn [runs].
  pose proof (observe_bind m g) as E. destruct (observe m) as [a|t|X e k]; intros H.
  - destruct H as [[|n'] H]; [done|]. exists (S n'). cbn [runs] in *. by rewrite E.
  - apply IH in H as [n' H]. exists (S n'). cbn [runs]. by rewrite E.
  - apply (handle_mono _ _ _ _ (λ x f tr, ∃ n', runs n' (k x ≫= g) f tr K)) in H; [|intros x f' tr'; apply IH].
    apply handle_bound in H as [n' H]; [|intros; by eapply runs_mono].
    exists (S n'). cbn [runs]. by rewrite E.
Qed.

Lemma behaves_bind {A B} (m : prog A) (g : A → prog B) f tr (K : B → fds → list act → Prop) :
  behaves (m ≫= g) f tr K ↔ behaves m f tr (λ a f tr, behaves (g a) f tr K).
Proof.
  split.
  - intros [n H%runs_bind_l]. exists n. eapply runs_mono; [reflexivity| |exact H]. intros a f' tr' Ha. by exists n.
  - intros [n H]. by apply (runs_bind_r n).
Qed.

Lemma behaves_sys {X} (e : sysE X) f tr (K : X → fds → list act → Prop) : behaves (sys e) f tr K ↔ handle e f tr K.
Proof.
  split.
  - intros [[|[|n]] H]; [done|..]; cbn in H; (eapply handle_mono; [|exact H]); done.
  - intros H. exists 2%nat. cbn. eapply handle_mono; [|exact H]. done.
Qed.

Lemma behaves_exit {A} st f tr (K : A → fds → list act → Prop) : behaves (exit_ st) f tr K ↔ tr = [AExit st].
Proof. unfold exit_. rewrite behaves_bind, behaves_sys. done. Qed.

Definition loop {A B} (body : A → prog (A + B)) (a : A) : prog B := ITree.iter body a.

Lemma behaves_loop {A B} (body : A → prog (A + B)) a f tr (K : B → fds → list act → Prop) :
  behaves (loop body a) f tr K ↔
  behaves (body a) f tr (λ r f tr, match r with inl a => behaves (loop body a) f tr K | inr b => K b f tr end).
Proof.
  change (behaves (loop body a) f tr K) with
    (∃ n, runs n (loop body a) f tr K).
  assert (observe (loop body a) = observe (r ← body a; match r with inl a => Tau (loop body a) | inr b => Ret b end)) as E.
  { unfold loop, ITree.iter, mbind, prog_bind, ITree.bind, ITree.subst, observe. cbn. by destruct (_observe (body a)). }
  assert ((∃ n, runs n (loop body a) f tr K) ↔
    behaves (r ← body a; match r with inl a => Tau (loop body a) | inr b => Ret b end) f tr K) as ->.
  { split; intros [[|n] H]; try done; exists (S n); cbn [runs] in *; [by rewrite <- E|by rewrite E]. }
  rewrite behaves_bind. split; apply behaves_mono; intros [a'|b] f' tr'.
  - intros [[|n] H]; [done|]. by exists n.
  - intros H. by apply behaves_ret in H.
  - intros [n H]. by exists (S n).
  - intros H. by apply behaves_ret.
Qed.

(** Rewriting below the continuation. *)
#[export] Instance behaves_proper {A} (t : prog A) f tr :
  Proper (pointwise_relation A (pointwise_relation fds (pointwise_relation (list act) iff)) ==> iff) (behaves t f tr).
Proof. intros K K' H. split; apply behaves_mono; intros x f' tr'; by apply H. Qed.
#[export] Instance handle_proper {X} (e : sysE X) f tr :
  Proper (pointwise_relation X (pointwise_relation fds (pointwise_relation (list act) iff)) ==> iff) (handle e f tr).
Proof. intros K K' H. split; apply handle_mono; intros x f' tr'; by apply H. Qed.
