(* ===== verification/UserMain.v ===== *)
(** The user programs as they call the kernel: [user/ulib.c] ([gets], [stat]),
    [user/printf.c], [user/cat.c], [user/wc.c], [user/grep.c], [user/echo.c],
    [user/ls.c], [user/kill.c], [user/ln.c], [user/mkdir.c], [user/rm.c],
    [user/strace.c], [user/setpriority.c], [user/init.c], [user/zombie.c],
    [user/forktest.c], [user/stressfs.c], [user/cpubound.c].

    The [main] of a program takes [argv]; [argc] is its length.  Programs end in
    [exit], so their type has no results. *)
From ITree Require Import ITree.
From S2P Require Import Prelude CString Proc UserProg UserSys.

(** ** printf.c *)

(** [putc] for each character. *)
Fixpoint puts (fd : Z) (l : list Z) : prog () :=
  match l with
  | [] => mret ()
  | c :: l => sys (Write fd [c]) ;; puts fd l
  end.

(** The programs give a format the arguments that it asks for. *)
Definition fprintf (fd : Z) (fmt : list Z) (ap : list uarg) : prog () := puts fd (default [] (vprintf fmt false ap)).
Definition uprintf : list Z → list uarg → prog () := fprintf 1.

(** [fprintf(fd, ...); exit(1)] *)
Definition fails {A} (fd : Z) (fmt : list Z) (ap : list uarg) : prog A := fprintf fd fmt ap ;; exit_ 1.

Definition AStr_ (s : list Z) : uarg := UStr (Some s).

(** ** ulib.c *)

(** The loop of [gets]: at most [n] more characters; a failed read ends it. *)
Fixpoint gets_loop (n : nat) : prog (list Z) :=
  match n with
  | O => mret []
  | S n =>
      r ← sys (Read 0 1);
      match r with
      | Some (c :: _) => if (c =? 10) || (c =? 13) then mret [c] else l ← gets_loop n; mret (c :: l)
      | _ => mret []
      end
  end.
(** The characters stored in [buf]. *)
Definition ugets (max : Z) : prog (list Z) := gets_loop (Z.to_nat (max - 1)).

Definition O_RDONLY_ : Z := 0x000.
Definition O_RDWR_ : Z := 0x002.
Definition O_CREATE_ : Z := 0x200.

Definition stat (n : list Z) : prog (option ustat) :=
  fd ← sys (Open n O_RDONLY_);
  if fd <? 0 then mret None else
  r ← sys (Fstat fd);
  sys (Close fd) ;;
  mret r.

(** ** cat.c *)

Definition cat (fd : Z) : prog () :=
  loop (λ _ : (),
    r ← sys (Read fd 512);
    match r with
    | None => fails 2 (lit_nl "cat: read error") []
    | Some [] => mret (inr ())
    | Some buf =>
        w ← sys (Write 1 buf);
        if negb (w =? Z.of_nat (length buf)) then fails 2 (lit_nl "cat: write error") [] else
        mret (inl ())
    end) ().

(** [for(i = 1; i < argc; i++)] over files: open, work, close. *)
Fixpoint each_file (complain : list Z → prog ()) (work : Z → list Z → prog ()) (files : list (list Z)) : prog () :=
  match files with
  | [] => mret ()
  | file :: files =>
      fd ← sys (Open file 0);
      if fd <? 0 then complain file ;; exit_ 1 else
      work fd file ;;
      sys (Close fd) ;;
      each_file complain work files
  end.

Definition cat_main (argv : list (list Z)) : prog Empty_set :=
  (if bool_decide (length argv <= 1)%nat then cat 0 else
   each_file (λ file, fprintf 2 (lit_nl "cat: cannot open %s") [AStr_ file]) (λ fd _, cat fd) (tail argv)) ;;
  exit_ 0.

(** ** wc.c *)

Definition wc (fd : Z) (name : list Z) : prog () :=
  s ← loop (λ s,
    r ← sys (Read fd 512);
    match r with
    | None => fails 1 (lit_nl "wc: read error") []
    | Some [] => mret (inr s)
    | Some buf => mret (inl (foldl wc_byte s buf))
    end) (mkCounts 0 0 0 false);
  uprintf (lit_nl "%d %d %d %s") [UInt (wc_l s); UInt (wc_w s); UInt (wc_c s); AStr_ name].

Definition wc_main (argv : list (list Z)) : prog Empty_set :=
  (if bool_decide (length argv <= 1)%nat then wc 0 [] else
   each_file (λ file, uprintf (lit_nl "wc: cannot open %s") [AStr_ file]) wc (tail argv)) ;;
  exit_ 0.

(** ** grep.c *)

(** The inner loop over the lines in the buffer: what is left of [p].  There are
    at most as many lines as bytes. *)
Fixpoint grep_lines (n : nat) (pattern p : list Z) : prog (list Z) :=
  match n with
  | O => mret p
  | S n =>
      match split_line p with
      | None => mret p
      | Some (l, p') =>
          (if match_ pattern l then sys (Write 1 (l ++ [10])) ;; mret () else mret ()) ;;
          grep_lines n pattern p'
      end
  end.

Definition GREP_BUF : Z := 1024.

(** [grep] with the bytes in [buf[0..m)] as state. *)
Definition grep (pattern : list Z) (fd : Z) : prog () :=
  loop (λ buf,
    r ← sys (Read fd (GREP_BUF - Z.of_nat (length buf) - 1));
    match r with
    | None | Some [] => mret (inr ())
    | Some l =>
        p ← grep_lines (length (buf ++ l)) pattern (buf ++ l);
        mret (inl p)
    end) [].

Definition grep_main (argv : list (list Z)) : prog Empty_set :=
  match argv with
  | _ :: pattern :: files =>
      (if bool_decide (files = []) then grep pattern 0 else
       each_file (λ file, uprintf (lit_nl "grep: cannot open %s") [AStr_ file]) (λ fd _, grep pattern fd) files) ;;
      exit_ 0
  | _ => fails 2 (lit_nl "usage: grep pattern [file ...]") []
  end.

(** ** echo.c *)

Fixpoint echo_args (args : list (list Z)) : prog () :=
  match args with
  | [] => mret ()
  | a :: args =>
      sys (Write 1 a) ;;
      sys (Write 1 (if bool_decide (args = []) then [10] else [32])) ;;
      echo_args args
  end.
Definition echo_main (argv : list (list Z)) : prog Empty_set := echo_args (tail argv) ;; exit_ 0.

(** ** ls.c *)

Definition dirent_inum (de : list Z) : Z := nth 0 de 0 + 256 * nth 1 de 0.
Definition T_DIR_ : Z := 1.
Definition T_FILE_ : Z := 2.
Definition T_DEVICE_ : Z := 3.

(** The entries of a directory; [buf] has the path of the directory. *)
Definition ls_entries (fd : Z) (path : list Z) : prog () :=
  loop (λ _ : (),
    r ← sys (Read fd 16);
    match r with
    | None => mret (inr ())
    | Some de =>
        if negb (Z.of_nat (length de) =? 16) then mret (inr ()) else
        if dirent_inum de =? 0 then mret (inl ()) else
        let buf := path ++ [47] ++ before_nul (drop 2 de) in
        st ← stat buf;
        match st with
        | None => uprintf (lit_nl "ls: cannot stat %s") [AStr_ buf] ;; mret (inl ())
        | Some st =>
            uprintf (lit_nl "%s %d %d %d")
              [AStr_ (fmtname buf); UInt (ust_type st); UInt (i32 (ust_ino st)); UInt (i32 (ust_size st))] ;;
            mret (inl ())
        end
    end) ().

Definition ls (path : list Z) : prog () :=
  fd ← sys (Open path 0);
  if fd <? 0 then fprintf 2 (lit_nl "ls: cannot open %s") [AStr_ path] else
  st ← sys (Fstat fd);
  match st with
  | None => fprintf 2 (lit_nl "ls: cannot stat %s") [AStr_ path] ;; sys (Close fd) ;; mret ()
  | Some st =>
      (if (ust_type st =? T_DEVICE_) || (ust_type st =? T_FILE_) then
         uprintf (lit_nl "%s %d %d %l")
           [AStr_ (fmtname path); UInt (ust_type st); UInt (i32 (ust_ino st)); ULong (ust_size st)]
       else if ust_type st =? T_DIR_ then
         if Z.of_nat (length path) + 1 + 14 + 1 >? 512 then uprintf (lit_nl "ls: path too long") [] else
         ls_entries fd path
       else mret ()) ;;
      sys (Close fd) ;; mret ()
  end.

Fixpoint ls_args (args : list (list Z)) : prog () :=
  match args with [] => mret () | a :: args => ls a ;; ls_args args end.
Definition ls_main (argv : list (list Z)) : prog Empty_set :=
  (if bool_decide (length argv < 2)%nat then ls (lit ".") else ls_args (tail argv)) ;;
  exit_ 0.

(** ** kill.c, ln.c, mkdir.c, rm.c *)

Fixpoint kill_args (args : list (list Z)) : prog () :=
  match args with [] => mret () | a :: args => sys (Other (Kill (number 0 a))) ;; kill_args args end.
Definition kill_main (argv : list (list Z)) : prog Empty_set :=
  if bool_decide (length argv < 2)%nat then fails 2 (lit_nl "usage: kill pid...") [] else
  kill_args (tail argv) ;;
  exit_ 0.

Definition ln_main (argv : list (list Z)) : prog Empty_set :=
  match argv with
  | [_; old; new] =>
      r ← sys (Other (Link old new));
      (if r <? 0 then fprintf 2 (lit_nl "link %s %s: failed") [AStr_ old; AStr_ new] else mret ()) ;;
      exit_ 0
  | _ => fails 2 (lit_nl "Usage: ln old new") []
  end.

(** The loop over the arguments, left at the first that fails. *)
Fixpoint each_until (op : list Z → call) (complain : list Z) (args : list (list Z)) : prog () :=
  match args with
  | [] => mret ()
  | a :: args =>
      r ← sys (Other (op a));
      if r <? 0 then fprintf 2 complain [AStr_ a] else each_until op complain args
  end.

Definition mkdir_main (argv : list (list Z)) : prog Empty_set :=
  if bool_decide (length argv < 2)%nat then fails 2 (lit_nl "Usage: mkdir files...") [] else
  each_until Mkdir (lit_nl "mkdir: %s failed to create") (tail argv) ;;
  exit_ 0.

Definition rm_main (argv : list (list Z)) : prog Empty_set :=
  if bool_decide (length argv < 2)%nat then fails 2 (lit_nl "Usage: rm files...") [] else
  each_until Unlink (lit_nl "rm: %s failed to delete") (tail argv) ;;
  exit_ 0.

(** ** strace.c, setpriority.c *)

Definition strace_main (argv : list (list Z)) : prog Empty_set :=
  match argv with
  | _ :: mask :: command :: rest =>
      let mask := number 0 mask in
      id ← sys Fork;
      if id <? 0 then fails 2 (lit_nl "fork failed") [] else
      (if id =? 0 then
         sys (Other (Trace mask)) ;;
         r ← sys (Exec command (command :: rest));
         if r <? 0 then fails 2 (lit_nl "exec failed") [] else mret ()
       else mret ()) ;;
      sys Wait ;;
      exit_ 0
  | _ => fails 2 (lit_nl "Usage: strace <integer-mask> command...") []
  end.

(** [pbs]: the program was compiled with [PBS]. *)
Definition setpriority_main (pbs : bool) (argv : list (list Z)) : prog Empty_set :=
  match argv with
  | [_; np; pid] =>
      if pbs then
        r ← sys (Other (SetPriority (number 0 np) (number 0 pid)));
        if r <? 0 then fails 2 (lit_nl "could not set priority") [] else exit_ 0
      else fails 2 (lit_nl "kernel not compiled with Priority Based Scheduling") []
  | _ => fails 2 (lit_nl "Usage: setpriority <new_priority> <pid>") []
  end.

(** ** init.c *)

Definition CONSOLE_ : Z := 1.

(** The loop over [wait] until the shell [pid] has exited. *)
Definition init_wait (pid : Z) : prog () :=
  loop (λ _ : (),
    w ← sys Wait;
    if w.1 =? pid then mret (inr ()) else
    if w.1 <? 0 then fails 1 (lit_nl "init: wait returned an error") [] else
    mret (inl ())) ().

Definition init_round : prog () :=
  uprintf (lit_nl "init: starting sh") [] ;;
  pid ← sys Fork;
  if pid <? 0 then fails 1 (lit_nl "init: fork failed") [] else
  if pid =? 0 then
    sys (Exec (lit "sh") [lit "sh"]) ;;
    fails 1 (lit_nl "init: exec sh failed") []
  else init_wait pid.

Definition init_main : prog Empty_set :=
  fd ← sys (Open (lit "console") O_RDWR_);
  (if fd <? 0 then
     sys (Other (Mknod (lit "console") CONSOLE_ 0)) ;;
     sys (Open (lit "console") O_RDWR_) ;; mret ()
   else mret ()) ;;
  sys (Dup 0) ;;
  sys (Dup 0) ;;
  loop (λ _ : (), init_round ;; mret (inl ())) ().

(** ** zombie.c, forktest.c, stressfs.c, cpubound.c *)

Definition zombie_main : prog Empty_set :=
  pid ← sys Fork;
  (if pid >? 0 then sys (Other (Sleep 5)) ;; mret () else mret ()) ;;
  exit_ 0.

(** [print] of [forktest.c]. *)
Definition print_ (s : list Z) : prog () := sys (Write 1 s) ;; mret ().

(** [for(n = i; n < i + k; n++)]: the value of [n] at the end. *)
Fixpoint fork_many (k : nat) (n : Z) : prog Z :=
  match k with
  | O => mret n
  | S k =>
      pid ← sys Fork;
      if pid <? 0 then mret n else
      if pid =? 0 then exit_ 0 else fork_many k (n + 1)
  end.

Fixpoint wait_many (n : nat) (complain : prog ()) : prog () :=
  match n with
  | O => mret ()
  | S n => w ← sys Wait; (if w.1 <? 0 then complain else mret ()) ;; wait_many n complain
  end.

Definition forktest : prog () :=
  print_ (lit_nl "fork test") ;;
  n ← fork_many 1000 0;
  (if n =? 1000 then print_ (lit_nl "fork claimed to work N times!") ;; exit_ 1 else mret ()) ;;
  wait_many (Z.to_nat n) (print_ (lit_nl "wait stopped early") ;; exit_ 1) ;;
  w ← sys Wait;
  (if negb (w.1 =? -1) then print_ (lit_nl "wait got too many") ;; exit_ 1 else mret ()) ;;
  print_ (lit_nl "fork test OK").
Definition forktest_main : prog Empty_set := forktest ;; exit_ 0.

(** The busy loop of the children of [cpubound] has no effect. *)
Definition cpubound_main (argv : list (list Z)) : prog Empty_set :=
  match argv with
  | [_; count] =>
      n ← fork_many (Z.to_nat (number 0 count)) 0;
      wait_many (Z.to_nat n) (mret ()) ;;
      exit_ 0
  | _ => fails 2 (lit_nl "Usage: cpubound <no-of-forks> ") []
  end.

(** [for(i = 0; i < 4; i++) if(fork() > 0) break;]: the final [i]. *)
Fixpoint fork_chain (k : nat) (i : Z) : prog Z :=
  match k with
  | O => mret i
  | S k => pid ← sys Fork; if pid >? 0 then mret i else fork_chain k (i + 1)
  end.

Fixpoint times (k : nat) (c : prog ()) : prog () := match k with O => mret () | S k => c ;; times k c end.

Definition stressfs_main : prog Empty_set :=
  uprintf (lit_nl "stressfs starting") [] ;;
  let data := replicate 512 97 in
  i ← fork_chain 4 0;
  uprintf (lit_nl "write %d") [UInt i] ;;
  let path := lit "stressfs" ++ [48 + i] in
  fd ← sys (Open path (Z.lor O_CREATE_ O_RDWR_));
  times 20 (sys (Write fd data) ;; mret ()) ;;
  sys (Close fd) ;;
  uprintf (lit_nl "read") [] ;;
  fd ← sys (Open path O_RDONLY_);
  times 20 (sys (Read fd 512) ;; mret ()) ;;
  sys (Close fd) ;;
  sys Wait ;;
  exit_ 0.
