(* ===== verification/GrepOps.v ===== *)
(** [user/grep.c]: the matcher against a declarative meaning of patterns, and the
    buffering of the input against the lines of the text.

    A pattern is an optional [^], items (a character, [.], or one of these with a
    star) and an optional [$]; it matches a text when some part of the text is in
    the language of the items, at the start or the end where it is anchored. *)
From ITree Require Import ITree.
From S2P Require Import Prelude CString Proc UserProg UserSys UserMain.

(** ** Patterns *)

Inductive item := IChar (c : Z) | IStar (c : Z).

(** The items of a pattern, and whether it ends in [$]. *)
Fixpoint items (re : list Z) : list item * bool :=
  match re with
  | [] => ([], false)
  | c :: re1 =>
      let plain := if bool_decide (c = DOLLAR ∧ re1 = []) then ([], true) else (IChar c :: (items re1).1, (items re1).2) in
      match re1 with
      | d :: re2 => if d =? STAR then (IStar c :: (items re2).1, (items re2).2) else plain
      | [] => plain
      end
  end.

Definition char_matches (c x : Z) : Prop := c = DOT ∨ c = x.

Definition item_lang (i : item) (w : list Z) : Prop :=
  match i with
  | IChar c => ∃ x, w = [x] ∧ char_matches c x
  | IStar c => Forall (char_matches c) w
  end.

Fixpoint lang (its : list item) (w : list Z) : Prop :=
  match its with
  | [] => w = []
  | i :: its => ∃ w1 w2, w = w1 ++ w2 ∧ item_lang i w1 ∧ lang its w2
  end.

(** The text starts with a word of the pattern. *)
Definition matches_here (re text : list Z) : Prop :=
  ∃ w post, text = w ++ post ∧ lang (items re).1 w ∧ ((items re).2 = true → post = []).

Definition matches (re text : list Z) : Prop :=
  match re with
  | c :: re' => if c =? CARET then matches_here re' text else ∃ pre post, text = pre ++ post ∧ matches_here re post
  | [] => True
  end.

(** The equation of [matchhere]. *)
Lemma matchhere_cons c re1 text :
  matchhere (c :: re1) text =
  match re1 with
  | d :: re2 => if d =? STAR then matchstar (matchhere re2) c text else
      match text with x :: text' => if (c =? DOT) || (c =? x) then matchhere re1 text' else false | [] => false end
  | [] => if c =? DOLLAR then bool_decide (text = []) else
      match text with x :: text' => (c =? DOT) || (c =? x) | [] => false end
  end.
Proof.
  destruct re1 as [|d re2].
  - cbn. destruct (c =? DOLLAR); cbn; [done|]. destruct text as [|x text]; [done|]. by destruct ((c =? DOT) || (c =? x)).
  - cbn [matchhere]. rewrite (bool_decide_eq_false_2 (d :: re2 = [])) by done. rewrite andb_false_r. by destruct (d =? STAR).
Qed.

Lemma char_matches_spec c x : (c =? DOT) || (c =? x) = true ↔ char_matches c x.
Proof. unfold char_matches. rewrite orb_true_iff, !Z.eqb_eq. done. Qed.

Lemma matchstar_spec here c text :
  matchstar here c text = true ↔ ∃ w post, text = w ++ post ∧ Forall (char_matches c) w ∧ here post = true.
Proof.
  induction text as [|x text IH]; cbn [matchstar].
  - destruct (here []) eqn:E; split; try done.
    + intros _. by exists [], [].
    + intros (w & post & Hw & _ & H). symmetry in Hw. apply app_nil in Hw as [-> ->]. congruence.
  - destruct (here (x :: text)) eqn:E.
    { split; [|done]. intros _. by exists [], (x :: text). }
    replace ((x =? c) || (c =? DOT)) with ((c =? DOT) || (c =? x)) by (rewrite orb_comm, (Z.eqb_sym x); done).
    destruct ((c =? DOT) || (c =? x)) eqn:Ex.
    + rewrite IH. apply char_matches_spec in Ex. split.
      * intros (w & post & -> & Hw & H). exists (x :: w), post. split_and!; [done|by constructor|done].
      * intros (w & post & Hw & Hf & H). destruct w as [|y w]; [cbn in Hw; subst post; congruence|].
        injection Hw as -> ->. apply Forall_cons in Hf as [_ Hf]. by exists w, post.
    + split; [done|]. intros (w & post & Hw & Hf & H). destruct w as [|y w]; [cbn in Hw; subst post; congruence|].
      injection Hw as -> ->. apply Forall_cons in Hf as [Hf _]. apply char_matches_spec in Hf. congruence.
Qed.

(** One plain character of a pattern. *)
Lemma here_char c re text :
  items (c :: re) = (IChar c :: (items re).1, (items re).2) →
  matches_here (c :: re) text ↔ ∃ x text', text = x :: text' ∧ char_matches c x ∧ matches_here re text'.
Proof.
  intros E. unfold matches_here. rewrite E. cbn [fst snd lang item_lang]. split.
  - intros (w & post & -> & (w1 & w2 & -> & (x & -> & Hx) & H2) & Hp). exists x, (w2 ++ post). split_and!; [done|done|by exists w2, post].
  - intros (x & text' & -> & Hx & w & post & -> & Hw & Hp). exists (x :: w), post. split_and!; [done| |done].
    exists [x], w. split_and!; [done|by exists x|done].
Qed.

Lemma here_star c re text :
  matches_here (c :: STAR :: re) text ↔ ∃ w post, text = w ++ post ∧ Forall (char_matches c) w ∧ matches_here re post.
Proof.
  unfold matches_here. replace (items (c :: STAR :: re)) with (IStar c :: (items re).1, (items re).2) by done.
  cbn [fst snd lang item_lang]. split.
  - intros (w & post & -> & (w1 & w2 & -> & H1 & H2) & Hp). exists w1, (w2 ++ post). rewrite <- app_assoc. split_and!; [done|done|by exists w2, post].
  - intros (w1 & post1 & -> & H1 & w & post & -> & Hw & Hp). exists (w1 ++ w), post. rewrite <- app_assoc. split_and!; [done| |done].
    by exists w1, w.
Qed.

Lemma matchhere_spec re text : matchhere re text = true ↔ matches_here re text.
Proof.
  remember (length re) as n eqn:Hn. revert re Hn text. induction (lt_wf n) as [n _ IH]. intros re -> text.
  destruct re as [|c re1].
  { split; [|done]. intros _. by exists [], text. }
  rewrite matchhere_cons. destruct re1 as [|d re2].
  - destruct (Z.eqb_spec c DOLLAR) as [->|Hc].
    + rewrite bool_decide_eq_true. unfold matches_here. cbn. split; [intros ->; by exists [], []|].
      intros (w & post & -> & -> & H). by rewrite H.
    + assert (items [c] = (IChar c :: (items []).1, (items []).2)) as E.
      { cbn [items]. rewrite bool_decide_eq_false_2; [done|]. by intros [? _]. }
      rewrite (here_char c [] text E). destruct text as [|x text]; [naive_solver|]. rewrite char_matches_spec. split.
      * intros Hx. exists x, text. split_and!; [done|done|]. by exists [], text.
      * intros (x' & t' & [= <- <-] & H & _). done.
  - destruct (Z.eqb_spec d STAR) as [->|Hd].
    + rewrite here_star, matchstar_spec. split; intros (w & post & E & Hw & H); exists w, post; (split_and!; [done|done|]);
        (eapply (IH (length re2)); [cbn; lia|done|done]).
    + assert (items (c :: d :: re2) = (IChar c :: (items (d :: re2)).1, (items (d :: re2)).2)) as E.
      { cbn [items]. apply Z.eqb_neq in Hd as ->. rewrite (bool_decide_eq_false_2 (c = DOLLAR ∧ d :: re2 = [])); [done|]. by intros [_ ?]. }
      rewrite (here_char c (d :: re2) text E). destruct text as [|x text]; [naive_solver|].
      pose proof (IH (length (d :: re2)) ltac:(cbn; lia) (d :: re2) eq_refl text) as Hrec.
      destruct ((c =? DOT) || (c =? x)) eqn:Ex.
      * rewrite Hrec. apply char_matches_spec in Ex. naive_solver.
      * split; [done|]. intros (x' & t' & [= <- <-] & H & _). apply char_matches_spec in H. congruence.
Qed.

Lemma match_any_spec re text : match_any re text = true ↔ ∃ pre post, text = pre ++ post ∧ matches_here re post.
Proof.
  induction text as [|x text IH]; cbn [match_any]; destruct (matchhere re _) eqn:E.
  - split; [|done]. intros _. exists [], []. split; [done|]. by apply matchhere_spec.
  - split; [done|]. intros (pre & post & H & Hm). symmetry in H. apply app_nil in H as [-> ->]. apply matchhere_spec in Hm. congruence.
  - split; [|done]. intros _. exists [], (x :: text). split; [done|]. by apply matchhere_spec.
  - rewrite IH. split.
    + intros (pre & post & -> & H). by exists (x :: pre), post.
    + intros (pre & post & H & Hm). destruct pre as [|y pre]; [cbn in H; subst post; apply matchhere_spec in Hm; congruence|].
      injection H as -> ->. by exists pre, post.
Qed.

Lemma match_spec re text : match_ re text = true ↔ matches re text.
Proof.
  unfold match_, matches. destruct re as [|c re]; [|destruct (c =? CARET); [apply matchhere_spec|apply match_any_spec]].
  split; [done|]. intros _. by destruct text.
Qed.

(** ** Lines *)

(** The complete lines of a text, and what follows the last newline. *)
Fixpoint split_lines (t : list Z) : list (list Z) * list Z :=
  match t with
  | [] => ([], [])
  | c :: t =>
      let r := split_lines t in
      if c =? 10 then ([] :: r.1, r.2)
      else match r.1 with
        | l :: ls => ((c :: l) :: ls, r.2)
        | [] => ([], c :: r.2)
        end
  end.

Lemma split_lines_app a b :
  split_lines (a ++ b) = ((split_lines a).1 ++ (split_lines ((split_lines a).2 ++ b)).1, (split_lines ((split_lines a).2 ++ b)).2).
Proof.
  induction a as [|c a IH]; [exact (surjective_pairing (split_lines b))|]. cbn [app split_lines].
  rewrite IH. cbn [fst snd]. destruct (Z.eqb_spec c 10) as [->|Hc]; cbn [fst snd app]; [done|].
  destruct (split_lines a).1 as [|l ls]; cbn [fst snd app]; [|done]. cbn [split_lines].
  apply Z.eqb_neq in Hc as ->. apply surjective_pairing.
Qed.

Definition no_nul (t : list Z) : Prop := Forall (λ c, c ≠ 0) t.

Lemma split_line_none p : no_nul p → split_line p = None → split_lines p = ([], p).
Proof.
  induction 1 as [|c p Hc Hp IH]; [done|]. cbn. apply Z.eqb_neq in Hc as ->. destruct (c =? 10); [done|].
  destruct (split_line p) as [[l p']|]; [done|]. intros _. by rewrite IH.
Qed.

Lemma split_line_some p l p' : no_nul p → split_line p = Some (l, p') →
  split_lines p = (l :: (split_lines p').1, (split_lines p').2) ∧ (length p' < length p)%nat ∧ no_nul p'.
Proof.
  intros Hp. revert l. induction Hp as [|c p Hc Hp IH]; [done|]. intros l. cbn. apply Z.eqb_neq in Hc as ->. destruct (c =? 10).
  - intros [= <- <-]. split_and!; [done|lia|done].
  - destruct (split_line p) as [[l1 p1]|]; [|done]. intros [= <- <-]. destruct (IH _ eq_refl) as (E & Hl & Hn). rewrite E. cbn. split_and!; [done|lia|done].
Qed.

(** ** What grep writes *)

Definition selected (pattern : list Z) (ls : list (list Z)) : list (list Z) := (λ l, l ++ [10]) <$> filter (λ l, match_ pattern l) ls.

(** The lines [ls] are written one by one to [o], then [tr'] follows. *)
Fixpoint writes (o : option obj) (ls : list (list Z)) (tr tr' : list act) : Prop :=
  match ls with
  | [] => tr = tr'
  | l :: ls => ∃ r tr1, tr = AWrite o l r :: tr1 ∧ writes o ls tr1 tr'
  end.

Lemma behaves_grep_lines n pattern p f tr (K : list Z → fds → list act → Prop) :
  no_nul p → (length p <= n)%nat →
  behaves (grep_lines n pattern p) f tr K ↔
  ∃ tr', writes (fd_obj f 1) (selected pattern (split_lines p).1) tr tr' ∧ K (split_lines p).2 f tr'.
Proof.
  revert p tr. induction n as [|n IH]; intros p tr Hp Hn; cbn [grep_lines].
  { destruct p; [|cbn in Hn; lia]. rewrite behaves_ret. cbn. naive_solver. }
  destruct (split_line p) as [[l p']|] eqn:E.
  - destruct (split_line_some _ _ _ Hp E) as (Es & Hl & Hp'). rewrite Es. cbn [fst snd]. rewrite behaves_bind. unfold selected.
    rewrite filter_cons. destruct (match_ pattern l) eqn:Em; [rewrite decide_True by done|rewrite decide_False by (by intros [])].
    + rewrite fmap_cons, behaves_bind, behaves_sys. destruct tr as [|[] tr]; cbn [handle]; try naive_solver.
      rewrite behaves_ret, IH by (done || lia). unfold selected. naive_solver.
    + rewrite behaves_ret, IH by (done || lia). done.
  - rewrite (split_line_none _ Hp E). rewrite behaves_ret. cbn. naive_solver.
Qed.

(** Bytes read and written by a process. *)
Fixpoint input (tr : list act) : list Z :=
  match tr with
  | [] => []
  | ARead _ _ (Some l) :: tr => l ++ input tr
  | _ :: tr => input tr
  end.
Fixpoint output (o : option obj) (tr : list act) : list Z :=
  match tr with
  | [] => []
  | AWrite o' l _ :: tr => if decide (o' = o) then l ++ output o tr else output o tr
  | _ :: tr => output o tr
  end.

Lemma input_app a b : input (a ++ b) = input a ++ input b.
Proof. induction a as [|x a IH]; [done|]. destruct x as [| | | | | |? ? []| | | | |]; cbn; rewrite IH; try done. by rewrite app_assoc. Qed.
Lemma output_app o a b : output o (a ++ b) = output o a ++ output o b.
Proof. induction a as [|x a IH]; [done|]. destruct x; cbn; rewrite IH; try done. case_decide; [by rewrite app_assoc|done]. Qed.

(** Only writes to [o]. *)
Lemma writes_split o ls tr tr' : writes o ls tr tr' → ∃ ws, tr = ws ++ tr' ∧ input ws = [] ∧ output o ws = concat ls.
Proof.
  revert tr. induction ls as [|l ls IH]; intros tr; cbn [writes]; [intros ->; by exists []|].
  intros (r & tr1 & -> & (ws & -> & H1 & H2)%IH). exists (AWrite o l r :: ws). split_and!; [done|done|]. cbn.
  rewrite decide_True by done. by rewrite H2.
Qed.

Definition grepped (pattern t : list Z) : list Z := concat (selected pattern (split_lines t).1).

Lemma grepped_app pattern a b : grepped pattern (a ++ b) = concat (selected pattern (split_lines a).1) ++ grepped pattern ((split_lines a).2 ++ b).
Proof. unfold grepped. rewrite split_lines_app. cbn [fst]. unfold selected. by rewrite filter_app, fmap_app, concat_app. Qed.

(** Lines that fit the buffer of grep, the unfinished one included. *)
Definition lines_fit (t : list Z) : Prop := Forall (λ l, Z.of_nat (length l) < GREP_BUF - 1) ((split_lines t).1 ++ [(split_lines t).2]).

Lemma lines_fit_rest a b : lines_fit (a ++ b) → lines_fit ((split_lines a).2 ++ b).
Proof. unfold lines_fit. rewrite split_lines_app. cbn [fst snd]. rewrite <- app_assoc. by intros [_ ?]%Forall_app. Qed.

(** ** The loop over the input *)

Section grep.
Context (pattern : list Z) (fd : Z) (f : fds).
Abbreviation o := (fd_obj f fd).
Abbreviation out := (fd_obj f 1).
Implicit Types K : () → fds → list act → Prop.

(** The loop of [grep] with [buf] in the buffer. *)
Definition grep_from (buf : list Z) : prog () :=
  loop (λ buf,
    r ← sys (Read fd (GREP_BUF - Z.of_nat (length buf) - 1));
    match r with
    | None | Some [] => mret (inr ())
    | Some l =>
        p ← grep_lines (length (buf ++ l)) pattern (buf ++ l);
        mret (inl p)
    end) buf.

(** One iteration: the end, or more bytes. *)
Lemma grep_step buf tr K :
  no_nul (buf ++ input tr) →
  behaves (grep_from buf) f tr K ↔
  ∃ r tr1, tr = ARead o (GREP_BUF - Z.of_nat (length buf) - 1) r :: tr1 ∧ read_ok o (GREP_BUF - Z.of_nat (length buf) - 1) r ∧
    match r with
    | None | Some [] => K () f tr1
    | Some l => ∃ tr2, writes out (selected pattern (split_lines (buf ++ l)).1) tr1 tr2 ∧
        behaves (grep_from (split_lines (buf ++ l)).2) f tr2 K
    end.
Proof.
  intros Hnul. unfold grep_from at 1. rewrite behaves_loop, behaves_bind, behaves_sys.
  destruct tr as [|[| | | | | |o' n r| | | | |] tr]; cbn [handle]; try naive_solver. destruct r as [[|c l]|].
  - rewrite behaves_ret. naive_solver.
  - rewrite behaves_bind, behaves_grep_lines; [| |done].
    + setoid_rewrite behaves_ret. change (loop _ (split_lines (buf ++ c :: l)).2) with (grep_from (split_lines (buf ++ c :: l)).2). naive_solver.
    + cbn [input] in Hnul. unfold no_nul in *. rewrite app_assoc in Hnul. by apply Forall_app in Hnul as [? _].
  - rewrite behaves_ret. naive_solver.
Qed.

Lemma rest_no_nul t : no_nul t → no_nul (split_lines t).2.
Proof.
  unfold no_nul. induction 1 as [|c t Hc Ht IH]; [constructor|]. cbn [split_lines].
  destruct (c =? 10); cbn [snd]; [done|]. destruct (split_lines t).1; cbn [snd]; [by constructor|done].
Qed.

Definition one_line (buf : list Z) : Prop := Forall (λ c, c ≠ 10) buf.

Lemma rest_one_line t : one_line (split_lines t).2.
Proof.
  unfold one_line. induction t as [|c t IH]; [constructor|]. cbn [split_lines].
  destruct (Z.eqb_spec c 10); cbn [snd]; [done|]. destruct (split_lines t).1; cbn [snd]; [by constructor|done].
Qed.

Lemma split_one_line buf t : one_line buf → split_lines (buf ++ t) =
  match (split_lines t).1 with l :: ls => ((buf ++ l) :: ls, (split_lines t).2) | [] => ([], buf ++ (split_lines t).2) end.
Proof.
  induction 1 as [|c buf Hc Hb IH]; cbn [app]; [destruct (split_lines t) as [[|l ls] r]; done|]. cbn [split_lines].
  apply Z.eqb_neq in Hc as ->. rewrite IH. by destruct (split_lines t).1.
Qed.

(** What is left in the buffer leaves room for more. *)
Lemma fits_room buf t : one_line buf → lines_fit (buf ++ t) → Z.of_nat (length buf) < GREP_BUF - 1.
Proof.
  intros Hb. unfold lines_fit. rewrite (split_one_line buf t Hb). destruct (split_lines t) as [[|l ls] r]; cbn [fst snd app];
    intros [H _]%Forall_cons; rewrite length_app in H; lia.
Qed.

(** Every run: up to the end of the input, the matching lines were written. *)
Lemma grep_from_writes buf tr K :
  one_line buf → no_nul (buf ++ input tr) → behaves (grep_from buf) f tr K →
  ∃ tr0 n r tr2, tr = tr0 ++ ARead o n r :: tr2 ∧ (r = None ∨ r = Some []) ∧ K () f tr2 ∧
    output out tr0 = grepped pattern (buf ++ input tr0) ∧ (lines_fit (buf ++ input tr0) → 0 < n).
Proof.
  remember (length tr) as m eqn:Hm. revert buf tr Hm. induction (lt_wf m) as [m _ IH]. intros buf tr -> Hb Hnul.
  rewrite (grep_step buf tr K Hnul). intros (r & tr1 & -> & Hr & H). destruct r as [[|c l]|].
  1, 3: exists [], (GREP_BUF - Z.of_nat (length buf) - 1); eexists _, tr1; cbn [input]; rewrite app_nil_r; split_and!;
    [done|auto|done|unfold grepped; pose proof (split_one_line buf [] Hb) as E; rewrite app_nil_r in E; by rewrite E|
     intros Hfit; rewrite <- (app_nil_r buf) in Hfit; apply fits_room in Hfit; [lia|done]].
  destruct H as (tr2 & Hw & H). apply writes_split in Hw as (ws & -> & Hi & Ho).
  assert (no_nul ((split_lines (buf ++ c :: l)).2 ++ input tr2)) as Hnul2.
  { cbn [input] in Hnul. rewrite input_app, Hi in Hnul. cbn [app] in Hnul. change (c :: l ++ input tr2) with ((c :: l) ++ input tr2) in Hnul.
    unfold no_nul in *. rewrite app_assoc in Hnul. apply Forall_app in Hnul as [H1 H2]. apply Forall_app. split; [by apply rest_no_nul|done]. }
  apply (IH (length tr2)) in H as (tr0 & n & r & tr3 & -> & Hend & HK & Hout & Hfit);
    [|cbn; rewrite length_app; lia|done|apply rest_one_line|done].
  exists (ARead o (GREP_BUF - Z.of_nat (length buf) - 1) (Some (c :: l)) :: ws ++ tr0), n, r, tr3.
  assert (input (ARead o (GREP_BUF - Z.of_nat (length buf) - 1) (Some (c :: l)) :: ws ++ tr0) = (c :: l) ++ input tr0) as Ei
    by (cbn [input]; rewrite input_app, Hi; done).
  rewrite Ei. split_and!; [cbn; by rewrite <- app_assoc|done|done| |].
  - cbn [output]. rewrite output_app, Ho, Hout, (app_assoc buf (c :: l)), (grepped_app pattern (buf ++ c :: l)). done.
  - rewrite (app_assoc buf (c :: l)). intros H. by apply Hfit, lines_fit_rest.
Qed.

(** A run on a text that comes byte by byte. *)
Lemma writes_exists o' ls tr' : ∃ ws, writes o' ls (ws ++ tr') tr' ∧ input ws = [].
Proof.
  induction ls as [|l ls (ws & IH & Hi)]; [by exists []|]. exists (AWrite o' l 0 :: ws). split; [|done]. by exists 0, (ws ++ tr').
Qed.

Lemma grep_from_ends t buf :
  is_Some o → one_line buf → no_nul (buf ++ t) → lines_fit (buf ++ t) →
  ∃ tr, behaves (grep_from buf) f tr (λ _ _ tr, tr = []) ∧ input tr = t.
Proof.
  intros [ob Ho]. revert buf. induction t as [|c t IH]; intros buf Hb Hnul Hfit.
  - exists [ARead o (GREP_BUF - Z.of_nat (length buf) - 1) (Some [])]. split; [|done]. apply grep_step; [done|].
    eexists _, _. split; [reflexivity|]. split; [rewrite Ho; cbn; lia|done].
  - pose proof (fits_room _ _ Hb Hfit) as Hroom. replace (buf ++ c :: t) with ((buf ++ [c]) ++ t) in * by (by rewrite <- app_assoc).
    destruct (IH (split_lines (buf ++ [c])).2) as (tr & Htr & Hi).
    + apply rest_one_line.
    + unfold no_nul in *. apply Forall_app in Hnul as [H1 H2]. apply Forall_app. split; [by apply rest_no_nul|done].
    + by apply lines_fit_rest.
    + destruct (writes_exists out (selected pattern (split_lines (buf ++ [c])).1) tr) as (ws & Hws & Hwi).
      exists (ARead o (GREP_BUF - Z.of_nat (length buf) - 1) (Some [c]) :: ws ++ tr).
      assert (input (ws ++ tr) = t) as Ht by (by rewrite input_app, Hwi, Hi).
      split; [|cbn [input]; by rewrite Ht]. apply grep_step; [cbn [input app]; rewrite Ht; by rewrite <- app_assoc in Hnul|].
      eexists _, _. split; [reflexivity|]. split; [rewrite Ho; cbn; lia|]. by exists tr.
Qed.
End grep.
