(* ===== verification/FsFrame.v ===== *)
(** What the file system leaves alone: the assertion [at_fs], with which the
    operations of the lower layers are specified, and the rules for the steps
    they consist of. *)
From S2P Require Import Prelude CString Spinlock Riscv Kalloc Vm Proc FsState Sleeplock.

(** The fields of a process that scheduling does not touch. *)
Definition pcore (x : proc) :=
  (pid x, sz x, pagetable x, trapframe x, trapcopy x, (killed_ x, cwd x, ofile x, parent x)).

(** File systems with the same contents; the rings of the disk driver and the
    console may differ. *)
Record fs_equiv (f f' : fsys) : Prop := {
  fe_disk : fs_disk f = fs_disk f';
  fe_buf : ∀ i, fs_buf f i = fs_buf f' i;
  fe_log : fs_log f = fs_log f';
  fe_sb : fs_sb f = fs_sb f';
  fe_inode : ∀ i, fs_inode f i = fs_inode f' i;
  fe_file : ∀ i, fs_file f i = fs_file f' i
}.
#[export] Instance fsys_equiv : Equiv fsys := fs_equiv.
#[export] Instance fsys_equivalence : Equivalence (≡@{fsys}).
Proof.
  split.
  - by split.
  - by intros ? ? []; split.
  - intros ? ? ? [] []; split; intros; etrans; eauto.
Qed.

(** An update of the contents. *)
Class FsUpd (g : fsys → fsys) : Prop := {
  upd_proper : Proper ((≡) ==> (≡)) g;
  upd_vd : ∀ f, fs_vd (g f) = fs_vd f
}.
#[export] Instance upd_buf_ok i g : FsUpd (upd_buf i g).
Proof.
  split; [|done]. intros f f' []. split; try done. intros j. cbn. destruct (j =? i); [f_equal|]; auto.
Qed.
#[export] Instance upd_inode_ok i g : FsUpd (upd_inode i g).
Proof.
  split; [|done]. intros f f' []. split; try done. intros j. cbn. destruct (j =? i); [f_equal|]; auto.
Qed.
#[export] Instance upd_file_ok i g : FsUpd (upd_file i g).
Proof.
  split; [|done]. intros f f' []. split; try done. intros j. cbn. destruct (j =? i); [f_equal|]; auto.
Qed.
#[export] Instance upd_log_ok g : FsUpd (λ f, f <| fs_log := g (fs_log f) |>).
Proof. split; [|done]. intros f f' []. split; try done. cbn. by f_equal. Qed.
#[export] Instance sl_upd_ok l g : FsUpd (sl_upd l g).
Proof. destruct l; apply _. Qed.

(** Two updates of the same element. *)
Lemma upd_buf_upd i g1 g2 f : upd_buf i g2 (upd_buf i g1 f) ≡ upd_buf i (λ x, g2 (g1 x)) f.
Proof. split; try done. intros j. cbn. by destruct (j =? i). Qed.
Lemma upd_inode_upd i g1 g2 f : upd_inode i g2 (upd_inode i g1 f) ≡ upd_inode i (λ x, g2 (g1 x)) f.
Proof. split; try done. intros j. cbn. by destruct (j =? i). Qed.
Lemma upd_buf_ext i g1 g2 f : g1 (fs_buf f i) = g2 (fs_buf f i) → upd_buf i g1 f ≡ upd_buf i g2 f.
Proof. intros H. split; try done. intros j. cbn. by destruct (Z.eqb_spec j i) as [->|]. Qed.

Section at_fs.
(** The invariant of the disk driver's rings. *)
Context (J : vdisk → Prop).

(** The CPU still runs the process of [S0], memory and held locks are [m], the
    file system is [f], and processes differ from those of [S0] in scheduling
    data at most. *)
Record at_fs (S0 : pstate fsys) (m : mach) (f : fsys) (s : pstate fsys) : Prop := {
  at_mem : ps_m s = m;
  at_cur : ps_cur s = ps_cur S0;
  at_core : ∀ q, pcore (ps_proc s q) = pcore (ps_proc S0 q);
  at_vd : J (fs_vd (ps_fs s));
  at_f : ps_fs s ≡ f
}.

Lemma at_fs_here s : J (fs_vd (ps_fs s)) → at_fs s (ps_m s) (ps_fs s) s.
Proof. done. Qed.

Lemma at_fs_equiv S0 m f f' s : f ≡ f' → at_fs S0 m f s → at_fs S0 m f' s.
Proof. intros Hf []. split; try done. by rewrite <- Hf. Qed.
End at_fs.

(** The locks are free to take. *)
Definition no_locks (m : mach) : Prop := m_held m = [].

Section rules.
Context (J : vdisk → Prop) (cfg : sched_cfg) (S0 : pstate fsys).

Abbreviation at_fs := (at_fs J).

Lemma wp_getfs {A} (g : fsys → A) m f s (Q : A → pstate fsys → Prop) :
  at_fs S0 m f s → Proper ((≡) ==> eq) g → Q (g f) s → wp (getfs g) Q s.
Proof. intros [? ? ? ? Hf] Hg ?. apply wp_gets. by rewrite (Hg _ _ Hf). Qed.

Lemma wp_getb {A} i (g : buf → A) m f s (Q : A → pstate fsys → Prop) :
  at_fs S0 m f s → Q (g (fs_buf f i)) s → wp (getb i g) Q s.
Proof. intros. eapply wp_getfs; [done| |done]. intros ? ? []. by f_equal. Qed.

Lemma wp_getl {A} (g : log → A) m f s (Q : A → pstate fsys → Prop) :
  at_fs S0 m f s → Q (g (fs_log f)) s → wp (getl g) Q s.
Proof. intros. eapply wp_getfs; [done| |done]. intros ? ? []. by f_equal. Qed.

Lemma wp_modfs (g : fsys → fsys) `{!FsUpd g} m f s (Q : () → pstate fsys → Prop) :
  at_fs S0 m f s → (∀ s', at_fs S0 m (g f) s' → Q () s') → wp (modfs g) Q s.
Proof.
  intros [? ? ? ? Hf] HQ. apply wp_modify, HQ. split; cbn; try done; [by rewrite upd_vd|by apply upd_proper].
Qed.

Lemma wp_setb i g m f s (Q : () → pstate fsys → Prop) :
  at_fs S0 m f s → (∀ s', at_fs S0 m (upd_buf i g f) s' → Q () s') → wp (setb i g) Q s.
Proof. apply wp_modfs, _. Qed.

Lemma wp_setl g m f s (Q : () → pstate fsys → Prop) :
  at_fs S0 m f s → (∀ s', at_fs S0 m (f <| fs_log := g (fs_log f) |>) s' → Q () s') → wp (setl g) Q s.
Proof. apply (wp_modfs (λ f, f <| fs_log := g (fs_log f) |>)). Qed.

Lemma wp_acquire_fs lk m f s (Q : () → pstate fsys → Prop) :
  at_fs S0 m f s → lk ∉ m_held m →
  (∀ s', at_fs S0 (m <| m_held := lk :: m_held m |>) f s' → Q () s') → wp (acquire lk) Q s.
Proof.
  intros [Hm ? ? ? ?] Hlk HQ. apply acquire_spec; [cbn; by rewrite Hm|]. apply HQ.
  split; cbn; try done. by rewrite Hm.
Qed.

Lemma wp_release_fs lk m f s h (Q : () → pstate fsys → Prop) :
  at_fs S0 m f s → m_held m = lk :: h → lk ∉ h →
  (∀ s', at_fs S0 (m <| m_held := h |>) f s' → Q () s') → wp (release lk) Q s.
Proof.
  intros [Hm ? ? ? ?] Hh Hlk HQ. eapply release_spec; [cbn; by rewrite Hm|done|]. apply HQ.
  split; cbn; try done. by rewrite Hm.
Qed.

Lemma wp_release_top lk m f s h (Q : () → pstate fsys → Prop) :
  at_fs S0 (m <| m_held := lk :: h |>) f s → m_held m = h → lk ∉ h →
  (∀ s', at_fs S0 m f s' → Q () s') → wp (release lk) Q s.
Proof.
  intros Hs <- Hlk HQ. eapply wp_release_fs; [done|done|done|]. intros s' Hs'. apply HQ. by destruct m.
Qed.

Lemma wp_initlock_fs lk m f s (Q : () → pstate fsys → Prop) :
  at_fs S0 m f s → lk ∉ m_held m → (∀ s', at_fs S0 m f s' → Q () s') → wp (onmem (initlock lk)) Q s.
Proof.
  intros Hs Hlk HQ. unfold onmem, initlock. apply wp_zoom, wp_modify, HQ. destruct Hs as [Hm ? ? ? ?].
  split; cbn; try done. rewrite Hm, filter_ne_notin by done. by destruct m.
Qed.

Lemma wp_myproc_fs u m f s (Q : Z → pstate fsys → Prop) :
  at_fs S0 m f s → ps_cur S0 = Some u → Q u s → wp myproc Q s.
Proof.
  intros [? Hc ? ? ?] Hu HQ. unfold myproc. wp_step. wp_step. rewrite Hc, Hu. by apply wp_ret.
Qed.

(** A field of a process that scheduling does not touch. *)
Lemma wp_getp_fs {A} (g : proc → A) q m f s (Q : A → pstate fsys → Prop) :
  at_fs S0 m f s → (∀ x y, pcore x = pcore y → g x = g y) →
  Q (g (ps_proc S0 q)) s → wp (getp q g) Q s.
Proof. intros [? ? Hc ? ?] Hg HQ. apply wp_gets. by rewrite (Hg _ (ps_proc S0 q)). Qed.

Lemma wake_proc_core now x : pcore (wake_proc cfg now x) = pcore x.
Proof. unfold wake_proc. by destruct cfg. Qed.

Lemma wp_setp_fs q g m f s (Q : () → pstate fsys → Prop) :
  at_fs S0 m f s → (∀ x, pcore (g x) = pcore x) → (∀ s', at_fs S0 m f s' → Q () s') →
  wp (setp q g) Q s.
Proof.
  intros [? ? Hc ? ?] Hg HQ. apply wp_modify, HQ. split; cbn; try done.
  intros q'. destruct (q' =? q); [by rewrite Hg|done].
Qed.

Lemma wp_wake_fs q m f s (Q : () → pstate fsys → Prop) :
  at_fs S0 m f s → (∀ s', at_fs S0 m f s' → Q () s') → wp (wake cfg q) Q s.
Proof.
  intros Hs HQ. unfold wake. wp_step. unfold ticks. wp_step. wp_step.
  eapply wp_setp_fs; [done|apply wake_proc_core|]. intros s1 Hs1.
  destruct cfg; try (apply wp_ret; by apply HQ). wp_step. unfold getp. wp_step. wp_step. apply HQ.
  destruct Hs1. by split.
Qed.

Lemma wp_wakeup_fs c m f s (Q : () → pstate fsys → Prop) :
  at_fs S0 m f s → (∀ p, ProcLock p ∉ m_held m) → (∀ s', at_fs S0 m f s' → Q () s') →
  wp (wakeup cfg c) Q s.
Proof.
  intros Hs Hl HQ. unfold wakeup. eapply (wp_for _ _ (λ _ s, at_fs S0 m f s)); [done| |by intros; apply HQ].
  intros _ p _ s1 _ Hs1. wp_step. wp_step. wp_step; [|done]. wp_step. eapply wp_acquire_fs; [done|by apply Hl|].
  intros s2 Hs2. wp_step. unfold getp. wp_step. wp_step. wp_step. wp_step.
  assert (∀ s', at_fs S0 (m <| m_held := ProcLock p :: m_held m |>) f s' →
    wp (release (ProcLock p)) (λ _, at_fs S0 m f) s') as Hrel.
  { intros s' Hs'. eapply wp_release_top; [done|done|by apply Hl|]. done. }
  wp_step; [by eapply wp_wake_fs|by apply Hrel].
Qed.
End rules.

(** Locks other than those of processes. *)
Lemma no_proc_lock (h : list lock) :
  Forall (λ lk, match lk with ProcLock _ => False | _ => True end) h → ∀ p, ProcLock p ∉ h.
Proof. intros H p Hp. rewrite Forall_forall in H. by apply (H _ Hp). Qed.

(** One step of an operation of the file system whose state is [at_fs]. *)
Ltac fs_locks := solve
  [ apply not_elem_of_nil
  | by apply no_proc_lock; repeat constructor
  | cbn; set_solver
  | cbn; rewrite ?not_elem_of_cons; repeat split; (discriminate || apply not_elem_of_nil) ].

Ltac fs_step :=
  lazymatch goal with
  | |- wp (_ ≫= _) _ _ => apply wp_bind
  | |- wp (mret _) _ _ => apply wp_ret
  | |- wp (getfs _) _ _ => eapply wp_getfs; [eassumption| |]
  | |- wp (getb _ _) _ _ => eapply wp_getb; [eassumption|]
  | |- wp (getl _) _ _ => eapply wp_getl; [eassumption|]
  | |- wp (modfs _) _ _ => eapply wp_modfs; [apply _|eassumption|]; intros ? ?
  | |- wp (setb _ _) _ _ => eapply wp_setb; [eassumption|]; intros ? ?
  | |- wp (setl _) _ _ => eapply wp_setl; [eassumption|]; intros ? ?
  | |- wp (acquire _) _ _ => eapply wp_acquire_fs; [eassumption| |intros ? ?]
  | |- wp (release _) _ _ => eapply wp_release_top; [eassumption|first [reflexivity|eassumption]| |intros ? ?]
  | |- wp (wakeup _ _) _ _ => eapply wp_wakeup_fs; [eassumption| |intros ? ?]
  | |- wp (onmem (initlock _)) _ _ => eapply wp_initlock_fs; [eassumption| |intros ? ?]
  | |- wp myproc _ _ => eapply wp_myproc_fs; [eassumption|eassumption|]
  | |- wp (getp _ pid) _ _ => eapply wp_getp_fs; [eassumption|by intros ? ? [=]|]
  end.

(** * Sleep locks that are free, or held by the caller *)

Section sleeplock.
Context (J : vdisk → Prop) (cfg : sched_cfg) (swtch : option Z → option Z → FM ()).
Context (S0 : pstate fsys) (u : Z).
Hypothesis Hu : ps_cur S0 = Some u.

Abbreviation at_fs := (at_fs J).

Definition taken : sleeplock := mkSleeplock 1 (pid (ps_proc S0 u)).

Lemma sl_get_upd l g f : sl_get l (sl_upd l g f) = g (sl_get l f).
Proof. destruct l; cbn; by rewrite Z.eqb_refl. Qed.

Lemma sl_upd_upd l g1 g2 f : sl_upd l g2 (sl_upd l g1 f) ≡ sl_upd l (λ x, g2 (g1 x)) f.
Proof.
  destruct l; (split; try done; intros j; cbn; by destruct (j =? i)).
Qed.

#[export] Instance sl_get_proper l : Proper ((≡) ==> eq) (sl_get l).
Proof. intros f f' []. destruct l; cbn; by f_equal. Qed.

Lemma acquiresleep_spec l m f s :
  at_fs S0 m f s → sl_spin l ∉ m_held m → sl_locked (sl_get l f) = 0 →
  wp (acquiresleep cfg swtch l) (λ _ s', at_fs S0 m (sl_upd l (λ _, taken) f) s') s.
Proof.
  intros Hs Hl Hk. unfold acquiresleep. fs_step. fs_step; [done|]. fs_step.
  eapply (wp_while (λ _ s1, s1 = s')  (λ _ _, 0)); [|done|done].
  intros [] s1 ->. fs_step. fs_step; [by intros ? ? ->|]. rewrite Hk. cbn. fs_step.
  fs_step. fs_step. fs_step. fs_step. fs_step. fs_step. fs_step. fs_step. fs_step; [done|].
  eapply at_fs_equiv; [|done]. rewrite sl_upd_upd. done.
Qed.

Lemma releasesleep_spec l m f s :
  at_fs S0 m f s → sl_spin l ∉ m_held m → (∀ p, ProcLock p ∉ m_held m) →
  wp (releasesleep cfg l) (λ _ s', at_fs S0 m (sl_upd l (λ _, mkSleeplock 0 0) f) s') s.
Proof.
  intros Hs Hl Hp. unfold releasesleep. fs_step. fs_step; [done|]. fs_step. fs_step. fs_step. fs_step.
  fs_step. fs_step; [intros p; cbn; rewrite not_elem_of_cons; split; [done|apply Hp]|]. fs_step; [done|].
  eapply at_fs_equiv; [|done]. rewrite sl_upd_upd. done.
Qed.

Lemma holdingsleep_spec l m f s :
  at_fs S0 m f s → sl_spin l ∉ m_held m →
  wp (holdingsleep l) (λ r s', r = bool_decide (sl_locked (sl_get l f) ≠ 0 ∧
    sl_pid (sl_get l f) = pid (ps_proc S0 u)) ∧ at_fs S0 m f s') s.
Proof.
  intros Hs Hl. unfold holdingsleep. fs_step. fs_step; [done|]. fs_step. fs_step; [by intros ? ? ->|].
  fs_step. fs_step; [by intros ? ? ->|]. fs_step. fs_step. fs_step. fs_step. fs_step. fs_step; [done|].
  fs_step. split; [|done]. unfold truth.
  destruct (Z.eqb_spec (sl_locked (sl_get l f)) 0), (Z.eqb_spec (sl_pid (sl_get l f)) (pid (ps_proc S0 u)));
    cbn; symmetry; (apply bool_decide_eq_true || apply bool_decide_eq_false); tauto.
Qed.

Lemma initsleeplock_spec l m f s :
  at_fs S0 m f s → sl_spin l ∉ m_held m →
  wp (initsleeplock l) (λ _ s', at_fs S0 m (sl_upd l (λ _, mkSleeplock 0 0) f) s') s.
Proof.
  intros Hs Hl. unfold initsleeplock. fs_step. fs_step; [done|]. fs_step. fs_step. fs_step.
  eapply at_fs_equiv; [|done]. by rewrite sl_upd_upd.
Qed.
End sleeplock.
