(* ===== verification/BioOps.v ===== *)
(** What the buffer cache promises: [cache f D H X] says that reading block [n]
    through the cache of [f] gives [D n], that the caller holds the buffers of
    [H] and that the blocks of [X] are pinned.  Each operation of [bio.c] is a
    step on these. *)
From S2P Require Import Prelude CString Spinlock Riscv Kalloc Vm Proc FsState Sleeplock Bio FsFrame.

(** * Linked lists *)

Definition last_of {A} (a : A) (l : list A) : A := default a (last l).

Lemma path_app {A} (nx : A → A) a l1 x l2 z :
  path nx a (l1 ++ x :: l2) z ↔ path nx a l1 x ∧ path nx x l2 z.
Proof.
  revert a. induction l1 as [|y l1 IH]; intros a; simpl; [tauto|]. rewrite IH. tauto.
Qed.

Lemma path_ext {A} (nx nx' : A → A) a l z :
  (∀ y, y = a ∨ y ∈ l → nx' y = nx y) → path nx a l z → path nx' a l z.
Proof.
  revert a. induction l as [|x l IH]; intros a Hx; simpl; [by rewrite Hx by auto|].
  rewrite Hx by auto. intros [-> ?]. split; [done|]. apply IH; [|done].
  intros y [->|?]; apply Hx; set_solver.
Qed.

Lemma path_first {A} (nx : A → A) a l z : path nx a l z → nx a = default z (head l).
Proof. destruct l; simpl; [done|tauto]. Qed.

Lemma last_of_cons {A} (a x : A) l : last_of a (x :: l) = last_of x l.
Proof. unfold last_of. rewrite last_cons. by destruct (last l). Qed.

Lemma last_of_in {A} (a : A) l : last_of a l = a ∨ last_of a l ∈ l.
Proof.
  revert a. induction l as [|x l IH]; intros a; [by left|]. right. rewrite last_of_cons.
  destruct (IH x) as [->|?]; set_solver.
Qed.

Lemma last_of_reverse {A} (a : A) l : last_of a (reverse l) = default a (head l).
Proof. unfold last_of. by rewrite last_reverse. Qed.

Lemma fs_buf_upd i g f : fs_buf (upd_buf i g f) i = g (fs_buf f i).
Proof. cbn. by rewrite Z.eqb_refl. Qed.
Lemma fs_buf_upd_ne i g f j : j ≠ i → fs_buf (upd_buf i g f) j = fs_buf f j.
Proof. intros. cbn. by destruct (Z.eqb_spec j i). Qed.

Section links.
Implicit Types (nx : Z → Z) (a b z : Z) (l : list Z).

Lemma path_redirect nx a l z c :
  NoDup (a :: l) → path nx a l z → path (upd nx (last_of a l) c) a l c.
Proof.
  revert a. induction l as [|x l IH]; intros a Hnd; simpl.
  - intros _. unfold upd, last_of; simpl. by rewrite Z.eqb_refl.
  - intros [<- Hp]. apply NoDup_cons in Hnd as [Ha Hnd]. rewrite last_of_cons. split.
    + unfold upd. destruct (Z.eqb_spec a (last_of (nx a) l)) as [E|]; [|done].
      exfalso. apply Ha, elem_of_cons. pose proof (last_of_in (nx a) l) as E'. by rewrite <- E in E'.
    + by apply IH.
Qed.

(** Taking [b] out. *)
Lemma path_remove nx a l1 b l2 z :
  NoDup (a :: l1 ++ b :: l2) → path nx a (l1 ++ b :: l2) z →
  path (upd nx (last_of a l1) (nx b)) a (l1 ++ l2) z.
Proof.
  intros Hnd [H1 H2]%path_app. assert (NoDup (a :: l1)) as Hnd1.
  { apply NoDup_cons in Hnd as [? Hnd]. apply NoDup_app in Hnd as (? & ? & ?). constructor; set_solver. }
  assert (∀ y, y ∈ l2 → y ≠ last_of a l1) as Hne.
  { intros y Hy ->. apply NoDup_cons in Hnd as [Ha Hnd]. apply NoDup_app in Hnd as (_ & Hd & _).
    destruct (last_of_in a l1) as [E|E]; [rewrite E in Hy; set_solver|apply (Hd _ E); set_solver]. }
  pose proof (path_redirect nx a l1 b (nx b) Hnd1 H1) as H1'.
  destruct l2 as [|x l2]; simpl in H2.
  - rewrite app_nil_r. by rewrite <- H2.
  - destruct H2 as [E H2]. apply path_app. rewrite <- E in *. split; [done|].
    eapply path_ext; [|exact H2]. intros y Hy. unfold upd.
    destruct (Z.eqb_spec y (last_of a l1)) as [->|]; [|done]. exfalso.
    eapply (Hne (last_of a l1)); [|done]. set_solver.
Qed.

(** Putting [b] first and last. *)
Lemma path_push nx a b l z :
  b ≠ a → b ∉ l → a ∉ l → path nx a l z → path (upd (upd nx b (nx a)) a b) a (b :: l) z.
Proof.
  intros Hba Hb Ha Hp. simpl. unfold upd at 1. rewrite Z.eqb_refl. split; [done|].
  destruct l as [|x l]; simpl in *.
  - unfold upd. destruct (Z.eqb_spec b a); [done|]. by rewrite Z.eqb_refl.
  - destruct Hp as [<- Hp]. split.
    + unfold upd. destruct (Z.eqb_spec b a); [done|]. by rewrite Z.eqb_refl.
    + eapply path_ext; [|exact Hp]. intros y Hy. unfold upd.
      destruct (Z.eqb_spec y a); [set_solver|]. destruct (Z.eqb_spec y b); [set_solver|done].
Qed.

Lemma path_append nx a b l z :
  b ≠ a → b ∉ l → NoDup (a :: l) → path nx a l z →
  path (upd (upd nx b z) (last_of a l) b) a (l ++ [b]) z.
Proof.
  intros Hba Hb Hnd Hp. assert (last_of a l ≠ b) as Hl.
  { destruct (last_of_in a l) as [->|?]; [done|]. by intros <-. }
  apply path_app. split.
  - apply path_redirect with z; [done|]. eapply path_ext; [|exact Hp].
    intros y Hy. unfold upd. destruct (Z.eqb_spec y b) as [->|]; [|done]. by destruct Hy.
  - simpl. unfold upd. destruct (Z.eqb_spec b (last_of a l)); [congruence|]. by rewrite Z.eqb_refl.
Qed.
End links.

Definition nxt (f : fsys) (i : Z) : Z := b_next (fs_buf f i).
Definition prv (f : fsys) (i : Z) : Z := b_prev (fs_buf f i).

(** The buffers in the order of the list, the most recently used one first. *)
Record linked (f : fsys) (l : list Z) : Prop := {
  ln_next : path (nxt f) HEAD l HEAD;
  ln_prev : path (prv f) HEAD (reverse l) HEAD;
  ln_all : l ≡ₚ seqZ 0 NBUF
}.

Definition in_cache (i : Z) : Prop := 0 <= i < NBUF.

Lemma linked_elem f l i : linked f l → i ∈ l ↔ in_cache i.
Proof. intros [_ _ ->]. rewrite elem_of_seqZ. unfold in_cache. lia. Qed.

Lemma linked_ext f f' l :
  (∀ i, b_next (fs_buf f' i) = b_next (fs_buf f i) ∧ b_prev (fs_buf f' i) = b_prev (fs_buf f i)) →
  linked f l → linked f' l.
Proof.
  intros Hi [Hn Hp ?]. split; [| |done]; (eapply path_ext; [|eassumption]); intros y _; apply Hi.
Qed.

Lemma linked_nodup f l : linked f l → NoDup (HEAD :: l).
Proof.
  intros Hl. constructor; [rewrite linked_elem by done; unfold in_cache, HEAD; lia|].
  destruct Hl as [_ _ ->]. apply NoDup_seqZ.
Qed.

Lemma linked_length f l : linked f l → length l = Z.to_nat NBUF.
Proof. intros [_ _ ->]. by rewrite length_seqZ. Qed.

(** Everything but the links is the same. *)
Definition unlink (x : buf) : buf := x <| b_next := 0 |> <| b_prev := 0 |>.
Record links_only (f f' : fsys) : Prop := {
  lo_disk : fs_disk f' = fs_disk f;
  lo_log : fs_log f' = fs_log f;
  lo_sb : fs_sb f' = fs_sb f;
  lo_inode : ∀ i, fs_inode f' i = fs_inode f i;
  lo_file : ∀ i, fs_file f' i = fs_file f i;
  lo_buf : ∀ i, unlink (fs_buf f' i) = unlink (fs_buf f i)
}.

Lemma links_only_refl f : links_only f f.
Proof. done. Qed.
Lemma links_only_trans f1 f2 f3 : links_only f1 f2 → links_only f2 f3 → links_only f1 f3.
Proof. intros [] []. split; intros; etrans; eauto. Qed.

Lemma links_only_upd i g f : (∀ x, unlink (g x) = unlink x) → links_only f (upd_buf i g f).
Proof. intros Hg. split; try done. intros j. cbn. by destruct (j =? i). Qed.

Section set_links.
Implicit Types (i j v : Z) (f : fsys).

Lemma nxt_next i v f j : nxt (upd_buf i (λ x, x <| b_next := v |>) f) j = upd (nxt f) i v j.
Proof. unfold nxt, upd. cbn. by destruct (j =? i). Qed.
Lemma nxt_prev i v f j : nxt (upd_buf i (λ x, x <| b_prev := v |>) f) j = nxt f j.
Proof. unfold nxt. cbn. by destruct (j =? i). Qed.
Lemma prv_prev i v f j : prv (upd_buf i (λ x, x <| b_prev := v |>) f) j = upd (prv f) i v j.
Proof. unfold prv, upd. cbn. by destruct (j =? i). Qed.
Lemma prv_next i v f j : prv (upd_buf i (λ x, x <| b_next := v |>) f) j = prv f j.
Proof. unfold prv. cbn. by destruct (j =? i). Qed.
End set_links.

Definition set_next (i v : Z) : fsys → fsys := upd_buf i (λ x, x <| b_next := v |>).
Definition set_prev (i v : Z) : fsys → fsys := upd_buf i (λ x, x <| b_prev := v |>).

(** The list with [b] unlinked and then put first. *)
Definition unlinked (f : fsys) (b : Z) : fsys :=
  set_next (prv f b) (nxt f b) (set_prev (nxt f b) (prv f b) f).
Definition pushed (f : fsys) (b : Z) : fsys :=
  set_next HEAD b (set_prev (nxt f HEAD) b (set_prev b HEAD (set_next b (nxt f HEAD) f))).
Definition moved (f : fsys) (b : Z) : fsys := pushed (unlinked f b) b.

Lemma moved_links f b : links_only f (moved f b).
Proof. unfold moved, pushed, unlinked, set_next, set_prev. repeat (eapply links_only_trans; [|by apply links_only_upd]). done. Qed.

Lemma upd_same (g : Z → Z) i v : upd g i v i = v.
Proof. unfold upd. by rewrite Z.eqb_refl. Qed.
Lemma upd_other (g : Z → Z) i v j : j ≠ i → upd g i v j = g j.
Proof. unfold upd. intros. by destruct (Z.eqb_spec j i). Qed.

(** The neighbours of [b], and the list without it. *)
Lemma linked_split f l1 b l2 :
  linked f (l1 ++ b :: l2) →
  nxt f b = default HEAD (head l2) ∧ prv f b = last_of HEAD l1 ∧ b ≠ HEAD ∧ nxt f b ≠ b ∧ prv f b ≠ b.
Proof.
  intros Hl. pose proof (linked_nodup _ _ Hl) as Hnd. destruct Hl as [Hn Hp _].
  rewrite reverse_app, reverse_cons, <- app_assoc in Hp.
  apply path_app in Hn as [_ Hn]. apply path_app in Hp as [_ Hp].
  apply path_first in Hn, Hp. assert (default HEAD (head (reverse l1)) = last_of HEAD l1) as E.
  { rewrite <- last_of_reverse. by rewrite reverse_involutive. }
  rewrite E in Hp. apply NoDup_cons in Hnd as [H0 Hnd]. apply NoDup_app in Hnd as (_ & Hd & Hnd).
  apply NoDup_cons in Hnd as [Hb _]. assert (b ≠ HEAD) as Hbh by set_solver. split_and!; try done.
  - rewrite Hn. destruct l2 as [|x l2]; simpl; [done|]. set_solver.
  - rewrite Hp. destruct (last_of_in HEAD l1) as [->|Hin]; [done|]. intros E'. apply (Hd _ Hin). set_solver.
Qed.

Lemma nxt_unlinked f b j : nxt (unlinked f b) j = upd (nxt f) (prv f b) (nxt f b) j.
Proof. unfold unlinked, set_next, set_prev. rewrite nxt_next. unfold upd. by rewrite nxt_prev. Qed.
Lemma prv_unlinked f b j : prv (unlinked f b) j = upd (prv f) (nxt f b) (prv f b) j.
Proof. unfold unlinked, set_next, set_prev. by rewrite prv_next, prv_prev. Qed.
Lemma nxt_pushed f b j : nxt (pushed f b) j = upd (upd (nxt f) b (nxt f HEAD)) HEAD b j.
Proof.
  unfold pushed, set_next, set_prev. rewrite nxt_next. unfold upd. by rewrite !nxt_prev, nxt_next.
Qed.
Lemma prv_pushed f b j : prv (pushed f b) j = upd (upd (prv f) b HEAD) (nxt f HEAD) b j.
Proof.
  unfold pushed, set_next, set_prev. rewrite prv_next, prv_prev. unfold upd.
  rewrite prv_prev. unfold upd. by rewrite prv_next.
Qed.

(** Putting a new buffer first. *)
Lemma pushed_path f l b :
  NoDup (HEAD :: b :: l) → path (nxt f) HEAD l HEAD → path (prv f) HEAD (reverse l) HEAD →
  path (nxt (pushed f b)) HEAD (b :: l) HEAD ∧ path (prv (pushed f b)) HEAD (reverse (b :: l)) HEAD.
Proof.
  intros Hnd Hn Hp. apply NoDup_cons in Hnd as [H0 Hnd]. apply NoDup_cons in Hnd as [Hb Hnd].
  rewrite not_elem_of_cons in H0. destruct H0 as [Hb0 H0]. split.
  - eapply path_ext; [|apply path_push; [done|done|done|exact Hn]]. intros j _. apply nxt_pushed.
  - rewrite reverse_cons. eapply path_ext; [|apply path_append; [done| | |exact Hp]].
    + intros j _. by rewrite prv_pushed, last_of_reverse, (path_first _ _ _ _ Hn).
    + by rewrite elem_of_reverse.
    + constructor; [by rewrite elem_of_reverse|]. by rewrite reverse_Permutation.
Qed.

Lemma moved_linked f l1 b l2 :
  linked f (l1 ++ b :: l2) → linked (moved f b) (b :: l1 ++ l2).
Proof.
  intros Hl. destruct (linked_split _ _ _ _ Hl) as (En & Ep & _ & _ & _).
  pose proof (linked_nodup _ _ Hl) as Hnd. destruct Hl as [Hn Hp Ha].
  assert (NoDup (HEAD :: reverse l2 ++ b :: reverse l1)) as Hnd'.
  { assert (l1 ++ b :: l2 ≡ₚ reverse l2 ++ b :: reverse l1) as <-; [|done].
    rewrite !reverse_Permutation, <- !Permutation_middle. by rewrite (Permutation_app_comm l1). }
  pose proof (path_remove _ _ _ _ _ _ Hnd Hn) as Hn'.
  rewrite reverse_app, reverse_cons, <- app_assoc in Hp.
  pose proof (path_remove _ _ _ _ _ _ Hnd' Hp) as Hp'. rewrite last_of_reverse, <- En in Hp'. rewrite <- Ep in Hn'.
  rewrite <- reverse_app in Hp'. destruct (pushed_path (unlinked f b) (l1 ++ l2) b).
  - by rewrite Permutation_middle.
  - eapply path_ext; [|exact Hn']. intros j _. apply nxt_unlinked.
  - eapply path_ext; [|exact Hp']. intros j _. apply prv_unlinked.
  - split; [done|done|]. by rewrite Permutation_middle.
Qed.

(** * The disk driver *)

(** What a transfer does to the buffer and to the disk. *)
Definition transfer (i : Z) (write : bool) (f : fsys) : fsys :=
  let x := fs_buf f i in
  if write then
    upd_buf i (λ x, x <| b_disk := 0 |>)
      (f <| fs_disk := fs_disk f <| d_writes := d_writes (fs_disk f) ++ [(b_blockno x, b_data x)] |> |>)
  else upd_buf i (λ x, x <| b_disk := 0 |> <| b_data := dread (fs_disk f) (b_blockno x) |>) f.

(** The contract of [virtio_disk_rw], called without spinlocks: it moves the
    block and changes nothing else. *)
Class DiskDriver (J : vdisk → Prop) (rw : Z → bool → FM ()) : Prop :=
  disk_rw_ok S0 u m f s i w :
    at_fs J S0 m f s → ps_cur S0 = Some u → m_held m = [] → in_cache i →
    wp (rw i w) (λ _ s', at_fs J S0 m (transfer i w f) s') s.

(** * The cache *)

Section cache.
(** The device, and the lock state of a buffer in use. *)
Context (dv : Z) (mine : sleeplock).

Definition is_buf (x : buf) (n : Z) : Prop := b_dev x = dv ∧ b_blockno x = n.

#[export] Instance is_buf_dec x n : Decision (is_buf x n).
Proof. unfold is_buf. apply _. Defined.

(** References of the caller and of the log. *)
Definition refs (H : gmap Z Z) (X : gset Z) (n : Z) : Z :=
  (if decide (is_Some (H !! n)) then 1 else 0) + (if decide (n ∈ X) then 1 else 0).

Record buf_ok (D : Z → list Z) (H : gmap Z Z) (X : gset Z) (x : buf) : Prop := {
  bo_refs : b_refcnt x = if decide (b_dev x = dv) then refs H X (b_blockno x) else 0;
  bo_lock : if decide (b_dev x = dv ∧ is_Some (H !! b_blockno x))
            then b_lock x = mine else sl_locked (b_lock x) = 0;
  bo_data : b_dev x = dv → b_valid x ≠ 0 → b_data x = D (b_blockno x)
}.

Record cache (f : fsys) (D : Z → list Z) (H : gmap Z Z) (X : gset Z) : Prop := {
  c_linked : ∃ l, linked f l;
  c_ok : ∀ i, in_cache i → buf_ok D H X (fs_buf f i);
  c_uniq : ∀ i j n, in_cache i → in_cache j → is_buf (fs_buf f i) n → is_buf (fs_buf f j) n → i = j;
  c_held : ∀ n i, H !! n = Some i → in_cache i ∧ is_buf (fs_buf f i) n ∧ b_valid (fs_buf f i) ≠ 0;
  c_pin : ∀ n, n ∈ X → ∃ i, in_cache i ∧ is_buf (fs_buf f i) n ∧ b_valid (fs_buf f i) ≠ 0;
  c_clean : ∀ n, n ∉ X → H !! n = None → D n = dread (fs_disk f) n
}.

(** The cache depends on the buffers and on the disk only. *)
Lemma cache_same f f' D H X :
  (∀ i, fs_buf f' i = fs_buf f i) → fs_disk f' = fs_disk f → cache f D H X → cache f' D H X.
Proof.
  intros Hb Hd [(l & Hl) Hok Hu Hh Hp Hc]. split.
  - exists l. eapply linked_ext; [|done]. intros i. by rewrite Hb.
  - intros i Hi. rewrite Hb. by apply Hok.
  - intros i j n. rewrite !Hb. apply Hu.
  - intros n i. rewrite Hb. apply Hh.
  - intros n (i & Hi)%Hp. exists i. by rewrite Hb.
  - intros n. rewrite Hd. apply Hc.
Qed.

(** A step that changes the buffer of block [n], and what is said of [n]. *)
Lemma cache_step f f' D D' H H' X X' i n :
  cache f D H X → in_cache i → is_buf (fs_buf f i) n → (∃ l, linked f' l) →
  (∀ j, j ≠ i → unlink (fs_buf f' j) = unlink (fs_buf f j)) → is_buf (fs_buf f' i) n →
  (∀ k, k ≠ n → D' k = D k ∧ H' !! k = H !! k ∧ (k ∈ X' ↔ k ∈ X) ∧
                dread (fs_disk f') k = dread (fs_disk f) k) →
  buf_ok D' H' X' (fs_buf f' i) → H' !! n = None ∨ H' !! n = Some i →
  b_valid (fs_buf f' i) ≠ 0 →
  (n ∉ X' → H' !! n = None → D' n = dread (fs_disk f') n) →
  cache f' D' H' X'.
Proof.
  intros [_ Hok Hu Hh Hp Hc] Hi Hin Hl Hj Hin' Hk Hbi HHn Hv Hn.
  assert (∀ j, b_dev (fs_buf f' j) = b_dev (fs_buf f j) ∧ b_blockno (fs_buf f' j) = b_blockno (fs_buf f j)) as Hid.
  { intros j. destruct (decide (j = i)) as [->|Hne]; [destruct Hin, Hin'; split; congruence|].
    specialize (Hj j Hne). split; [by apply (f_equal b_dev) in Hj|by apply (f_equal b_blockno) in Hj]. }
  assert (∀ j k, is_buf (fs_buf f' j) k ↔ is_buf (fs_buf f j) k) as Hib.
  { intros j k. unfold is_buf. by destruct (Hid j) as [-> ->]. }
  assert (∀ j, in_cache j → j ≠ i → b_dev (fs_buf f j) = dv → b_blockno (fs_buf f j) ≠ n) as Hother.
  { intros j Hj' Hne Hd E. apply Hne. by apply (Hu j i n). }
  split; try done.
  - intros j Hj'. destruct (decide (j = i)) as [->|Hne]; [done|]. specialize (Hj j Hne).
    destruct (Hok j Hj') as [H1 H2 H3]. pose proof (Hother j Hj' Hne) as Ho.
    apply (f_equal b_refcnt) in Hj as E1. apply (f_equal b_lock) in Hj as E2.
    apply (f_equal b_valid) in Hj as E3. apply (f_equal b_data) in Hj as E4. cbn in E1, E2, E3, E4.
    destruct (Hid j) as [E5 E6]. unfold refs in *. split; rewrite ?E1, ?E2, ?E3, ?E4, ?E5, ?E6.
    + rewrite H1. destruct (decide (b_dev (fs_buf f j) = dv)) as [Hd|]; [|done].
      unfold refs. destruct (Hk _ (Ho Hd)) as (_ & -> & HX & _). f_equal. by apply decide_ext.
    + destruct (decide (b_dev (fs_buf f j) = dv)) as [Hd|Hd].
      * destruct (Hk _ (Ho Hd)) as (_ & -> & _). done.
      * rewrite decide_False in H2 by tauto. by rewrite decide_False by tauto.
    + intros Hd Hv'. destruct (Hk _ (Ho Hd)) as (-> & _). auto.
  - intros j1 j2 k H1 H2. rewrite !Hib. by apply Hu.
  - intros k j Hkj. destruct (decide (k = n)) as [->|Hne].
    + destruct HHn as [E|E]; rewrite E in Hkj; [done|]. by simplify_eq.
    + destruct (Hk k Hne) as (_ & E & _). rewrite E in Hkj. apply Hh in Hkj as (H1 & H2 & H3).
      split_and!; [done|by apply Hib|]. destruct (decide (j = i)) as [->|Hne']; [done|].
      specialize (Hj j Hne'). apply (f_equal b_valid) in Hj. cbn in Hj. by rewrite Hj.
  - intros k Hkx. destruct (decide (k = n)) as [->|Hne]; [by exists i|].
    destruct (Hk k Hne) as (_ & _ & HX & _). apply HX, Hp in Hkx as (j & H1 & H2 & H3). exists j.
    split_and!; [done|by apply Hib|]. destruct (decide (j = i)) as [->|Hne']; [done|].
    specialize (Hj j Hne'). apply (f_equal b_valid) in Hj. cbn in Hj. by rewrite Hj.
  - intros k Hkx HkH. destruct (decide (k = n)) as [->|Hne]; [by apply Hn|].
    destruct (Hk k Hne) as (-> & E & HX & ->). apply Hc; [by rewrite <- HX|by rewrite <- E].
Qed.

(** A free buffer is taken over for a block that is not cached. *)
Lemma cache_recycle f f' D H X i n :
  cache f D H X → in_cache i → b_refcnt (fs_buf f i) = 0 →
  (∀ j, in_cache j → ¬ is_buf (fs_buf f j) n) → H !! n = None → (∃ l, linked f' l) →
  (∀ j, j ≠ i → unlink (fs_buf f' j) = unlink (fs_buf f j)) → fs_disk f' = fs_disk f →
  is_buf (fs_buf f' i) n → b_valid (fs_buf f' i) ≠ 0 → b_refcnt (fs_buf f' i) = 1 →
  b_lock (fs_buf f' i) = mine → b_data (fs_buf f' i) = dread (fs_disk f) n →
  cache f' D (<[n := i]> H) X.
Proof.
  intros [_ Hok Hu Hh Hp Hc] Hi Hr Hno HHn Hl Hj Hd Hin Hv Hr' Hlk Hdat.
  assert (n ∉ X) as HnX. { intros (j & ? & ? & _)%Hp. by apply (Hno j). }
  assert (∀ j, in_cache j → j ≠ i → ∀ k, is_buf (fs_buf f' j) k ↔ is_buf (fs_buf f j) k) as Hib.
  { intros j _ Hne k. specialize (Hj j Hne). unfold is_buf.
    apply (f_equal b_dev) in Hj as E1. apply (f_equal b_blockno) in Hj as E2. cbn in E1, E2. by rewrite E1, E2. }
  assert (∀ k, is_buf (fs_buf f i) k → H !! k = None ∧ k ∉ X) as Hfree.
  { intros k [E1 E2]. destruct (Hok i Hi) as [E _ _]. rewrite decide_True in E by done.
    unfold refs in E. rewrite Hr, E2 in E. split.
    - destruct (H !! k); [|done]. rewrite decide_True in E by done. case_decide; lia.
    - intros ?. rewrite (decide_True (P := k ∈ X)) in E by done. case_decide; lia. }
  split; try done.
  - intros j Hj'. destruct (decide (j = i)) as [->|Hne].
    + destruct Hin as [E1 E2]. split; rewrite ?E1, ?E2.
      * rewrite decide_True by done. unfold refs. rewrite lookup_insert_eq.
        by rewrite decide_True, decide_False by eauto.
      * rewrite lookup_insert_eq. by rewrite decide_True by eauto.
      * intros _ _. by rewrite Hdat, Hc.
    + pose proof (Hj j Hne) as E. pose proof (Hno j Hj') as Hnj. destruct (Hok j Hj') as [H1 H2 H3].
      apply (f_equal b_refcnt) in E as E1. apply (f_equal b_lock) in E as E2. apply (f_equal b_valid) in E as E3.
      apply (f_equal b_data) in E as E4. apply (f_equal b_dev) in E as E5. apply (f_equal b_blockno) in E as E6.
      cbn in E1, E2, E3, E4, E5, E6. split; rewrite ?E1, ?E2, ?E3, ?E4, ?E5, ?E6; [| |done].
      * rewrite H1. destruct (decide (b_dev (fs_buf f j) = dv)) as [Hdv|]; [|done]. unfold refs.
        rewrite lookup_insert_ne; [done|]. intros ->. by apply Hnj.
      * destruct (decide (b_dev (fs_buf f j) = dv)) as [Hdv|].
        { rewrite lookup_insert_ne; [done|]. intros ->. by apply Hnj. }
        rewrite decide_False in H2 by tauto. by rewrite decide_False by tauto.
  - intros j1 j2 k H1 H2. destruct (decide (j1 = i)) as [->|N1], (decide (j2 = i)) as [->|N2]; [done| | |].
    + intros [_ Hk] Hk'. rewrite Hib in Hk' by done. destruct Hin as [_ E]. exfalso. apply (Hno j2 H2). assert (k = n) as <- by congruence. done.
    + intros Hk' [_ Hk]. rewrite Hib in Hk' by done. destruct Hin as [_ E]. exfalso. apply (Hno j1 H1). assert (k = n) as <- by congruence. done.
    + rewrite !Hib by done. by apply Hu.
  - intros k j [[-> ->]|[Hne Hkj]]%lookup_insert_Some; [done|]. destruct (Hh _ _ Hkj) as (H1 & H2 & H3).
    assert (j ≠ i) as Hji. { intros ->. destruct (Hfree k H2). congruence. }
    split_and!; [done|by apply Hib|]. pose proof (Hj j Hji) as E. apply (f_equal b_valid) in E. cbn in E. by rewrite E.
  - intros k HkX. destruct (Hp k HkX) as (j & H1 & H2 & H3). exists j.
    assert (j ≠ i) as Hji. { intros ->. by destruct (Hfree k H2). }
    split_and!; [done|by apply Hib|]. pose proof (Hj j Hji) as E. apply (f_equal b_valid) in E. cbn in E. by rewrite E.
  - intros k Hk [HkH _]%lookup_insert_None. rewrite Hd. by apply Hc.
Qed.

(** When fewer than [NBUF] blocks are in use, a buffer is free. *)
Lemma cache_free f D H X :
  cache f D H X → Z.of_nat (size (dom H ∪ X)) < NBUF → ∃ i, in_cache i ∧ b_refcnt (fs_buf f i) = 0.
Proof.
  intros [_ Hok Hu _ _ _] Hsz.
  destruct (decide (Exists (λ i, b_refcnt (fs_buf f i) = 0) (seqZ 0 NBUF))) as [He|He].
  { apply Exists_exists in He as (i & Hi & ?). exists i. split; [|done]. apply elem_of_seqZ in Hi. unfold in_cache. lia. }
  rewrite <- Forall_Exists_neg, Forall_forall in He. exfalso.
  assert (∀ i, i ∈ seqZ 0 NBUF → in_cache i ∧ b_dev (fs_buf f i) = dv ∧ b_blockno (fs_buf f i) ∈ dom H ∪ X) as Hall.
  { intros i Hi. pose proof (He i Hi) as Hr. apply elem_of_seqZ in Hi.
    assert (in_cache i) as Hi' by (unfold in_cache; lia). destruct (Hok i Hi') as [E _ _].
    destruct (decide (b_dev (fs_buf f i) = dv)); [|done]. split_and!; [done|done|].
    rewrite elem_of_union, elem_of_dom. unfold refs in E.
    destruct (decide (is_Some _)); [by left|]. destruct (decide (_ ∈ X)); [by right|done]. }
  assert (NoDup (map (λ i, b_blockno (fs_buf f i)) (seqZ 0 NBUF))) as Hnd.
  { apply NoDup_fmap_2_strong; [|apply NoDup_seqZ]. intros i j Hi Hj E.
    destruct (Hall i Hi) as (? & ? & _), (Hall j Hj) as (? & ? & _). by apply (Hu i j (b_blockno (fs_buf f j))). }
  assert (list_to_set (map (λ i, b_blockno (fs_buf f i)) (seqZ 0 NBUF)) ⊆ dom H ∪ X) as Hsub.
  { intros k Hk. apply elem_of_list_to_set, list_elem_of_fmap in Hk as (i & -> & Hi). by apply Hall. }
  apply subseteq_size in Hsub. rewrite size_list_to_set, length_fmap, length_seqZ in Hsub by done. lia.
Qed.
End cache.

(** Only the buffers change. *)
Record bufs_only (f f' : fsys) : Prop := {
  bu_disk : fs_disk f' = fs_disk f;
  bu_log : fs_log f' = fs_log f;
  bu_sb : fs_sb f' = fs_sb f;
  bu_inode : ∀ i, fs_inode f' i = fs_inode f i;
  bu_file : ∀ i, fs_file f' i = fs_file f i
}.

Lemma bufs_only_trans f1 f2 f3 : bufs_only f1 f2 → bufs_only f2 f3 → bufs_only f1 f3.
Proof. intros [] []. split; intros; etrans; eauto. Qed.

Lemma pin_set (n : Z) (X : gset Z) :
  (∀ k, k ≠ n → (k ∈ {[n]} ∪ X ↔ k ∈ X)) ∧ n ∈ {[n]} ∪ X ∧
  (∀ k, k ≠ n → (k ∈ X ∖ {[n]} ↔ k ∈ X)) ∧ n ∉ X ∖ {[n]}.
Proof. set_solver. Qed.

Lemma held_same m h : m_held m = h → m <| m_held := h |> = m.
Proof. intros <-. by destruct m. Qed.

Section ops.
Context (J : vdisk → Prop) (cfg : sched_cfg) (swtch : option Z → option Z → FM ()).
Context (rw : Z → bool → FM ()) `{HD : !DiskDriver J rw}.
Context (S0 : pstate fsys) (u : Z) (dv : Z).
Hypothesis Hu : ps_cur S0 = Some u.

Abbreviation at_fs := (at_fs J S0).
Abbreviation mine := (taken S0 u).
Abbreviation cache := (cache dv mine).
Abbreviation is_buf := (is_buf dv).

Definition bump (d : Z) (x : buf) : buf := x <| b_refcnt := u32 (b_refcnt x + d) |>.

Lemma bget_cached_spec m f s l n :
  at_fs (m <| m_held := [BcacheLock] |>) f s → m_held m = [] → linked f l →
  (∀ j, in_cache j → is_buf (fs_buf f j) n → sl_locked (b_lock (fs_buf f j)) = 0) →
  wp (bget_cached cfg swtch dv n) (λ r s', match r with
    | Some b => in_cache b ∧ is_buf (fs_buf f b) n ∧
        at_fs m (sl_upd (BufLk b) (λ _, mine) (upd_buf b (bump 1) f)) s'
    | None => (∀ j, in_cache j → ¬ is_buf (fs_buf f j) n) ∧
        at_fs (m <| m_held := [BcacheLock] |>) f s' end) s.
Proof.
  intros Hs Hm Hl Hfree. unfold bget_cached. fs_step. fs_step.
  apply (wp_while_path (nxt f) l HEAD HEAD (λ l1 s1, at_fs (m <| m_held := [BcacheLock] |>) f s1 ∧
    ∀ j, j ∈ l1 → ¬ is_buf (fs_buf f j) n)); [apply Hl| | | |].
  - rewrite (linked_length _ _ Hl). by vm_compute.
  - intros l1 b l2 s1 Hls [Hs1 Hno]. assert (in_cache b) as Hb by (rewrite <- linked_elem by done; set_solver).
    apply wp_if_f; [apply Z.eqb_neq; unfold in_cache, HEAD in *; lia|].
    fs_step. fs_step. fs_step. fs_step. apply wp_if; intros E; b2p.
    + fs_step. fs_step. fs_step. fs_step; [apply not_elem_of_nil|]. fs_step.
      eapply wp_mono; [eapply (acquiresleep_spec J cfg swtch S0 u Hu (BufLk b) m); [done| |]|].
      * rewrite Hm. apply not_elem_of_nil.
      * cbn. rewrite Z.eqb_refl. by apply Hfree.
      * intros [] s4 Hs4. fs_step. done.
    + fs_step. fs_step. fs_step. split; [done|]. split; [done|].
      intros j [Hj|Hj]%elem_of_app; [by apply Hno|]. apply list_elem_of_singleton in Hj as ->. unfold BioOps.is_buf. destruct E; b2p; tauto.
  - intros s1 [Hs1 Hno]. apply wp_if_t; [done|]. fs_step. split; [|done].
    intros j Hj. apply Hno. by rewrite linked_elem by done.
  - split; [done|]. intros j. by rewrite elem_of_nil.
Qed.

(** The victim is the last buffer in the list that nobody uses. *)
Lemma bget_recycle_spec m f s l n :
  at_fs (m <| m_held := [BcacheLock] |>) f s → m_held m = [] → linked f l →
  (∀ j, in_cache j → b_refcnt (fs_buf f j) = 0 → sl_locked (b_lock (fs_buf f j)) = 0) →
  (∃ j, in_cache j ∧ b_refcnt (fs_buf f j) = 0) →
  wp (bget_recycle cfg swtch dv n) (λ b s', in_cache b ∧ b_refcnt (fs_buf f b) = 0 ∧
    (∃ l1 l2, l = l1 ++ b :: l2 ∧ ∀ j, j ∈ l2 → b_refcnt (fs_buf f j) ≠ 0) ∧
    at_fs m (sl_upd (BufLk b) (λ _, mine) (upd_buf b (λ x, x <| b_dev := dv |> <| b_blockno := n |>
      <| b_valid := 0 |> <| b_refcnt := 1 |>) f)) s') s.
Proof.
  intros Hs Hm Hl Hfree Hex. unfold bget_recycle. fs_step. fs_step.
  apply (wp_while_path (prv f) (reverse l) HEAD HEAD (λ l1 s1, at_fs (m <| m_held := [BcacheLock] |>) f s1 ∧
    ∀ j, j ∈ l1 → b_refcnt (fs_buf f j) ≠ 0)); [apply Hl| | | |].
  - rewrite length_reverse, (linked_length _ _ Hl). by vm_compute.
  - intros l1 b l2 s1 Hls [Hs1 Hno].
    assert (in_cache b) as Hb by (rewrite <- linked_elem, <- elem_of_reverse by done; rewrite Hls; set_solver).
    apply wp_if_f; [apply Z.eqb_neq; unfold in_cache, HEAD in *; lia|].
    fs_step. fs_step. apply wp_if; intros E; b2p.
    + fs_step. fs_step. fs_step. fs_step; [apply not_elem_of_nil|]. fs_step.
      eapply wp_mono; [eapply (acquiresleep_spec J cfg swtch S0 u Hu (BufLk b) m); [done| |]|].
      * rewrite Hm. apply not_elem_of_nil.
      * cbn. rewrite Z.eqb_refl. by apply Hfree.
      * intros [] s4 Hs4. fs_step. split_and!; try done. exists (reverse l2), (reverse l1). split.
        { rewrite <- (reverse_involutive l), Hls, reverse_app, reverse_cons, <- app_assoc. done. }
        intros j Hj. apply Hno. by rewrite elem_of_reverse in Hj.
    + fs_step. fs_step. fs_step. split; [done|]. split; [done|].
      intros j [Hj|Hj]%elem_of_app; [by apply Hno|]. by apply list_elem_of_singleton in Hj as ->.
  - intros s1 [Hs1 Hno]. destruct Hex as (j & Hj & Hr). exfalso. apply (Hno j); [|done].
    by rewrite elem_of_reverse, linked_elem.
  - split; [done|]. intros j. by rewrite elem_of_nil.
Qed.

(** The buffer found or recycled by [bget]. *)
Definition got (f f' : fsys) (n b : Z) : Prop :=
  (is_buf (fs_buf f b) n ∧ f' = sl_upd (BufLk b) (λ _, mine) (upd_buf b (bump 1) f)) ∨
  ((∀ j, in_cache j → ¬ is_buf (fs_buf f j) n) ∧ b_refcnt (fs_buf f b) = 0 ∧
   f' = sl_upd (BufLk b) (λ _, mine) (upd_buf b (λ x, x <| b_dev := dv |> <| b_blockno := n |>
      <| b_valid := 0 |> <| b_refcnt := 1 |>) f)).

Lemma cache_unlocked f D H X i :
  cache f D H X → in_cache i → (∀ n, is_buf (fs_buf f i) n → H !! n = None) →
  sl_locked (b_lock (fs_buf f i)) = 0.
Proof.
  intros Hc Hi Hn. destruct (c_ok _ _ _ _ _ _ Hc i Hi) as [_ Hl _].
  rewrite decide_False in Hl; [done|]. intros [Hd [j Hj]]. rewrite (Hn _ (conj Hd eq_refl)) in Hj. done.
Qed.

Lemma bget_spec m f s D H X n :
  at_fs m f s → m_held m = [] → cache f D H X → H !! n = None →
  n ∈ X ∨ Z.of_nat (size (dom H ∪ X)) < NBUF →
  wp (bget cfg swtch dv n) (λ b s', in_cache b ∧ ∃ f', at_fs m f' s' ∧ got f f' n b) s.
Proof.
  intros Hs Hm Hc HHn Hroom. destruct (c_linked _ _ _ _ _ _ Hc) as [l Hl]. unfold bget.
  fs_step. fs_step; [rewrite Hm; apply not_elem_of_nil|]. rewrite Hm in *. fs_step.
  eapply wp_mono; [eapply (bget_cached_spec m f _ l n); [done|done|done|]|].
  { intros j Hj Hjn. eapply cache_unlocked; [done|done|]. intros k Hk. by destruct Hjn, Hk; simplify_eq. }
  intros [b|] s1.
  - intros (Hb & Hbn & Hs1). fs_step. split; [done|]. eexists. split; [done|]. by left.
  - intros [Hno Hs1]. eapply wp_mono; [eapply (bget_recycle_spec m f _ l n); [done|done|done| |]|].
    + intros j Hj Hr. eapply cache_unlocked; [done|done|]. intros k [E1 E2].
      destruct (c_ok _ _ _ _ _ _ Hc j Hj) as [E _ _]. rewrite decide_True in E by done. unfold refs in E.
      rewrite Hr, E2 in E. destruct (H !! k); [|done]. rewrite decide_True in E by done. case_decide; lia.
    + destruct Hroom as [HX|Hsz]; [|by eapply cache_free].
      destruct (c_pin _ _ _ _ _ _ Hc n HX) as (i & Hi & Hin & _). by destruct (Hno i).
    + intros b s2 (Hb & Hr & _ & Hs2). split; [done|]. eexists. split; [done|]. by right.
Qed.

(** The caller takes the cached buffer [i] of block [n]. *)
Lemma cache_take f f' D H X i n :
  cache f D H X → in_cache i → is_buf (fs_buf f i) n → H !! n = None → (∃ l, linked f' l) →
  (∀ j, j ≠ i → unlink (fs_buf f' j) = unlink (fs_buf f j)) → fs_disk f' = fs_disk f →
  is_buf (fs_buf f' i) n → b_valid (fs_buf f' i) ≠ 0 → b_refcnt (fs_buf f' i) = b_refcnt (fs_buf f i) + 1 →
  b_lock (fs_buf f' i) = mine → b_data (fs_buf f' i) = D n →
  cache f' D (<[n := i]> H) X.
Proof.
  intros Hc Hi Hin HHn Hl Hj Hd Hin' Hv Hr Hlk Hdat.
  eapply (cache_step dv mine f f' D D H _ X X i n); try done.
  - intros k Hk. rewrite lookup_insert_ne, Hd by done. done.
  - destruct (c_ok _ _ _ _ _ _ Hc i Hi) as [E _ _]. destruct Hin as [E1 E2], Hin' as [E3 E4].
    rewrite decide_True, E2 in E by done. unfold refs in E. rewrite HHn in E.
    rewrite (decide_False (P := is_Some None)) in E by (by intros []).
    split; rewrite ?E3, ?E4; [|by rewrite lookup_insert_eq, decide_True by eauto|done].
    rewrite decide_True by done. unfold refs. rewrite lookup_insert_eq, decide_True by eauto. lia.
  - right. apply lookup_insert_eq.
  - intros _ E. by rewrite lookup_insert_eq in E.
Qed.

Lemma got_links f f' n b : got f f' n b →
  (∀ j, j ≠ b → fs_buf f' j = fs_buf f j) ∧ bufs_only f f' ∧ is_buf (fs_buf f' b) n ∧
  b_lock (fs_buf f' b) = mine ∧
  ∀ j, b_next (fs_buf f' j) = b_next (fs_buf f j) ∧ b_prev (fs_buf f' j) = b_prev (fs_buf f j).
Proof.
  intros [[[] ->]|(_ & _ & ->)]; cbn [sl_upd]; (split_and!;
    [by intros; rewrite !fs_buf_upd_ne|done|by rewrite !fs_buf_upd|by rewrite !fs_buf_upd|]);
    intros j; (destruct (decide (j = b)) as [->|]; [by rewrite !fs_buf_upd|by rewrite !fs_buf_upd_ne]).
Qed.

(** With the right data, the buffer found or recycled belongs to the caller. *)
Lemma got_cache f f1 f2 D H X n b :
  cache f D H X → in_cache b → H !! n = None → got f f1 n b →
  (∀ j, j ≠ b → fs_buf f2 j = fs_buf f1 j) → fs_disk f2 = fs_disk f1 →
  (∃ v k, v ≠ 0 ∧ fs_buf f2 b = fs_buf f1 b <| b_valid := v |> <| b_disk := k |> <| b_data := D n |>) →
  cache f2 D (<[n := b]> H) X.
Proof.
  intros Hc Hb HHn Hgot Hj Hd (v & k & Hv & Hx). destruct (got_links _ _ _ _ Hgot) as (Hj1 & Hbu & Hin & Hlk & Hln).
  destruct (c_linked _ _ _ _ _ _ Hc) as [l Hl]. assert (linked f2 l) as Hl2.
  { eapply linked_ext; [|exact Hl]. intros j. destruct (decide (j = b)) as [->|]; [rewrite Hx; apply Hln|].
    rewrite Hj by done. apply Hln. }
  assert (∀ j, j ≠ b → unlink (fs_buf f2 j) = unlink (fs_buf f j)) as Hul by (intros; by rewrite Hj, Hj1).
  assert (fs_disk f2 = fs_disk f) as Hd' by (rewrite Hd; apply Hbu).
  destruct Hgot as [[Hin0 ->]|(Hno & Hr & ->)].
  - eapply (cache_take f f2 D H X b n); try done; rewrite ?Hx; try done; [by exists l|].
    cbn [sl_upd]. rewrite !fs_buf_upd. cbn. apply u32_small.
    destruct (c_ok _ _ _ _ _ _ Hc b Hb) as [-> _ _]. unfold refs. repeat case_decide; lia.
  - assert (n ∉ X) as HnX. { intros (j & ? & ? & _)%(c_pin _ _ _ _ _ _ Hc). by apply (Hno j). }
    eapply (cache_recycle dv mine f f2 D H X b n); try done; rewrite ?Hx; try done; [by exists l| |].
    + cbn [sl_upd]. by rewrite !fs_buf_upd.
    + cbn. by apply (c_clean _ _ _ _ _ _ Hc).
Qed.

Lemma bread_spec m f s D H X n :
  at_fs m f s → m_held m = [] → cache f D H X → H !! n = None →
  n ∈ X ∨ Z.of_nat (size (dom H ∪ X)) < NBUF →
  wp (bread cfg swtch rw dv n) (λ b s', ∃ f', at_fs m f' s' ∧ cache f' D (<[n := b]> H) X ∧
    bufs_only f f') s.
Proof.
  intros Hs Hm Hc HHn Hroom. unfold bread. fs_step. wp_use bget_spec; try done.
  intros b s1 (Hb & f1 & Hs1 & Hgot). destruct (got_links _ _ _ _ Hgot) as (Hj & Hbu & Hin & Hlk & _).
  fs_step. fs_step. fs_step. apply wp_when; intros Hv; b2p; unfold truth in Hv; b2p.
  - fs_step. eapply wp_mono; [by eapply HD|]. intros [] s2 Hs2. fs_step. fs_step. eexists. split; [done|].
    split; [|by destruct Hbu]. eapply (got_cache f f1); try done.
    + intros j Hne. cbn [transfer]. by rewrite !fs_buf_upd_ne.
    + assert (dread (fs_disk f1) (b_blockno (fs_buf f1 b)) = D n) as Ed.
      { rewrite (proj2 Hin), (bu_disk _ _ Hbu). symmetry. apply (c_clean _ _ _ _ _ _ Hc); [|done].
        intros (i & Hi & Hin0 & Hvi)%(c_pin _ _ _ _ _ _ Hc).
        destruct Hgot as [[Hin' ->]|(Hno & _)]; [|by apply (Hno i)].
        assert (i = b) as -> by by apply (c_uniq _ _ _ _ _ _ Hc i b n).
        cbn [sl_upd] in Hv. by rewrite !fs_buf_upd in Hv. }
      exists 1, 0. split; [done|]. cbn [transfer]. rewrite !fs_buf_upd. by rewrite <- Ed.
  - fs_step. eexists. split; [done|]. split; [|done]. eapply (got_cache f f1); try done.
    exists (b_valid (fs_buf f1 b)), (b_disk (fs_buf f1 b)). split; [done|].
    destruct Hgot as [[[Hdv Hbn] ->]|(Hno & _ & ->)]; cbn [sl_upd] in *; rewrite !fs_buf_upd in *; [|done].
    rewrite <- Hbn, <- (bo_data _ _ _ _ _ _ (c_ok _ _ _ _ _ _ Hc b Hb) Hdv Hv). by destruct (fs_buf f b).
Qed.

(** The contents with block [n] replaced. *)
Definition updD (D : Z → list Z) (n : Z) (d : list Z) : Z → list Z := λ k, if k =? n then d else D k.

Lemma cache_ext f D D' H X : (∀ k, D k = D' k) → cache f D H X → cache f D' H X.
Proof.
  intros HD' [? Hok ? ? ? Hc]. split; try done.
  - intros i Hi. destruct (Hok i Hi) as [? ? Hd]. split; try done. intros. rewrite Hd by done. apply HD'.
  - intros k ? ?. rewrite <- HD'. by apply Hc.
Qed.

(** A step that changes only the buffer [i] of [n], and keeps its links. *)
Lemma cache_step_buf f f' D D' H H' X X' i n g :
  cache f D H X → in_cache i → is_buf (fs_buf f i) n → f' ≡ upd_buf i g (f <| fs_disk := fs_disk f' |>) →
  (∀ x, b_next (g x) = b_next x ∧ b_prev (g x) = b_prev x ∧ b_dev (g x) = b_dev x ∧
        b_blockno (g x) = b_blockno x ∧ b_valid (g x) = b_valid x) → b_valid (fs_buf f i) ≠ 0 →
  (∀ k, k ≠ n → D' k = D k ∧ H' !! k = H !! k ∧ (k ∈ X' ↔ k ∈ X) ∧
                dread (fs_disk f') k = dread (fs_disk f) k) →
  buf_ok dv mine D' H' X' (g (fs_buf f i)) → H' !! n = None ∨ H' !! n = Some i →
  (n ∉ X' → H' !! n = None → D' n = dread (fs_disk f') n) → cache f' D' H' X'.
Proof.
  intros Hc Hi Hin Hf' Hg Hv Hk Hb HHn Hn. destruct (c_linked _ _ _ _ _ _ Hc) as [l Hl].
  assert (∀ j, fs_buf f' j = if j =? i then g (fs_buf f i) else fs_buf f j) as Hbuf.
  { intros j. rewrite (fe_buf _ _ Hf'). cbn. by destruct (Z.eqb_spec j i) as [->|]. }
  destruct (Hg (fs_buf f i)) as (G1 & G2 & G3 & G4 & G5). destruct Hin as [E1 E2].
  eapply (cache_step dv mine f f' D D' H H' X X' i n); try done.
  - exists l. eapply linked_ext; [|done]. intros j. rewrite Hbuf. by destruct (Z.eqb_spec j i) as [->|].
  - intros j Hj. rewrite Hbuf. by destruct (Z.eqb_spec j i).
  - unfold BioOps.is_buf. rewrite Hbuf, Z.eqb_refl, G3, G4. done.
  - by rewrite Hbuf, Z.eqb_refl.
  - by rewrite Hbuf, Z.eqb_refl, G5.
Qed.

Lemma cache_held f D H X n i :
  cache f D H X → H !! n = Some i →
  in_cache i ∧ is_buf (fs_buf f i) n ∧ b_valid (fs_buf f i) ≠ 0 ∧ b_lock (fs_buf f i) = mine ∧
  b_data (fs_buf f i) = D n ∧ b_refcnt (fs_buf f i) = refs H X n.
Proof.
  intros Hc HHn. destruct (c_held _ _ _ _ _ _ Hc n i HHn) as (Hi & [E1 E2] & Hv).
  destruct (c_ok _ _ _ _ _ _ Hc i Hi) as [H1 H2 H3]. rewrite decide_True in H1 by done.
  rewrite decide_True in H2 by (rewrite E2, HHn; eauto). rewrite H1, H3, E2 by done. done.
Qed.

(** The caller changes the data of a buffer it holds. *)
Lemma cache_data f D H X n i g :
  cache f D H X → H !! n = Some i →
  cache (upd_buf i (λ x, x <| b_data := g (b_data x) |>) f) (updD D n (g (D n))) H X.
Proof.
  intros Hc HHn. destruct (cache_held _ _ _ _ _ _ Hc HHn) as (Hi & Hin & Hv & Hlk & Hd & Hr).
  eapply (cache_step_buf f _ D _ H H X X i n); try done; [| |by right|].
  - intros k Hk. unfold updD. by destruct (Z.eqb_spec k n).
  - destruct (c_ok _ _ _ _ _ _ Hc i Hi) as [H1 H2 H3]. split; cbn; try done.
    intros _ _. unfold updD. rewrite (proj2 Hin), Z.eqb_refl. by rewrite Hd.
  - intros _ E. by rewrite HHn in E.
Qed.

Lemma holding_held f D H X n i m s :
  at_fs m f s → m_held m = [] → cache f D H X → H !! n = Some i →
  wp (holdingsleep (BufLk i)) (λ r s', r = true ∧ at_fs m f s') s.
Proof.
  intros Hs Hm Hc HHn. destruct (cache_held _ _ _ _ _ _ Hc HHn) as (_ & _ & _ & Hlk & _).
  eapply wp_mono; [eapply (holdingsleep_spec J S0 u Hu (BufLk i) m f); [done|rewrite Hm; apply not_elem_of_nil]|].
  intros r s' [-> Hs']. split; [|done]. apply bool_decide_eq_true. cbn. by rewrite Hlk.
Qed.

Lemma bwrite_spec m f s D H X n i :
  at_fs m f s → m_held m = [] → cache f D H X → H !! n = Some i →
  wp (bwrite rw i) (λ _ s', ∃ f', at_fs m f' s' ∧ cache f' D H X ∧
    bufs_only (f <| fs_disk := fs_disk f <| d_writes := d_writes (fs_disk f) ++ [(n, D n)] |> |>) f') s.
Proof.
  intros Hs Hm Hc HHn. unfold bwrite. fs_step. wp_use holding_held; try done. intros r s1 [-> Hs1]. cbn [negb].
  destruct (cache_held _ _ _ _ _ _ Hc HHn) as (Hi & Hin & Hv & Hlk & Hd & Hr).
  eapply wp_mono; [by eapply HD|]. intros [] s2 Hs2. eexists. split; [done|]. split; [|split; try done].
  - eapply (cache_step_buf f _ D D H H X X i n (λ x, x <| b_disk := 0 |>)); try done; [| |by right|].
    + intros k Hk. split_and!; try done. cbn [transfer fs_disk]. cbn. rewrite (proj2 Hin).
      change (dread (fs_disk f <| d_writes := d_writes (fs_disk f) ++ [(n, b_data (fs_buf f i))] |>) k = dread (fs_disk f) k).
      rewrite dread_write. by destruct (Z.eqb_spec k n).
    + by destruct (c_ok _ _ _ _ _ _ Hc i Hi).
    + intros _ E. by rewrite HHn in E.
  - cbn [transfer]. cbn. by rewrite (proj2 Hin), Hd.
Qed.

Lemma move_front_spec m f s l1 b l2 :
  at_fs m f s → linked f (l1 ++ b :: l2) →
  wp (move_front b) (λ _ s', at_fs m (moved f b) s') s.
Proof.
  intros Hs Hl. destruct (linked_split _ _ _ _ Hl) as (_ & _ & Hb & Hn & Hp). unfold move_front.
  fs_step. fs_step. fs_step. fs_step. fs_step. fs_step. fs_step. fs_step.
  change (b_prev (fs_buf ?f b)) with (prv f b). change (b_next (fs_buf ?f b)) with (nxt f b).
  rewrite prv_prev, upd_other by done. fs_step. fs_step.
  change (b_next (fs_buf ?f b)) with (nxt f b). rewrite nxt_prev. fs_step. fs_step. fs_step. fs_step.
  fs_step. fs_step. fs_step. fs_step. fs_step. fs_step. fs_step. fs_step. fs_step.
  change (b_next (fs_buf ?f HEAD)) with (nxt f HEAD) in *. rewrite nxt_prev, nxt_next, upd_other in * by done.
  done.
Qed.

(** The caller gives its buffer back. *)
Lemma cache_drop f f' D H X n i :
  cache f D H X → H !! n = Some i → n ∈ X ∨ D n = dread (fs_disk f) n → (∃ l, linked f' l) →
  links_only (upd_buf i (λ x, x <| b_refcnt := u32 (b_refcnt x - 1) |> <| b_lock := mkSleeplock 0 0 |>) f) f' →
  cache f' D (delete n H) X ∧ bufs_only f f'.
Proof.
  intros Hc HHn Hn Hl' [L1 L2 L3 L4 L5 L6]. split; [|done].
  destruct (cache_held _ _ _ _ _ _ Hc HHn) as (Hi & [I1 I2] & Hv & Hlk & Hd & Hr).
  pose proof (L6 i) as E. rewrite fs_buf_upd in E.
  apply (f_equal b_refcnt) in E as E1. apply (f_equal b_lock) in E as E2. apply (f_equal b_valid) in E as E3.
  apply (f_equal b_data) in E as E4. apply (f_equal b_dev) in E as E5. apply (f_equal b_blockno) in E as E6.
  cbn in E1, E2, E3, E4, E5, E6.
  eapply (cache_step dv mine f f' D D H _ X X i n); try done; rewrite ?E3; try done.
  - intros j Hj. rewrite L6. by rewrite fs_buf_upd_ne.
  - split; congruence.
  - intros k Hk. by rewrite lookup_delete_ne, L1.
  - split; rewrite ?E1, ?E2, ?E3, ?E4, ?E5, ?E6, ?I1, ?I2; [| |by rewrite Hd].
    + rewrite decide_True by done. rewrite Hr. unfold refs. rewrite lookup_delete_eq, HHn, decide_True by eauto.
      rewrite (decide_False (P := is_Some None)) by (by intros []). case_decide; done.
    + rewrite decide_False; [done|]. rewrite lookup_delete_eq. by intros [_ []].
  - left. apply lookup_delete_eq.
  - intros HX _. rewrite L1. by destruct Hn.
Qed.

Lemma brelse_spec m f s D H X n i :
  at_fs m f s → m_held m = [] → cache f D H X → H !! n = Some i →
  n ∈ X ∨ D n = dread (fs_disk f) n →
  wp (brelse cfg i) (λ _ s', ∃ f', at_fs m f' s' ∧ cache f' D (delete n H) X ∧ bufs_only f f') s.
Proof.
  intros Hs Hm Hc HHn Hn. unfold brelse. fs_step. wp_use holding_held; try done. intros r s1 [-> Hs1]. cbn [negb].
  destruct (cache_held _ _ _ _ _ _ Hc HHn) as (Hi & _). destruct (c_linked _ _ _ _ _ _ Hc) as [l Hl]. fs_step.
  wp_use (releasesleep_spec J cfg S0 (BufLk i)); [done|rewrite Hm; apply not_elem_of_nil|rewrite Hm; intros; apply not_elem_of_nil|].
  intros [] s2 Hs2. fs_step. fs_step; [rewrite Hm; apply not_elem_of_nil|]. fs_step. fs_step. fs_step. fs_step. fs_step.
  set (f2 := upd_buf i _ _) in *. rewrite Hm in *.
  assert (linked f2 l) as Hl2.
  { eapply linked_ext; [|exact Hl]. intros j. unfold f2. cbn [sl_upd].
    destruct (decide (j = i)) as [->|]; [by rewrite !fs_buf_upd|by rewrite !fs_buf_upd_ne]. }
  assert (links_only (upd_buf i (λ x, x <| b_refcnt := u32 (b_refcnt x - 1) |> <| b_lock := mkSleeplock 0 0 |>) f) f2) as Hlo.
  { unfold f2. split; try done. intros j. cbn [sl_upd].
    destruct (decide (j = i)) as [->|]; [by rewrite !fs_buf_upd|by rewrite !fs_buf_upd_ne]. }
  apply wp_when; intros Hz.
  - assert (∃ l1 l2, l = l1 ++ i :: l2) as (l1 & l2 & ->) by (apply list_elem_of_split; by rewrite linked_elem).
    wp_use move_front_spec; [done|done|]. intros [] s4 Hs4. fs_step; [apply not_elem_of_nil|].
    eexists. split; [done|]. eapply cache_drop; try done; [eexists; by apply moved_linked|].
    eapply links_only_trans; [done|apply moved_links].
  - fs_step; [apply not_elem_of_nil|]. eexists. split; [done|]. eapply cache_drop; try done. by exists l.
Qed.

(** A reference of the log on a buffer that the caller holds. *)
Lemma cache_pin f D H X X' n i d :
  cache f D H X → H !! n = Some i → (∀ k, k ≠ n → (k ∈ X' ↔ k ∈ X)) →
  (d = 1 ∧ (n ∉ X) ∧ (n ∈ X')) ∨ (d = -1 ∧ (n ∈ X) ∧ (n ∉ X')) →
  cache (upd_buf i (λ x, x <| b_refcnt := u32 (b_refcnt x + d) |>) f) D H X'.
Proof.
  intros Hc HHn HX Hd. destruct (cache_held _ _ _ _ _ _ Hc HHn) as (Hi & Hin & Hv & Hlk & Hdat & Hr).
  eapply (cache_step_buf f _ D D H H X X' i n); try done; [| |by right|].
  - intros k Hk. by split_and!; try apply HX.
  - destruct (c_ok _ _ _ _ _ _ Hc i Hi) as [H1 H2 H3]. split; cbn; try done.
    rewrite Hr, (proj1 Hin), (proj2 Hin), decide_True by done. unfold refs. rewrite HHn.
    rewrite !(decide_True (P := is_Some (Some i))) by eauto.
    destruct Hd as [(-> & ? & ?)|(-> & ? & ?)]; repeat case_decide; done.
  - intros _ E. by rewrite HHn in E.
Qed.

Lemma bpin_spec m f s D H X n i :
  at_fs m f s → BcacheLock ∉ m_held m → cache f D H X → H !! n = Some i → n ∉ X →
  wp (bpin i) (λ _ s', ∃ f', at_fs m f' s' ∧ cache f' D H ({[n]} ∪ X) ∧ bufs_only f f') s.
Proof.
  intros Hs Hm Hc HHn HX. unfold bpin. fs_step. fs_step; [done|]. fs_step. fs_step. fs_step; [done|].
  eexists. split; [done|]. split; [|done]. eapply cache_pin; [done|done|by apply pin_set|]. left. split_and!; [done|done|by apply pin_set].
Qed.

Lemma bunpin_spec m f s D H X n i :
  at_fs m f s → BcacheLock ∉ m_held m → cache f D H X → H !! n = Some i → n ∈ X →
  wp (bunpin i) (λ _ s', ∃ f', at_fs m f' s' ∧ cache f' D H (X ∖ {[n]}) ∧ bufs_only f f') s.
Proof.
  intros Hs Hm Hc HHn HX. unfold bunpin. fs_step. fs_step; [done|]. fs_step. fs_step. fs_step; [done|].
  eexists. split; [done|]. split; [|done].
  change (λ x, x <| b_refcnt := u32 (b_refcnt x - 1) |>) with (λ x, x <| b_refcnt := u32 (b_refcnt x + -1) |>).
  eapply cache_pin; [done|done|by apply pin_set|]. right. split_and!; [done|done|by apply pin_set].
Qed.

(** ** Boot *)

(** The buffers as [binit] has put them into the list so far. *)
Record linking (f0 f : fsys) (l : list Z) : Prop := {
  lk_next : path (nxt f) HEAD l HEAD;
  lk_prev : path (prv f) HEAD (reverse l) HEAD;
  lk_lock : ∀ i, i ∈ l → sl_locked (b_lock (fs_buf f i)) = 0;
  lk_rest : bufs_only f0 f;
  lk_buf : ∀ i, b_refcnt (fs_buf f i) = b_refcnt (fs_buf f0 i) ∧ b_dev (fs_buf f i) = b_dev (fs_buf f0 i)
}.

Lemma linking_push f0 f f' l b :
  linking f0 f l → NoDup (HEAD :: b :: l) →
  links_only (upd_buf b (λ x, x <| b_lock := mkSleeplock 0 0 |>) f) f' →
  (∀ i, b_next (fs_buf f' i) = nxt (pushed f b) i ∧ b_prev (fs_buf f' i) = prv (pushed f b) i) →
  linking f0 f' (b :: l).
Proof.
  intros [Hn Hp Hlk [] Hb] Hnd [L1 L2 L3 L4 L5 L6] Hl. destruct (pushed_path f l b Hnd Hn Hp) as [Hn' Hp'].
  assert (∀ i, b_lock (fs_buf f' i) = (if decide (i = b) then mkSleeplock 0 0 else b_lock (fs_buf f i)) ∧
    b_refcnt (fs_buf f' i) = b_refcnt (fs_buf f i) ∧ b_dev (fs_buf f' i) = b_dev (fs_buf f i)) as Hf'.
  { intros i. pose proof (L6 i) as E. destruct (decide (i = b)) as [->|].
    - rewrite fs_buf_upd in E. split_and!; [by apply (f_equal b_lock) in E|by apply (f_equal b_refcnt) in E|by apply (f_equal b_dev) in E].
    - rewrite fs_buf_upd_ne in E by done. split_and!; [by apply (f_equal b_lock) in E|by apply (f_equal b_refcnt) in E|by apply (f_equal b_dev) in E]. }
  split.
  - eapply path_ext; [|exact Hn']. intros j _. apply Hl.
  - eapply path_ext; [|exact Hp']. intros j _. apply Hl.
  - intros i Hi. destruct (Hf' i) as (-> & _). case_decide; [done|]. apply Hlk. set_solver.
  - split; intros; etrans; eauto.
  - intros i. destruct (Hf' i) as (_ & -> & ->). apply Hb.
Qed.

Lemma binit_spec m f s :
  at_fs m f s → m_held m = [] →
  (∀ i, in_cache i → b_refcnt (fs_buf f i) = 0 ∧ b_dev (fs_buf f i) ≠ dv) →
  wp binit (λ _ s', ∃ f', at_fs m f' s' ∧ cache f' (dread (fs_disk f)) ∅ ∅ ∧ bufs_only f f') s.
Proof.
  intros Hs Hm H0. unfold binit. fs_step. fs_step; [rewrite Hm; apply not_elem_of_nil|].
  fs_step. fs_step. fs_step. fs_step.
  eapply (wp_for _ _ (λ l s, ∃ f1, at_fs m f1 s ∧ linking f f1 (reverse l))).
  - eexists. split; [done|]. rewrite reverse_nil. split; [| |by intros i; rewrite elem_of_nil|done|].
    + cbn [path]. unfold nxt. by rewrite fs_buf_upd.
    + rewrite reverse_nil. cbn [path]. unfold prv. by rewrite !fs_buf_upd.
    + intros i. cbn. by destruct (i =? HEAD).
  - intros l b l' s1 Hl (f1 & Hs1 & Hf1).
    assert (NoDup (HEAD :: b :: reverse l)) as Hnd.
    { rewrite reverse_Permutation. assert (NoDup (HEAD :: seqZ 0 NBUF)) as Hnd.
      { constructor; [rewrite elem_of_seqZ; unfold HEAD; lia|apply NoDup_seqZ]. }
      rewrite Hl in Hnd. change (HEAD :: l ++ b :: l') with ((HEAD :: l) ++ b :: l') in Hnd.
      rewrite (cons_middle b), app_assoc in Hnd. apply NoDup_app in Hnd as [Hnd _].
      assert (HEAD :: b :: l ≡ₚ (HEAD :: l) ++ [b]) as ->; [|done]. apply perm_skip, Permutation_cons_append. }
    assert (b ≠ HEAD) as Hb by (apply NoDup_cons in Hnd as [? _]; set_solver).
    assert ((HEAD =? b) = false) as E0 by (apply Z.eqb_neq; done).
    fs_step. fs_step. fs_step. fs_step. fs_step. fs_step. fs_step.
    wp_use (initsleeplock_spec J S0 (BufLk b)); [done|rewrite Hm; apply not_elem_of_nil|]. intros [] s2 Hs2.
    fs_step. fs_step. fs_step. fs_step. fs_step. eexists. split; [done|].
    rewrite reverse_app, reverse_singleton. eapply (linking_push f f1); [done|done| |].
    + split; try done. intros j. cbn. unfold unlink. rewrite ?E0.
      repeat match goal with |- context [?a =? ?b] => destruct (Z.eqb_spec a b) end; subst; try congruence; try done.
    + intros j. rewrite nxt_pushed, prv_pushed. unfold nxt, prv, upd. cbn. rewrite ?E0.
      repeat match goal with |- context [?a =? ?b] => destruct (Z.eqb_spec a b) end; subst; try congruence; try done.
  - intros s1 (f1 & Hs1 & [Hn Hp Hlk [] Hb]). exists f1. split; [done|]. split; [|done].
    assert (∀ i, in_cache i → b_dev (fs_buf f1 i) ≠ dv) as Hdev by (intros i Hi; destruct (Hb i) as [_ ->]; by apply H0).
    split.
    + eexists. split; [done|done|]. apply reverse_Permutation.
    + intros i Hi. split.
      * rewrite decide_False by by apply Hdev. destruct (Hb i) as [-> _]. by apply H0.
      * rewrite decide_False by (intros [? _]; by eapply Hdev). apply Hlk.
        rewrite elem_of_reverse, elem_of_seqZ. unfold in_cache in Hi. lia.
      * intros E. by destruct (Hdev i Hi).
    + intros i j n Hi _ [E _]. by destruct (Hdev i Hi).
    + intros n i. by rewrite lookup_empty.
    + intros n. by rewrite elem_of_empty.
    + intros n _ _. by rewrite bu_disk0.
Qed.
End ops.

(** * A disk that completes every request at once *)

Definition ideal_rw (i : Z) (w : bool) : FM () := modfs (transfer i w).

#[export] Instance ideal_driver : DiskDriver (λ _, True) ideal_rw.
Proof.
  intros S0 u m f s i w [Hm Hc Hp Hv Hf] _ _ _. apply wp_modify. split; cbn; try done.
  destruct Hf as [E1 E2 E3 E4 E5 E6]. unfold transfer.
  destruct w; split; cbn; try done; try (by rewrite E1, E2); intros j; rewrite ?E2, ?E1; done.
Qed.
