(* ===== verification/LogOps.v ===== *)
(** What the log promises.  [commit] writes the modified blocks to the log, then
    the header, then the blocks to their home locations, and clears the header;
    [recover_from_log] replays a log whose header was written. *)
From S2P Require Import Prelude CString Spinlock Riscv Kalloc Vm Proc FsState Sleeplock Bio Log FsFrame BioOps.

(** * Headers *)

(** [block[i..]] of the header in block [d]. *)
Fixpoint fill_header (i : Z) (hs : list Z) (d : list Z) : list Z :=
  match hs with [] => d | b :: hs' => fill_header (i + 1) hs' (hdr_put i b d) end.
Definition header (hs : list Z) (d : list Z) : list Z :=
  fill_header 1 hs (hdr_put 0 (Z.of_nat (length hs)) d).

Definition hdr_room (k : Z) : Prop := 0 <= k < BSIZE / 4.

Lemma hdr_put_length k v d :
  hdr_room k → length d = Z.to_nat BSIZE → length (hdr_put k v d) = Z.to_nat BSIZE.
Proof.
  intros Hk Hd. unfold hdr_put, put32. rewrite splice_length, Hd; [done|unfold hdr_room in Hk; lia|].
  rewrite le_enc_length, Hd. unfold hdr_room, BSIZE in *. change (1024 / 4) with 256 in Hk. lia.
Qed.

Lemma hdr_get_put k v d :
  hdr_room k → length d = Z.to_nat BSIZE → - 2 ^ 31 <= v < 2 ^ 31 → hdr_get k (hdr_put k v d) = v.
Proof.
  intros Hk Hd Hv. unfold hdr_get, hdr_put, get32, put32.
  change 4 with (Z.of_nat 4) at 2. rewrite <- (le_enc_length 4 (u32 v)) at 1.
  rewrite slice_splice; [|unfold hdr_room in Hk; lia|].
  - rewrite le_dec_enc by (pose proof (u32_range v); lia). rewrite i32_u32. by apply i32_small.
  - rewrite le_enc_length, Hd. unfold hdr_room, BSIZE in *. change (1024 / 4) with 256 in Hk. lia.
Qed.

Lemma hdr_get_put_ne k k' v d :
  hdr_room k → hdr_room k' → k ≠ k' → length d = Z.to_nat BSIZE →
  hdr_get k (hdr_put k' v d) = hdr_get k d.
Proof.
  intros Hk Hk' Hne Hd. unfold hdr_get, hdr_put, get32, put32. f_equal. f_equal.
  unfold hdr_room, BSIZE in *. change (1024 / 4) with 256 in *.
  apply slice_splice_ne; rewrite ?le_enc_length; lia.
Qed.

Lemma fill_header_length i hs d :
  0 <= i → i + Z.of_nat (length hs) <= BSIZE / 4 → length d = Z.to_nat BSIZE →
  length (fill_header i hs d) = Z.to_nat BSIZE.
Proof.
  revert i d. induction hs as [|b hs IH]; intros i d Hi Hn Hd; simpl; [done|]. cbn [length] in Hn.
  apply IH; [lia|lia|]. apply hdr_put_length; [unfold hdr_room; lia|done].
Qed.

Lemma fill_header_below i hs d k :
  0 <= k < i → i + Z.of_nat (length hs) <= BSIZE / 4 → length d = Z.to_nat BSIZE →
  hdr_get k (fill_header i hs d) = hdr_get k d.
Proof.
  revert i d. induction hs as [|b hs IH]; intros i d Hk Hn Hd; simpl; [done|]. cbn [length] in Hn.
  rewrite IH; [|lia|lia|apply hdr_put_length; [unfold hdr_room; lia|done]].
  apply hdr_get_put_ne; unfold hdr_room; lia.
Qed.

Lemma fill_header_get i hs d (t : nat) b :
  0 <= i → i + Z.of_nat (length hs) <= BSIZE / 4 → length d = Z.to_nat BSIZE →
  Forall (λ b, - 2 ^ 31 <= b < 2 ^ 31) hs → hs !! t = Some b →
  hdr_get (i + Z.of_nat t) (fill_header i hs d) = b.
Proof.
  revert i d t. induction hs as [|c hs IH]; intros i d t Hi Hn Hd Hf Ht; [done|]. cbn [length] in Hn.
  apply Forall_cons in Hf as [Hc Hf].
  assert (length (hdr_put i c d) = Z.to_nat BSIZE) by (apply hdr_put_length; [unfold hdr_room; lia|done]).
  destruct t as [|t]; cbn in Ht |- *.
  - injection Ht as ->. rewrite fill_header_below by lia. rewrite Z.add_0_r.
    apply hdr_get_put; [unfold hdr_room; lia|done|lia].
  - replace (i + Z.of_nat (S t)) with (i + 1 + Z.of_nat t) by lia. apply IH; (done || lia).
Qed.

Lemma fill_header_snoc i hs b d :
  fill_header i (hs ++ [b]) d = hdr_put (i + Z.of_nat (length hs)) b (fill_header i hs d).
Proof.
  revert i d. induction hs as [|c hs IH]; intros i d; simpl; [by rewrite Z.add_0_r|].
  rewrite IH. f_equal. lia.
Qed.

Section header.
Context (hs d : list Z).
Hypothesis Hn : Z.of_nat (length hs) < LOGSIZE.
Hypothesis Hd : length d = Z.to_nat BSIZE.
Hypothesis Hr : Forall (λ b, - 2 ^ 31 <= b < 2 ^ 31) hs.

Lemma header_length : length (header hs d) = Z.to_nat BSIZE.
Proof.
  unfold header. apply fill_header_length; [lia| |]; [change (BSIZE / 4) with 256; change LOGSIZE with 30 in Hn; lia|].
  apply hdr_put_length; [done|done].
Qed.

Lemma header_n : hdr_get 0 (header hs d) = Z.of_nat (length hs).
Proof.
  unfold header. change LOGSIZE with 30 in Hn.
  rewrite fill_header_below; [|lia|change (BSIZE / 4) with 256; lia|by apply hdr_put_length].
  apply hdr_get_put; [done|done|lia].
Qed.

Lemma header_block (t : nat) b : hs !! t = Some b → hdr_get (1 + Z.of_nat t) (header hs d) = b.
Proof.
  intros Ht. unfold header. change LOGSIZE with 30 in Hn.
  apply fill_header_get; [lia|change (BSIZE / 4) with 256; lia|by apply hdr_put_length|done|done].
Qed.
End header.

(** * Block writes *)

(** Between [f] and [f'] the disk completed the writes [ws]; the log, the inodes
    and the files are the same. *)
Record wrote (f : fsys) (ws : list (Z * list Z)) (f' : fsys) : Prop := {
  wr_image : d_image (fs_disk f') = d_image (fs_disk f);
  wr_writes : d_writes (fs_disk f') = d_writes (fs_disk f) ++ ws;
  wr_log : fs_log f' = fs_log f;
  wr_sb : fs_sb f' = fs_sb f;
  wr_inode : ∀ i, fs_inode f' i = fs_inode f i;
  wr_file : ∀ i, fs_file f' i = fs_file f i
}.

Lemma wrote_trans f ws1 f1 ws2 f2 : wrote f ws1 f1 → wrote f1 ws2 f2 → wrote f (ws1 ++ ws2) f2.
Proof.
  intros [? W1 ? ? ? ?] [? W2 ? ? ? ?]. split; try congruence. by rewrite W2, W1, app_assoc.
Qed.

Lemma wrote_bufs f ws f1 f2 : wrote f ws f1 → bufs_only f1 f2 → wrote f ws f2.
Proof. intros [] []. split; congruence. Qed.

Lemma bufs_wrote f f1 : bufs_only f f1 → wrote f [] f1.
Proof. intros [Hd ? ? ? ?]. split; try done; rewrite Hd, ?app_nil_r; done. Qed.

Lemma wrote_write f n d f1 :
  bufs_only (f <| fs_disk := fs_disk f <| d_writes := d_writes (fs_disk f) ++ [(n, d)] |> |>) f1 →
  wrote f [(n, d)] f1.
Proof. intros [Hd ? ? ? ?]. split; try done; by rewrite Hd. Qed.

Lemma wrote_dread f ws f' b : wrote f ws f' → dread (fs_disk f') b = foldl put_block (dread (fs_disk f)) ws b.
Proof. intros [Hi Hw _ _ _ _]. unfold dread. by rewrite Hi, Hw, foldl_app. Qed.

(** Blocks that are written do not depend on what was there before. *)
Lemma put_blocks_agree D D' ws b :
  b ∈ ws.*1 ∨ D b = D' b → foldl put_block D ws b = foldl put_block D' ws b.
Proof.
  revert D D'. induction ws as [|w ws IH]; intros D D' H; simpl.
  - destruct H as [H|H]; [by apply elem_of_nil in H|done].
  - apply IH. cbn in H. rewrite elem_of_cons in H. unfold put_block.
    destruct (Z.eqb_spec b w.1); [by right|]. tauto.
Qed.

Lemma put_block_same D n d : put_block D (n, d) n = d.
Proof. unfold put_block. cbn. by rewrite Z.eqb_refl. Qed.

Lemma put_blocks_ext D D' ws b : (∀ k, D k = D' k) → foldl put_block D ws b = foldl put_block D' ws b.
Proof.
  revert D D'. induction ws as [|w ws IH]; intros D D' H; simpl; [done|]. apply IH. intros k.
  unfold put_block. by destruct (k =? w.1).
Qed.

Lemma put_blocks_notin D ws b : b ∉ ws.*1 → foldl put_block D ws b = D b.
Proof.
  revert D. induction ws as [|w ws IH]; intros D Hb; simpl; [done|]. cbn in Hb.
  rewrite not_elem_of_cons in Hb. destruct Hb as [Hb1 Hb2]. rewrite IH by done.
  unfold put_block. by destruct (Z.eqb_spec b w.1).
Qed.

Lemma put_blocks_take D ws b t : b ∉ ws.*1 → foldl put_block D (take t ws) b = D b.
Proof.
  intros Hb. apply put_blocks_notin. rewrite fmap_take. intros (i & ? & _)%elem_of_take. apply Hb.
  by eapply list_elem_of_lookup_2.
Qed.

Lemma put_blocks_in D ws b d : NoDup (ws.*1) → (b, d) ∈ ws → foldl put_block D ws b = d.
Proof.
  revert D. induction ws as [|w ws IH]; intros D Hnd Hb; [by apply elem_of_nil in Hb|].
  cbn in Hnd. apply NoDup_cons in Hnd as [Hw Hnd]. apply elem_of_cons in Hb as [<-|Hb]; [|by apply IH].
  simpl. rewrite put_blocks_notin by done. unfold put_block. cbn. by rewrite Z.eqb_refl.
Qed.

(** * The operations *)

(** The header in memory lists the blocks [hs]. *)
Record log_ok (dv st : Z) (hs : list Z) (lg : log) : Prop := {
  lg_dev : l_dev lg = dv;
  lg_start : l_start lg = st;
  lg_n : lh_n lg = Z.of_nat (length hs);
  lg_blocks : take (length hs) (lh_block lg) = hs;
  lg_len : length (lh_block lg) = Z.to_nat LOGSIZE
}.

(** The fields that the header does not concern. *)
Definition log_ctl (lg : log) := (l_size lg, l_outstanding lg, l_committing lg).

(** The log's blocks: the header and [LOGSIZE - 1] data blocks. *)
Definition in_log (st b : Z) : Prop := st <= b < st + LOGSIZE.

(** Blocks that fit the log and lie outside of it. *)
Record loggable (st : Z) (hs : list Z) : Prop := {
  la_start : 0 <= st ∧ st + LOGSIZE < 2 ^ 31;
  la_len : Z.of_nat (length hs) < LOGSIZE;
  la_nodup : NoDup hs;
  la_range : ∀ b, b ∈ hs → 0 <= b < 2 ^ 31 ∧ ¬ in_log st b
}.

(** The writes of [write_log] and of [install_trans] when block [k] holds [D k]. *)
Definition log_writes (st : Z) (hs : list Z) (D : Z → list Z) : list (Z * list Z) :=
  imap (λ i b, (st + 1 + Z.of_nat i, D b)) hs.
Definition home_writes (st : Z) (hs : list Z) (D : Z → list Z) : list (Z * list Z) :=
  imap (λ i b, (b, D (st + 1 + Z.of_nat i))) hs.

Lemma log_writes_fst st hs D : (log_writes st hs D).*1 = seqZ (st + 1) (Z.of_nat (length hs)).
Proof.
  unfold log_writes. apply list_eq. intros i. rewrite list_lookup_fmap, list_lookup_imap.
  destruct (hs !! i) as [b|] eqn:E; simpl.
  - apply lookup_lt_Some in E as Hi. symmetry. apply lookup_seqZ. lia.
  - symmetry. apply lookup_seqZ_ge. apply lookup_ge_None in E. lia.
Qed.

Lemma home_writes_fst st hs D : (home_writes st hs D).*1 = hs.
Proof.
  unfold home_writes. apply list_eq. intros i. rewrite list_lookup_fmap, list_lookup_imap.
  by destruct (hs !! i).
Qed.

Section ops.
Context (J : vdisk → Prop) (cfg : sched_cfg) (swtch : option Z → option Z → FM ()).
Context (rw : Z → bool → FM ()) `{HD : !DiskDriver J rw}.
Context (S0 : pstate fsys) (u : Z) (dv : Z).
Hypothesis Hu : ps_cur S0 = Some u.

Abbreviation at_fs := (at_fs J S0).
Abbreviation cache := (cache dv (taken S0 u)).
Abbreviation bread_ok := (bread_spec J cfg swtch rw S0 u dv Hu).
Abbreviation bwrite_ok := (bwrite_spec J rw S0 u dv Hu).
Abbreviation brelse_ok := (brelse_spec J cfg S0 u dv Hu).
Abbreviation bunpin_ok := (bunpin_spec J S0 u dv).

Lemma get_lhblock_spec m f s st hs (t : nat) b :
  at_fs m f s → log_ok dv st hs (fs_log f) → hs !! t = Some b →
  wp (get_lhblock (Z.of_nat t)) (λ r s', r = b ∧ s' = s) s.
Proof.
  intros Hs [_ _ _ Hb _] Ht. unfold get_lhblock. fs_step. fs_step. rewrite Nat2Z.id.
  rewrite <- Hb in Ht. apply lookup_take_Some in Ht as [-> _].
  apply wp_if_t; [by apply Z.leb_le; lia|]. by fs_step.
Qed.

Lemma copy_data_spec m f s D H X n n' i j :
  at_fs m f s → cache f D H X → H !! n = Some i → H !! n' = Some j →
  wp (copy_data i j) (λ _ s', ∃ f', at_fs m f' s' ∧ cache f' (put_block D (n, D n')) H X ∧ bufs_only f f') s.
Proof.
  intros Hs Hc Hn Hn'. unfold copy_data. fs_step. fs_step.
  destruct (cache_held S0 u dv _ _ _ _ _ _ Hc Hn') as (_ & _ & _ & _ & -> & _). fs_step.
  eexists. split; [done|]. split; [|done]. apply (cache_data S0 u dv f D H X n i (λ _, D n') Hc Hn).
Qed.

(** The state of the loops of the log. *)
Definition at_writes (m : mach) (f : fsys) (D : Z → list Z) (X : gset Z) (ws : list (Z * list Z))
    (s : pstate fsys) : Prop :=
  ∃ f1, at_fs m f1 s ∧ cache f1 (foldl put_block D ws) ∅ X ∧ wrote f ws f1.

Lemma at_writes_here m f D X s : at_fs m f s → cache f D ∅ X → at_writes m f D X [] s.
Proof. intros. exists f. split_and!; [done|done|by apply bufs_wrote]. Qed.

Lemma log_block_spec m f s D X st hs (t : nat) b :
  at_fs m f s → m_held m = [] → cache f D ∅ X → log_ok dv st hs (fs_log f) → loggable st hs →
  hs !! t = Some b → b ∈ X → (∀ k, k ∈ X → ¬ in_log st k) → Z.of_nat (size X) < NBUF →
  wp (log_block cfg swtch rw (Z.of_nat t)) (λ _ s', at_writes m f D X [(st + 1 + Z.of_nat t, D b)] s') s.
Proof.
  intros Hs Hm Hc Hlg [Hst Hlen Hnd Hrg] Hb HbX HXl HX. unfold log_block.
  pose proof (lookup_lt_Some _ _ _ Hb) as Ht. change LOGSIZE with 30 in *.
  destruct (Hrg b ltac:(by eapply list_elem_of_lookup_2)) as [Hb1 Hb2].
  assert (u32 (st + Z.of_nat t + 1) = st + 1 + Z.of_nat t) as ET by (rewrite u32_small; lia).
  set (T := st + 1 + Z.of_nat t) in *. assert (T ∉ X) as HTX.
  { intros HT. apply (HXl T HT). unfold in_log, T. change LOGSIZE with 30. lia. }
  assert (T ≠ b) as HTb by (intros ->; done).
  fs_step. fs_step. rewrite (lg_dev _ _ _ _ Hlg). fs_step. fs_step. rewrite (lg_start _ _ _ _ Hlg), ET.
  fs_step. wp_use bread_ok; [done|done|done|done|right; by rewrite dom_empty_L, union_empty_l_L|].
  intros i s2 (f2 & Hs2 & Hc2 & Hb2'). fs_step.
  wp_use get_lhblock_spec; [done|by rewrite (bu_log _ _ Hb2')|done|]. intros r s2' [-> ->].
  rewrite u32_small by lia. fs_step.
  wp_use bread_ok; [done|done|done|by rewrite lookup_insert_ne|by left|].
  intros j s3 (f3 & Hs3 & Hc3 & Hb3). fs_step.
  wp_use copy_data_spec; [done|done|rewrite lookup_insert_ne by done; apply lookup_insert_eq|apply lookup_insert_eq|].
  intros [] s4 (f4 & Hs4 & Hc4 & Hb4). fs_step.
  wp_use bwrite_ok; [done|done|done|rewrite lookup_insert_ne by done; apply lookup_insert_eq|].
  intros [] s5 (f5 & Hs5 & Hc5 & Hb5%wrote_write). rewrite put_block_same in Hb5. fs_step.
  wp_use brelse_ok; [done|done|done|apply lookup_insert_eq|by left|].
  intros [] s6 (f6 & Hs6 & Hc6 & Hb6). rewrite delete_insert_id in Hc6 by by rewrite lookup_insert_ne.
  wp_use brelse_ok; [done|done|done|apply lookup_insert_eq| |].
  { right. rewrite (bu_disk _ _ Hb6), (wrote_dread _ _ _ _ Hb5). simpl. by rewrite !put_block_same. }
  intros [] s7 (f7 & Hs7 & Hc7 & Hb7). rewrite delete_insert_id in Hc7 by done.
  exists f7. split_and!; [done|done|]. eapply wrote_bufs; [|done]. eapply wrote_bufs; [|done].
  eapply (wrote_trans _ []); [|done]. apply bufs_wrote. eauto using bufs_only_trans.
Qed.

(** The loops over the entries of the header: entry [t] writes [ws !! t]. *)
Lemma log_loop m f s D (X : nat → gset Z) st hs ws (body : Z → FM ()) :
  at_fs m f s → cache f D ∅ (X 0%nat) → log_ok dv st hs (fs_log f) → loggable st hs → length ws = length hs →
  (∀ t w f1 s1, ws !! t = Some w → at_fs m f1 s1 → fs_log f1 = fs_log f →
     cache f1 (foldl put_block D (take t ws)) ∅ (X t) →
     wp (body (Z.of_nat t)) (λ _ s', at_writes m f1 (foldl put_block D (take t ws)) (X (S t)) [w] s') s1) →
  wp (while (λ tail, n ← getl lh_n; if tail <? n then body tail ;; mret (inl (tail + 1)) else mret (inr ())) 0)
    (λ _ s', at_writes m f D (X (length hs)) ws s') s.
Proof.
  intros Hs Hc Hlg Hla Hws Hbody.
  eapply (wp_while (λ tail s1, ∃ t : nat, tail = Z.of_nat t ∧ (t <= length hs)%nat ∧
    at_writes m f D (X t) (take t ws) s1) (λ tail _, Z.of_nat (length hs) - tail)).
  2: { exists 0%nat. split_and!; [done|lia|]. rewrite take_0. by apply at_writes_here. }
  2: { destruct Hla. change LOGSIZE with 30 in *. lia. }
  intros tail s1 (t & -> & Ht & f1 & Hs1 & Hc1 & Hw1). pose proof (wr_log _ _ _ Hw1) as El.
  fs_step. fs_step. rewrite El, (lg_n _ _ _ _ Hlg). destruct (decide (t < length hs)%nat) as [Hlt|Hge].
  2: { apply wp_if_f; [apply Z.ltb_ge; lia|]. fs_step. replace (length hs) with t by lia.
       rewrite take_ge in * by lia. by exists f1. }
  apply wp_if_t; [apply Z.ltb_lt; lia|]. destruct (lookup_lt_is_Some_2 ws t ltac:(lia)) as [w Hw].
  fs_step. wp_use Hbody; [done|done|done|done|]. intros [] s2 (f2 & Hs2 & Hc2 & Hw2). fs_step.
  split; [|lia]. exists (S t). split_and!; [lia|lia|]. rewrite (take_S_r _ _ w) by done. exists f2.
  split_and!; [done| |by eapply wrote_trans]. by rewrite foldl_app.
Qed.

Lemma write_log_spec m f s D st hs :
  at_fs m f s → m_held m = [] → cache f D ∅ (list_to_set hs) → log_ok dv st hs (fs_log f) → loggable st hs →
  wp (write_log cfg swtch rw) (λ _ s', at_writes m f D (list_to_set hs) (log_writes st hs D) s') s.
Proof.
  intros Hs Hm Hc Hlg Hla. set (X := list_to_set hs) in *. set (ws := log_writes st hs D).
  apply (log_loop m f s D (λ _, X) st hs ws); try done; [apply length_imap|].
  intros t w f1 s1 Hw Hs1 El Hc1. unfold ws, log_writes in Hw. rewrite list_lookup_imap in Hw.
  destruct (hs !! t) as [b|] eqn:Hb; [|done]. injection Hw as <-. pose proof Hla as [Hst Hlen Hnd Hrg].
  assert (b ∈ hs) as Hbh by by eapply list_elem_of_lookup_2.
  assert (foldl put_block D (take t ws) b = D b) as E.
  { apply put_blocks_take. unfold ws. rewrite log_writes_fst, elem_of_seqZ.
    intros Hin. apply (proj2 (Hrg b Hbh)). unfold in_log. lia. }
  rewrite <- E. eapply log_block_spec; try done; [by rewrite El| | |].
  - by apply elem_of_list_to_set.
  - intros k Hk%elem_of_list_to_set. by apply Hrg.
  - unfold X. by rewrite size_list_to_set.
Qed.

(** The pin of the log goes away unless the log is being recovered. *)
Lemma unpin_spec m f s D H X b j rec :
  at_fs m f s → m_held m = [] → cache f D H X → H !! b = Some j → (rec = 0 → b ∈ X) →
  wp (when (rec =? 0) (bunpin j)) (λ _ s', ∃ f', at_fs m f' s' ∧
    cache f' D H (if rec =? 0 then X ∖ {[b]} else X) ∧ bufs_only f f') s.
Proof.
  intros Hs Hm Hc Hb HX. apply wp_when; intros E; rewrite E.
  - wp_use bunpin_ok; [done|rewrite Hm; apply not_elem_of_nil|done|done|by apply HX, Z.eqb_eq|]. done.
  - by exists f.
Qed.

Lemma install_block_spec m f s D X st hs rec (t : nat) b :
  at_fs m f s → m_held m = [] → cache f D ∅ X → log_ok dv st hs (fs_log f) → loggable st hs →
  hs !! t = Some b → (rec = 0 → b ∈ X) → (∀ k, k ∈ X → ¬ in_log st k) → Z.of_nat (size X) + 1 < NBUF ∨ b ∈ X →
  Z.of_nat (size X) < NBUF →
  wp (install_block cfg swtch rw rec (Z.of_nat t)) (λ _ s',
    at_writes m f D (if rec =? 0 then X ∖ {[b]} else X) [(b, D (st + 1 + Z.of_nat t))] s') s.
Proof.
  intros Hs Hm Hc Hlg [Hst Hlen Hnd Hrg] Hb HbX HXl Hroom HX. unfold install_block.
  pose proof (lookup_lt_Some _ _ _ Hb) as Ht. change LOGSIZE with 30 in *.
  destruct (Hrg b ltac:(by eapply list_elem_of_lookup_2)) as [Hb1 Hb2].
  assert (u32 (st + Z.of_nat t + 1) = st + 1 + Z.of_nat t) as ET by (rewrite u32_small; lia).
  set (T := st + 1 + Z.of_nat t) in *. assert (in_log st T) as HTl by (unfold in_log, T; change LOGSIZE with 30; lia).
  assert (T ∉ X) as HTX by (intros HT; by apply (HXl T HT)). assert (T ≠ b) as HTb by (intros ->; done).
  fs_step. fs_step. rewrite (lg_dev _ _ _ _ Hlg). fs_step. fs_step. rewrite (lg_start _ _ _ _ Hlg), ET.
  fs_step. wp_use bread_ok; [done|done|done|done|right; by rewrite dom_empty_L, union_empty_l_L|].
  intros i s2 (f2 & Hs2 & Hc2 & Hb2'). fs_step.
  wp_use get_lhblock_spec; [done|by rewrite (bu_log _ _ Hb2')|done|]. intros r s2' [-> ->].
  rewrite u32_small by lia. fs_step. wp_use bread_ok; [done|done|done|by rewrite lookup_insert_ne| |].
  { destruct Hroom; [right|by left]. rewrite dom_insert_L, dom_empty_L, union_empty_r_L.
    rewrite size_union, size_singleton by set_solver. lia. }
  intros j s3 (f3 & Hs3 & Hc3 & Hb3). fs_step.
  wp_use copy_data_spec; [done|done|apply lookup_insert_eq|rewrite lookup_insert_ne by done; apply lookup_insert_eq|].
  intros [] s4 (f4 & Hs4 & Hc4 & Hb4). fs_step. wp_use bwrite_ok; [done|done|done|apply lookup_insert_eq|].
  intros [] s5 (f5 & Hs5 & Hc5 & Hb5%wrote_write). rewrite put_block_same in Hb5. fs_step.
  wp_use unpin_spec; [done|done|done|apply lookup_insert_eq|done|]. intros [] s6 (f6 & Hs6 & Hc6 & Hb6). fs_step.
  assert (bufs_only f f4) as Hb14 by eauto using bufs_only_trans.
  wp_use brelse_ok; [done|done|done|rewrite lookup_insert_ne by done; apply lookup_insert_eq| |].
  { right. rewrite (bu_disk _ _ Hb6), (wrote_dread _ _ _ _ Hb5). simpl. rewrite (bu_disk _ _ Hb14).
    unfold put_block. cbn. destruct (Z.eqb_spec T b); [done|]. by apply (c_clean _ _ _ _ _ _ Hc). }
  intros [] s7 (f7 & Hs7 & Hc7 & Hb7). rewrite delete_insert_ne, delete_insert_id in Hc7 by done.
  wp_use brelse_ok; [done|done|done|apply lookup_insert_eq| |].
  { right. rewrite (bu_disk _ _ Hb7), (bu_disk _ _ Hb6), (wrote_dread _ _ _ _ Hb5). simpl. by rewrite !put_block_same. }
  intros [] s8 (f8 & Hs8 & Hc8 & Hb8). rewrite delete_insert_id in Hc8 by done. exists f8. split_and!; [done|done|].
  repeat (eapply wrote_bufs; [|done]). eapply (wrote_trans _ []); [|done]. by apply bufs_wrote.
Qed.

(** The writes of [install_trans] go outside the log, so the log stays as it is. *)
Lemma home_writes_log st hs D t i :
  loggable st hs → in_log st i → foldl put_block D (take t (home_writes st hs D)) i = D i.
Proof.
  intros [_ _ _ Hrg] Hi. apply put_blocks_take. rewrite home_writes_fst. intros Hin. by apply (Hrg i Hin).
Qed.

Lemma install_trans_spec m f s D st hs rec :
  at_fs m f s → m_held m = [] → cache f D ∅ (if rec =? 0 then list_to_set hs else ∅) →
  log_ok dv st hs (fs_log f) → loggable st hs →
  wp (install_trans cfg swtch rw rec) (λ _ s', at_writes m f D ∅ (home_writes st hs D) s') s.
Proof.
  intros Hs Hm Hc Hlg Hla. pose proof Hla as [Hst Hlen Hnd Hrg]. set (ws := home_writes st hs D).
  eapply wp_mono; [apply (log_loop m f s D (λ t, if rec =? 0 then list_to_set (drop t hs) else ∅) st hs ws)|];
    [done|by rewrite drop_0|done|done|apply length_imap| |].
  - intros t w f1 s1 Hw Hs1 El Hc1. unfold ws, home_writes in Hw. rewrite list_lookup_imap in Hw.
    destruct (hs !! t) as [b|] eqn:Hb; [|done]. injection Hw as <-.
    pose proof (lookup_lt_Some _ _ _ Hb) as Ht. change LOGSIZE with 30 in *.
    assert (in_log st (st + 1 + Z.of_nat t)) as Hin by (unfold in_log; change LOGSIZE with 30; lia).
    rewrite <- (home_writes_log st hs D t _ Hla Hin). fold ws.
    assert (NoDup (drop t hs)) as Hndt.
    { rewrite <- (take_drop t hs) in Hnd. by apply NoDup_app in Hnd as (_ & _ & ?). }
    assert (Z.of_nat (size (list_to_set (drop t hs) : gset Z)) < NBUF) as Hsz.
    { rewrite size_list_to_set, length_drop by done. change NBUF with 30. lia. }
    pose proof (drop_S _ _ _ Hb) as Ed.
    wp_use install_block_spec; [done|done|done|by rewrite El|done|done| | | | |].
    + intros ->. cbn. rewrite Ed. set_solver.
    + intros k. destruct (rec =? 0); [|set_solver]. intros Hk%elem_of_list_to_set. apply Hrg.
      eapply subseteq_drop. done.
    + destruct (rec =? 0); [right; rewrite Ed; set_solver|left]. by vm_compute.
    + by destruct (rec =? 0).
    + intros [] s2. destruct (rec =? 0); [|done].
      replace (list_to_set (drop t hs) ∖ {[b]}) with (list_to_set (drop (S t) hs) : gset Z); [done|].
      rewrite Ed in Hndt |- *. apply NoDup_cons in Hndt as [Hbn _]. set_solver.
  - intros [] s'. cbn beta. rewrite drop_all. by destruct (rec =? 0).
Qed.

(** ** The header block *)

Lemma set_data_spec m f s D d H X n i g :
  at_fs m f s → cache f (put_block D (n, d)) H X → H !! n = Some i →
  wp (setb i (λ x, x <| b_data := g (b_data x) |>)) (λ _ s', ∃ f', at_fs m f' s' ∧
    cache f' (put_block D (n, g d)) H X ∧ bufs_only f f') s.
Proof.
  intros Hs Hc Hi. fs_step. eexists. split; [done|]. split; [|done].
  eapply cache_ext; [|by apply (cache_data S0 u dv f (put_block D (n, d)) H X n i g)]. intros k.
  rewrite put_block_same. unfold updD, put_block. cbn. by destruct (k =? n).
Qed.

Lemma put_block_id D n k : D k = put_block D (n, D n) k.
Proof. unfold put_block. cbn. by destruct (Z.eqb_spec k n) as [->|]. Qed.

(** The loop of [write_head]. *)
Lemma write_head_loop m f s D d X st hs i :
  at_fs m f s → cache f (put_block D (st, d)) (<[st := i]> ∅) X → log_ok dv st hs (fs_log f) →
  Z.of_nat (length hs) < LOGSIZE →
  wp (while (λ i0, n ← getl lh_n;
        if i0 <? n then
          v ← get_lhblock i0;
          setb i (λ x, x <| b_data := hdr_put (1 + i0) v (b_data x) |>) ;;
          mret (inl (i0 + 1))
        else mret (inr ())) 0)
    (λ _ s', ∃ f', at_fs m f' s' ∧ cache f' (put_block D (st, fill_header 1 hs d)) (<[st := i]> ∅) X ∧
      bufs_only f f') s.
Proof.
  intros Hs Hc Hlg Hlen.
  eapply (wp_while (λ i0 s1, ∃ t : nat, i0 = Z.of_nat t ∧ (t <= length hs)%nat ∧ ∃ f1, at_fs m f1 s1 ∧
    cache f1 (put_block D (st, fill_header 1 (take t hs) d)) (<[st := i]> ∅) X ∧ bufs_only f f1)
    (λ i0 _, Z.of_nat (length hs) - i0)).
  2: { exists 0%nat. split_and!; [done|lia|]. by exists f. }
  2: { change LOGSIZE with 30 in *. lia. }
  intros i0 s1 (t & -> & Ht & f1 & Hs1 & Hc1 & Hb1). pose proof (bu_log _ _ Hb1) as El.
  fs_step. fs_step. rewrite El, (lg_n _ _ _ _ Hlg). destruct (decide (t < length hs)%nat) as [Hlt|Hge].
  2: { apply wp_if_f; [apply Z.ltb_ge; lia|]. fs_step. exists f1. by rewrite take_ge in * by lia. }
  apply wp_if_t; [apply Z.ltb_lt; lia|]. destruct (lookup_lt_is_Some_2 hs t Hlt) as [b Hb].
  fs_step. wp_use get_lhblock_spec; [done|by rewrite El|done|]. intros r s1' [-> ->]. fs_step.
  wp_use set_data_spec; [done|done|apply lookup_insert_eq|]. intros [] s2 (f2 & Hs2 & Hc2 & Hb2). fs_step.
  split; [|lia]. exists (S t). split_and!; [lia|lia|]. exists f2. split_and!; [done| |by eapply bufs_only_trans].
  rewrite (take_S_r _ _ b), fill_header_snoc, length_take, Nat.min_l by (done || lia). done.
Qed.

Lemma write_head_spec m f s D X st hs :
  at_fs m f s → m_held m = [] → cache f D ∅ X → log_ok dv st hs (fs_log f) → loggable st hs →
  st ∉ X → Z.of_nat (size X) < NBUF →
  wp (write_head cfg swtch rw) (λ _ s', at_writes m f D X [(st, header hs (D st))] s') s.
Proof.
  intros Hs Hm Hc Hlg [Hst Hlen Hnd Hrg] HstX HX. unfold write_head. change LOGSIZE with 30 in Hst.
  fs_step. fs_step. rewrite (lg_dev _ _ _ _ Hlg). fs_step. fs_step. rewrite (lg_start _ _ _ _ Hlg), u32_small by lia.
  fs_step. wp_use bread_ok; [done|done|done|done|right; by rewrite dom_empty_L, union_empty_l_L|].
  intros i s1 (f1 & Hs1 & Hc1 & Hb1). fs_step. fs_step. rewrite (bu_log _ _ Hb1), (lg_n _ _ _ _ Hlg). fs_step.
  eapply cache_ext in Hc1; [|apply (put_block_id D st)].
  wp_use set_data_spec; [done|done|apply lookup_insert_eq|]. intros [] s2 (f2 & Hs2 & Hc2 & Hb2). fs_step.
  wp_use write_head_loop; [done|done|by rewrite (bu_log _ _ Hb2), (bu_log _ _ Hb1)|done|].
  intros [] s3 (f3 & Hs3 & Hc3 & Hb3). fs_step. wp_use bwrite_ok; [done|done|done|apply lookup_insert_eq|].
  intros [] s4 (f4 & Hs4 & Hc4 & Hb4%wrote_write). rewrite put_block_same in Hb4.
  wp_use brelse_ok; [done|done|done|apply lookup_insert_eq| |].
  { right. rewrite (wrote_dread _ _ _ _ Hb4). simpl. by rewrite !put_block_same. }
  intros [] s5 (f5 & Hs5 & Hc5 & Hb5). rewrite delete_insert_id in Hc5 by done. exists f5. split_and!; [done|done|].
  eapply wrote_bufs; [|done]. eapply (wrote_trans _ []); [|done]. apply bufs_wrote. eauto using bufs_only_trans.
Qed.

(** ** Commit *)

(** The blocks that [commit] writes, in order. *)
Definition commit_writes (st : Z) (hs : list Z) (D : Z → list Z) : list (Z * list Z) :=
  log_writes st hs D ++ [(st, header hs (D st))] ++ map (λ b, (b, D b)) hs ++
  [(st, header [] (header hs (D st)))].

(** What the cache holds once the log and its header are written. *)
Definition logged (st : Z) (hs : list Z) (D : Z → list Z) : Z → list Z :=
  put_block (foldl put_block D (log_writes st hs D)) (st, header hs (D st)).

Lemma log_writes_out st hs D b : ¬ in_log st b → loggable st hs → foldl put_block D (log_writes st hs D) b = D b.
Proof.
  intros Hb [_ Hl _ _]. apply put_blocks_notin. rewrite log_writes_fst, elem_of_seqZ. unfold in_log in Hb. lia.
Qed.

Lemma log_writes_head st hs D : foldl put_block D (log_writes st hs D) st = D st.
Proof. apply put_blocks_notin. rewrite log_writes_fst, elem_of_seqZ. lia. Qed.

Lemma log_writes_entry st hs D (t : nat) b :
  hs !! t = Some b → foldl put_block D (log_writes st hs D) (st + 1 + Z.of_nat t) = D b.
Proof.
  intros Hb. apply put_blocks_in.
  - rewrite log_writes_fst. apply NoDup_seqZ.
  - unfold log_writes. apply list_elem_of_lookup. exists t. by rewrite list_lookup_imap, Hb.
Qed.

Lemma logged_out st hs D b : ¬ in_log st b → loggable st hs → logged st hs D b = D b.
Proof.
  intros Hb Hla. unfold logged, put_block. cbn. destruct (Z.eqb_spec b st) as [->|].
  - destruct Hb. unfold in_log. change LOGSIZE with 30. lia.
  - by apply log_writes_out.
Qed.

Lemma home_writes_logged st hs D : home_writes st hs (logged st hs D) = map (λ b, (b, D b)) hs.
Proof.
  unfold home_writes. apply list_eq. intros t. rewrite list_lookup_imap, list_lookup_fmap.
  destruct (hs !! t) as [b|] eqn:Hb; [|done]. simpl. do 2 f_equal. unfold logged, put_block at 1. cbn.
  destruct (Z.eqb_spec (st + 1 + Z.of_nat t) st); [lia|]. by apply log_writes_entry.
Qed.

Lemma home_writes_same st hs D b : loggable st hs → ¬ in_log st b →
  foldl put_block (logged st hs D) (map (λ b, (b, D b)) hs) b = D b.
Proof.
  intros Hla Hb. assert ((map (λ b, (b, D b)) hs).*1 = hs) as Hfst.
  { rewrite <- list_fmap_compose. apply list_fmap_id. }
  destruct (decide (b ∈ hs)) as [Hin|Hin].
  - apply put_blocks_in; [rewrite Hfst; apply Hla|]. by apply (list_elem_of_fmap_2 (λ b, (b, D b))).
  - rewrite put_blocks_notin by by rewrite Hfst. by apply logged_out.
Qed.

Lemma in_log_start st : in_log st st.
Proof. unfold in_log. change LOGSIZE with 30. lia. Qed.

Lemma commit_spec m f s D st hs :
  at_fs m f s → m_held m = [] → cache f D ∅ (list_to_set hs) → log_ok dv st hs (fs_log f) → loggable st hs →
  hs ≠ [] →
  wp (commit cfg swtch rw) (λ _ s', ∃ f' D', at_fs m f' s' ∧ cache f' D' ∅ ∅ ∧
    (∀ b, ¬ in_log st b → D' b = D b) ∧
    wrote (f <| fs_log := fs_log f <| lh_n := 0 |> |>) (commit_writes st hs D) f') s.
Proof.
  intros Hs Hm Hc Hlg Hla Hne. pose proof Hla as [Hst Hlen Hnd Hrg]. unfold commit. fs_step. fs_step.
  rewrite (lg_n _ _ _ _ Hlg). apply wp_when_t; [apply Z.gtb_lt; destruct hs; [done|cbn; lia]|].
  assert (st ∉ (list_to_set hs : gset Z)) as HstX.
  { rewrite elem_of_list_to_set. intros Hin. apply (Hrg st Hin). apply in_log_start. }
  assert (Z.of_nat (size (list_to_set hs : gset Z)) < NBUF) as HX by by rewrite size_list_to_set.
  fs_step. wp_use write_log_spec; [done|done|done|done|done|]. intros [] s1 (f1 & Hs1 & Hc1 & Hw1).
  pose proof (wr_log _ _ _ Hw1) as El1. fs_step.
  wp_use write_head_spec; [done|done|done|by rewrite El1|done|done|done|]. rewrite log_writes_head.
  intros [] s2 (f2 & Hs2 & Hc2 & Hw2). pose proof (wr_log _ _ _ Hw2) as El2. fs_step.
  wp_use (install_trans_spec m f2 _ _ st hs 0); [done|done|done|by rewrite El2, El1|done|].
  intros [] s3 (f3 & Hs3 & Hc3 & Hw3). cbn [foldl] in Hc3, Hw3. fold (logged st hs D) in Hc3, Hw3.
  rewrite home_writes_logged in Hc3, Hw3. fs_step. fs_step.
  wp_use (write_head_spec m _ _ (foldl put_block (logged st hs D) (map (λ b, (b, D b)) hs)) ∅ st []);
    [done|done| | | |done|done|].
  - by eapply cache_same; [| |exact Hc3].
  - destruct Hlg as [? ? ? ? ?]. rewrite (wr_log _ _ _ Hw3), El2, El1. by split.
  - split; [done|done|constructor|]. intros b Hb. by apply elem_of_nil in Hb.
  - intros [] s5 (f5 & Hs5 & Hc5 & Hw5). exists f5. eexists. split_and!; [done|done| |].
    + intros b Hb. simpl. unfold put_block at 1. cbn. destruct (Z.eqb_spec b st) as [->|].
      * destruct Hb. apply in_log_start.
      * by apply home_writes_same.
    + assert (foldl put_block (logged st hs D) (map (λ b, (b, D b)) hs) st = header hs (D st)) as E.
      { rewrite <- (home_writes_logged st hs D). rewrite <- (take_ge (home_writes _ _ _) _ (le_n _)).
        rewrite (home_writes_log st hs _ _ _ Hla (in_log_start st)). apply put_block_same. }
      rewrite E in Hw5. destruct Hw1, Hw2, Hw3, Hw5. unfold commit_writes. split; try (cbn in *; congruence).
      cbn in *. rewrite wr_writes3, wr_writes2, wr_writes1, wr_writes0. by rewrite <- !app_assoc.
Qed.

(** ** Recovery *)

(** The header on the disk lists the blocks [hs]. *)
Record disk_header (d : list Z) (hs : list Z) : Prop := {
  dh_len : length d = Z.to_nat BSIZE;
  dh_n : hdr_get 0 d = Z.of_nat (length hs);
  dh_block : ∀ (t : nat) b, hs !! t = Some b → hdr_get (1 + Z.of_nat t) d = b
}.

Lemma header_ok st hs d : loggable st hs → length d = Z.to_nat BSIZE → disk_header (header hs d) hs.
Proof.
  intros [_ Hl _ Hrg] Hd. assert (Forall (λ b, - 2 ^ 31 <= b < 2 ^ 31) hs) as Hr.
  { apply Forall_forall. intros b Hb. destruct (Hrg b Hb). lia. }
  split; [by apply header_length|by apply header_n|]. intros. by apply header_block.
Qed.

Lemma read_head_loop m f s st hs d (n0 : Z) :
  at_fs m f s → l_dev (fs_log f) = dv → l_start (fs_log f) = st → lh_n (fs_log f) = Z.of_nat (length hs) →
  length (lh_block (fs_log f)) = Z.to_nat LOGSIZE → Z.of_nat (length hs) < LOGSIZE → disk_header d hs →
  wp (while (λ i, n ← getl lh_n;
        if i <? n then
          set_lhblock i (hdr_get (1 + i) d) ;;
          mret (inl (i + 1))
        else mret (inr ())) 0)
    (λ _ s', ∃ lg, at_fs m (f <| fs_log := lg |>) s' ∧ log_ok dv st hs lg ∧ log_ctl lg = log_ctl (fs_log f)) s.
Proof.
  intros Hs Hdev Hst Hn Hlen Hhs [Hd _ Hb]. change LOGSIZE with 30 in *.
  eapply (wp_while (λ i s1, ∃ t : nat, i = Z.of_nat t ∧ (t <= length hs)%nat ∧ ∃ lg,
    at_fs m (f <| fs_log := lg |>) s1 ∧ l_dev lg = dv ∧ l_start lg = st ∧ lh_n lg = Z.of_nat (length hs) ∧
    length (lh_block lg) = 30%nat ∧ take t (lh_block lg) = take t hs ∧ log_ctl lg = log_ctl (fs_log f)) (λ i _, Z.of_nat (length hs) - i)).
  2: { exists 0%nat. split_and!; [done|lia|]. exists (fs_log f). split_and!; try done.
       eapply at_fs_equiv; [|exact Hs]. by destruct f. }
  2: { lia. }
  intros i s1 (t & -> & Ht & lg & Hs1 & E1 & E2 & E3 & E4 & E5 & E6). fs_step. fs_step. cbn. rewrite E3.
  destruct (decide (t < length hs)%nat) as [Hlt|Hge].
  2: { apply wp_if_f; [apply Z.ltb_ge; lia|]. fs_step. exists lg. split; [done|].
       replace t with (length hs) in E5 by lia. rewrite (take_ge hs) in E5 by lia. split; [by split|done]. }
  apply wp_if_t; [apply Z.ltb_lt; lia|]. destruct (lookup_lt_is_Some_2 hs t Hlt) as [b Hbt].
  rewrite (Hb t b Hbt). fs_step. unfold set_lhblock. rewrite Nat2Z.id. change LOGSIZE with 30.
  apply wp_if_t; [rewrite andb_true_iff, Z.leb_le, Z.ltb_lt; lia|]. fs_step. fs_step. split; [|lia].
  exists (S t). split_and!; [lia|lia|]. exists (lg <| lh_block := <[t := b]> (lh_block lg) |>). split; [done|]. cbn. rewrite length_insert. split_and!; try done.
  rewrite (take_S_r hs _ b) by done. rewrite (take_S_r _ _ b) by (apply list_lookup_insert_eq; lia).
  by rewrite take_insert_ge, E5 by lia.
Qed.

Lemma read_head_spec m f s D st hs :
  at_fs m f s → m_held m = [] → cache f D ∅ ∅ → l_dev (fs_log f) = dv → l_start (fs_log f) = st →
  length (lh_block (fs_log f)) = Z.to_nat LOGSIZE → loggable st hs → disk_header (D st) hs →
  wp (read_head cfg swtch rw) (λ _ s', ∃ f', at_fs m f' s' ∧ cache f' D ∅ ∅ ∧ log_ok dv st hs (fs_log f') ∧
    log_ctl (fs_log f') = log_ctl (fs_log f) ∧ bufs_only (f <| fs_log := fs_log f' |>) f') s.
Proof.
  intros Hs Hm Hc Hdev Hstart Hlen [Hst Hhs _ _] Hdh. unfold read_head. change LOGSIZE with 30 in Hst.
  fs_step. fs_step. rewrite Hdev. fs_step. fs_step. rewrite Hstart, u32_small by lia.
  fs_step. wp_use bread_ok; [done|done|done|done|by right|]. intros i s1 (f1 & Hs1 & Hc1 & Hb1). fs_step. fs_step.
  destruct (cache_held S0 u dv _ _ _ _ _ _ Hc1 (lookup_insert_eq _ _ _)) as (_ & _ & _ & _ & -> & _).
  fs_step. fs_step. fs_step. pose proof (bu_log _ _ Hb1) as El.
  wp_use (read_head_loop m _ _ st hs (D st)); try done; [by cbn; rewrite El|by cbn; rewrite El|apply Hdh|by cbn; rewrite El|].
  intros [] s3 (lg & Hs3 & Hlg & Hctl). wp_use brelse_ok; [done|done| |apply lookup_insert_eq| |].
  - by eapply cache_same; [| |exact Hc1].
  - right. cbn. rewrite (bu_disk _ _ Hb1). by apply (c_clean _ _ _ _ _ _ Hc).
  - intros [] s4 (f4 & Hs4 & Hc4 & Hb4). rewrite delete_insert_id in Hc4 by done. exists f4.
    destruct Hb1 as [B1 B2 B3 B4 B5], Hb4 as [C1 C2 C3 C4 C5]. rewrite C2. cbn in C2. split_and!; try done.
    + change (log_ctl lg = log_ctl (fs_log f)). rewrite Hctl. unfold log_ctl. cbn. by rewrite El.
    + cbn in *. split; cbn; congruence.
Qed.

(** What recovery of a disk with contents [d] gives outside the log. *)
Definition recovers (st : Z) (d e : Z → list Z) : Prop :=
  ∃ hs, disk_header (d st) hs ∧ loggable st hs ∧
    ∀ b, ¬ in_log st b → foldl put_block d (home_writes st hs d) b = e b.

Definition recover_writes (st : Z) (hs : list Z) (D : Z → list Z) : list (Z * list Z) :=
  home_writes st hs D ++ [(st, header [] (D st))].

Lemma recover_spec m f s D st hs :
  at_fs m f s → m_held m = [] → cache f D ∅ ∅ → l_dev (fs_log f) = dv → l_start (fs_log f) = st →
  length (lh_block (fs_log f)) = Z.to_nat LOGSIZE → loggable st hs → disk_header (D st) hs →
  wp (recover_from_log cfg swtch rw) (λ _ s', ∃ f' lg', at_fs m f' s' ∧ log_ok dv st [] lg' ∧
    log_ctl lg' = log_ctl (fs_log f) ∧ cache f' (foldl put_block D (recover_writes st hs D)) ∅ ∅ ∧
    wrote (f <| fs_log := lg' |>) (recover_writes st hs D) f') s.
Proof.
  intros Hs Hm Hc Hdev Hstart Hlen Hla Hdh. unfold recover_from_log. fs_step.
  wp_use read_head_spec; try done. intros [] s1 (f1 & Hs1 & Hc1 & Hlg1 & Hctl & Hb1). fs_step.
  wp_use (install_trans_spec m f1 _ D st hs 1); try done. intros [] s2 (f2 & Hs2 & Hc2 & Hw2). fs_step. fs_step.
  pose proof (wr_log _ _ _ Hw2) as El.
  assert (log_ok dv st [] (fs_log f2 <| lh_n := 0 |>)) as Hlg2 by (rewrite El; by destruct Hlg1).
  assert (loggable st []) as Hla0.
  { split; [apply Hla|done|constructor|]. intros b Hb. by apply elem_of_nil in Hb. }
  wp_use (write_head_spec m _ _ (foldl put_block D (home_writes st hs D)) ∅ st []); try done.
  { by eapply cache_same; [| |exact Hc2]. }
  intros [] s4 (f4 & Hs4 & Hc4 & Hw4). exists f4, (fs_log f2 <| lh_n := 0 |>). split_and!; try done; [by rewrite El| |].
  - unfold recover_writes. rewrite foldl_app. eapply cache_ext; [|exact Hc4]. intros k. simpl. f_equal.
    rewrite <- (take_ge (home_writes st hs D) _ (le_n _)) at 1. by rewrite home_writes_log by (done || apply in_log_start).
  - destruct Hb1 as [B1 _ B3 B4 B5], Hw2 as [I2 W2 _ S2 N2 F2], Hw4 as [I4 W4 L4 S4 N4 F4]. cbn in *.
    unfold recover_writes. split; cbn; try congruence.
    rewrite W4, W2, B1, <- app_assoc. do 4 f_equal.
    rewrite <- (take_ge (home_writes st hs D) _ (le_n _)) at 1. by rewrite home_writes_log by (done || apply in_log_start).
Qed.
End ops.

(** * Crashes *)

Section crash.
Context (st : Z).
Implicit Types (d e D : Z → list Z) (hs : list Z).

Lemma loggable_nil hs : loggable st hs → loggable st [].
Proof. intros [? _ _ _]. split; [done|done|constructor|]. intros b Hb. by apply elem_of_nil in Hb. Qed.

(** A disk whose header is empty is recovered as it is. *)
Lemma recovers_clean hs d e :
  loggable st hs → disk_header (d st) [] → (∀ b, ¬ in_log st b → d b = e b) → recovers st d e.
Proof. intros Hla Hd He. exists []. split_and!; [done|by eapply loggable_nil|done]. Qed.

Lemma home_fst hs D : (map (λ b, (b, D b)) hs).*1 = hs.
Proof. rewrite <- list_fmap_compose. apply list_fmap_id. Qed.

Lemma home_take hs D d t i :
  loggable st hs → in_log st i → foldl put_block d (take t (map (λ b, (b, D b)) hs)) i = d i.
Proof.
  intros [_ _ _ Hrg] Hi. apply put_blocks_take. rewrite home_fst. intros Hin. by apply (Hrg i Hin).
Qed.

(** Home blocks are installed from the log of a disk that holds [D]'s blocks there. *)
Lemma recovers_logged hs D d :
  loggable st hs → disk_header (d st) hs →
  (∀ (t : nat) b, hs !! t = Some b → d (st + 1 + Z.of_nat t) = D b) →
  (∀ b, b ∉ hs → ¬ in_log st b → d b = D b) → recovers st d D.
Proof.
  intros Hla Hdh Hent Hout. exists hs. split_and!; [done|done|]. intros b Hb.
  assert (home_writes st hs d = map (λ b, (b, D b)) hs) as ->.
  { unfold home_writes. apply list_eq. intros t. rewrite list_lookup_imap, list_lookup_fmap.
    destruct (hs !! t) as [c|] eqn:E; [|done]. simpl. by rewrite (Hent t c E). }
  destruct (decide (b ∈ hs)) as [Hin|Hin].
  - apply put_blocks_in; [rewrite home_fst; apply Hla|]. by apply (list_elem_of_fmap_2 (λ b, (b, D b))).
  - rewrite put_blocks_notin by by rewrite home_fst. by apply Hout.
Qed.

(** A crash while the blocks go home: the log is complete, or already cleared. *)
Lemma crash_installing hs D d x j :
  loggable st hs → disk_header (d st) hs →
  (∀ (t : nat) b, hs !! t = Some b → d (st + 1 + Z.of_nat t) = D b) →
  (∀ b, b ∉ hs → ¬ in_log st b → d b = D b) → length x = Z.to_nat BSIZE →
  recovers st (foldl put_block d (take j (map (λ b, (b, D b)) hs ++ [(st, header [] x)]))) D.
Proof.
  intros Hla Hdh Hent Hout Hx. assert (length (map (λ b, (b, D b)) hs) = length hs) as Hlen by apply length_fmap.
  assert (∀ t : nat, (t < length hs)%nat → in_log st (st + 1 + Z.of_nat t)) as Hin.
  { intros t Ht. destruct Hla as [_ Hl _ _]. unfold in_log. lia. }
  destruct (decide (j <= length hs)%nat) as [Hj|Hj].
  - rewrite take_app_le by lia. apply (recovers_logged hs); [done| | |].
    + by rewrite home_take by (done || apply in_log_start).
    + intros t b Hb. rewrite home_take; [by apply Hent|done|]. apply Hin. by eapply lookup_lt_Some.
    + intros b Hb Hnl. rewrite put_blocks_take by by rewrite home_fst. by apply Hout.
  - rewrite take_app_ge, foldl_app by lia.
    destruct (j - length (map (λ b, (b, D b)) hs))%nat as [|j'] eqn:Ej; [lia|].
    replace (take (S j') [(st, header [] x)]) with [(st, header [] x)] by (by destruct j'). cbn [foldl].
    apply (recovers_clean hs); [done| |].
    + rewrite put_block_same. eapply header_ok; [by eapply loggable_nil|done].
    + intros b Hb. unfold put_block at 1. cbn. destruct (Z.eqb_spec b st) as [->|]; [by destruct Hb; apply in_log_start|].
      destruct (decide (b ∈ hs)) as [Hbh|Hbh].
      * apply put_blocks_in; [rewrite home_fst; apply Hla|]. by apply (list_elem_of_fmap_2 (λ b, (b, D b))).
      * rewrite put_blocks_notin by by rewrite home_fst. by apply Hout.
Qed.

(** A crash at any point of [commit]. *)
Lemma crash_commit hs D d k :
  loggable st hs → disk_header (d st) [] → D st = d st →
  (∀ b, b ∉ hs → ¬ in_log st b → D b = d b) →
  let d1 := foldl put_block d (take k (commit_writes st hs D)) in
  recovers st d1 d ∨ recovers st d1 D.
Proof.
  intros Hla Hdh Hst Hout d1. unfold d1, commit_writes. clear d1.
  assert (length (log_writes st hs D) = length hs) as Hlen by apply length_imap.
  pose proof (log_writes_fst st hs D) as Hfst. assert (length (d st) = Z.to_nat BSIZE) as Hds by apply Hdh.
  assert (∀ i t, i = st ∨ ¬ in_log st i → foldl put_block d (take t (log_writes st hs D)) i = d i) as Hlog.
  { intros i t Hi. apply put_blocks_take. rewrite Hfst, elem_of_seqZ. destruct Hla as [_ Hl _ _].
    unfold in_log in Hi. lia. }
  destruct (decide (k <= length hs)%nat) as [Hk|Hk].
  { left. rewrite take_app_le by lia. apply (recovers_clean hs); [done|by rewrite Hlog by auto|].
    intros b Hb. apply Hlog. auto. }
  right. rewrite take_app_ge, foldl_app by lia.
  destruct (k - length (log_writes st hs D))%nat as [|j] eqn:Ej; [lia|]. cbn [take app foldl].
  set (d1 := foldl put_block d (log_writes st hs D)).
  assert (∀ i, i = st ∨ ¬ in_log st i → d1 i = d i) as E1.
  { intros i Hi. unfold d1. rewrite <- (take_ge (log_writes st hs D) _ (le_n _)). by apply Hlog. }
  assert (∀ b, b ≠ st → put_block d1 (st, header hs (D st)) b = d1 b) as E2.
  { intros b Hb. unfold put_block. cbn. by destruct (Z.eqb_spec b st). }
  apply crash_installing; [done| | | |].
  - rewrite put_block_same. apply (header_ok st); [done|by rewrite Hst].
  - intros t b Hb. rewrite E2 by lia. apply put_blocks_in; [rewrite Hfst; apply NoDup_seqZ|].
    apply list_elem_of_lookup. exists t. unfold log_writes. by rewrite list_lookup_imap, Hb.
  - intros b Hb Hnl. rewrite E2 by (intros ->; apply Hnl, in_log_start). rewrite E1 by auto. symmetry. auto.
  - apply (header_ok st); [done|by rewrite Hst].
Qed.

(** A crash at any point of the recovery. *)
Lemma crash_recover hs d e j :
  loggable st hs → disk_header (d st) hs →
  (∀ b, ¬ in_log st b → foldl put_block d (home_writes st hs d) b = e b) →
  recovers st (foldl put_block d (take j (recover_writes st hs d))) e.
Proof.
  intros Hla Hdh He. assert (∀ (t : nat) b, hs !! t = Some b → d (st + 1 + Z.of_nat t) = e b) as Hent.
  { intros t b Hb. rewrite <- He.
    - symmetry. apply put_blocks_in; [rewrite home_writes_fst; apply Hla|].
      apply list_elem_of_lookup. exists t. unfold home_writes. by rewrite list_lookup_imap, Hb.
    - destruct Hla as [_ _ _ Hrg]. apply Hrg. by eapply list_elem_of_lookup_2. }
  assert (home_writes st hs d = map (λ b, (b, e b)) hs) as E.
  { unfold home_writes. apply list_eq. intros t. rewrite list_lookup_imap, list_lookup_fmap.
    destruct (hs !! t) as [c|] eqn:Ec; [|done]. simpl. by rewrite (Hent t c Ec). }
  unfold recover_writes. rewrite E. apply crash_installing; try done; [|apply Hdh].
  intros b Hb Hnl. rewrite <- He by done. symmetry. apply put_blocks_notin. by rewrite home_writes_fst.
Qed.
End crash.
