(* ===== verification/LogTx.v ===== *)
(** Transactions: [begin_op], [log_write] and [end_op] around the updates of a
    file-system operation. *)
From S2P Require Import Prelude CString Spinlock Riscv Kalloc Vm Proc FsState Sleeplock Bio Log FsFrame BioOps LogOps.

(** The blocks in the header once [n] is logged. *)
Definition logging (hs : list Z) (n : Z) : list Z := if decide (n ∈ hs) then hs else hs ++ [n].

Section ops.
Context (J : vdisk → Prop) (cfg : sched_cfg) (swtch : option Z → option Z → FM ()).
Context (rw : Z → bool → FM ()) `{HD : !DiskDriver J rw}.
Context (S0 : pstate fsys) (u : Z) (dv : Z).
Hypothesis Hu : ps_cur S0 = Some u.

Abbreviation at_fs := (at_fs J S0).
Abbreviation cache := (cache dv (taken S0 u)).

(** The index of [n] in the header, or the first free one. *)
Lemma log_find_spec m f s st hs n :
  at_fs m f s → log_ok dv st hs (fs_log f) → Z.of_nat (length hs) < LOGSIZE → 0 <= n < 2 ^ 31 →
  (∀ b, b ∈ hs → 0 <= b < 2 ^ 31) →
  wp (log_find n) (λ i s', s' = s ∧ ∃ t : nat, i = Z.of_nat t ∧
    (hs !! t = Some n ∨ (t = length hs ∧ n ∉ hs))) s.
Proof.
  intros Hs Hlg Hlen Hn Hr. unfold log_find. change LOGSIZE with 30 in *.
  eapply (wp_while (λ i s1, s1 = s ∧ ∃ t : nat, i = Z.of_nat t ∧ (t <= length hs)%nat ∧ n ∉ take t hs)
    (λ i _, Z.of_nat (length hs) - i)).
  2: { split; [done|]. exists 0%nat. split_and!; [done|lia|]. rewrite take_0. apply not_elem_of_nil. }
  2: { lia. }
  intros i s1 (-> & t & -> & Ht & Hno). fs_step. fs_step. rewrite (lg_n _ _ _ _ Hlg).
  destruct (decide (t < length hs)%nat) as [Hlt|Hge].
  2: { apply wp_if_f; [apply Z.ltb_ge; lia|]. fs_step. split; [done|]. exists t. split; [done|]. right.
       split; [lia|]. by rewrite take_ge in Hno by lia. }
  apply wp_if_t; [apply Z.ltb_lt; lia|]. destruct (lookup_lt_is_Some_2 hs t Hlt) as [b Hb].
  fs_step. wp_use (get_lhblock_spec J S0); [done|done|done|]. intros r s' [-> ->].
  pose proof (Hr b ltac:(by eapply list_elem_of_lookup_2)) as Hb'. rewrite u32_small by lia.
  destruct (Z.eqb_spec b n) as [->|Hne]; fs_step.
  - split; [done|]. exists t. auto.
  - split; [|lia]. split; [done|]. exists (S t). split_and!; [lia|lia|].
    rewrite (take_S_r _ _ b) by done. rewrite elem_of_app, list_elem_of_singleton. naive_solver.
Qed.

(** Storing the block number. *)
Lemma log_ok_set st hs lg n (t : nat) :
  log_ok dv st hs lg → Z.of_nat (length hs) < LOGSIZE - 1 →
  hs !! t = Some n ∨ (t = length hs ∧ n ∉ hs) →
  log_ok dv st (logging hs n)
    ((lg <| lh_block := <[t := n]> (lh_block lg) |>) <| lh_n := if decide (t = length hs) then lh_n lg + 1 else lh_n lg |>).
Proof.
  intros [E1 E2 E3 E4 E5] Hlen Ht. change LOGSIZE with 30 in *. unfold logging. destruct Ht as [Ht|[-> Hn]].
  - pose proof (lookup_lt_Some _ _ _ Ht) as Hlt. rewrite (decide_False (P := t = length hs)) by lia.
    rewrite decide_True by by eapply list_elem_of_lookup_2. split; try done; cbn; [|by rewrite length_insert].
    rewrite <- E4 in Ht. apply lookup_take_Some in Ht as [Ht _]. by rewrite list_insert_id.
  - rewrite (decide_True (P := length hs = length hs)) by done. rewrite decide_False by done. split; try done; cbn; rewrite ?length_insert; try done.
    + rewrite E3, length_app. cbn. lia.
    + rewrite length_app. cbn. rewrite Nat.add_1_r, (take_S_r _ _ n), take_insert_ge, E4 by
        (lia || (apply list_lookup_insert_eq; lia)). done.
Qed.

Lemma log_write_spec m f s D H X st hs n i :
  at_fs m f s → m_held m = [] → cache f D H X → H !! n = Some i → log_ok dv st hs (fs_log f) →
  X = list_to_set hs → Z.of_nat (length hs) < LOGSIZE - 1 → l_size (fs_log f) = LOGSIZE →
  1 <= l_outstanding (fs_log f) → 0 <= n < 2 ^ 31 → (∀ b, b ∈ hs → 0 <= b < 2 ^ 31) →
  wp (log_write i) (λ _ s', ∃ f' lg', at_fs m f' s' ∧ cache f' D H (list_to_set (logging hs n)) ∧
    log_ok dv st (logging hs n) lg' ∧ l_size lg' = LOGSIZE ∧ l_outstanding lg' = l_outstanding (fs_log f) ∧
    l_committing lg' = l_committing (fs_log f) ∧ bufs_only (f <| fs_log := lg' |>) f') s.
Proof.
  intros Hs Hm Hc Hi Hlg -> Hlen Hsz Hout Hn Hr. unfold log_write.
  destruct (cache_held S0 u dv _ _ _ _ _ _ Hc Hi) as (_ & [_ Hbn] & _).
  fs_step. fs_step; [rewrite Hm; apply not_elem_of_nil|]. rewrite Hm in *.
  fs_step. fs_step. rewrite (lg_n _ _ _ _ Hlg). fs_step. fs_step. rewrite Hsz. change LOGSIZE with 30 in *.
  apply wp_if_f; [rewrite orb_false_iff, !Z.geb_leb, !Z.leb_gt; lia|]. fs_step. fs_step.
  apply wp_if_f; [apply Z.ltb_ge; lia|]. fs_step. fs_step. rewrite Hbn. fs_step.
  wp_use log_find_spec; [done|done|change LOGSIZE with 30; lia|done|done|]. intros r s1 (-> & t & -> & Ht).
  assert (t <= length hs)%nat as Htl by (destruct Ht as [Ht|[-> _]]; [apply lookup_lt_Some in Ht|]; lia).
  fs_step. unfold set_lhblock. change LOGSIZE with 30. rewrite Nat2Z.id, i32_small by lia.
  apply wp_if_t; [rewrite andb_true_iff, Z.leb_le, Z.ltb_lt; lia|]. fs_step. fs_step. fs_step.
  cbn. rewrite (lg_n _ _ _ _ Hlg). pose proof (log_ok_set st hs _ n t Hlg Hlen Ht) as Hlg'.
  unfold logging in *. fs_step. destruct (decide (t = length hs)) as [E|E].
  - destruct Ht as [Ht|[_ Hnh]]; [apply lookup_lt_Some in Ht; lia|]. rewrite decide_False in * by done.
    apply wp_when_t; [apply Z.eqb_eq; lia|]. fs_step.
    wp_use (bpin_spec J S0 u dv); [done|cbn; rewrite list_elem_of_singleton; done| |done| |].
    + by eapply cache_same; [| |exact Hc].
    + by rewrite elem_of_list_to_set.
    + intros [] s3 (f3 & Hs3 & Hc3 & Hb3). fs_step. fs_step; [apply not_elem_of_nil|].
      eexists. eexists. split; [done|]. destruct Hb3 as [B1 B2 B3 B4 B5]. rewrite B2. cbn. split_and!; [|exact Hlg'|done|done|done|done].
      eapply (cache_same dv _ f3); [done|done|]. rewrite list_to_set_app_L. cbn.
      by rewrite union_empty_r_L, (union_comm_L (list_to_set hs)).
  - apply wp_when_f; [apply Z.eqb_neq; lia|]. fs_step; [apply not_elem_of_nil|].
    destruct Ht as [Ht|[? _]]; [|done]. rewrite decide_True in * by by eapply list_elem_of_lookup_2.
    eexists. eexists. split; [done|]. cbn. split_and!; [|exact Hlg'|done|done|done|done].
    by eapply cache_same; [| |exact Hc].
Qed.

Lemma begin_op_spec m f s :
  at_fs m f s → m_held m = [] → l_committing (fs_log f) = 0 →
  lh_n (fs_log f) + (l_outstanding (fs_log f) + 1) * MAXOPBLOCKS <= LOGSIZE →
  wp (begin_op cfg swtch) (λ _ s',
    at_fs m (f <| fs_log := fs_log f <| l_outstanding := l_outstanding (fs_log f) + 1 |> |>) s') s.
Proof.
  intros Hs Hm Hc Hroom. unfold begin_op. fs_step. fs_step; [rewrite Hm; apply not_elem_of_nil|]. rewrite Hm in *.
  eapply (wp_while (λ _ s1, s1 = s') (λ _ _, 0)); [|done|done].
  intros [] s1 ->. fs_step. fs_step. rewrite Hc. apply wp_if_f; [done|]. fs_step. fs_step. fs_step. fs_step.
  apply wp_if_f; [rewrite Z.gtb_ltb; apply Z.ltb_ge; lia|]. fs_step. fs_step. fs_step.
  fs_step; [apply not_elem_of_nil|]. fs_step. done.
Qed.

(** The last operation of a transaction commits it. *)
Lemma end_op_spec m f s D st hs :
  at_fs m f s → m_held m = [] → cache f D ∅ (list_to_set hs) → log_ok dv st hs (fs_log f) → loggable st hs →
  hs ≠ [] → l_committing (fs_log f) = 0 → l_outstanding (fs_log f) = 1 →
  wp (end_op cfg swtch rw) (λ _ s', ∃ f' D', at_fs m f' s' ∧ cache f' D' ∅ ∅ ∧
    (∀ b, ¬ in_log st b → D' b = D b) ∧ (log_ok dv st [] (fs_log f') ∧ log_ctl (fs_log f') = (l_size (fs_log f), 0, 0)) ∧
    wrote (f <| fs_log := fs_log f' |>) (commit_writes st hs D) f') s.
Proof.
  intros Hs Hm Hc Hlg Hla Hne Hcm Hout. unfold end_op. fs_step. fs_step; [rewrite Hm; apply not_elem_of_nil|].
  rewrite Hm in *. fs_step. fs_step. fs_step. fs_step. cbn. rewrite Hcm. cbn. fs_step. fs_step. cbn. rewrite Hout.
  fs_step. apply wp_if_t; [done|]. fs_step. fs_step. fs_step. fs_step. fs_step; [apply not_elem_of_nil|].
  apply wp_when_t; [done|]. fs_step.
  set (lg1 := fs_log f <| l_outstanding := l_outstanding (fs_log f) - 1 |> <| l_committing := 1 |>).
  wp_use (commit_spec J cfg swtch rw S0 u dv Hu m (f <| fs_log := lg1 |>) _ D st hs); [done|done| |by destruct Hlg|done|done|].
  { by eapply cache_same; [| |exact Hc]. }
  intros [] s5 (f5 & D' & Hs5 & Hc5 & HD5 & Hw5). fs_step. fs_step; [rewrite Hm; apply not_elem_of_nil|]. rewrite Hm in *.
  fs_step. fs_step. fs_step. fs_step; [by apply no_proc_lock; repeat constructor|]. fs_step; [apply not_elem_of_nil|].
  eexists. exists D'. split; [done|]. destruct Hw5 as [W1 W2 W3 W4 W5 W6], Hlg as [E1 E2 E3 E4 E5]. cbn in *.
  split_and!; [by eapply cache_same; [| |exact Hc5]|done| | |].
  - rewrite W3. by split.
  - rewrite W3. unfold log_ctl. cbn. by rewrite Hout.
  - by split.
Qed.

(** ** A transaction *)

(** Read a block, change it, log it. *)
Definition update_block (b : Z) (g : list Z → list Z) : FM () :=
  i ← bread cfg swtch rw dv b;
  setb i (λ x, x <| b_data := g (b_data x) |>) ;;
  log_write i ;;
  brelse cfg i.

Definition transaction (us : list (Z * (list Z → list Z))) : FM () :=
  begin_op cfg swtch ;;
  for_ us (λ w, update_block w.1 w.2) ;;
  end_op cfg swtch rw.

(** The contents and the header after some updates. *)
Definition updated (D : Z → list Z) (us : list (Z * (list Z → list Z))) : Z → list Z :=
  foldl (λ D w, put_block D (w.1, w.2 (D w.1))) D us.
Definition logged_blocks (us : list (Z * (list Z → list Z))) : list Z :=
  foldl (λ hs w, logging hs w.1) [] us.

Lemma logging_nodup hs n : NoDup hs → NoDup (logging hs n).
Proof.
  intros H. unfold logging. case_decide; [done|]. apply NoDup_app. split_and!; [done| |apply NoDup_singleton].
  intros x Hx ->%list_elem_of_singleton. done.
Qed.
Lemma logging_in hs n k : k ∈ logging hs n ↔ k ∈ hs ∨ k = n.
Proof. unfold logging. case_decide; rewrite ?elem_of_app, ?list_elem_of_singleton; naive_solver. Qed.
Lemma logging_length hs n : (length (logging hs n) <= S (length hs))%nat.
Proof. unfold logging. case_decide; rewrite ?length_app; cbn; lia. Qed.

Lemma logged_blocks_spec us :
  NoDup (logged_blocks us) ∧ (∀ k, k ∈ logged_blocks us ↔ k ∈ us.*1) ∧ (length (logged_blocks us) <= length us)%nat.
Proof.
  unfold logged_blocks. induction us as [|w us (IH1 & IH2 & IH3)] using rev_ind; cbn.
  - split_and!; [constructor|done|done].
  - rewrite foldl_app. cbn. split_and!; [by apply logging_nodup| |].
    + intros k. rewrite logging_in, IH2, fmap_app, elem_of_app. cbn. by rewrite list_elem_of_singleton.
    + rewrite length_app. cbn. pose proof (logging_length (foldl (λ hs w, logging hs w.1) [] us) w.1). lia.
Qed.

(** The log in memory while an operation runs. *)
Record in_tx (st : Z) (hs : list Z) (lg : log) : Prop := {
  tx_ok : log_ok dv st hs lg;
  tx_size : l_size lg = LOGSIZE;
  tx_out : l_outstanding lg = 1;
  tx_com : l_committing lg = 0
}.

Lemma update_block_spec m f s D st hs b g :
  at_fs m f s → m_held m = [] → cache f D ∅ (list_to_set hs) → in_tx st hs (fs_log f) →
  NoDup hs → Z.of_nat (length hs) < LOGSIZE - 1 → 0 <= b < 2 ^ 31 → (∀ k, k ∈ hs → 0 <= k < 2 ^ 31) →
  wp (update_block b g) (λ _ s', ∃ f', at_fs m f' s' ∧
    cache f' (put_block D (b, g (D b))) ∅ (list_to_set (logging hs b)) ∧ in_tx st (logging hs b) (fs_log f') ∧
    bufs_only (f <| fs_log := fs_log f' |>) f') s.
Proof.
  intros Hs Hm Hc [Hlg Hsz Hout Hcom] Hnd Hlen Hb Hr. unfold update_block. fs_step.
  wp_use (bread_spec J cfg swtch rw S0 u dv Hu); [done|done|done|done| |].
  { right. rewrite dom_empty_L, union_empty_l_L, size_list_to_set by done. change LOGSIZE with 30 in *. change NBUF with 30. lia. }
  intros i s1 (f1 & Hs1 & Hc1 & [B1 B2 B3 B4 B5]). eapply cache_ext in Hc1; [|apply (put_block_id D b)]. fs_step.
  wp_use (set_data_spec J S0 u dv); [done|done|apply lookup_insert_eq|]. intros [] s2 (f2 & Hs2 & Hc2 & [C1 C2 C3 C4 C5]).
  fs_step. wp_use log_write_spec; [done|done|done|apply lookup_insert_eq|by rewrite C2, B2|done|done|by rewrite C2, B2| |done|done|].
  { rewrite C2, B2. lia. }
  intros [] s3 (f3 & lg3 & Hs3 & Hc3 & Hlg3 & Hsz3 & Hout3 & Hcom3 & [E1 E2 E3 E4 E5]). cbn in *.
  wp_use (brelse_spec J cfg S0 u dv Hu); [done|done|done|apply lookup_insert_eq| |].
  { left. rewrite elem_of_list_to_set, logging_in. auto. }
  intros [] s4 (f4 & Hs4 & Hc4 & [F1 F2 F3 F4 F5]). rewrite delete_insert_id in Hc4 by done.
  exists f4. rewrite F2, E2. split_and!; [done|done| |].
  - split; [done|done|by rewrite Hout3, C2, B2|by rewrite Hcom3, C2, B2].
  - split; cbn; congruence.
Qed.

Lemma updates_spec m f s D st us :
  at_fs m f s → m_held m = [] → cache f D ∅ ∅ → in_tx st [] (fs_log f) →
  loggable st (logged_blocks us) → Z.of_nat (length us) < LOGSIZE →
  wp (for_ us (λ w, update_block w.1 w.2)) (λ _ s', ∃ f', at_fs m f' s' ∧
    cache f' (updated D us) ∅ (list_to_set (logged_blocks us)) ∧ in_tx st (logged_blocks us) (fs_log f') ∧
    bufs_only (f <| fs_log := fs_log f' |>) f') s.
Proof.
  intros Hs Hm Hc Htx Hla Hlen.
  eapply (wp_for _ _ (λ ws s, ∃ f', at_fs m f' s ∧
    cache f' (updated D ws) ∅ (list_to_set (logged_blocks ws)) ∧ in_tx st (logged_blocks ws) (fs_log f') ∧
    bufs_only (f <| fs_log := fs_log f' |>) f')); [by exists f| |done].
  intros ws [b g] rest s1 -> (f1 & Hs1 & Hc1 & Htx1 & [B1 B2 B3 B4 B5]).
  destruct (logged_blocks_spec ws) as (Hnd & Hin & Hl). destruct (logged_blocks_spec (ws ++ (b, g) :: rest)) as (_ & Hin' & _).
  destruct Hla as [_ _ _ Hrg]. rewrite length_app in Hlen. cbn in Hlen.
  assert (∀ k, k ∈ b :: logged_blocks ws → 0 <= k < 2 ^ 31) as Hr.
  { intros k Hk. apply Hrg, Hin'. rewrite fmap_app, elem_of_app. cbn. rewrite elem_of_cons.
    rewrite elem_of_cons, Hin in Hk. tauto. }
  eapply wp_mono; [eapply (update_block_spec m f1 _ _ st (logged_blocks ws) b g); try done; [lia| |]|].
  - apply Hr. by left.
  - intros k Hk. apply Hr. by right.
  - intros [] s2 (f2 & Hs2 & Hc2 & Htx2 & [C1 C2 C3 C4 C5]). exists f2. unfold updated, logged_blocks in *.
    rewrite !foldl_app. cbn in *. split_and!; [done|done|done|]. split; cbn; congruence.
Qed.

Lemma transaction_spec m f s st us :
  let D := dread (fs_disk f) in
  at_fs m f s → m_held m = [] → cache f D ∅ ∅ → log_ok dv st [] (fs_log f) → l_size (fs_log f) = LOGSIZE →
  l_outstanding (fs_log f) = 0 → l_committing (fs_log f) = 0 → loggable st (logged_blocks us) → us ≠ [] →
  Z.of_nat (length us) < LOGSIZE →
  wp (transaction us) (λ _ s', ∃ f' D', at_fs m f' s' ∧ cache f' D' ∅ ∅ ∧ log_ok dv st [] (fs_log f') ∧
    (∀ b, ¬ in_log st b → D' b = updated D us b) ∧
    wrote (f <| fs_log := fs_log f' |>) (commit_writes st (logged_blocks us) (updated D us)) f') s.
Proof.
  intros D Hs Hm Hc Hlg Hsz Hout Hcom Hla Hne Hlen. unfold transaction. fs_step.
  wp_use begin_op_spec; [done|done|done|rewrite (lg_n _ _ _ _ Hlg), Hout; by vm_compute|]. intros [] s1 Hs1. fs_step.
  wp_use updates_spec; [done|done|by eapply cache_same; [| |exact Hc]| |done|done|].
  { destruct Hlg. split; [by split|done|cbn; lia|done]. }
  intros [] s2 (f2 & Hs2 & Hc2 & [Htx1 Htx2 Htx3 Htx4] & [B1 B2 B3 B4 B5]). cbn in *.
  wp_use end_op_spec; [done|done|done|done|done| |done|done|].
  { destruct us as [|w us]; [done|]. intros E. destruct (logged_blocks_spec (w :: us)) as (_ & Hin & _).
    assert (w.1 ∈ logged_blocks (w :: us)) as Hw by (apply Hin; left). rewrite E in Hw. by apply elem_of_nil in Hw. }
  intros [] s3 (f3 & D' & Hs3 & Hc3 & HD3 & [Hlg3 _] & [W1 W2 W3 W4 W5 W6]). cbn in *. exists f3, D'. split_and!; try done.
  split; cbn; congruence.
Qed.

(** ** Start of the system *)

Lemma initlog_spec m f s sb hs :
  let D := dread (fs_disk f) in let st := sb_logstart sb in
  at_fs m f s → m_held m = [] → cache f D ∅ ∅ → length (lh_block (fs_log f)) = Z.to_nat LOGSIZE →
  sb_nlog sb = LOGSIZE → l_outstanding (fs_log f) = 0 → l_committing (fs_log f) = 0 →
  loggable st hs → disk_header (D st) hs →
  wp (initlog cfg swtch rw dv sb) (λ _ s', ∃ f', at_fs m f' s' ∧ log_ok dv st [] (fs_log f') ∧
    log_ctl (fs_log f') = (LOGSIZE, 0, 0) ∧
    cache f' (foldl put_block D (recover_writes st hs D)) ∅ ∅ ∧
    wrote (f <| fs_log := fs_log f' |>) (recover_writes st hs D) f') s.
Proof.
  intros D st Hs Hm Hc Hlen Hnl Hout Hcom Hla Hdh. unfold initlog. apply wp_if_f; [done|].
  assert (i32 st = st) as Est by (apply i32_small; destruct Hla as [? _ _ _]; change LOGSIZE with 30 in *; lia).
  fs_step. fs_step; [rewrite Hm; apply not_elem_of_nil|]. fs_step. fs_step. fs_step. fs_step. fs_step. fs_step.
  wp_use (recover_spec J cfg swtch rw S0 u dv Hu m _ _ D st hs); try done.
  { by eapply cache_same; [| |exact Hc]. }
  intros [] s5 (f5 & lg5 & Hs5 & Hlg5 & Hctl & Hc5 & [W1 W2 W3 W4 W5 W6]). cbn in *. exists f5. rewrite W3.
  split_and!; try done. rewrite Hctl. unfold log_ctl. cbn. by rewrite Hnl, Hout, Hcom.
Qed.
End ops.
