(* ===== verification/FsTx.v ===== *)
(** The rules with which the operations of [kernel/fs.c] are specified: inside a
    transaction the file system is the contents [D] of its blocks, the buffers
    [H] the caller holds, the blocks [hs] logged so far and the inode table [I]. *)
From S2P Require Import Prelude CString Spinlock Riscv Kalloc Vm Proc FsState Sleeplock Bio Log Fs.
From S2P Require Import FsFrame BioOps LogOps LogTx.

(** [itable.inode[i]] updated. *)
Definition upd_I (I : Z → inode) (i : Z) (g : inode → inode) : Z → inode :=
  λ j, if j =? i then g (I j) else I j.

Lemma put_block_ne D n d k : k ≠ n → put_block D (n, d) k = D k.
Proof. intros. unfold put_block. cbn. by destruct (Z.eqb_spec k n). Qed.
Lemma put_block_twice D n d d' k : put_block (put_block D (n, d)) (n, d') k = put_block D (n, d') k.
Proof. unfold put_block. cbn. by destruct (k =? n). Qed.
Lemma upd_I_same I i g : upd_I I i g i = g (I i).
Proof. unfold upd_I. by rewrite Z.eqb_refl. Qed.
Lemma upd_I_ne I i g j : j ≠ i → upd_I I i g j = I j.
Proof. intros. unfold upd_I. by destruct (Z.eqb_spec j i). Qed.

Section tx.
Context (J : vdisk → Prop) (cfg : sched_cfg) (swtch : option Z → option Z → FM ()).
Context (rw : Z → bool → FM ()) `{HD : !DiskDriver J rw}.
Context (S0 : pstate fsys) (u : Z) (dv : Z).
Hypothesis Hu : ps_cur S0 = Some u.
(** The memory, without spinlocks held; the super block; the disk; the number
    of operations in progress; the open files. *)
Context (m : mach) (sb : superblock) (d0 : disk) (nout : Z) (Fl : Z → file).
Hypothesis Hm : m_held m = [].

Record tx_fs (D : Z → list Z) (H : gmap Z Z) (hs : list Z) (I : Z → inode) (f : fsys) : Prop := {
  t_cache : cache dv (taken S0 u) f D H (list_to_set hs);
  t_log : log_ok dv (sb_logstart sb) hs (fs_log f);
  t_ctl : log_ctl (fs_log f) = (LOGSIZE, nout, 0);
  t_nodup : NoDup hs;
  t_range : ∀ k, k ∈ hs → 0 <= k < 2 ^ 31;
  t_sb : fs_sb f = sb;
  t_disk : fs_disk f = d0;
  t_inode : ∀ i, fs_inode f i = I i;
  t_file : ∀ i, fs_file f i = Fl i
}.

Definition tx D H hs I (s : pstate fsys) : Prop := ∃ f, at_fs J S0 m f s ∧ tx_fs D H hs I f.

(** A block that can be released: it is logged, or as on the disk. *)
Definition clean (hs : list Z) (D : Z → list Z) (b : Z) : Prop := b ∈ hs ∨ D b = dread d0 b.

Lemma tx_fs_bufs D H hs I D' H' f f' :
  tx_fs D H hs I f → cache dv (taken S0 u) f' D' H' (list_to_set hs) → bufs_only f f' →
  tx_fs D' H' hs I f'.
Proof.
  intros [] Hc [B1 B2 B3 B4 B5]. split; rewrite ?B1, ?B2, ?B3; try done; intros; rewrite ?B4, ?B5; auto.
Qed.

Lemma tx_ext D D' H hs I I' s :
  tx D H hs I s → (∀ k, D k = D' k) → (∀ i, I i = I' i) → tx D' H hs I' s.
Proof.
  intros (f & Hf & []) HDD HII. exists f. split; [done|]. split; try done; [by eapply cache_ext|].
  intros. by rewrite <- HII.
Qed.

Lemma tx_clean D H hs I s b : tx D H hs I s → H !! b = None → clean hs D b.
Proof.
  intros (f & _ & T) Hb. destruct (decide (b ∈ hs)) as [|Hn]; [by left|]. right. rewrite <- (t_disk _ _ _ _ _ T).
  apply (c_clean _ _ _ _ _ _ (t_cache _ _ _ _ _ T)); [|done]. by rewrite elem_of_list_to_set.
Qed.

Lemma tx_bread D H hs I s b :
  tx D H hs I s → H !! b = None → Z.of_nat (length hs + size H) < NBUF →
  wp (bread cfg swtch rw dv b) (λ i s', tx D (<[b := i]> H) hs I s') s.
Proof.
  intros (f & Hf & T) Hb Hroom.
  wp_use (bread_spec J cfg swtch rw S0 u dv Hu); [done|done|apply T|done| |].
  { right. pose proof (size_union_alt (dom H) (list_to_set hs : gset Z)) as E. rewrite size_dom in E.
    pose proof (subseteq_size (list_to_set hs ∖ dom H) (list_to_set hs : gset Z) ltac:(set_solver)) as E2.
    rewrite size_list_to_set in E2 by apply T. lia. }
  intros i s' (f' & Hf' & Hc' & Hb'). exists f'. split; [done|]. by eapply tx_fs_bufs.
Qed.

Lemma tx_getb {A} D H hs I s b i (g : list Z → A) (Q : A → pstate fsys → Prop) :
  tx D H hs I s → H !! b = Some i → Q (g (D b)) s → wp (getb i (λ x, g (b_data x))) Q s.
Proof.
  intros (f & Hf & T) Hi HQ. eapply wp_getb; [done|].
  destruct (cache_held S0 u dv _ _ _ _ _ _ (t_cache _ _ _ _ _ T) Hi) as (_ & _ & _ & _ & -> & _). done.
Qed.

Lemma tx_set_data D H hs I s b i g (Q : () → pstate fsys → Prop) :
  tx D H hs I s → H !! b = Some i →
  (∀ s', tx (put_block D (b, g (D b))) H hs I s' → Q () s') → wp (set_data i g) Q s.
Proof.
  intros (f & Hf & T) Hi HQ. unfold set_data.
  wp_use (set_data_spec J S0 u dv m f s D (D b)); [done| |done|].
  { eapply cache_ext; [apply put_block_id|apply T]. }
  intros [] s' (f' & Hf' & Hc' & Hb'). apply HQ. exists f'. split; [done|]. by eapply tx_fs_bufs.
Qed.

Lemma tx_log_write D H hs I s b i :
  tx D H hs I s → H !! b = Some i → Z.of_nat (length hs) < LOGSIZE - 1 → 1 <= nout → 0 <= b < 2 ^ 31 →
  wp (log_write i) (λ _ s', tx D H (logging hs b) I s') s.
Proof.
  intros (f & Hf & T) Hi Hlen Hout Hb. destruct T as [T1 T2 T3 T4 T5 T6 T7 T8 T9].
  injection T3 as E1 E2 E3.
  wp_use (log_write_spec J S0 u dv); [done|done|done|done|done|done|done|done|by rewrite E2|done|done|].
  intros [] s' (f' & lg' & Hf' & Hc' & Hlg & Hsz & Ho & Hcm & [B1 B2 B3 B4 B5]). exists f'. split; [done|]. cbn in *.
  split; rewrite ?B1, ?B2, ?B3; try done.
  - unfold log_ctl. by rewrite Hsz, Ho, Hcm, E2, E3.
  - by apply logging_nodup.
  - intros k [?| ->]%logging_in; auto.
  - intros. by rewrite B4.
  - intros. by rewrite B5.
Qed.

Lemma tx_brelse D H hs I s b i :
  tx D (<[b := i]> H) hs I s → H !! b = None → clean hs D b →
  wp (brelse cfg i) (λ _ s', tx D H hs I s') s.
Proof.
  intros (f & Hf & T) Hb Hcl.
  wp_use (brelse_spec J cfg S0 u dv Hu); [done|done|apply T|apply lookup_insert_eq| |].
  { rewrite elem_of_list_to_set, (t_disk _ _ _ _ _ T). exact Hcl. }
  intros [] s' (f' & Hf' & Hc' & Hb'). rewrite delete_insert_id in Hc' by done.
  exists f'. split; [done|]. by eapply tx_fs_bufs.
Qed.

Lemma tx_get_sb D H hs I s (Q : superblock → pstate fsys → Prop) :
  tx D H hs I s → Q sb s → wp get_sb Q s.
Proof.
  intros (f & Hf & T) HQ. eapply wp_getfs; [done|by intros ? ? []|]. by rewrite (t_sb _ _ _ _ _ T).
Qed.

Lemma tx_geti {A} D H hs I s ip (g : inode → A) (Q : A → pstate fsys → Prop) :
  tx D H hs I s → ip ≠ 0 → Q (g (I (ip - 1))) s → wp (geti ip g) Q s.
Proof.
  intros (f & Hf & T) Hip HQ. unfold geti. apply wp_if_f; [by apply Z.eqb_neq|].
  eapply wp_getfs; [done|intros ? ? []; by f_equal|]. by rewrite (t_inode _ _ _ _ _ T).
Qed.

Lemma tx_seti D H hs I s ip g (Q : () → pstate fsys → Prop) :
  tx D H hs I s → ip ≠ 0 → (∀ s', tx D H hs (upd_I I (ip - 1) g) s' → Q () s') → wp (seti ip g) Q s.
Proof.
  intros (f & Hf & T) Hip HQ. unfold seti. apply wp_if_f; [by apply Z.eqb_neq|].
  eapply wp_modfs; [apply _|done|]. intros s' Hs'. apply HQ. eexists. split; [exact Hs'|].
  destruct T as [T1 T2 T3 T4 T5 T6 T7 T8 T9]. split; try done; [by eapply cache_same; [| |exact T1]|].
  intros j. cbn. unfold upd_I. by rewrite T8.
Qed.
End tx.

(** One step of an operation on [tx]. *)
Ltac tx_step :=
  lazymatch goal with
  | |- wp (_ ≫= _) _ _ => apply wp_bind
  | |- wp (mret _) _ _ => apply wp_ret
  | |- wp get_sb _ _ => eapply tx_get_sb; [eassumption|]
  | |- wp (geti _ _) _ _ => eapply tx_geti; [eassumption|try done|]
  | |- wp (seti _ _) _ _ => eapply tx_seti; [eassumption|try done|intros ? ?]
  end.
