(* ===== verification/FsAlloc.v ===== *)
(** The block bitmap: [balloc] takes a free block and zeroes it, [bfree] gives
    it back. *)
From S2P Require Import Prelude CString Spinlock Riscv Kalloc Vm Proc FsState Sleeplock Bio Log Fs.
From S2P Require Import FsFrame BioOps LogOps LogTx FsTx.

(** * Layout *)

(** Boot block, super block, log, inodes, bitmap, data. *)
Record layout (sb : superblock) : Prop := {
  lo_log : 0 <= sb_logstart sb ∧ sb_logstart sb + LOGSIZE <= sb_inodestart sb;
  lo_inodes : 0 <= sb_ninodes sb ∧ sb_inodestart sb + sb_ninodes sb / IPB < sb_bmapstart sb;
  lo_bmap : sb_bmapstart sb + sb_size sb / BPB < sb_size sb;
  lo_size : 0 < sb_size sb < 2 ^ 31
}.

Definition datastart (sb : superblock) : Z := sb_bmapstart sb + sb_size sb / BPB + 1.

Definition zero_blk : list Z := replicate (Z.to_nat BSIZE) 0.
Definition blocks (D : Z → list Z) : Prop := ∀ b, block (D b).

Lemma zero_blk_block : block zero_blk.
Proof. split; [apply length_replicate|]. by apply Forall_replicate. Qed.

Lemma blocks_put D b d : blocks D → block d → blocks (put_block D (b, d)).
Proof. intros HB Hd k. unfold put_block. cbn. by destruct (k =? b). Qed.

Lemma byte_at_set i j v d :
  0 <= i → 0 <= j < Z.of_nat (length d) → byte_at i (set_byte j v d) = if i =? j then v else byte_at i d.
Proof.
  intros Hi Hj. unfold byte_at, set_byte. rewrite !nth_lookup. destruct (Z.eqb_spec i j) as [->|Hne].
  - by rewrite list_lookup_insert_eq by lia.
  - by rewrite list_lookup_insert_ne by lia.
Qed.

Lemma byte_at_byte i d : Forall byte d → byte (byte_at i d).
Proof.
  intros Hd. unfold byte_at. rewrite nth_lookup. destruct (d !! Z.to_nat i) as [v|] eqn:E; [|done].
  by eapply Forall_lookup_1 in E.
Qed.

Lemma set_byte_block i v d : block d → byte v → block (set_byte i v d).
Proof.
  intros [Hl Hd] Hv. split; unfold set_byte; [by rewrite length_insert|]. by apply Forall_insert.
Qed.

Section bitmap.
Context (sb : superblock).
Hypothesis Hlay : layout sb.

Lemma lay_bblock b : 0 <= b < sb_size sb →
  BBLOCK b sb = b / BPB + sb_bmapstart sb ∧ sb_bmapstart sb <= BBLOCK b sb < datastart sb ∧
  0 <= BBLOCK b sb < 2 ^ 31.
Proof.
  intros Hb. destruct Hlay as [[? ?] [? ?] ? ?]. unfold BBLOCK, datastart. change LOGSIZE with 30 in *.
  assert (0 <= sb_ninodes sb / IPB) by (apply Z.div_pos; [lia|done]).
  assert (0 <= b / BPB <= sb_size sb / BPB) by (split; [apply Z.div_pos; [lia|done]|apply Z.div_le_mono; [done|lia]]).
  rewrite u32_small by lia. lia.
Qed.

Lemma lay_iblock i : 0 <= i < sb_ninodes sb →
  IBLOCK i sb = i / IPB + sb_inodestart sb ∧ sb_inodestart sb <= IBLOCK i sb < sb_bmapstart sb ∧
  0 <= IBLOCK i sb < 2 ^ 31.
Proof.
  intros Hi. destruct Hlay as [[? ?] [? ?] ? ?]. unfold IBLOCK. change LOGSIZE with 30 in *.
  assert (0 <= sb_size sb / BPB) by (apply Z.div_pos; [lia|done]).
  assert (0 <= i / IPB <= sb_ninodes sb / IPB) by (split; [apply Z.div_pos; [lia|done]|apply Z.div_le_mono; [done|lia]]).
  rewrite u32_small by lia. lia.
Qed.

Lemma lay_data : 0 < datastart sb <= sb_size sb ∧ sb_size sb < 2 ^ 31 ∧ sb_logstart sb + LOGSIZE <= sb_bmapstart sb.
Proof.
  destruct Hlay as [[? ?] [? ?] ? ?]. unfold datastart. change LOGSIZE with 30 in *.
  assert (0 <= sb_ninodes sb / IPB) by (apply Z.div_pos; [lia|done]).
  assert (0 <= sb_size sb / BPB) by (apply Z.div_pos; [lia|done]). lia.
Qed.

(** * The bitmap *)

Definition bit_byte (b : Z) : Z := b mod BPB / 8.

Definition used (D : Z → list Z) (b : Z) : bool :=
  Z.testbit (byte_at (bit_byte b) (D (BBLOCK b sb))) (b mod 8).

(** Block [b] marked as in use, or as free. *)
Definition mark (v : bool) (D : Z → list Z) (b : Z) : Z → list Z :=
  let x := byte_at (bit_byte b) (D (BBLOCK b sb)) in
  let m := Z.shiftl 1 (b mod 8) in
  put_block D (BBLOCK b sb, set_byte (bit_byte b) (if v then Z.lor x m else Z.land x (Z.lnot m)) (D (BBLOCK b sb))).

Lemma bit_byte_range b : 0 <= bit_byte b < 1024.
Proof.
  unfold bit_byte. pose proof (Z.mod_pos_bound b BPB ltac:(done)) as H. unfold BPB, BSIZE in *.
  split; [apply Z.div_pos; lia|apply Z.div_lt_upper_bound; lia].
Qed.

(** A block number is its bitmap block, byte and bit. *)
Lemma bit_inj b b' : b / BPB = b' / BPB → bit_byte b = bit_byte b' → b mod 8 = b' mod 8 → b = b'.
Proof.
  intros E1 E2 E3. unfold bit_byte in E2.
  assert (b mod BPB = b' mod BPB) as E.
  { rewrite (Z.div_mod (b mod BPB) 8), (Z.div_mod (b' mod BPB) 8), E2 by lia. f_equal.
    assert (∀ x, x mod BPB mod 8 = x mod 8) as Hmod.
    { intros x. unfold BPB, BSIZE. change (1024 * 8) with (8 * 1024). rewrite Z.rem_mul_r by lia.
      rewrite Z.mul_comm, Z.mod_add by lia. by rewrite Zmod_mod. }
    by rewrite !Hmod. }
  rewrite (Z.div_mod b BPB), (Z.div_mod b' BPB) by done. by rewrite E1, E.
Qed.

Lemma mark_bit v x k i : 0 <= k → 0 <= i →
  Z.testbit (if v : bool then Z.lor x (Z.shiftl 1 k) else Z.land x (Z.lnot (Z.shiftl 1 k))) i =
  if i =? k then v else Z.testbit x i.
Proof.
  intros Hk Hi. destruct v; rewrite ?Z.lor_spec, ?Z.land_spec, ?Z.lnot_spec, !flag_bit by lia;
    destruct (Z.eqb_spec k i), (Z.eqb_spec i k); try lia; by destruct (Z.testbit x i).
Qed.

Lemma mark_byte v x k : 0 <= k < 8 → byte x →
  byte (if v : bool then Z.lor x (Z.shiftl 1 k) else Z.land x (Z.lnot (Z.shiftl 1 k))).
Proof.
  intros Hk Hx. apply (bits_bound _ 8); [lia|]. intros i Hi. rewrite mark_bit by lia.
  destruct (Z.eqb_spec i k); [lia|]. by apply (bits_above x 8).
Qed.

Lemma mark_blocks v D b : blocks D → blocks (mark v D b).
Proof.
  intros HB. apply blocks_put; [done|]. apply set_byte_block; [done|]. apply mark_byte.
  - apply Z.mod_pos_bound. lia.
  - apply byte_at_byte, HB.
Qed.

Lemma mark_other v D b k : k ≠ BBLOCK b sb → mark v D b k = D k.
Proof. apply put_block_ne. Qed.

Lemma used_mark v D b b' : blocks D → 0 <= b < sb_size sb → 0 <= b' < sb_size sb →
  used (mark v D b) b' = if b' =? b then v else used D b'.
Proof.
  intros HB Hb Hb'. unfold used. destruct (lay_bblock b Hb) as [E _], (lay_bblock b' Hb') as [E' _].
  pose proof (bit_byte_range b). pose proof (bit_byte_range b').
  pose proof (Z.mod_pos_bound b 8 ltac:(lia)). pose proof (Z.mod_pos_bound b' 8 ltac:(lia)).
  destruct (Z.eqb_spec (BBLOCK b' sb) (BBLOCK b sb)) as [Eb|Nb].
  - unfold mark. rewrite Eb, put_block_same, byte_at_set;
      [|lia|rewrite (proj1 (HB _)); unfold BSIZE; lia].
    destruct (Z.eqb_spec (bit_byte b') (bit_byte b)) as [E1|N1].
    + rewrite E1, mark_bit by lia. destruct (Z.eqb_spec (b' mod 8) (b mod 8)) as [E2|N2].
      * rewrite (bit_inj b' b) by (done || lia). by rewrite Z.eqb_refl.
      * destruct (Z.eqb_spec b' b); [congruence|done].
    + destruct (Z.eqb_spec b' b); [congruence|done].
  - rewrite mark_other by done. destruct (Z.eqb_spec b' b); [congruence|done].
Qed.

(** The test of the code. *)
Lemma used_test D b x : x mod 8 = b mod 8 →
  (Z.land (byte_at (bit_byte b) (D (BBLOCK b sb))) (Z.shiftl 1 (x mod 8)) =? 0) = negb (used D b).
Proof.
  intros E. unfold used. rewrite E.
  rewrite <- truth_land_pow2 by (apply Z.mod_pos_bound; lia). unfold truth. by rewrite negb_involutive.
Qed.
End bitmap.

(** The block [b + bi] in the bitmap block that starts at [b]. *)
Lemma scan_bit b bi : b mod BPB = 0 → 0 <= bi < BPB →
  (b + bi) / BPB = b / BPB ∧ bit_byte (b + bi) = bi / 8 ∧ (b + bi) mod 8 = bi mod 8.
Proof.
  intros Hb Hbi. pose proof (Z.div_mod b BPB ltac:(done)) as E. rewrite Hb, Z.add_0_r, Z.mul_comm in E.
  remember (b / BPB) as q eqn:Eq. clear Eq. subst b. unfold bit_byte. split_and!.
  - rewrite Z.div_add_l, Z.div_small by (done || lia). lia.
  - rewrite Z.add_comm, Z.mod_add, Z.mod_small by (done || lia). done.
  - unfold BPB. rewrite Z.mul_assoc, Z.add_comm. by rewrite Z.mod_add.
Qed.

(** * The operations *)

Section ops.
Context (J : vdisk → Prop) (cfg : sched_cfg) (swtch : option Z → option Z → FM ()).
Context (rw : Z → bool → FM ()) `{HD : !DiskDriver J rw}.
Context (S0 : pstate fsys) (u : Z) (dv : Z).
Hypothesis Hu : ps_cur S0 = Some u.
Context (m : mach) (sb : superblock) (d0 : disk) (nout : Z) (Fl : Z → file).
Hypothesis Hm : m_held m = [].
Hypothesis Hlay : layout sb.

Abbreviation tx := (tx J S0 u dv m sb d0 nout Fl).
Abbreviation bread_ok := (tx_bread J cfg swtch rw S0 u dv Hu m sb d0 nout Fl Hm).
Abbreviation log_write_ok := (tx_log_write J S0 u dv m sb d0 nout Fl Hm).
Abbreviation brelse_ok := (tx_brelse J cfg S0 u dv Hu m sb d0 nout Fl Hm).
Abbreviation used := (used sb).
Abbreviation mark := (mark sb).

(** Read a block, change it with [g] and log it. *)
Lemma modify_block D H hs I s b i g (Q : () → pstate fsys → Prop) :
  tx D (<[b := i]> H) hs I s → H !! b = None → 1 <= nout → Z.of_nat (length hs) < LOGSIZE - 1 → 0 <= b < 2 ^ 31 →
  (∀ s', tx (put_block D (b, g (D b))) H (logging hs b) I s' → Q () s') →
  wp (set_data i g ;; log_write i ;; brelse cfg i) Q s.
Proof.
  intros Hs Hb Hout Hlen Hr HQ. tx_step. eapply tx_set_data; [done|apply lookup_insert_eq|]. intros s1 Hs1. tx_step.
  wp_use log_write_ok; [done|apply lookup_insert_eq|done|done|done|]. intros [] s2 Hs2.
  wp_use brelse_ok; [done|done| |]; [|intros [] s3 Hs3; by apply HQ].
  left. apply logging_in. by right.
Qed.

Lemma bzero_spec D H hs I s b :
  tx D H hs I s → H !! b = None → 1 <= nout → Z.of_nat (length hs + size H) < LOGSIZE - 1 → 0 <= b < 2 ^ 31 →
  wp (bzero cfg swtch rw dv b) (λ _ s', tx (put_block D (b, zero_blk)) H (logging hs b) I s') s.
Proof.
  intros Hs Hb Hout Hlen Hr. unfold bzero. rewrite u32_small by lia. tx_step.
  wp_use bread_ok; [done|done|change LOGSIZE with 30 in *; change NBUF with 30; lia|]. intros i s1 Hs1.
  eapply (modify_block D H hs I s1 b i); [done|done|done|lia|done|]. done.
Qed.

(** The buffers held by the caller of [balloc] are of other blocks. *)
Definition balloc_held (D : Z → list Z) (H : gmap Z Z) : Prop :=
  ∀ b, is_Some (H !! b) → datastart sb <= b ∧ used D b = true.

(** The contents after block [r] was allocated. *)
Definition alloc_D (D : Z → list Z) (r : Z) : Z → list Z := put_block (mark true D r) (r, zero_blk).
Definition alloc_hs (hs : list Z) (r : Z) : list Z := logging (logging hs (BBLOCK r sb)) r.

Lemma balloc_held_meta D H b : balloc_held D H → b < datastart sb → H !! b = None.
Proof.
  intros HH Hb. destruct (H !! b) eqn:E; [|done]. destruct (HH b ltac:(eauto)). lia.
Qed.

Lemma balloc_scan_spec D H hs I s b bp :
  tx D (<[BBLOCK b sb := bp]> H) hs I s → blocks D → balloc_held D H → clean d0 hs D (BBLOCK b sb) →
  1 <= nout → Z.of_nat (length hs + size H) < LOGSIZE - 2 → b mod BPB = 0 → 0 <= b < sb_size sb →
  wp (balloc_scan cfg swtch rw dv b bp) (λ r s', match r with
    | Some r => b <= r < sb_size sb ∧ used D r = false ∧ tx (alloc_D D r) H (alloc_hs hs r) I s'
    | None => (∀ x, b <= x < b + BPB → x < sb_size sb → used D x = true) ∧
        tx D (<[BBLOCK b sb := bp]> H) hs I s' end) s.
Proof.
  intros Hs HB HH Hcl Hout Hlen Hmod Hb. unfold balloc_scan.
  pose proof (lay_data sb Hlay) as (_ & ? & _). destruct (lay_bblock sb Hlay b Hb) as [Eb [Rb Rb2]].
  assert (H !! BBLOCK b sb = None) as HHb by (eapply balloc_held_meta; [done|lia]).
  eapply (wp_while (λ bi s1, 0 <= bi <= BPB ∧ tx D (<[BBLOCK b sb := bp]> H) hs I s1 ∧
    ∀ x, b <= x < b + bi → x < sb_size sb → used D x = true) (λ bi _, BPB - bi)).
  2: { split_and!; [done|done|done|]. lia. }
  2: { by vm_compute. }
  intros bi s1 (Hbi & Hs1 & Hlow). tx_step. tx_step.
  apply wp_if; intros Ec; b2p; cycle 1.
  { tx_step. split; [|done]. intros x Hx1 Hx2. apply Hlow; [|done]. destruct Ec; b2p; lia. }
  destruct (scan_bit b bi) as (B1 & B2 & B3); [done|lia|].
  destruct (lay_bblock sb Hlay (b + bi)) as [Eb' _]; [lia|].
  assert (BBLOCK (b + bi) sb = BBLOCK b sb) as Ebb by congruence.
  tx_step. eapply (tx_getb J S0 u dv m sb d0 nout Fl D _ _ _ _ _ _ (λ d, d)); [done|apply lookup_insert_eq|].
  pose proof (used_test sb D (b + bi) bi (eq_sym B3)) as Et. rewrite B2, Ebb in Et. rewrite Et.
  destruct (used D (b + bi)) eqn:Eu; cbn [negb]; cycle 1.
  - tx_step. eapply tx_set_data; [done|apply lookup_insert_eq|]. intros s2 Hs2. tx_step.
    wp_use log_write_ok; [done|apply lookup_insert_eq|change LOGSIZE with 30 in *; lia|done|lia|]. intros [] s3 Hs3.
    tx_step. wp_use brelse_ok; [done|done|left; apply logging_in; by right|]. intros [] s4 Hs4. tx_step.
    assert (tx (mark true D (b + bi)) H (logging hs (BBLOCK b sb)) I s4) as Hs4'.
    { unfold mark. rewrite B2, Ebb, B3. done. }
    wp_use (bzero_spec (mark true D (b + bi)) H (logging hs (BBLOCK b sb)) I s4); [done| |done| |lia|].
    + destruct (H !! (b + bi)) eqn:E; [|done]. destruct (HH (b + bi) ltac:(eauto)) as [_ E']. congruence.
    + pose proof (logging_length hs (BBLOCK b sb)). change LOGSIZE with 30 in *. lia.
    + intros [] s5 Hs5. tx_step. split_and!; [lia|lia|done|]. unfold alloc_hs. by rewrite Ebb.
  - tx_step. split; [|lia]. split_and!; [lia|lia|done|]. intros x Hx1 Hx2.
    destruct (decide (x = b + bi)) as [->|]; [done|]. apply Hlow; lia.
Qed.

Lemma balloc_spec D H hs I s :
  tx D H hs I s → blocks D → balloc_held D H → 1 <= nout → Z.of_nat (length hs + size H) < LOGSIZE - 2 →
  wp (balloc cfg swtch rw dv) (λ r s',
    (r = 0 ∧ (∀ b, 0 <= b < sb_size sb → used D b = true) ∧ tx D H hs I s') ∨
    (0 <= r < sb_size sb ∧ used D r = false ∧ tx (alloc_D D r) H (alloc_hs hs r) I s')) s.
Proof.
  intros Hs HB HH Hout Hlen. unfold balloc. pose proof (lay_data sb Hlay) as (? & ? & _).
  eapply (wp_while (λ b s1, 0 <= b ∧ b mod BPB = 0 ∧ tx D H hs I s1 ∧
    ∀ x, 0 <= x < b → x < sb_size sb → used D x = true) (λ b _, Z.max 0 (sb_size sb - b))).
  2: { split_and!; [done|done|done|lia]. }
  2: { change (2 ^ 64) with (2 ^ 31 * 2 ^ 33). lia. }
  intros b s1 (Hb & Hmod & Hs1 & Hlow). tx_step. tx_step.
  apply wp_if; intros Ec; b2p; cycle 1.
  { tx_step. left. split_and!; [done| |done]. intros x Hx. apply Hlow; lia. }
  destruct (lay_bblock sb Hlay b ltac:(lia)) as [_ [Rb _]].
  assert (H !! BBLOCK b sb = None) as HHb by (eapply balloc_held_meta; [done|lia]).
  pose proof (tx_clean J S0 u dv m sb d0 nout Fl _ _ _ _ _ _ Hs1 HHb) as Hcl.
  tx_step. wp_use bread_ok; [done|done|change LOGSIZE with 30 in *; change NBUF with 30; lia|]. intros bp s2 Hs2.
  tx_step. wp_use (balloc_scan_spec D H hs I s2 b bp); [done|done|done|done|done|done|done|lia|]. intros [r|] s3.
  - intros (Hr & Hf & Hs3). tx_step. right. split_and!; [lia|lia|done|done].
  - intros [Hall Hs3]. tx_step. wp_use brelse_ok; [done|done|done|]. intros [] s4 Hs4. tx_step.
    split; [|unfold BPB, BSIZE; lia]. split_and!; [unfold BPB, BSIZE; lia| |done|].
    + rewrite Z.add_mod, Hmod, Z.mod_same by done. done.
    + intros x Hx Hx2. destruct (decide (x < b)); [apply Hlow; lia|apply Hall; lia].
Qed.

Lemma bfree_spec D H hs I s b :
  tx D H hs I s → blocks D → H !! BBLOCK b sb = None → 1 <= nout → Z.of_nat (length hs + size H) < LOGSIZE - 1 →
  0 <= b < sb_size sb → used D b = true →
  wp (bfree cfg swtch rw dv b) (λ _ s', tx (mark false D b) H (logging hs (BBLOCK b sb)) I s') s.
Proof.
  intros Hs HB HHb Hout Hlen Hb Hused. unfold bfree. destruct (lay_bblock sb Hlay b Hb) as [Eb [Rb Rb2]].
  pose proof (lay_data sb Hlay) as (_ & ? & _).
  assert (b mod BPB mod 8 = b mod 8) as E8.
  { unfold BPB, BSIZE. change (1024 * 8) with (8 * 1024). rewrite Z.rem_mul_r, Z.mul_comm, Z.mod_add, Zmod_mod by lia. done. }
  tx_step. tx_step. tx_step. wp_use bread_ok; [done|done|change LOGSIZE with 30 in *; change NBUF with 30; lia|].
  intros bp s1 Hs1. tx_step.
  eapply (tx_getb J S0 u dv m sb d0 nout Fl D _ _ _ _ _ _ (λ d, d)); [exact Hs1|apply lookup_insert_eq|].
  rewrite E8. change (b mod BPB / 8) with (bit_byte b). rewrite (used_test sb D b b), Hused by done. cbn [negb].
  eapply (modify_block D H hs I s1 (BBLOCK b sb)); [done|done|done|lia|lia|]. intros s2 Hs2. done.
Qed.
End ops.
