(* ===== verification/FsInode.v ===== *)
(** The contents of a file as the blocks its inode lists: which changes keep
    them, and what allocating a block adds. *)
From S2P Require Import Prelude CString Spinlock Riscv Kalloc Vm Proc FsState Sleeplock Bio Log Fs.
From S2P Require Import FsFrame BioOps LogOps LogTx FsTx FsAlloc.

Definition iaddr (x : inode) (k : Z) : Z := nth (Z.to_nat k) (i_addrs x) 0.
Definition set_iaddr (x : inode) (k v : Z) : inode := x <| i_addrs := <[Z.to_nat k := v]> (i_addrs x) |>.

(** The disk block of block [bn] of the file, 0 when there is none. *)
Definition file_block (D : Z → list Z) (x : inode) (bn : Z) : Z :=
  if bn <? NDIRECT then iaddr x bn
  else if iaddr x NDIRECT =? 0 then 0 else ind_get (bn - NDIRECT) (D (iaddr x NDIRECT)).

Definition file_byte (D : Z → list Z) (x : inode) (i : Z) : Z :=
  byte_at (i mod BSIZE) (D (file_block D x (i / BSIZE))).
Definition file_bytes (D : Z → list Z) (x : inode) (off n : Z) : list Z :=
  map (file_byte D x) (seqZ off n).

(** The blocks of a file. *)
Definition owned (D : Z → list Z) (x : inode) (b : Z) : Prop :=
  b ≠ 0 ∧ (b = iaddr x NDIRECT ∨ ∃ k, 0 <= k < MAXFILE ∧ file_block D x k = b).

Lemma iaddr_set x k v j : length (i_addrs x) = Z.to_nat (NDIRECT + 1) → 0 <= k <= NDIRECT → 0 <= j →
  iaddr (set_iaddr x k v) j = if j =? k then v else iaddr x j.
Proof.
  intros Hl Hk Hj. unfold iaddr, set_iaddr. cbn. rewrite !nth_lookup. unfold NDIRECT in *.
  destruct (Z.eqb_spec j k) as [->|]; [by rewrite list_lookup_insert_eq by lia|].
  by rewrite list_lookup_insert_ne by lia.
Qed.

Lemma ind_get_zero k : 0 <= k < NINDIRECT → ind_get k zero_blk = 0.
Proof.
  intros Hk. unfold ind_get, get32, slice, zero_blk. unfold NINDIRECT, BSIZE in *. change (1024 / 4) with 256 in Hk.
  rewrite drop_replicate, take_replicate. rewrite Nat.min_l by lia. done.
Qed.

Lemma ind_get_put k v d : 0 <= k < NINDIRECT → length d = Z.to_nat BSIZE → 0 <= v < 2 ^ 32 →
  ind_get k (ind_put k v d) = v.
Proof.
  intros Hk Hd Hv. unfold ind_get, ind_put, get32, put32. unfold NINDIRECT, BSIZE in *. change (1024 / 4) with 256 in Hk.
  change 4 with (Z.of_nat 4) at 2. rewrite <- (le_enc_length 4 v) at 1.
  rewrite slice_splice; [|lia|rewrite le_enc_length, Hd; lia]. apply le_dec_enc. lia.
Qed.

Lemma ind_get_put_ne k k' v d : 0 <= k < NINDIRECT → 0 <= k' < NINDIRECT → k ≠ k' → length d = Z.to_nat BSIZE →
  ind_get k (ind_put k' v d) = ind_get k d.
Proof.
  intros Hk Hk' Hne Hd. unfold ind_get, ind_put, get32, put32. f_equal.
  unfold NINDIRECT, BSIZE in *. change (1024 / 4) with 256 in *.
  apply slice_splice_ne; rewrite ?le_enc_length; lia.
Qed.

Lemma ind_get_range k d : Forall byte d → 0 <= ind_get k d < 2 ^ 32.
Proof.
  intros Hd. unfold ind_get, get32. pose proof (le_dec_range (slice (4 * k) 4 d) (slice_bytes _ _ _ Hd)) as Hr.
  assert (length (slice (4 * k) 4 d) <= 4)%nat as Hl by (unfold slice; rewrite length_take; lia).
  split; [lia|]. eapply Z.lt_le_trans; [apply Hr|]. change (2 ^ 32) with (256 ^ 4).
  apply Z.pow_le_mono_r; lia.
Qed.

Lemma ind_put_block k v d : 0 <= k < NINDIRECT → block d → block (ind_put k v d).
Proof.
  intros Hk [Hl Hb]. unfold ind_put, put32. unfold NINDIRECT, BSIZE in *. change (1024 / 4) with 256 in *. split.
  - rewrite splice_length, Hl by (rewrite ?le_enc_length, ?Hl; lia). done.
  - apply splice_bytes; [apply le_enc_bytes|done].
Qed.

Section inode.
Context (sb : superblock).
Hypothesis Hlay : layout sb.

Abbreviation used := (used sb).
Definition data_block (b : Z) : Prop := datastart sb <= b < sb_size sb.

(** The blocks before the data are marked as in use. *)
Record disk_ok (D : Z → list Z) : Prop := {
  dk_blocks : blocks D;
  dk_meta : ∀ b, 0 <= b < datastart sb → used D b = true
}.

Record inode_ok (D : Z → list Z) (x : inode) : Prop := {
  io_len : length (i_addrs x) = Z.to_nat (NDIRECT + 1);
  io_size : 0 <= i_size x <= MAXFILE * BSIZE;
  io_full : ∀ bn, 0 <= bn → bn * BSIZE < i_size x → file_block D x bn ≠ 0;
  io_ind : iaddr x NDIRECT ≠ 0 → data_block (iaddr x NDIRECT) ∧ used D (iaddr x NDIRECT) = true;
  io_data : ∀ bn, 0 <= bn < MAXFILE → file_block D x bn ≠ 0 →
    data_block (file_block D x bn) ∧ used D (file_block D x bn) = true ∧ file_block D x bn ≠ iaddr x NDIRECT;
  io_inj : ∀ bn bn', 0 <= bn < MAXFILE → 0 <= bn' < MAXFILE → file_block D x bn ≠ 0 →
    file_block D x bn = file_block D x bn' → bn = bn'
}.

(** [x] may have got new blocks, which are zero; nothing else changed. *)
Record grows (D : Z → list Z) (x : inode) (D' : Z → list Z) (x' : inode) : Prop := {
  g_disk : disk_ok D';
  g_ok : inode_ok D' x';
  g_same : x' = x <| i_addrs := i_addrs x' |>;
  g_keep : ∀ k, 0 <= k < MAXFILE → file_block D x k ≠ 0 → file_block D' x' k = file_block D x k;
  g_new : ∀ k, 0 <= k < MAXFILE → file_block D x k = 0 → file_block D' x' k ≠ 0 →
    D' (file_block D' x' k) = zero_blk ∧ used D (file_block D' x' k) = false;
  g_ind : iaddr x' NDIRECT = iaddr x NDIRECT ∨
    (iaddr x NDIRECT = 0 ∧ used D (iaddr x' NDIRECT) = false);
  g_data : ∀ b, data_block b → used D b = true → b ≠ iaddr x NDIRECT → D' b = D b;
  g_used : ∀ b, 0 <= b < sb_size sb → used D b = true → used D' b = true;
  g_back : ∀ b, data_block b → used D' b = true → used D b = true ∨ owned D' x' b;
  g_meta : ∀ b, b < sb_bmapstart sb → D' b = D b
}.

Lemma file_grows_refl D x : disk_ok D → inode_ok D x → grows D x D x.
Proof. intros HD Hx. split; [done|done|by destruct x|done|congruence|by left|done|done|by left|done]. Qed.

Lemma data_size b : data_block b → 0 <= b < sb_size sb.
Proof. intros []. destruct (lay_data sb Hlay) as (? & _). lia. Qed.

Lemma file_grows_trans D x D1 x1 D2 x2 : inode_ok D x → grows D x D1 x1 → grows D1 x1 D2 x2 → grows D x D2 x2.
Proof.
  intros Hx [A1 A2 A3 A4 A5 A6 A7 A8 A10 A9] [B1 B2 B3 B4 B5 B6 B7 B8 B10 B9]. split; try done.
  - rewrite B3, A3. done.
  - intros k Hk Hne. rewrite B4, A4 by (rewrite ?A4; done). done.
  - intros k Hk H0 Hne. destruct (decide (file_block D1 x1 k = 0)) as [E1|N1].
    + destruct (B5 k Hk E1 Hne) as [E Hu]. split; [done|].
      destruct (used D (file_block D2 x2 k)) eqn:Eu; [|done].
      rewrite A8 in Hu; [done| |done]. apply data_size. apply (io_data _ _ B2); done.
    + rewrite B4 by done. destruct (A5 k Hk H0 N1) as [E Hu]. split; [|done].
      destruct (io_data _ _ A2 k Hk N1) as (? & ? & ?). rewrite B7; done.
  - destruct B6 as [->|[E0 Hu]]; [done|]. right.
    split; [by destruct A6 as [<-|[-> _]]|]. destruct (used D (iaddr x2 NDIRECT)) eqn:Eu; [|done].
    destruct (decide (iaddr x2 NDIRECT = 0)) as [Z0|N0].
    + rewrite Z0 in *. destruct (lay_data sb Hlay) as (? & _). rewrite (dk_meta _ A1) in Hu by lia. done.
    + destruct (io_ind _ _ B2 N0) as [Hd _]. rewrite A8 in Hu; [done|by apply data_size|done].
  - intros b Hb Hu Hne. rewrite B7, A7; try done.
    + apply A8; [by apply data_size|done].
    + destruct A6 as [->|[_ E]]; [done|]. intros ->. congruence.
  - intros b Hb Hu. apply B8, A8; done.
  - intros b Hb Hu. destruct (B10 b Hb Hu) as [Hu1|?]; [|by right]. destruct (A10 b Hb Hu1) as [?|[N0 Ho]]; [by left|right].
    split; [done|]. destruct Ho as [E|(k & Hk & E)].
    + left. destruct B6 as [->|[E0 _]]; [done|congruence].
    + right. exists k. split; [done|]. rewrite B4; [done|done|congruence].
  - intros b Hb. by rewrite B9, A9.
Qed.

(** ** A new block *)

Section alloc.
Context (D : Z → list Z) (r : Z).
Hypothesis HD : disk_ok D.
Hypothesis Hr : 0 <= r < sb_size sb.
Hypothesis Hfree : used D r = false.

Lemma alloc_data : data_block r.
Proof.
  split; [|lia]. destruct (decide (r < datastart sb)) as [Hlt|]; [|lia].
  rewrite (dk_meta _ HD) in Hfree by lia. done.
Qed.

Lemma alloc_other b : 0 <= b < sb_bmapstart sb ∨ datastart sb <= b → b ≠ r → alloc_D sb D r b = D b.
Proof.
  intros Hb Hne. unfold alloc_D. rewrite put_block_ne, mark_other; [done| |done].
  destruct (lay_bblock sb Hlay r Hr) as (_ & ? & _). lia.
Qed.

Lemma alloc_meta b : b < sb_bmapstart sb → alloc_D sb D r b = D b.
Proof.
  intros Hb. destruct alloc_data. destruct (lay_bblock sb Hlay r Hr) as (_ & ? & _).
  unfold alloc_D. rewrite put_block_ne, mark_other by lia. done.
Qed.

Lemma alloc_used b : 0 <= b < sb_size sb → used (alloc_D sb D r) b = if b =? r then true else used D b.
Proof.
  intros Hb. rewrite <- (used_mark sb Hlay true D r b (dk_blocks _ HD) Hr Hb). unfold FsAlloc.used, alloc_D.
  rewrite put_block_ne; [done|]. destruct (lay_bblock sb Hlay b Hb) as (_ & ? & _), alloc_data. lia.
Qed.

Lemma alloc_disk : disk_ok (alloc_D sb D r).
Proof.
  split; [apply blocks_put; [apply mark_blocks, HD|apply zero_blk_block]|].
  intros b Hb. destruct (lay_data sb Hlay) as (? & _). rewrite alloc_used by lia.
  destruct (b =? r); [done|]. by apply (dk_meta _ HD).
Qed.

Lemma alloc_zero : alloc_D sb D r r = zero_blk.
Proof. apply put_block_same. Qed.

Lemma alloc_used_true b : 0 <= b < sb_size sb → used D b = true → used (alloc_D sb D r) b = true.
Proof. intros Hb Hu. rewrite alloc_used by done. by destruct (b =? r). Qed.

Lemma alloc_keep b : data_block b → used D b = true → alloc_D sb D r b = D b.
Proof. intros [? ?] Hu. apply alloc_other; [by right|]. congruence. Qed.
End alloc.

(** ** A file with a new block *)

Lemma free_not_owned D x r : disk_ok D → inode_ok D x → used D r = false → data_block r →
  r ≠ 0 ∧ r ≠ iaddr x NDIRECT ∧ ∀ k, 0 <= k < MAXFILE → file_block D x k ≠ r.
Proof.
  intros HD Hx Hf [Hr _]. destruct (lay_data sb Hlay) as (? & _). assert (r ≠ 0) as H0 by lia.
  split_and!; [done| |].
  - intros E. destruct (io_ind _ _ Hx) as [_ Hu]; [by rewrite <- E|]. congruence.
  - intros k Hk E. destruct (io_data _ _ Hx k Hk) as (_ & Hu & _); [by rewrite E|]. congruence.
Qed.

Section add.
Context (D : Z → list Z) (x : inode) (D' : Z → list Z) (x' : inode) (bn r : Z).
Hypothesis HD : disk_ok D.
Hypothesis Hx : inode_ok D x.
Hypothesis Hr : data_block r.
Hypothesis Hfree : used D r = false.
Hypothesis Hbn : 0 <= bn < MAXFILE.
Hypothesis H0 : file_block D x bn = 0.
Hypothesis HD' : disk_ok D'.
Hypothesis Hsame : x' = x <| i_addrs := i_addrs x' |>.
Hypothesis Hlen : length (i_addrs x') = Z.to_nat (NDIRECT + 1).
Hypothesis Hind : iaddr x' NDIRECT = iaddr x NDIRECT.
Hypothesis Hfb : ∀ k, 0 <= k < MAXFILE → file_block D' x' k = if k =? bn then r else file_block D x k.
Hypothesis Hz : D' r = zero_blk.
Hypothesis Hd : ∀ b, data_block b → used D b = true → b ≠ iaddr x NDIRECT → D' b = D b.
Hypothesis Hu : ∀ b, 0 <= b < sb_size sb → used D' b = if b =? r then true else used D b.
Hypothesis Hmeta : ∀ b, b < sb_bmapstart sb → D' b = D b.

Lemma add_used b : data_block b → used D b = true → used D' b = true.
Proof. intros Hb E. rewrite Hu by by apply data_size. by destruct (b =? r). Qed.

Lemma inode_ok_add : inode_ok D' x'.
Proof.
  destruct (free_not_owned D x r HD Hx Hfree Hr) as (N0 & Ni & Nb). split; try done.
  - rewrite Hsame. cbn. apply Hx.
  - intros k Hk Hs. assert (k < MAXFILE) as Hm.
    { rewrite Hsame in Hs. cbn in Hs. destruct (io_size _ _ Hx). unfold BSIZE in *. lia. }
    rewrite Hfb by lia. destruct (k =? bn); [done|]. apply (io_full _ _ Hx); [done|]. by rewrite Hsame in Hs.
  - rewrite Hind. intros N. destruct (io_ind _ _ Hx N) as [? ?]. split; [done|]. by apply add_used.
  - intros k Hk. rewrite Hfb, Hind by done. destruct (Z.eqb_spec k bn).
    + intros _. split_and!; [done| |done]. rewrite Hu by by apply data_size. by rewrite Z.eqb_refl.
    + intros N. destruct (io_data _ _ Hx k Hk N) as (? & ? & ?). split_and!; [done| |done]. by apply add_used.
  - intros k k' Hk Hk'. rewrite !Hfb by done. pose proof (Nb k Hk). pose proof (Nb k' Hk').
    destruct (Z.eqb_spec k bn), (Z.eqb_spec k' bn); intros N E; try congruence. by apply (io_inj _ _ Hx).
Qed.

Lemma grows_add : grows D x D' x'.
Proof.
  split; try done.
  - apply inode_ok_add.
  - intros k Hk N. rewrite Hfb by done. destruct (Z.eqb_spec k bn); congruence.
  - intros k Hk E. rewrite Hfb by done. destruct (Z.eqb_spec k bn); [done|congruence].
  - by left.
  - intros b Hb E. rewrite Hu by done. by destruct (b =? r).
  - intros b Hb. rewrite Hu by by apply data_size. destruct (Z.eqb_spec b r) as [->|]; [|by left]. intros _. right.
    destruct (free_not_owned D x r HD Hx Hfree Hr) as (N0 & _). split; [done|]. right.
    exists bn. rewrite Hfb, Z.eqb_refl by done. done.
Qed.
End add.

Section steps.
Context (D : Z → list Z) (x : inode) (r : Z).
Hypothesis HD : disk_ok D.
Hypothesis Hx : inode_ok D x.
Hypothesis Hr : 0 <= r < sb_size sb.
Hypothesis Hfree : used D r = false.

Lemma alloc_ind : iaddr x NDIRECT ≠ 0 → alloc_D sb D r (iaddr x NDIRECT) = D (iaddr x NDIRECT).
Proof. intros N. destruct (io_ind _ _ Hx N). by apply alloc_keep. Qed.

Lemma alloc_file_block k : file_block (alloc_D sb D r) x k = file_block D x k.
Proof.
  unfold file_block. destruct (k <? NDIRECT); [done|]. destruct (Z.eqb_spec (iaddr x NDIRECT) 0); [done|].
  by rewrite alloc_ind.
Qed.

Lemma grows_direct bn : 0 <= bn < NDIRECT → iaddr x bn = 0 → grows D x (alloc_D sb D r) (set_iaddr x bn r).
Proof.
  intros Hbn E. pose proof (alloc_data D r HD Hr Hfree) as Hdr. change NDIRECT with 12 in Hbn.
  eapply (grows_add D x _ _ bn r); try done.
  - change MAXFILE with 268. lia.
  - unfold file_block. destruct (Z.ltb_spec bn NDIRECT) as [|N]; [done|]. unfold NDIRECT in N. lia.
  - by apply alloc_disk.
  - cbn. rewrite length_insert. apply Hx.
  - rewrite iaddr_set by (unfold NDIRECT; (apply Hx || lia)). by destruct (Z.eqb_spec NDIRECT bn); unfold NDIRECT in *; [lia|].
  - intros k Hk. rewrite <- alloc_file_block. unfold file_block. rewrite !iaddr_set by (unfold NDIRECT; (apply Hx || lia)).
    destruct (Z.eqb_spec NDIRECT bn); [unfold NDIRECT in *; lia|].
    destruct (Z.ltb_spec k NDIRECT), (Z.eqb_spec k bn); try done; unfold NDIRECT in *; lia.
  - apply alloc_zero.
  - intros b Hb Hu _. by apply alloc_keep.
  - intros b Hb. by apply alloc_used.
  - intros b Hb. by apply alloc_meta.
Qed.

Lemma grows_indirect : iaddr x NDIRECT = 0 → grows D x (alloc_D sb D r) (set_iaddr x NDIRECT r).
Proof.
  intros E. pose proof (alloc_data D r HD Hr Hfree) as Hdr.
  destruct (free_not_owned D x r HD Hx Hfree Hdr) as (N0 & Ni & Nb).
  assert (∀ k, 0 <= k → iaddr (set_iaddr x NDIRECT r) k = if k =? NDIRECT then r else iaddr x k) as Hi.
  { intros k Hk. apply iaddr_set; [apply Hx|unfold NDIRECT; lia|done]. }
  assert (∀ k, 0 <= k < MAXFILE → file_block (alloc_D sb D r) (set_iaddr x NDIRECT r) k = file_block D x k) as Hfb.
  { intros k Hk. unfold file_block. rewrite !Hi by (unfold NDIRECT; lia). rewrite Z.eqb_refl, E, alloc_zero. cbn.
    destruct (Z.ltb_spec k NDIRECT) as [?|?]; [by destruct (Z.eqb_spec k NDIRECT); [lia|]|].
    destruct (Z.eqb_spec r 0); [done|]. apply ind_get_zero. unfold MAXFILE in Hk. lia. }
  assert (iaddr (set_iaddr x NDIRECT r) NDIRECT = r) as Hir by by rewrite Hi by done.
  destruct Hx as [X1 X2 X3 X4 X5 X6].
  assert (∀ b, data_block b → used D b = true → used (alloc_D sb D r) b = true) as Hut.
  { intros b Hb Hub. apply alloc_used_true; try done. by apply data_size. }
  split; try done.
  - by apply alloc_disk.
  - split; try done.
    + cbn. by rewrite length_insert.
    + intros k Hk Hs. rewrite Hfb; [by apply X3|]. destruct X2. unfold BSIZE in *. cbn in Hs. lia.
    + intros _. rewrite Hir. split; [done|]. rewrite alloc_used by (done || lia). by rewrite Z.eqb_refl.
    + intros k Hk. rewrite Hfb by done. intros N. destruct (X5 k Hk N) as (? & ? & ?). rewrite Hir. split_and!; [done|by apply Hut|by apply Nb].
    + intros k k' Hk Hk'. rewrite !Hfb by done. by apply X6.
  - intros k Hk ?. by apply Hfb.
  - intros k Hk E0 N. by rewrite Hfb in N.
  - right. by rewrite Hir.
  - intros b Hb Hu _. by apply alloc_keep.
  - intros b Hb Hub. by apply alloc_used_true.
  - intros b Hb. rewrite alloc_used by (try done; by apply data_size). destruct (Z.eqb_spec b r) as [->|]; [|by left].
    intros _. right. split; [done|by left].
  - intros b Hb. by apply alloc_meta.
Qed.

Lemma grows_entry k :
  let D1 := alloc_D sb D r in let ind := iaddr x NDIRECT in
  ind ≠ 0 → 0 <= k < NINDIRECT → ind_get k (D ind) = 0 →
  grows D x (put_block D1 (ind, ind_put k r (D1 ind))) x.
Proof.
  intros D1 ind N Hk E. pose proof (alloc_data D r HD Hr Hfree) as Hdr.
  destruct (free_not_owned D x r HD Hx Hfree Hdr) as (N0 & Ni & Nb).
  pose proof (io_ind _ _ Hx N) as [Hdi Hui]. fold ind in Hdi, Hui, Ni.
  pose proof (alloc_disk D r HD Hr Hfree) as HD1. fold D1 in HD1.
  assert (D1 ind = D ind) as Ei by by apply alloc_ind.
  assert (∀ b, 0 <= b < sb_size sb → used (put_block D1 (ind, ind_put k r (D1 ind))) b = used D1 b) as Hus.
  { intros b Hb. unfold FsAlloc.used. rewrite put_block_ne; [done|]. destruct Hdi.
    destruct (lay_bblock sb Hlay b Hb) as (_ & ? & _). lia. }
  assert (length (D ind) = Z.to_nat BSIZE) as Hl by apply (dk_blocks _ HD).
  destruct (lay_data sb Hlay) as (? & ? & ?).
  eapply (grows_add D x _ _ (NDIRECT + k) r); try done.
  - unfold MAXFILE, NDIRECT. lia.
  - unfold file_block. destruct (Z.ltb_spec (NDIRECT + k) NDIRECT); [lia|]. fold ind.
    destruct (Z.eqb_spec ind 0); [done|]. by replace (NDIRECT + k - NDIRECT) with k by lia.
  - split; [|intros b Hb; rewrite Hus by lia; by apply (dk_meta _ HD1)].
    apply blocks_put; [apply HD1|]. apply ind_put_block; [done|apply HD1].
  - by destruct x.
  - apply Hx.
  - intros j Hj. unfold file_block. fold ind. destruct (Z.ltb_spec j NDIRECT).
    { destruct (Z.eqb_spec j (NDIRECT + k)); [lia|done]. }
    destruct (Z.eqb_spec ind 0); [done|]. rewrite put_block_same, Ei. destruct (Z.eqb_spec j (NDIRECT + k)) as [->|].
    + replace (NDIRECT + k - NDIRECT) with k by lia. apply ind_get_put; [done|done|lia].
    + unfold MAXFILE in Hj. apply ind_get_put_ne; [lia|done|lia|done].
  - rewrite put_block_ne by done. apply alloc_zero.
  - intros b Hb Hu Hne. rewrite put_block_ne by done. by apply alloc_keep.
  - intros b Hb. rewrite Hus by done. by apply alloc_used.
  - intros b Hb. destruct Hdi. assert (sb_bmapstart sb <= datastart sb).
    { unfold datastart. pose proof (Z.div_pos (sb_size sb) BPB ltac:(lia) ltac:(done)). lia. }
    rewrite put_block_ne by lia. by apply alloc_meta.
Qed.
End steps.
End inode.
