(* ===== verification/FsDinode.v ===== *)
(** The inode on the disk: what [iupdate] stores is what [ilock] loads, and the
    other inodes of the block stay as they are. *)
From S2P Require Import Prelude CString Spinlock Riscv Kalloc Vm Proc FsState Sleeplock Bio Log Fs.
From S2P Require Import FsFrame BioOps LogOps LogTx FsTx FsAlloc FsInode.

(** ** Slices *)

Lemma splice_splice o a b d : 0 <= o → (Z.to_nat o + length a + length b <= length d)%nat →
  splice (o + Z.of_nat (length a)) b (splice o a d) = splice o (a ++ b) d.
Proof.
  intros Ho Hl. apply list_eq. intros i. rewrite !splice_lookup by (rewrite ?splice_length, ?length_app by lia; lia).
  rewrite length_app. repeat case_decide; try lia; try done.
  - rewrite lookup_app_r by lia. f_equal. lia.
  - by rewrite lookup_app_l by lia.
Qed.

Lemma slice_slice k n o m d : 0 <= k → 0 <= o → k + n <= m → slice k n (slice o m d) = slice (o + k) n d.
Proof.
  intros Hk Ho Hm. apply list_eq. intros i. rewrite !slice_lookup by lia. repeat case_decide; try lia; try done.
  f_equal. lia.
Qed.

(** ** The bytes of a dinode *)

Definition dinode_bytes (x : inode) : list Z :=
  le_enc 2 (u16 (i_type x)) ++ le_enc 2 (u16 (i_major x)) ++ le_enc 2 (u16 (i_minor x)) ++
  le_enc 2 (u16 (i_nlink x)) ++ le_enc 4 (i_size x) ++ concat (map (le_enc 4) (i_addrs x)).

(** The fields are in the range of their types. *)
Record inode_range (x : inode) : Prop := {
  ir_len : length (i_addrs x) = Z.to_nat (NDIRECT + 1);
  ir_type : - 2 ^ 15 <= i_type x < 2 ^ 15;
  ir_major : - 2 ^ 15 <= i_major x < 2 ^ 15;
  ir_minor : - 2 ^ 15 <= i_minor x < 2 ^ 15;
  ir_nlink : - 2 ^ 15 <= i_nlink x < 2 ^ 15;
  ir_size : 0 <= i_size x < 2 ^ 32;
  ir_addrs : Forall (λ a, 0 <= a < 2 ^ 32) (i_addrs x)
}.

Lemma concat_enc_length l : length (concat (map (le_enc 4) l)) = (4 * length l)%nat.
Proof. induction l as [|a l IH]; [done|]. cbn [map concat]. rewrite length_app, IH, le_enc_length. simpl. lia. Qed.

Lemma dinode_bytes_length x : length (i_addrs x) = Z.to_nat (NDIRECT + 1) → length (dinode_bytes x) = 64%nat.
Proof.
  intros Hl. unfold dinode_bytes. rewrite !length_app, !le_enc_length, concat_enc_length, Hl. done.
Qed.

Lemma dinode_bytes_byte x : Forall byte (dinode_bytes x).
Proof.
  unfold dinode_bytes. rewrite !Forall_app. split_and!; try apply le_enc_bytes.
  induction (i_addrs x) as [|a l IH]; [constructor|]. cbn [map concat]. apply Forall_app. split; [apply le_enc_bytes|done].
Qed.

Lemma put_dinode_splice o x d :
  length (i_addrs x) = Z.to_nat (NDIRECT + 1) → 0 <= o → (Z.to_nat o + 64 <= length d)%nat →
  put_dinode o x d = splice o (dinode_bytes x) d.
Proof.
  intros Hx Ho Hl. unfold put_dinode, put_addrs, put32, put16.
  assert (∀ k (a b : list Z), Z.of_nat (length a) = k → (Z.to_nat o + length a + length b <= length d)%nat →
    splice (o + k) b (splice o a d) = splice o (a ++ b) d) as Hadj by (intros k a b <- ?; by apply splice_splice).
  rewrite !Hadj by (rewrite ?length_app, ?le_enc_length, ?concat_enc_length, ?Hx; unfold NDIRECT; (done || lia)).
  unfold dinode_bytes. by rewrite <- !app_assoc.
Qed.

Lemma i16_u16 v : - 2 ^ 15 <= v < 2 ^ 15 → i16 (u16 v) = v.
Proof.
  intros Hv. unfold i16, u16. rewrite Zmod_mod. change (2 ^ 15) with 32768 in *. change (2 ^ 16) with 65536.
  destruct (Z.lt_ge_cases v 0).
  - replace (v mod 65536) with (v + 65536) by (apply (Z.mod_unique v 65536 (-1)); lia). repeat case_match; lia.
  - rewrite Z.mod_small by lia. repeat case_match; lia.
Qed.

(** The fields depend on the 64 bytes. *)
Lemma load_slice o d x : 0 <= o → load_dinode o d x = load_dinode 0 (slice o 64 d) x.
Proof.
  intros Ho. assert (∀ k n, 0 <= k → 0 <= n → k + n <= 64 → slice (0 + k) n (slice o 64 d) = slice (o + k) n d) as Hs.
  { intros k n ? ? ?. rewrite Z.add_0_l. by apply slice_slice. }
  unfold load_dinode, din_type, din_major, din_minor, din_nlink, din_size, din_addrs, get16, get32.
  rewrite !Hs, (slice_slice 0 2) by lia. rewrite Z.add_0_r.
  replace (map _ (seqZ 0 (NDIRECT + 1))) with (map (λ k, le_dec (slice (0 + 12 + 4 * k) 4 (slice o 64 d))) (seqZ 0 (NDIRECT + 1)));
    [done|]. apply map_ext_in. intros k Hk. apply list_elem_of_In, elem_of_seqZ in Hk. unfold NDIRECT in Hk.
  rewrite slice_slice by lia. do 2 f_equal. lia.
Qed.

Lemma load_bytes x y : inode_range x →
  load_dinode 0 (dinode_bytes x) y = y <| i_type := i_type x |> <| i_major := i_major x |> <| i_minor := i_minor x |>
    <| i_nlink := i_nlink x |> <| i_size := i_size x |> <| i_addrs := i_addrs x |>.
Proof.
  intros [R1 R2 R3 R4 R5 R6 R7].
  assert (∀ v, le_dec (le_enc 2 (u16 v)) = u16 v) as E2.
  { intros v. apply le_dec_enc. apply Z.mod_pos_bound. lia. }
  assert (∀ v, 0 <= v < 2 ^ 32 → le_dec (le_enc 4 v) = v) as E4 by (intros v Hv; by apply le_dec_enc).
  unfold load_dinode, din_type, din_major, din_minor, din_nlink, din_size, din_addrs, get16, get32, dinode_bytes.
  destruct (i_addrs x) as [|a0 [|a1 [|a2 [|a3 [|a4 [|a5 [|a6 [|a7 [|a8 [|a9 [|a10 [|a11 [|a12 [|]]]]]]]]]]]]]]; try done.
  rewrite !Forall_cons in R7. destruct R7 as (? & ? & ? & ? & ? & ? & ? & ? & ? & ? & ? & ? & ? & _).
  change (slice 0 2 _) with (le_enc 2 (u16 (i_type x))).
  change (slice (0 + 2) 2 _) with (le_enc 2 (u16 (i_major x))).
  change (slice (0 + 4) 2 _) with (le_enc 2 (u16 (i_minor x))).
  change (slice (0 + 6) 2 _) with (le_enc 2 (u16 (i_nlink x))).
  change (slice (0 + 8) 4 _) with (le_enc 4 (i_size x)).
  change (map _ _) with (map (λ a, le_dec (le_enc 4 a)) [a0; a1; a2; a3; a4; a5; a6; a7; a8; a9; a10; a11; a12]).
  cbn [map]. rewrite !E2, !E4, !i16_u16 by done. done.
Qed.

(** ** Inodes on the disk *)

Section stored.
Context (sb : superblock).
Hypothesis Hlay : layout sb.

(** Inode [i] as [ilock] would load it into [y]. *)
Definition dinode (D : Z → list Z) (i : Z) (y : inode) : inode := load_dinode (inode_off i) (D (IBLOCK i sb)) y.

(** The contents after [iupdate] of [x]. *)
Definition store_inode (D : Z → list Z) (x : inode) : Z → list Z :=
  let b := IBLOCK (i_inum x) sb in put_block D (b, put_dinode (inode_off (i_inum x)) x (D b)).

Lemma inode_off_range i : 0 <= inode_off i ∧ inode_off i + 64 <= BSIZE.
Proof.
  unfold inode_off. change IPB with 16. pose proof (Z.mod_pos_bound i 16 ltac:(lia)).
  unfold DINODE_SIZE, BSIZE. lia.
Qed.

Lemma put_dinode_block x d : length (i_addrs x) = Z.to_nat (NDIRECT + 1) → block d →
  put_dinode (inode_off (i_inum x)) x d = splice (inode_off (i_inum x)) (dinode_bytes x) d ∧
  block (put_dinode (inode_off (i_inum x)) x d).
Proof.
  intros Hx [Hl Hb]. pose proof (inode_off_range (i_inum x)) as [? ?]. unfold BSIZE in *.
  rewrite put_dinode_splice by (rewrite ?Hl; (done || lia)). split; [done|]. split.
  - rewrite splice_length; [done|lia|]. rewrite dinode_bytes_length, Hl by done. lia.
  - apply splice_bytes; [apply dinode_bytes_byte|done].
Qed.

Lemma dinode_stored D x y : blocks D → inode_range x →
  dinode (store_inode D x) (i_inum x) y = y <| i_type := i_type x |> <| i_major := i_major x |>
    <| i_minor := i_minor x |> <| i_nlink := i_nlink x |> <| i_size := i_size x |> <| i_addrs := i_addrs x |>.
Proof.
  intros HB Hx. pose proof (inode_off_range (i_inum x)) as [? ?]. unfold dinode, store_inode. rewrite put_block_same.
  destruct (put_dinode_block x (D (IBLOCK (i_inum x) sb)) (ir_len _ Hx) (HB _)) as [-> _].
  rewrite load_slice by done. pose proof (dinode_bytes_length x (ir_len _ Hx)) as Hlen.
  destruct (HB (IBLOCK (i_inum x) sb)) as [Hl _]. unfold BSIZE in *.
  replace 64 with (Z.of_nat (length (dinode_bytes x))) by (rewrite Hlen; done).
  rewrite slice_splice by (rewrite ?Hlen, ?Hl; lia). by apply load_bytes.
Qed.

Lemma dinode_other D x i y : blocks D → length (i_addrs x) = Z.to_nat (NDIRECT + 1) →
  0 <= i < sb_ninodes sb → 0 <= i_inum x < sb_ninodes sb → i ≠ i_inum x →
  dinode (store_inode D x) i y = dinode D i y.
Proof.
  intros HB Hx Hi Hxi Hne. unfold dinode, store_inode.
  destruct (lay_iblock sb Hlay i Hi) as [E1 _], (lay_iblock sb Hlay _ Hxi) as [E2 _].
  destruct (decide (IBLOCK i sb = IBLOCK (i_inum x) sb)) as [E|N]; [|by rewrite put_block_ne].
  rewrite E, put_block_same. destruct (put_dinode_block x (D (IBLOCK (i_inum x) sb)) Hx (HB _)) as [-> _].
  pose proof (inode_off_range i) as [? ?]. pose proof (inode_off_range (i_inum x)) as [? ?].
  destruct (HB (IBLOCK (i_inum x) sb)) as [Hl _]. unfold BSIZE in *.
  rewrite (load_slice _ (splice _ _ _)), (load_slice _ (D _)) by done. f_equal.
  apply slice_splice_ne; rewrite ?dinode_bytes_length, ?Hl by done; try lia.
  rewrite E1, E2 in E. unfold inode_off, DINODE_SIZE. change IPB with 16 in *.
  pose proof (Z.div_mod i 16 ltac:(lia)). pose proof (Z.div_mod (i_inum x) 16 ltac:(lia)). lia.
Qed.

(** The blocks of the inodes are before the bitmap. *)
Section meta.
Context (D D' : Z → list Z).
Hypothesis Hsame : ∀ b, sb_bmapstart sb <= b → D' b = D b.

Lemma meta_used b : 0 <= b < sb_size sb → used sb D' b = used sb D b.
Proof.
  intros Hb. unfold used. rewrite Hsame; [done|]. destruct (lay_bblock sb Hlay b Hb) as (_ & ? & _). lia.
Qed.

Lemma data_after b : data_block sb b → sb_bmapstart sb <= b.
Proof.
  intros [? ?]. unfold datastart in *. destruct (lo_size _ Hlay).
  pose proof (Z.div_pos (sb_size sb) BPB ltac:(lia) ltac:(done)). lia.
Qed.

Lemma meta_file_block x k : (iaddr x NDIRECT ≠ 0 → data_block sb (iaddr x NDIRECT)) → file_block D' x k = file_block D x k.
Proof.
  intros Hx. unfold file_block. destruct (k <? NDIRECT); [done|]. destruct (Z.eqb_spec (iaddr x NDIRECT) 0); [done|].
  rewrite Hsame; [done|]. by apply data_after, Hx.
Qed.

Lemma meta_inode_ok x : inode_ok sb D x → inode_ok sb D' x.
Proof.
  intros [O1 O2 O3 O4 O5 O6]. assert (∀ k, file_block D' x k = file_block D x k) as Hfb.
  { intros k. apply meta_file_block. intros N. by apply O4. }
  split; try done.
  - intros k Hk Hs. rewrite Hfb. by apply O3.
  - intros N. destruct (O4 N) as [? ?]. split; [done|]. rewrite meta_used by by apply data_size. done.
  - intros k Hk. rewrite Hfb. intros N. destruct (O5 k Hk N) as (? & ? & ?). split_and!; try done.
    rewrite meta_used by by apply data_size. done.
  - intros k k' Hk Hk'. rewrite !Hfb. by apply O6.
Qed.

Lemma meta_file_byte x i : inode_ok sb D x → 0 <= i < i_size x → file_byte D' x i = file_byte D x i.
Proof.
  intros Hx Hi. unfold file_byte. rewrite meta_file_block by (intros N; by apply (io_ind _ _ _ Hx)).
  pose proof (Z.div_mod i BSIZE ltac:(done)). pose proof (Z.mod_pos_bound i BSIZE ltac:(done)).
  assert (0 <= i / BSIZE) by (apply Z.div_pos; [lia|done]). destruct (io_size _ _ _ Hx).
  assert (i / BSIZE < MAXFILE) by (apply Z.div_lt_upper_bound; [done|]; unfold BSIZE in *; lia).
  rewrite Hsame; [done|]. apply data_after. apply (io_data _ _ _ Hx); [done|]. apply (io_full _ _ _ Hx); [done|lia].
Qed.
End meta.

Lemma store_inode_other D x b : 0 <= i_inum x < sb_ninodes sb → sb_bmapstart sb <= b → store_inode D x b = D b.
Proof.
  intros Hi Hb. unfold store_inode. rewrite put_block_ne; [done|]. destruct (lay_iblock sb Hlay _ Hi) as (_ & ? & _). lia.
Qed.

Lemma store_inode_disk D x : disk_ok sb D → length (i_addrs x) = Z.to_nat (NDIRECT + 1) →
  0 <= i_inum x < sb_ninodes sb → disk_ok sb (store_inode D x).
Proof.
  intros [B M] Hx Hi. split; [by apply blocks_put, put_dinode_block|]. intros b Hb.
  destruct (lay_data sb Hlay) as (? & _). rewrite (meta_used D); [by apply M| |lia].
  intros c Hc. by apply store_inode_other.
Qed.
End stored.
