(* ===== verification/FsFile.v ===== *)
(** [bmap], [readi], [iupdate] and [writei]: a file is the sequence of its bytes. *)
From S2P Require Import Prelude CString Spinlock Riscv Kalloc Vm Proc FsState Sleeplock Bio Log Fs.
From S2P Require Import FsFrame BioOps LogOps LogTx FsTx FsAlloc FsInode.

(** The blocks [hs'] are [hs] and at most [n] others, none of them in the log. *)
Record logs (sb : superblock) (n : nat) (hs hs' : list Z) : Prop := {
  ls_in : ∀ k, k ∈ hs → k ∈ hs';
  ls_len : (length hs' <= length hs + n)%nat;
  ls_range : ∀ k, k ∈ hs' → k ∈ hs ∨ sb_inodestart sb <= k < sb_size sb
}.

Lemma logs_refl sb n hs : logs sb n hs hs.
Proof. split; auto. lia. Qed.
Lemma logs_one sb hs b : sb_inodestart sb <= b < sb_size sb → logs sb 1 hs (logging hs b).
Proof.
  intros Hb. split.
  - intros k Hk. apply logging_in. by left.
  - pose proof (logging_length hs b). lia.
  - intros k [?| ->]%logging_in; auto.
Qed.
Lemma logs_trans sb n1 n2 n hs hs1 hs2 :
  logs sb n1 hs hs1 → logs sb n2 hs1 hs2 → (n1 + n2 <= n)%nat → logs sb n hs hs2.
Proof.
  intros [A1 A2 A3] [B1 B2 B3] Hn. split; [auto|lia|]. intros k [?|?]%B3; [|by right]. by apply A3.
Qed.

(** ** Bytes of a file *)

Lemma file_bytes_app D x off a b : 0 <= a → 0 <= b →
  file_bytes D x off (a + b) = file_bytes D x off a ++ file_bytes D x (off + a) b.
Proof. intros. unfold file_bytes. by rewrite <- map_app, seqZ_app. Qed.

Lemma file_bytes_length D x off n : 0 <= n → length (file_bytes D x off n) = Z.to_nat n.
Proof. intros. unfold file_bytes. by rewrite length_map, length_seqZ. Qed.

Lemma file_bytes_lookup D x off n (i : nat) : 0 <= n →
  file_bytes D x off n !! i = if decide (Z.of_nat i < n) then Some (file_byte D x (off + Z.of_nat i)) else None.
Proof.
  intros Hn. unfold file_bytes. rewrite list_lookup_fmap. case_decide.
  - by rewrite lookup_seqZ_lt by lia.
  - by rewrite lookup_seqZ_ge by lia.
Qed.

(** Bytes in one block. *)
Lemma same_block o i : 0 <= o → 0 <= i → o mod BSIZE + i < BSIZE →
  (o + i) / BSIZE = o / BSIZE ∧ (o + i) mod BSIZE = o mod BSIZE + i.
Proof.
  intros Ho Hi Hlt. pose proof (Z.div_mod o BSIZE ltac:(done)). pose proof (Z.mod_pos_bound o BSIZE ltac:(done)).
  split.
  - symmetry. apply (Z.div_unique _ _ _ (o mod BSIZE + i)); lia.
  - symmetry. apply (Z.mod_unique _ _ (o / BSIZE)); lia.
Qed.

Lemma slice_file D x o n : blocks D → 0 <= o → 0 <= n → o mod BSIZE + n <= BSIZE →
  slice (o mod BSIZE) n (D (file_block D x (o / BSIZE))) = file_bytes D x o n.
Proof.
  intros HB Ho Hn Hle. pose proof (Z.mod_pos_bound o BSIZE ltac:(done)). apply list_eq. intros i.
  rewrite slice_lookup, file_bytes_lookup by lia. repeat case_decide; try lia; [|done].
  destruct (same_block o (Z.of_nat i)) as [E1 E2]; [lia|lia|lia|]. unfold file_byte, byte_at. rewrite E1, E2, nth_lookup.
  destruct (HB (file_block D x (o / BSIZE))) as [Hl _].
  replace (Z.to_nat (o mod BSIZE + Z.of_nat i)) with (Z.to_nat (o mod BSIZE) + i)%nat by lia.
  destruct (lookup_lt_is_Some_2 (D (file_block D x (o / BSIZE))) (Z.to_nat (o mod BSIZE) + i)) as [v ->]; [|done].
  rewrite Hl. lia.
Qed.

Section ops.
Context `{KI : !KernelImage}.
Context (J : vdisk → Prop) (cfg : sched_cfg) (swtch : option Z → option Z → FM ()).
Context (rw : Z → bool → FM ()) `{HD : !DiskDriver J rw}.
Context (S0 : pstate fsys) (u : Z) (dv : Z).
Hypothesis Hu : ps_cur S0 = Some u.
Context (m : mach) (sb : superblock) (d0 : disk) (nout : Z) (Fl : Z → file).
Hypothesis Hm : m_held m = [].
Hypothesis Hlay : layout sb.

Abbreviation tx := (tx J S0 u dv m sb d0 nout Fl).
Abbreviation getb_ok := (tx_getb J S0 u dv m sb d0 nout Fl).
Abbreviation bread_ok := (tx_bread J cfg swtch rw S0 u dv Hu m sb d0 nout Fl Hm).
Abbreviation log_write_ok := (tx_log_write J S0 u dv m sb d0 nout Fl Hm).
Abbreviation brelse_ok := (tx_brelse J cfg S0 u dv Hu m sb d0 nout Fl Hm).
Abbreviation clean_ok := (tx_clean J S0 u dv m sb d0 nout Fl).
Abbreviation balloc_ok := (balloc_spec J cfg swtch rw S0 u dv Hu m sb d0 nout Fl Hm Hlay).
Abbreviation used := (used sb).
Abbreviation disk_ok := (disk_ok sb).
Abbreviation inode_ok := (inode_ok sb).
Abbreviation grows := (grows sb).
Abbreviation logs := (logs sb).

Definition full (D : Z → list Z) : Prop := ∀ b, 0 <= b < sb_size sb → used D b = true.

(** ** [bmap] *)

Lemma logs_alloc hs r : data_block sb r → logs 2 hs (alloc_hs sb hs r).
Proof.
  intros Hr. pose proof (data_size sb Hlay r Hr) as Hr'. destruct (lay_bblock sb Hlay r Hr') as (_ & ? & ?).
  destruct (lay_data sb Hlay) as (? & _). pose proof (lo_inodes _ Hlay) as [? ?].
  pose proof (Z.div_pos (sb_ninodes sb) IPB ltac:(lia) ltac:(done)). destruct Hr.
  eapply logs_trans; [apply logs_one|apply logs_one|done]; lia.
Qed.

(** The indirect block is read; a missing entry is allocated. *)
Lemma bmap_indirect_spec D hs I s ip k :
  let x := I (ip - 1) in let a := iaddr x NDIRECT in
  tx D ∅ hs I s → ip ≠ 0 → i_dev x = dv → disk_ok D → inode_ok D x → a ≠ 0 → 0 <= k < NINDIRECT →
  ind_get k (D a) ≠ 0 ∨ 1 <= nout → Z.of_nat (length hs) < LOGSIZE - 3 →
  wp (bmap_indirect cfg swtch rw ip k a) (λ r s', ∃ D' hs', tx D' ∅ hs' I s' ∧ r = ind_get k (D' a) ∧
    grows D x D' x ∧ logs 3 hs hs' ∧ (r = 0 → full D') ∧ (ind_get k (D a) ≠ 0 → D' = D ∧ hs' = hs)) s.
Proof.
  intros x a Hs Hip Hdev HDk Hx Ha Hk Hout Hlen. unfold bmap_indirect. change LOGSIZE with 30 in *.
  destruct (io_ind _ _ _ Hx Ha) as [Hda Hua]. fold a in Hda, Hua.
  pose proof (clean_ok _ _ _ _ _ a Hs (lookup_empty _)) as Hcl.
  tx_step. tx_step. fold x. rewrite Hdev. tx_step.
  wp_use bread_ok; [done|apply lookup_empty|change NBUF with 30; rewrite map_size_empty; lia|]. intros bp s1 Hs1.
  tx_step. eapply (getb_ok D _ _ _ _ _ _ (λ d, d)); [exact Hs1|apply lookup_insert_eq|]. cbn zeta. tx_step.
  destruct (Z.eqb_spec (ind_get k (D a)) 0) as [E0|N0]; cycle 1.
  { tx_step. tx_step. wp_use brelse_ok; [exact Hs1|apply lookup_empty|done|]. intros [] s2 Hs2. tx_step.
    exists D, hs. split_and!; try done; [by apply file_grows_refl|apply logs_refl]. }
  destruct Hout as [?|Hout]; [done|]. tx_step. tx_step. fold x. rewrite Hdev. tx_step.
  wp_use balloc_ok; [exact Hs1|apply HDk| |done|change LOGSIZE with 30; rewrite map_size_insert_None, map_size_empty by apply lookup_empty; lia|].
  { intros b [i Hi]. rewrite lookup_insert_Some, lookup_empty in Hi. destruct Hi as [[<- _]|[_ ?]]; [|done].
    split; [apply Hda|done]. }
  intros r s2 [(-> & Hfull & Hs2)|(Hr & Hf & Hs2)].
  - tx_step. apply wp_when_f; [done|]. tx_step. tx_step. wp_use brelse_ok; [exact Hs2|apply lookup_empty|done|].
    intros [] s3 Hs3. tx_step. exists D, hs. split_and!; try done; [by apply file_grows_refl|apply logs_refl].
  - pose proof (alloc_data sb D r HDk Hr Hf) as Hdr.
    destruct (free_not_owned sb Hlay D x r HDk Hx Hf Hdr) as (N0 & _ & _).
    tx_step. apply wp_when_t; [unfold truth; by destruct (Z.eqb_spec r 0)|]. tx_step.
    eapply tx_set_data; [done|apply lookup_insert_eq|]. intros s3 Hs3.
    pose proof (logs_alloc hs r Hdr) as [_ L2 _].
    wp_use log_write_ok; [done|apply lookup_insert_eq|change LOGSIZE with 30; lia|done| |].
    { pose proof (data_size sb Hlay a Hda). destruct (lay_data sb Hlay) as (_ & ? & _). lia. }
    intros [] s4 Hs4. tx_step. tx_step.
    wp_use brelse_ok; [exact Hs4|apply lookup_empty|left; apply logging_in; by right|]. intros [] s5 Hs5. tx_step.
    eexists _, _. split; [exact Hs5|]. rewrite put_block_same. split_and!; [| | |done|done].
    + symmetry. apply ind_get_put; [done| |destruct (lay_data sb Hlay) as (_ & ? & _); lia].
      by apply (alloc_disk sb Hlay D r HDk Hr Hf).
    + by apply (grows_entry sb Hlay D x r).
    + eapply logs_trans; [by apply logs_alloc|apply logs_one|done]. pose proof (data_size sb Hlay a Hda).
      destruct Hda. pose proof (lo_inodes _ Hlay) as [? ?]. destruct (lay_data sb Hlay) as (? & _).
      pose proof (Z.div_pos (sb_ninodes sb) IPB ltac:(lia) ltac:(done)). unfold datastart in *.
      pose proof (Z.div_pos (sb_size sb) BPB ltac:(lia) ltac:(done)). lia.
Qed.

(** What an operation on the inode [ip] may do: add blocks to the file. *)
Definition grown (D : Z → list Z) (hs : list Z) (I : Z → inode) (ip : Z) (n : nat)
    (D' : Z → list Z) (hs' : list Z) (x' : inode) (s' : pstate fsys) : Prop :=
  tx D' ∅ hs' (upd_I I (ip - 1) (λ _, x')) s' ∧ grows D (I (ip - 1)) D' x' ∧ logs n hs hs'.

Lemma tx_same D H hs I i s : tx D H hs I s → tx D H hs (upd_I I i (λ _, I i)) s.
Proof.
  intros Hs. eapply tx_ext; [done|done|]. intros j. unfold upd_I. by destruct (Z.eqb_spec j i) as [->|].
Qed.

Section bmap.
Context (D : Z → list Z) (hs : list Z) (I : Z → inode) (s : pstate fsys) (ip bn : Z).
Abbreviation x := (I (ip - 1)).
Hypothesis Hs : tx D ∅ hs I s.
Hypothesis Hip : ip ≠ 0.
Hypothesis Hdev : i_dev x = dv.
Hypothesis HDk : disk_ok D.
Hypothesis Hx : inode_ok D x.
Hypothesis Hbn : 0 <= bn < MAXFILE.
Hypothesis Hout : file_block D x bn ≠ 0 ∨ 1 <= nout.
Hypothesis Hlen : Z.of_nat (length hs) < LOGSIZE - 5.

Definition bmap_post (r : Z) (s' : pstate fsys) : Prop :=
  ∃ D' hs' x', grown D hs I ip 5 D' hs' x' s' ∧ r = file_block D' x' bn ∧ (r = 0 → full D') ∧
    (file_block D x bn ≠ 0 → D' = D ∧ hs' = hs ∧ x' = x).

Lemma bmap_kept r s' : tx D ∅ hs I s' → r = file_block D x bn → (r = 0 → full D) → bmap_post r s'.
Proof.
  intros Hs' Hr Hf. exists D, hs, x. split_and!; try done.
  split_and!; [by apply tx_same|by apply file_grows_refl|apply logs_refl].
Qed.

Lemma balloc_none : balloc_held sb D ∅.
Proof. intros b [? Hb]. by rewrite lookup_empty in Hb. Qed.

Lemma upd_set j k r : upd_I I (ip - 1) (λ x, x <| i_addrs := <[Z.to_nat k := r]> (i_addrs x) |>) j =
  upd_I I (ip - 1) (λ _, set_iaddr x k r) j.
Proof. unfold upd_I. by destruct (Z.eqb_spec j (ip - 1)) as [->|]. Qed.

Lemma bmap_direct_spec : bn < NDIRECT → wp (bmap cfg swtch rw ip bn) bmap_post s.
Proof.
  intros Hd. unfold bmap. apply wp_if_t; [by apply Z.ltb_lt|].
  assert (file_block D x bn = iaddr x bn) as Efb by (unfold file_block; by destruct (Z.ltb_spec bn NDIRECT); [|lia]).
  unfold get_addr. tx_step. tx_step. change (nth (Z.to_nat bn) (i_addrs x) 0) with (iaddr x bn).
  destruct (Z.eqb_spec (iaddr x bn) 0) as [E0|N0]; [|tx_step; by apply bmap_kept].
  destruct Hout as [?|Ho]; [congruence|]. tx_step. tx_step. rewrite Hdev. tx_step.
  wp_use balloc_ok; [done|apply HDk|apply balloc_none|done|change LOGSIZE with 30 in *; rewrite map_size_empty; lia|].
  intros r s1 [(-> & Hfull & Hs1)|(Hr & Hf & Hs1)].
  { apply wp_if_t; [done|]. tx_step. apply bmap_kept; [done|congruence|done]. }
  pose proof (alloc_data sb D r HDk Hr Hf) as Hdr.
  destruct (free_not_owned sb Hlay D x r HDk Hx Hf Hdr) as (N0 & _ & _).
  apply wp_if_f; [by apply Z.eqb_neq|]. unfold set_addr. tx_step. tx_step. tx_step.
  eexists _, _, (set_iaddr x bn r). split_and!.
  - split_and!; [eapply tx_ext; [done|done|intros j; apply (upd_set j bn r)]|apply (grows_direct sb Hlay D x r HDk Hx Hr Hf); [lia|done]|].
    eapply logs_trans; [by apply logs_alloc|apply (logs_refl _ 0)|lia].
  - unfold file_block. destruct (Z.ltb_spec bn NDIRECT); [|lia]. rewrite iaddr_set; [by rewrite Z.eqb_refl|apply Hx|lia|lia].
  - done.
  - congruence.
Qed.

Lemma file_block_ind D1 y : NDIRECT <= bn → iaddr y NDIRECT ≠ 0 →
  file_block D1 y bn = ind_get (bn - NDIRECT) (D1 (iaddr y NDIRECT)).
Proof.
  intros Hb N. unfold file_block. destruct (Z.ltb_spec bn NDIRECT); [lia|]. by destruct (Z.eqb_spec (iaddr y NDIRECT) 0).
Qed.

(** The indirect block is new. *)
Lemma bmap_new_indirect r s1 : NDIRECT <= bn → 1 <= nout → iaddr x NDIRECT = 0 → 0 <= r < sb_size sb → used D r = false →
  let x1 := set_iaddr x NDIRECT r in
  tx (alloc_D sb D r) ∅ (alloc_hs sb hs r) (upd_I I (ip - 1) (λ _, x1)) s1 →
  wp (bmap_indirect cfg swtch rw ip (bn - NDIRECT) r) bmap_post s1.
Proof.
  intros Hb Ho E0 Hr Hf x1 Hs1. pose proof (alloc_data sb D r HDk Hr Hf) as Hdr.
  destruct (free_not_owned sb Hlay D x r HDk Hx Hf Hdr) as (N0 & _ & _).
  pose proof (grows_indirect sb Hlay D x r HDk Hx Hr Hf E0) as Hg1. fold x1 in Hg1.
  assert (iaddr x1 NDIRECT = r) as Er.
  { unfold x1. rewrite iaddr_set; [by rewrite Z.eqb_refl|apply Hx|unfold NDIRECT; lia|done]. }
  pose proof (logs_alloc hs r Hdr) as Hl1.
  pose proof (bmap_indirect_spec (alloc_D sb D r) (alloc_hs sb hs r) (upd_I I (ip - 1) (λ _, x1)) s1 ip (bn - NDIRECT)) as Hi.
  cbn zeta in Hi. rewrite upd_I_same, Er in Hi. eapply wp_mono; [apply Hi; try done|].
  - apply Hg1.
  - apply Hg1.
  - unfold MAXFILE in Hbn. lia.
  - by right.
  - destruct Hl1 as [_ Hl1 _]. change LOGSIZE with 30 in *. lia.
  - intros r' s2 (D' & hs' & Hs2 & -> & Hg & Hl & Hfull & _). exists D', hs', x1. split_and!.
    + split_and!; [done|by eapply file_grows_trans|]. eapply logs_trans; [done|done|lia].
    + by rewrite file_block_ind, Er by (done || by rewrite Er).
    + done.
    + intros []. unfold file_block. destruct (Z.ltb_spec bn NDIRECT); [lia|]. by rewrite E0.
Qed.

Lemma bmap_ind_spec : NDIRECT <= bn → wp (bmap cfg swtch rw ip bn) bmap_post s.
Proof.
  intros Hb. unfold bmap. apply wp_if_f; [by apply Z.ltb_ge|].
  apply wp_if_t; [apply Z.ltb_lt; unfold MAXFILE in Hbn; lia|]. unfold get_addr. tx_step. tx_step.
  change (nth (Z.to_nat NDIRECT) (i_addrs x) 0) with (iaddr x NDIRECT).
  destruct (Z.eqb_spec (iaddr x NDIRECT) 0) as [E0|N0]; cycle 1.
  { rewrite file_block_ind in Hout by done. change LOGSIZE with 30 in *.
    wp_use bmap_indirect_spec; [done|done|done|done|done|done|unfold MAXFILE in Hbn; lia|done|change LOGSIZE with 30; lia|].
    intros r s1 (D' & hs' & Hs1 & -> & Hg & Hl & Hfull & Hno). exists D', hs', x. rewrite !file_block_ind by done. split_and!; try done.
    - split_and!; [by apply tx_same|done|]. eapply logs_trans; [done|apply (logs_refl _ 0)|lia].
    - intros N. by destruct (Hno N) as [-> ->]. }
  assert (file_block D x bn = 0) as Ez.
  { unfold file_block. destruct (Z.ltb_spec bn NDIRECT); [lia|]. by rewrite E0. }
  destruct Hout as [?|Ho]; [done|]. tx_step. tx_step. rewrite Hdev. tx_step.
  wp_use balloc_ok; [done|apply HDk|apply balloc_none|done|change LOGSIZE with 30 in *; rewrite map_size_empty; lia|].
  intros r s1 [(-> & Hfull & Hs1)|(Hr & Hf & Hs1)].
  { apply wp_if_t; [done|]. tx_step. by apply bmap_kept. }
  pose proof (alloc_data sb D r HDk Hr Hf) as Hdr.
  destruct (free_not_owned sb Hlay D x r HDk Hx Hf Hdr) as (N0 & _ & _).
  apply wp_if_f; [by apply Z.eqb_neq|]. unfold set_addr. tx_step. tx_step.
  apply bmap_new_indirect; [done|done|done|done|done|]. eapply tx_ext; [done|done|]. intros j. apply (upd_set j NDIRECT r).
Qed.

Lemma bmap_spec : wp (bmap cfg swtch rw ip bn) bmap_post s.
Proof. destruct (Z.lt_ge_cases bn NDIRECT); [by apply bmap_direct_spec|by apply bmap_ind_spec]. Qed.
End bmap.

(** ** [readi] *)

(** The bytes a read at [off] of [n] bytes returns. *)
Definition read_len (x : inode) (off n : Z) : Z := if off >? i_size x then 0 else Z.min n (i_size x - off).

Lemma readi_spec D hs I s ip off n :
  let x := I (ip - 1) in
  tx D ∅ hs I s → ip ≠ 0 → i_dev x = dv → disk_ok D → inode_ok D x → 0 <= off → 0 <= n → off + n < 2 ^ 32 →
  Z.of_nat (length hs) < LOGSIZE - 5 →
  wp (readi cfg swtch rw ip ToLocal off n) (λ r s',
    r = (read_len x off n, file_bytes D x off (read_len x off n)) ∧ tx D ∅ hs I s') s.
Proof.
  intros x Hs Hip Hdev HDk Hx Hoff Hn Hon Hlen. unfold readi. tx_step. tx_step. fold x.
  destruct (io_size _ _ _ Hx) as [_ Hsz]. unfold read_len. rewrite u32_small by lia.
  destruct (off >? i_size x) eqn:Eo; [cbn [orb]; by tx_step|]. rewrite Z.gtb_ltb in Eo. apply Z.ltb_ge in Eo.
  cbn [orb]. apply wp_if_f; [apply Z.ltb_ge; lia|].
  replace (if off + n >? i_size x then i_size x - off else n) with (Z.min n (i_size x - off)).
  2: { rewrite Z.gtb_ltb. destruct (Z.ltb_spec (i_size x) (off + n)); lia. }
  set (n' := Z.min n (i_size x - off)). tx_step.
  eapply (wp_while (λ '(tot, acc) s1, 0 <= tot <= n' ∧ acc = file_bytes D x off tot ∧ tx D ∅ hs I s1)
    (λ '(tot, _) _, n' - tot)).
  2: { split_and!; [done|lia|done|done]. }
  2: { lia. }
  intros [tot acc] s1 (Ht & -> & Hs1). destruct (Z.ltb_spec tot n') as [Hlt|Hge]; cycle 1.
  { tx_step. tx_step. cbn. replace tot with n' by lia. change (MAXFILE * BSIZE) with 274432 in Hsz. rewrite i32_small by lia. done. }
  assert (0 <= off + tot < i_size x) as Ho by lia.
  pose proof (Z.mod_pos_bound (off + tot) BSIZE ltac:(done)) as Hmod.
  assert ((off + tot) / BSIZE * BSIZE <= off + tot) as Hdiv by (pose proof (Z.div_mod (off + tot) BSIZE ltac:(done)); lia).
  assert (0 <= (off + tot) / BSIZE) as Hq by (apply Z.div_pos; [lia|done]).
  pose proof (io_full _ _ _ Hx _ Hq ltac:(lia)) as Hfb.
  tx_step. wp_use (bmap_spec D hs I s1); [done|done|done|done|done| |by left|done|].
  { split; [done|]. apply Z.div_lt_upper_bound; [done|]. unfold MAXFILE in *. lia. }
  intros r s2 (D' & hs' & x' & (Hs2 & _) & -> & _ & Hsame). destruct (Hsame Hfb) as (-> & -> & ->).
  assert (tx D ∅ hs I s2) as Hs2' by (eapply tx_ext; [exact Hs2|done|intros j; unfold upd_I; by destruct (Z.eqb_spec j (ip - 1)) as [->|]]).
  fold x. apply wp_if_f; [by apply Z.eqb_neq|]. tx_step. tx_step. fold x. rewrite Hdev. tx_step.
  set (b := file_block D x ((off + tot) / BSIZE)) in *. pose proof (clean_ok _ _ _ _ _ b Hs2' (lookup_empty _)) as Hcl.
  wp_use bread_ok; [done|apply lookup_empty|change LOGSIZE with 30 in *; change NBUF with 30; rewrite map_size_empty; lia|].
  intros bp s3 Hs3. tx_step. eapply (getb_ok D _ _ _ _ _ _ (λ d, d)); [exact Hs3|apply lookup_insert_eq|]. tx_step. cbn [copy_out]. tx_step.
  tx_step. wp_use brelse_ok; [done|apply lookup_empty|done|]. intros [] s4 Hs4. apply wp_if_f; [done|]. tx_step.
  set (k := Z.min (n' - tot) (BSIZE - (off + tot) mod BSIZE)). assert (0 < k <= n' - tot) as Hk by lia.
  split; [|lia]. split_and!; [lia|lia| |done]. rewrite file_bytes_app by lia. f_equal. apply slice_file; [apply HDk|lia|lia|lia].
Qed.
End ops.
