(* ===== verification/FsWrite.v ===== *)
(** Writing to a file: [iupdate] and [writei]. *)
From S2P Require Import Prelude CString Spinlock Riscv Kalloc Vm Proc FsState Sleeplock Bio Log Fs.
From S2P Require Import PageTable Uvm UvmOps UserCopy.
From S2P Require Import FsFrame BioOps LogOps LogTx FsTx FsAlloc FsInode FsDinode FsFile.

Lemma byte_at_splice i off bs d : 0 <= i → 0 <= off → (Z.to_nat off + length bs <= length d)%nat →
  byte_at i (splice off bs d) =
    if decide (off <= i < off + Z.of_nat (length bs)) then byte_at (i - off) bs else byte_at i d.
Proof.
  intros Hi Ho Hl. unfold byte_at. rewrite !nth_lookup, splice_lookup by done.
  replace (Z.to_nat (i - off)) with (Z.to_nat i - Z.to_nat off)%nat by lia. repeat case_decide; (done || lia).
Qed.

Lemma byte_at_app i a b : 0 <= i →
  byte_at i (a ++ b) = if decide (i < Z.of_nat (length a)) then byte_at i a else byte_at (i - Z.of_nat (length a)) b.
Proof.
  intros Hi. unfold byte_at. rewrite !nth_lookup. case_decide.
  - by rewrite lookup_app_l by lia.
  - rewrite lookup_app_r by lia. by replace (Z.to_nat (i - Z.of_nat (length a))) with (Z.to_nat i - length a)%nat by lia.
Qed.

Lemma splice_block off bs d : block d → 0 <= off → (Z.to_nat off + length bs <= Z.to_nat BSIZE)%nat → Forall byte bs →
  block (splice off bs d).
Proof.
  intros [Hl Hb] Ho Hn Hbs. split; [by rewrite splice_length, Hl by (rewrite ?Hl; lia)|by apply splice_bytes].
Qed.

Section write.
Context (sb : superblock).
Hypothesis Hlay : layout sb.
Abbreviation used := (used sb).
Abbreviation disk_ok := (disk_ok sb).
Abbreviation inode_ok := (inode_ok sb).
Abbreviation data_block := (data_block sb).

(** The bytes [bs] were stored at [off]. *)
Record writes (D : Z → list Z) (x : inode) (off : Z) (bs : list Z) (D' : Z → list Z) (x' : inode) : Prop := {
  w_disk : disk_ok D';
  w_ok : inode_ok D' x';
  w_same : x' = x <| i_addrs := i_addrs x' |>;
  w_ind : iaddr x NDIRECT ≠ 0 → iaddr x' NDIRECT = iaddr x NDIRECT;
  w_map : ∀ k, 0 <= k < MAXFILE → file_block D x k ≠ 0 → file_block D' x' k = file_block D x k;
  w_full : ∀ k, 0 <= k → k * BSIZE < off + Z.of_nat (length bs) → file_block D' x' k ≠ 0;
  w_in : ∀ i, off <= i < off + Z.of_nat (length bs) → file_byte D' x' i = byte_at (i - off) bs;
  w_out : ∀ i, 0 <= i < i_size x → ¬ (off <= i < off + Z.of_nat (length bs)) → file_byte D' x' i = file_byte D x i;
  w_new : ∀ b, owned D' x' b → owned D x b ∨ used D b = false;
  w_frame : ∀ b, data_block b → used D b = true → ¬ owned D x b → D' b = D b;
  w_used : ∀ b, 0 <= b < sb_size sb → used D b = true → used D' b = true;
  w_back : ∀ b, data_block b → used D' b = true → used D b = true ∨ owned D' x' b;
  w_meta : ∀ b, b < sb_bmapstart sb → D' b = D b
}.

Lemma max_block k x D : inode_ok D x → 0 <= k → k * BSIZE < i_size x → k < MAXFILE.
Proof. intros Hx Hk Hs. destruct (io_size _ _ _ Hx). unfold BSIZE in *. lia. Qed.

Lemma byte_block D x i : inode_ok D x → 0 <= i < i_size x → 0 <= i / BSIZE < MAXFILE ∧ file_block D x (i / BSIZE) ≠ 0.
Proof.
  intros Hx Hi. destruct (io_size _ _ _ Hx) as [? Hs]. pose proof (Z.div_mod i BSIZE ltac:(done)).
  pose proof (Z.mod_pos_bound i BSIZE ltac:(done)). assert (0 <= i / BSIZE) by (apply Z.div_pos; [lia|done]).
  split; [split; [done|]|apply (io_full _ _ _ Hx); lia]. apply (max_block _ x D); [done|done|lia].
Qed.

Lemma writes_refl D x off : disk_ok D → inode_ok D x → 0 <= off <= i_size x → writes D x off [] D x.
Proof.
  intros HD Hx Ho. split; try done.
  - by destruct x.
  - cbn. intros k Hk Hs. apply (io_full _ _ _ Hx); [done|lia].
  - cbn. lia.
  - by left.
  - by left.
Qed.

(** The blocks that were there keep their data when the file grows. *)
Lemma grows_byte D x D' x' i : inode_ok D x → grows sb D x D' x' → 0 <= i / BSIZE < MAXFILE →
  file_block D x (i / BSIZE) ≠ 0 → file_byte D' x' i = file_byte D x i.
Proof.
  intros Hx Hg Hk Hne. unfold file_byte. rewrite (g_keep _ _ _ _ _ Hg) by done.
  destruct (io_data _ _ _ Hx _ Hk Hne) as (? & ? & ?). by rewrite (g_data _ _ _ _ _ Hg).
Qed.

Lemma grows_owned D x D' x' b : disk_ok D → grows sb D x D' x' → owned D' x' b → owned D x b ∨ used D b = false.
Proof.
  intros HD Hg [N0 [->|(k & Hk & E)]].
  - destruct (g_ind _ _ _ _ _ Hg) as [E|[_ ?]]; [|by right]. left. rewrite E in *. split; [done|by left].
  - destruct (decide (file_block D x k = 0)) as [E0|Nk].
    + right. rewrite <- E in *. by apply (g_new _ _ _ _ _ Hg k Hk E0 N0).
    + left. split; [done|]. right. exists k. rewrite (g_keep _ _ _ _ _ Hg) in E by done. done.
Qed.

Lemma owned_used D x b : inode_ok D x → owned D x b → data_block b ∧ used D b = true.
Proof.
  intros Hx [N0 [->|(k & Hk & E)]]; [by apply (io_ind _ _ _ Hx)|].
  subst b. destruct (io_data _ _ _ Hx k Hk N0) as (? & ? & _). done.
Qed.

(** A block of data of the file is stored. *)
Section put.
Context (D1 : Z → list Z) (x1 : inode) (k0 : Z) (d : list Z).
Hypothesis Hok : inode_ok D1 x1.
Hypothesis Hk0 : 0 <= k0 < MAXFILE.
Abbreviation b0 := (file_block D1 x1 k0).
Hypothesis Hb0 : b0 ≠ 0.
Abbreviation D2 := (put_block D1 (b0, d)).

Lemma put_used c : 0 <= c < sb_size sb → used D2 c = used D1 c.
Proof.
  intros Hc. destruct (io_data _ _ _ Hok _ Hk0 Hb0) as ([? ?] & _). unfold FsAlloc.used.
  rewrite put_block_ne; [done|]. destruct (lay_bblock sb Hlay c Hc) as (_ & ? & _). lia.
Qed.

Lemma put_file_block k : file_block D2 x1 k = file_block D1 x1 k.
Proof.
  unfold file_block at 1 3. destruct (k <? NDIRECT); [done|]. destruct (iaddr x1 NDIRECT =? 0); [done|].
  rewrite put_block_ne; [done|]. by destruct (io_data _ _ _ Hok _ Hk0 Hb0) as (_ & _ & ?).
Qed.

Lemma put_inode_ok : inode_ok D2 x1.
Proof.
  destruct Hok as [O1 O2 O3 O4 O5 O6]. split; try done.
  - intros k Hk' Hs. rewrite put_file_block. by apply O3.
  - intros N. destruct (O4 N) as [? ?]. split; [done|]. rewrite put_used by by apply data_size. done.
  - intros k Hk'. rewrite put_file_block. intros N. destruct (O5 k Hk' N) as (? & ? & ?). split_and!; try done.
    rewrite put_used by by apply data_size. done.
  - intros k k' Hk1 Hk2. rewrite !put_file_block. by apply O6.
Qed.

Lemma put_disk_ok : disk_ok D1 → block d → disk_ok D2.
Proof.
  intros [B M] Hd. split; [by apply blocks_put|]. intros c Hc. destruct (lay_data sb Hlay) as (? & _).
  rewrite put_used by lia. by apply M.
Qed.

Lemma put_owned c : owned D2 x1 c → owned D1 x1 c.
Proof.
  intros [N0 Hc]. split; [done|]. destruct Hc as [?|(k & Hk' & E)]; [by left|right]. exists k. by rewrite put_file_block in E.
Qed.

Lemma put_owns : owned D1 x1 b0.
Proof. split; [done|]. right. by exists k0. Qed.
End put.

Lemma put_file_byte D x o chunk i :
  inode_ok D x → length (D (file_block D x (o / BSIZE))) = Z.to_nat BSIZE →
  0 <= o / BSIZE < MAXFILE → file_block D x (o / BSIZE) ≠ 0 →
  o mod BSIZE + Z.of_nat (length chunk) <= BSIZE → 0 <= i → 0 <= i / BSIZE < MAXFILE →
  let b := file_block D x (o / BSIZE) in
  file_byte (put_block D (b, splice (o mod BSIZE) chunk (D b))) x i =
    if decide (o <= i < o + Z.of_nat (length chunk)) then byte_at (i - o) chunk else file_byte D x i.
Proof.
  intros Hx Hl Hk Nb Hle Hi Hki b. unfold file_byte, b. rewrite put_file_block by done.
  pose proof (Z.mod_pos_bound o BSIZE ltac:(done)). pose proof (Z.div_mod o BSIZE ltac:(done)).
  pose proof (Z.mod_pos_bound i BSIZE ltac:(done)). pose proof (Z.div_mod i BSIZE ltac:(done)).
  destruct (decide (i / BSIZE = o / BSIZE)) as [Eq|Nq].
  - rewrite Eq. rewrite put_block_same, byte_at_splice by lia.
    repeat case_decide; try (done || lia). f_equal. lia.
  - rewrite put_block_ne.
    + case_decide; [|done]. destruct Nq. symmetry. apply (Z.div_unique i BSIZE (o / BSIZE) (i - BSIZE * (o / BSIZE))); lia.
    + intros E. destruct Nq. symmetry. apply (io_inj _ _ _ Hx); done.
Qed.

Section grow.
Context (D : Z → list Z) (x : inode) (off : Z) (bs : list Z) (D1 : Z → list Z) (x1 : inode).
Hypothesis Hx : inode_ok D x.
Hypothesis Hoff : 0 <= off.
Hypothesis Hmax : off + Z.of_nat (length bs) <= MAXFILE * BSIZE.
Hypothesis Hw : writes D x off bs D1 x1.

Lemma writes_mapped i : 0 <= i → i < i_size x ∨ off <= i < off + Z.of_nat (length bs) →
  0 <= i / BSIZE < MAXFILE ∧ file_block D1 x1 (i / BSIZE) ≠ 0.
Proof.
  intros Hi [Hc|Hc].
  - destruct (byte_block D x i) as [? ?]; [done|lia|]. split; [done|]. by rewrite (w_map _ _ _ _ _ _ Hw).
  - pose proof (Z.div_mod i BSIZE ltac:(done)). pose proof (Z.mod_pos_bound i BSIZE ltac:(done)).
    assert (0 <= i / BSIZE) by (apply Z.div_pos; [lia|done]).
    split; [split; [done|]; apply Z.div_lt_upper_bound; [done|]; unfold BSIZE in *; lia|].
    apply (w_full _ _ _ _ _ _ Hw); lia.
Qed.

Lemma writes_grow D2 x2 : grows sb D1 x1 D2 x2 → writes D x off bs D2 x2.
Proof.
  intros Hg. pose proof Hg as Hg0. destruct Hw as [W1 W2 W3 W13 W4 W5 W6 W7 W8 W9 W10 W12 W11], Hg0 as [G1 G2 G3 G4 G5 G6 G7 G8 G10 G9].
  split; try done.
  - rewrite G3, W3. done.
  - intros N. destruct G6 as [->|[E0 _]]; [by apply W13|]. rewrite W13 in E0 by done. done.
  - intros k Hk N. rewrite G4, W4 by (rewrite ?W4; done). done.
  - intros k Hk Hs. assert (k < MAXFILE) by (unfold BSIZE in *; lia). rewrite G4; [by apply W5|lia|by apply W5].
  - intros i Hi. destruct (writes_mapped i) as [Hk Hne]; [lia|by right|]. rewrite (grows_byte D1 x1 D2 x2) by done. by apply W6.
  - intros i Hi Hno. destruct (writes_mapped i) as [Hk Hne]; [lia|left; lia|]. rewrite (grows_byte D1 x1 D2 x2) by done. by apply W7.
  - intros b Hb. pose proof (owned_used _ _ _ G2 Hb) as [Hdb _]. apply (grows_owned D1 x1) in Hb; [|done|done].
    destruct Hb as [?%W8|Hf]; [done|]. right. destruct (used D b) eqn:E; [|done].
    rewrite W10 in Hf; [done|by apply data_size|done].
  - intros b Hb Hub Hno. rewrite G7, W9; try done.
    + apply W10; [by apply data_size|done].
    + intros E. destruct (W8 b) as [?|?]; [|done|congruence]. split; [|by left].
      destruct (lay_data sb Hlay). destruct Hb. lia.
  - intros b Hb Hub. apply G8, W10; done.
  - intros b Hb Hub. destruct (G10 b Hb Hub) as [Hu1|?]; [|by right]. destruct (W12 b Hb Hu1) as [?|[N0 Ho]]; [by left|right].
    split; [done|]. destruct Ho as [E|(k & Hk & E)].
    + left. destruct G6 as [->|[E0 _]]; [done|congruence].
    + right. exists k. split; [done|]. rewrite G4; [done|done|congruence].
  - intros b Hb. by rewrite G9, W11.
Qed.

(** Storing a chunk in the block it belongs to. *)
Lemma writes_put o chunk :
  o = off + Z.of_nat (length bs) → file_block D1 x1 (o / BSIZE) ≠ 0 → 0 <= o / BSIZE < MAXFILE →
  o mod BSIZE + Z.of_nat (length chunk) <= BSIZE → Forall byte chunk →
  let b := file_block D1 x1 (o / BSIZE) in
  writes D x off (bs ++ chunk) (put_block D1 (b, splice (o mod BSIZE) chunk (D1 b))) x1.
Proof.
  intros Eo Nb Hk Hle Hch b. destruct Hw as [W1 W2 W3 W13 W4 W5 W6 W7 W8 W9 W10 W12 W11].
  pose proof (Z.mod_pos_bound o BSIZE ltac:(done)) as Hmod. pose proof (Z.div_mod o BSIZE ltac:(done)) as Hdm.
  destruct (io_data _ _ _ W2 _ Hk Nb) as (Hdb & Hub & Nind). fold b in Hdb, Hub, Nind.
  destruct (dk_blocks _ _ W1 b) as [Hl Hbb].
  assert (∀ i, off <= i < o + Z.of_nat (length chunk) → 0 <= i / BSIZE < MAXFILE) as Hrange.
  { intros i Hi. split; [apply Z.div_pos; [lia|done]|]. apply Z.div_lt_upper_bound; [done|]. unfold BSIZE in *. lia. }
  split; try done.
  - apply put_disk_ok; try done. apply splice_block; [done|lia|lia|done].
  - by apply put_inode_ok.
  - intros k Hk' N. unfold b. rewrite put_file_block by done. by apply W4.
  - intros k Hk' Hs. unfold b. rewrite put_file_block by done. rewrite length_app in Hs.
    destruct (decide (k * BSIZE < o)); [apply W5; lia|]. replace k with (o / BSIZE); [done|]. unfold BSIZE in *. lia.
  - intros i Hi. rewrite length_app in Hi. unfold b. rewrite put_file_byte by (try done; (apply Hrange || idtac); lia).
    rewrite byte_at_app by lia. repeat case_decide; try lia; [f_equal; lia|]. apply W6. lia.
  - intros i Hi Hno. rewrite length_app in Hno. destruct (writes_mapped i) as [Hki _]; [lia|left; lia|].
    unfold b. rewrite put_file_byte by (done || lia). case_decide; [lia|]. apply W7; lia.
  - intros c Hc%put_owned; [|done..]. by apply W8.
  - intros c Hc Huc Hno. rewrite put_block_ne; [by apply W9|]. intros ->.
    destruct (W8 b) as [?|?]; [by apply put_owns|done|congruence].
  - intros c Hc Huc. unfold b. rewrite put_used by done. by apply W10.
  - intros c Hc. unfold b. rewrite put_used by (try done; by apply data_size). intros Huc.
    destruct (W12 c Hc Huc) as [?|[N0 Ho]]; [by left|right]. split; [done|]. destruct Ho as [?|(k & Hk' & E)]; [by left|right].
    exists k. by rewrite put_file_block.
  - intros c Hc. destruct Hdb, (lay_data sb Hlay) as (? & ? & ?). unfold datastart in *.
    pose proof (Z.div_pos (sb_size sb) BPB ltac:(lia) ltac:(done)). rewrite put_block_ne by lia. by apply W11.
Qed.
End grow.
(** ** The whole operation *)

(** Another file keeps its bytes and its blocks. *)
Lemma writes_frame D x off bs D1 x1 y : inode_ok D x → inode_ok D y → (∀ b, owned D x b → ¬ owned D y b) →
  writes D x off bs D1 x1 →
  inode_ok D1 y ∧ (∀ k, file_block D1 y k = file_block D y k) ∧
  (∀ b, owned D1 y b → D1 b = D b) ∧ (∀ b, owned D1 x1 b → ¬ owned D1 y b).
Proof.
  intros Hx Hy Hdis [W1 W2 W3 W13 W4 W5 W6 W7 W8 W9 W10 W12 W11]. pose proof Hy as [O1 O2 O3 O4 O5 O6].
  assert (∀ b, owned D y b → D1 b = D b) as Hsame.
  { intros b Hb. destruct (owned_used D y b Hy Hb). apply W9; [done|done|]. intros Hb'. by apply (Hdis b). }
  assert (∀ k, file_block D1 y k = file_block D y k) as Hfb.
  { intros k. unfold file_block. destruct (k <? NDIRECT); [done|]. destruct (Z.eqb_spec (iaddr y NDIRECT) 0); [done|].
    rewrite Hsame; [done|]. split; [done|by left]. }
  assert (∀ b, owned D1 y b → owned D y b) as Hown.
  { intros b [N0 [?|(k & Hk & E)]]; (split; [done|]); [by left|right]. exists k. by rewrite Hfb in E. }
  split_and!; [split; try done|done|by intros b Hb%Hown; apply Hsame|].
  - intros k Hk Hs. rewrite Hfb. by apply O3.
  - intros N. destruct (O4 N) as [? ?]. split; [done|]. apply W10; [by apply data_size|done].
  - intros k Hk. rewrite Hfb. intros N. destruct (O5 k Hk N) as (? & ? & ?). split_and!; try done.
    apply W10; [by apply data_size|done].
  - intros k k' Hk Hk'. rewrite !Hfb. by apply O6.
  - intros b [Hb|Hf]%W8 Hyb%Hown; [by apply (Hdis b)|]. destruct (owned_used D y b Hy Hyb). congruence.
Qed.

(** The bytes [bs] are in the file at [off] and on the disk; the other files
    and the other inodes are as they were. *)
Record file_written (D : Z → list Z) (x : inode) (off : Z) (bs : list Z) (D' : Z → list Z) (x' : inode) : Prop := {
  fw_disk : disk_ok D';
  fw_ok : inode_ok D' x';
  fw_same : x' = x <| i_addrs := i_addrs x' |> <| i_size := Z.max (i_size x) (off + Z.of_nat (length bs)) |>;
  fw_byte : ∀ i, 0 <= i < i_size x' → file_byte D' x' i =
    if decide (off <= i < off + Z.of_nat (length bs)) then byte_at (i - off) bs else file_byte D x i;
  fw_stored : inode_range x → ∀ y, dinode sb D' (i_inum x) y = y <| i_type := i_type x |> <| i_major := i_major x |>
    <| i_minor := i_minor x |> <| i_nlink := i_nlink x |> <| i_size := i_size x' |> <| i_addrs := i_addrs x' |>;
  fw_owned : ∀ b, owned D x b → owned D' x' b;
  fw_new : ∀ b, owned D' x' b → owned D x b ∨ used D b = false;
  fw_used : ∀ b, data_block b → used D' b = true ↔ used D b = true ∨ owned D' x' b;
  fw_inodes : ∀ i y, 0 <= i < sb_ninodes sb → i ≠ i_inum x → dinode sb D' i y = dinode sb D i y;
  fw_files : ∀ y, inode_ok D y → (∀ b, owned D x b → ¬ owned D y b) →
    inode_ok D' y ∧ (∀ i, 0 <= i < i_size y → file_byte D' y i = file_byte D y i) ∧
    (∀ b, owned D' y b ↔ owned D y b) ∧ ∀ b, owned D' x' b → ¬ owned D' y b
}.

Lemma inode_ok_size D x n : inode_ok D x → 0 <= n <= MAXFILE * BSIZE →
  (∀ k, 0 <= k → k * BSIZE < n → file_block D x k ≠ 0) → inode_ok D (x <| i_size := n |>).
Proof. intros [O1 O2 O3 O4 O5 O6] Hn Hf. by split. Qed.

Lemma addrs_range D x : blocks D → inode_ok D x → Forall (λ a, 0 <= a < 2 ^ 32) (i_addrs x).
Proof.
  intros HB Hx. apply Forall_lookup. intros k a Hk. pose proof (lookup_lt_Some _ _ _ Hk) as Hlt. rewrite (io_len _ _ _ Hx) in Hlt.
  assert (iaddr x (Z.of_nat k) = a) as E by (unfold iaddr; by rewrite Nat2Z.id, nth_lookup, Hk).
  destruct (decide (a = 0)) as [->|N]; [lia|]. destruct (lay_data sb Hlay) as (? & ? & _).
  assert (data_block a) as [? ?]; [|lia]. destruct (decide (Z.of_nat k < NDIRECT)).
  - assert (file_block D x (Z.of_nat k) = a) as Ef.
    { unfold file_block. rewrite (proj2 (Z.ltb_lt _ _)) by done. done. }
    destruct (io_data _ _ _ Hx (Z.of_nat k)) as (Hd & _).
    + change MAXFILE with 268. unfold NDIRECT in *. lia.
    + by rewrite Ef.
    + by rewrite Ef in Hd.
  - replace (Z.of_nat k) with NDIRECT in E by (unfold NDIRECT in *; lia). rewrite <- E. apply (io_ind _ _ _ Hx). congruence.
Qed.

Lemma owned_same D D1 x b : (∀ k, file_block D x k = file_block D1 x k) → owned D x b → owned D1 x b.
Proof. intros Hf [N0 [?|(k & Hk & E)]]; (split; [done|]); [by left|right]. exists k. by rewrite <- Hf. Qed.

Lemma writes_owned D x off bs D1 x1 b : writes D x off bs D1 x1 → owned D x b → owned D1 x1 b.
Proof.
  intros Hw [N0 [->|(k & Hk & E)]]; (split; [done|]); [left; symmetry; by apply (w_ind _ _ _ _ _ _ Hw)|right].
  exists k. split; [done|]. rewrite (w_map _ _ _ _ _ _ Hw); [done|done|congruence].
Qed.

(** The size is set and the inode stored. *)
Section done.
Context (D : Z → list Z) (x : inode) (off : Z) (bs : list Z) (D1 : Z → list Z) (x1 : inode).
Hypothesis HD : disk_ok D.
Hypothesis Hx : inode_ok D x.
Hypothesis Hoff : 0 <= off <= i_size x.
Hypothesis Hmax : off + Z.of_nat (length bs) <= MAXFILE * BSIZE.
Hypothesis Hi : 0 <= i_inum x < sb_ninodes sb.
Hypothesis Hw : writes D x off bs D1 x1.
Context (x2 : inode).
Hypothesis E2 : x2 = x1 <| i_size := Z.max (i_size x) (off + Z.of_nat (length bs)) |>.
Abbreviation D2 := (store_inode sb D1 x2).

Lemma done_inum : i_inum x2 = i_inum x.
Proof. rewrite E2. cbn. by rewrite (w_same _ _ _ _ _ _ Hw). Qed.

Lemma done_size : i_size x2 = Z.max (i_size x) (off + Z.of_nat (length bs)).
Proof. by rewrite E2. Qed.

Lemma done_range : 0 <= i_inum x2 < sb_ninodes sb.
Proof. by rewrite done_inum. Qed.

Lemma done_other b : sb_bmapstart sb <= b → D2 b = D1 b.
Proof. intros. apply store_inode_other; [done|apply done_range|done]. Qed.

Lemma done_ok : inode_ok D1 x2.
Proof.
  destruct (io_size _ _ _ Hx). rewrite E2. apply inode_ok_size; [apply Hw|lia|]. intros k Hk Hlt.
  destruct (decide (k * BSIZE < i_size x)); [|apply (w_full _ _ _ _ _ _ Hw); lia].
  rewrite (w_map _ _ _ _ _ _ Hw); [|split; [done|by apply (max_block k x D)]|]; by apply (io_full _ _ _ Hx).
Qed.

Lemma done_block k : file_block D2 x2 k = file_block D1 x2 k.
Proof. apply (meta_file_block sb Hlay); [apply done_other|]. intros N. by apply (io_ind _ _ _ done_ok). Qed.

Lemma done_owned b : owned D2 x2 b ↔ owned D1 x1 b.
Proof.
  transitivity (owned D1 x2 b); [split; apply owned_same; intros k; rewrite done_block; done|by rewrite E2].
Qed.

Lemma done_stored y : inode_range x → dinode sb D2 (i_inum x) y = y <| i_type := i_type x |> <| i_major := i_major x |>
  <| i_minor := i_minor x |> <| i_nlink := i_nlink x |> <| i_size := i_size x2 |> <| i_addrs := i_addrs x2 |>.
Proof.
  intros Hr. pose proof (w_ok _ _ _ _ _ _ Hw) as Hok. pose proof (w_same _ _ _ _ _ _ Hw) as Es.
  rewrite <- done_inum, dinode_stored; [|apply Hw|].
  - rewrite E2, Es. done.
  - destruct Hr as [R1 R2 R3 R4 R5 R6 R7], (io_size _ _ _ Hx). rewrite E2. split; cbn; try (rewrite Es; done).
    + apply Hok.
    + change (MAXFILE * BSIZE) with 274432 in *. lia.
    + eapply addrs_range; [apply Hw|done].
Qed.

Lemma done_inodes i y : 0 <= i < sb_ninodes sb → i ≠ i_inum x → dinode sb D2 i y = dinode sb D i y.
Proof.
  intros Hi' Hne. rewrite dinode_other; try done.
  - unfold dinode. rewrite (w_meta _ _ _ _ _ _ Hw); [done|]. by apply lay_iblock.
  - apply Hw.
  - rewrite E2. apply (io_len _ _ _ (w_ok _ _ _ _ _ _ Hw)).
  - apply done_range.
  - by rewrite done_inum.
Qed.

Lemma done_files y : inode_ok D y → (∀ b, owned D x b → ¬ owned D y b) →
  inode_ok D2 y ∧ (∀ i, 0 <= i < i_size y → file_byte D2 y i = file_byte D y i) ∧
  (∀ b, owned D2 y b ↔ owned D y b) ∧ ∀ b, owned D2 x2 b → ¬ owned D2 y b.
Proof.
  intros Hy Hdis. destruct (writes_frame D x off bs D1 x1 y) as (F1 & F2 & F3 & F4); try done.
  assert (∀ k, file_block D2 y k = file_block D1 y k) as Hfb.
  { intros k. apply (meta_file_block sb Hlay); [apply done_other|]. intros N. by apply (io_ind _ _ _ F1). }
  split_and!; [eapply meta_inode_ok; [done|apply done_other|done]| | |].
  - intros i Hi'. rewrite (meta_file_byte sb Hlay D1) by (done || apply done_other). unfold file_byte. rewrite F3, F2; [done|].
    destruct (byte_block D y i Hy Hi') as [Hk Hne]. split; [by rewrite F2|]. right. eauto.
  - intros b. split; apply owned_same; intros k; by rewrite Hfb, F2.
  - intros b Hb%done_owned Hyb%(owned_same _ D1); [by apply (F4 b)|done].
Qed.

Lemma writes_done : file_written D x off bs D2 x2.
Proof.
  pose proof done_other as Hst. split.
  - apply store_inode_disk; try done; [apply Hw|rewrite E2; apply (w_ok _ _ _ _ _ _ Hw)|apply done_range].
  - eapply meta_inode_ok; [done|done|apply done_ok].
  - rewrite E2. cbn. by rewrite (w_same _ _ _ _ _ _ Hw).
  - intros i Hi'. rewrite done_size in Hi'. rewrite (meta_file_byte sb Hlay D1) by (done || apply done_ok || by rewrite done_size).
    replace (file_byte D1 x2 i) with (file_byte D1 x1 i) by (by rewrite E2). case_decide as Hc; [by apply (w_in _ _ _ _ _ _ Hw)|].
    apply (w_out _ _ _ _ _ _ Hw); [|done]. lia.
  - intros Hr y. by apply done_stored.
  - intros b Hb. by apply done_owned, (writes_owned D x off bs).
  - intros b Hb%done_owned. by apply (w_new _ _ _ _ _ _ Hw).
  - intros b Hb. rewrite (meta_used sb Hlay D1), done_owned by (try done; by apply data_size). split.
    + apply (w_back _ _ _ _ _ _ Hw); done.
    + intros [Hub|Hob]; [apply (w_used _ _ _ _ _ _ Hw); [by apply data_size|done]|].
      by apply (owned_used D1 x1); [apply Hw|].
  - intros i y. apply done_inodes.
  - intros y. apply done_files.
Qed.
End done.
End write.

(** * The operations *)

Section ops.
Context `{KI : !KernelImage}.
Context (J : vdisk → Prop) (cfg : sched_cfg) (swtch : option Z → option Z → FM ()).
Context (rw : Z → bool → FM ()) `{HD : !DiskDriver J rw}.
Context (S0 : pstate fsys) (u : Z) (dv : Z).
Hypothesis Hu : ps_cur S0 = Some u.
Context (m : mach) (sb : superblock) (d0 : disk) (nout : Z) (Fl : Z → file).
Hypothesis Hm : m_held m = [].
Hypothesis Hlay : layout sb.

Abbreviation tx := (tx J S0 u dv m sb d0 nout Fl).
Abbreviation bread_ok := (tx_bread J cfg swtch rw S0 u dv Hu m sb d0 nout Fl Hm).
Abbreviation modify_ok := (modify_block J cfg S0 u dv Hu m sb d0 nout Fl Hm).
Abbreviation bmap_ok := (bmap_spec J cfg swtch rw S0 u dv Hu m sb d0 nout Fl Hm Hlay).
Abbreviation logs := (logs sb).

Lemma lay_iblock_size i : 0 <= i < sb_ninodes sb → sb_inodestart sb <= IBLOCK i sb < sb_size sb.
Proof.
  intros Hi. destruct (lay_iblock sb Hlay i Hi) as (_ & ? & _). destruct (lo_size _ Hlay), (lay_data sb Hlay) as (? & _).
  pose proof (lo_bmap _ Hlay). pose proof (Z.div_pos (sb_size sb) BPB ltac:(lia) ltac:(done)). lia.
Qed.

Lemma iupdate_spec D hs I s ip :
  let x := I (ip - 1) in
  tx D ∅ hs I s → ip ≠ 0 → i_dev x = dv → 0 <= i_inum x < sb_ninodes sb → 1 <= nout → Z.of_nat (length hs) < LOGSIZE - 1 →
  wp (iupdate cfg swtch rw ip) (λ _ s', tx (store_inode sb D x) ∅ (logging hs (IBLOCK (i_inum x) sb)) I s') s.
Proof.
  intros x Hs Hip Hdev Hi Hout Hlen. unfold iupdate. do 6 tx_step. fold x. rewrite Hdev. tx_step.
  destruct (lay_iblock sb Hlay _ Hi) as (_ & ? & ?).
  wp_use bread_ok; [done|apply lookup_empty|change LOGSIZE with 30 in *; change NBUF with 30; rewrite map_size_empty; lia|].
  intros bp s1 Hs1. tx_step. tx_step. fold x.
  eapply (modify_ok D ∅ hs I s1); [done|apply lookup_empty|done|done|lia|]. done.
Qed.
(** ** [writei] *)

(** The source supplies the bytes [bs] and changes nothing. *)
Definition supplies (src : source) (bs : list Z) : Prop :=
  ∀ D H hs I s k n, tx D H hs I s → 0 <= k → 0 <= n → k + n <= Z.of_nat (length bs) →
    wp (copy_in src k n) (λ r s', r = (0, slice k n bs) ∧ tx D H hs I s') s.

Lemma supplies_local bs : supplies (FromLocal bs) bs.
Proof. intros D H hs I s k n Hs ? ? ?. cbn. tx_step. done. Qed.

(** User memory supplies the bytes the user would read. *)
Lemma supplies_user va bs fl T K M : vm m fl T K → T !! pagetable (ps_proc S0 u) = Some M → user_low M →
  0 <= va → va + Z.of_nat (length bs) < 2 ^ 64 → ureads m M va bs → supplies (FromUser va) bs.
Proof.
  intros Hvm HT Hlow Hva Hend Hbs D H hs I s k n (f & Hf & T0) Hk Hn Hkn. cbn [copy_in]. unfold either_copyin.
  fs_step. eapply wp_myproc_fs; [done|done|]. fs_step.
  eapply wp_getp_fs; [done|by intros ? ? [=]|]. pose proof (at_mem _ _ _ _ _ Hf) as Em.
  unfold onmem. apply wp_zoom. rewrite Em. rewrite u64_small by lia.
  wp_use (copyin_spec m fl T K _ M (va + k) n); [done|done|done|lia|lia|].
  intros x m' (-> & Hr & Hx).
  assert (∀ i : nat, (i < length x.2)%nat → (i < Z.to_nat n)%nat → x.2 !! i = slice k n bs !! i) as Heq.
  { intros i Hi Hin. rewrite slice_lookup, decide_True by done.
    destruct (lookup_lt_is_Some_2 x.2 i Hi) as [c Ec], (lookup_lt_is_Some_2 bs (Z.to_nat k + i)) as [c' Ec']; [lia|].
    rewrite Ec, Ec'. pose proof (Hr i c Ec) as E1. pose proof (Hbs _ c' Ec') as E2.
    replace (va + k + Z.of_nat i) with (va + Z.of_nat (Z.to_nat k + i)) in E1 by lia. congruence. }
  destruct Hx as [[E Hl]|(_ & Hl & Hnone)].
  - split; [|by exists f; split; [destruct Hf; split|]]. destruct x as [r l]. cbn in *. subst r. f_equal.
    apply list_eq_same_length with (Z.to_nat n); [rewrite slice_length; lia|lia|].
    intros i c c' Hi. rewrite Heq by lia. congruence.
  - destruct (lookup_lt_is_Some_2 bs (Z.to_nat k + length x.2)) as [c Ec]; [lia|]. pose proof (Hbs _ c Ec) as E2.
    replace (va + Z.of_nat (Z.to_nat k + length x.2)) with (va + k + Z.of_nat (length x.2)) in E2 by lia. congruence.
Qed.

(** The blocks that [n] bytes at [off] are in. *)
Definition nblocks (off n : Z) : Z := (off + n + BSIZE - 1) / BSIZE - off / BSIZE.

Section writei.
Context (D : Z → list Z) (hs : list Z) (I : Z → inode) (ip off : Z) (src : source) (bs : list Z).
Abbreviation x := (I (ip - 1)).
Abbreviation n := (Z.of_nat (length bs)).
Hypothesis Hip : ip ≠ 0.
Hypothesis Hdev : i_dev x = dv.
Hypothesis Hinum : 0 <= i_inum x < sb_ninodes sb.
Hypothesis HDk : disk_ok sb D.
Hypothesis Hx : inode_ok sb D x.
Hypothesis Hoff : 0 <= off <= i_size x.
Hypothesis Hmax : off + n <= MAXFILE * BSIZE.
Hypothesis Hbs : Forall byte bs.
Hypothesis Hsrc : supplies src bs.
Hypothesis Hout : 1 <= nout.
Hypothesis Hroom : Z.of_nat (length hs) + 6 * nblocks off n < LOGSIZE - 1.

(** [tot] bytes are written, in [j] blocks. *)
Definition written (tot : Z) (j : nat) (s1 : pstate fsys) : Prop :=
  ∃ D1 hs1 x1, tx D1 ∅ hs1 (upd_I I (ip - 1) (λ _, x1)) s1 ∧
    writes sb D x off (take (Z.to_nat tot) bs) D1 x1 ∧ logs (6 * j) hs hs1 ∧
    0 <= tot <= n ∧ Z.of_nat j <= nblocks off n.

Definition write_inv (tot : Z) (s1 : pstate fsys) : Prop :=
  ∃ j, written tot j s1 ∧ (tot < n → (off + tot) / BSIZE = off / BSIZE + Z.of_nat j).

Lemma slice_take k l : 0 <= k → 0 <= l → take (Z.to_nat k) bs ++ slice k l bs = take (Z.to_nat (k + l)) bs.
Proof. intros Hk Hl. unfold slice. rewrite Z2Nat.inj_add by done. by rewrite take_take_drop. Qed.

Lemma step_blocks tot j l : 0 <= tot < n → (off + tot) / BSIZE = off / BSIZE + j →
  l = Z.min (n - tot) (BSIZE - (off + tot) mod BSIZE) →
  0 < l <= n - tot ∧ (off + tot) mod BSIZE + l <= BSIZE ∧ j + 1 <= nblocks off n ∧
  (tot + l < n → (off + (tot + l)) / BSIZE = off / BSIZE + (j + 1)).
Proof.
  intros Ht Ej ->. pose proof (Z.div_mod (off + tot) BSIZE ltac:(done)).
  pose proof (Z.mod_pos_bound (off + tot) BSIZE ltac:(done)). unfold nblocks, BSIZE in *.
  assert ((off + tot) / 1024 + 1 <= (off + n + 1024 - 1) / 1024).
  { rewrite <- (Z.div_add (off + tot) 1 1024) by lia. apply Z.div_le_mono; lia. }
  split_and!; [lia..|]. intros Hlt. rewrite Z.min_r by lia.
  replace (off + (tot + (1024 - (off + tot) mod 1024))) with ((off / 1024 + (j + 1)) * 1024) by lia. by apply Z.div_mul.
Qed.

(** One round of the loop stores [l] bytes in the block at [off + tot]. *)
Lemma write_chunk tot j l D1 hs1 x1 s1 bp :
  let o := off + tot in let b := file_block D1 x1 (o / BSIZE) in
  tx D1 {[b := bp]} hs1 (upd_I I (ip - 1) (λ _, x1)) s1 → b ≠ 0 →
  writes sb D x off (take (Z.to_nat tot) bs) D1 x1 → logs (6 * j + 5) hs hs1 →
  0 <= tot < n → 0 < l <= n - tot → o mod BSIZE + l <= BSIZE → Z.of_nat j + 1 <= nblocks off n →
  wp (set_data bp (splice (o mod BSIZE) (slice tot l bs)) ;; log_write bp ;; brelse cfg bp)
    (λ _ s', written (tot + l) (S j) s') s1.
Proof.
  intros o b Hs1 Nb Hw Hl Ht Hl2 Hmod Hj. destruct (w_ok _ _ _ _ _ _ _ Hw) as [O1 O2 O3 O4 O5 O6].
  assert (0 <= o / BSIZE < MAXFILE) as Hk.
  { split; [apply Z.div_pos; [lia|done]|]. apply Z.div_lt_upper_bound; [done|]. lia. }
  assert (datastart sb <= b < sb_size sb) as Hb by apply (O5 _ Hk Nb). destruct (lay_data sb Hlay) as (? & ? & _).
  destruct Hl as [L1 L2 L3]. change LOGSIZE with 30 in *.
  eapply (modify_ok D1 ∅ hs1 _ s1 b bp); [done|apply lookup_empty|done|change LOGSIZE with 30; lia|lia|].
  intros s2 Hs2. exists (put_block D1 (b, splice (o mod BSIZE) (slice tot l bs) (D1 b))), (logging hs1 b), x1. split_and!; try lia.
  - done.
  - rewrite <- slice_take by lia. apply (writes_put sb Hlay D x off (take (Z.to_nat tot) bs) D1 x1 Hx); try done.
    + lia.
    + rewrite length_take. lia.
    + unfold o. rewrite length_take. lia.
    + unfold slice. rewrite length_take, length_drop. lia.
    + by apply slice_bytes.
  - eapply (logs_trans sb (6 * j + 5) 1); [by split|apply logs_one|lia]. unfold datastart in *.
    pose proof (Z.div_pos (sb_size sb) BPB ltac:(lia) ltac:(done)). destruct (lo_inodes _ Hlay).
    pose proof (Z.div_pos (sb_ninodes sb) IPB ltac:(lia) ltac:(done)). lia.
Qed.
Lemma upd_twice (I1 : Z → inode) i (a b : inode) (j : Z) : upd_I (upd_I I1 i (λ _, a)) i (λ _, b) j = upd_I I1 i (λ _, b) j.
Proof. unfold upd_I. by destruct (j =? i). Qed.

Lemma write_grown tot j D1 hs1 x1 D2 hs2 x2 s2 :
  writes sb D x off (take (Z.to_nat tot) bs) D1 x1 → logs (6 * j) hs hs1 → 0 <= tot <= n →
  grown J S0 u dv m sb d0 nout Fl D1 hs1 (upd_I I (ip - 1) (λ _, x1)) ip 5 D2 hs2 x2 s2 →
  tx D2 ∅ hs2 (upd_I I (ip - 1) (λ _, x2)) s2 ∧ writes sb D x off (take (Z.to_nat tot) bs) D2 x2 ∧ logs (6 * j + 5) hs hs2.
Proof.
  intros Hw Hl Ht (Hs2 & Hg & Hl2). rewrite upd_I_same in Hg. split_and!.
  - eapply tx_ext; [exact Hs2|done|]. intros i. apply upd_twice.
  - eapply writes_grow; try done; [lia|]. rewrite length_take. lia.
  - by eapply logs_trans.
Qed.
(** The loop: it ends with all bytes written or with the disk full. *)
Definition loop_post (tot : Z) (s' : pstate fsys) : Prop :=
  ∃ j D1 hs1 x1, tx D1 ∅ hs1 (upd_I I (ip - 1) (λ _, x1)) s' ∧
    writes sb D x off (take (Z.to_nat tot) bs) D1 x1 ∧ logs j hs hs1 ∧
    0 <= tot <= n ∧ Z.of_nat j <= 6 * nblocks off n ∧ (tot < n → full sb D1).

Lemma write_round tot s1 : tot < n → write_inv tot s1 →
  wp (addr ← bmap cfg swtch rw ip ((off + tot) / BSIZE);
      if addr =? 0 then mret (inr tot) else
      dev ← geti ip i_dev;
      bp ← bread cfg swtch rw dev addr;
      let m := Z.min (n - tot) (BSIZE - (off + tot) mod BSIZE) in
      r ← copy_in src tot m;
      set_data bp (splice ((off + tot) mod BSIZE) r.2) ;;
      if r.1 =? -1 then brelse cfg bp ;; mret (inr tot)
      else log_write bp ;; brelse cfg bp ;; mret (inl (tot + m)))
    (λ r s', match r with inl tot' => write_inv tot' s' ∧ tot < tot' | inr tot' => loop_post tot' s' end) s1.
Proof.
  intros Hlt (j & (D1 & hs1 & x1 & Hs1 & Hw & Hl & Ht & Hj) & Ej). specialize (Ej Hlt).
  set (l := Z.min (n - tot) (BSIZE - (off + tot) mod BSIZE)).
  destruct (step_blocks tot (Z.of_nat j) l ltac:(lia) Ej eq_refl) as (B1 & B2 & B3 & B4).
  pose proof (ls_len _ _ _ _ Hl) as Hlen. change LOGSIZE with 30 in *.
  pose proof (w_same _ _ _ _ _ _ _ Hw) as Esame.
  assert (i_dev x1 = dv) as Hdev1 by (by rewrite Esame).
  tx_step. wp_use (bmap_ok D1 hs1 (upd_I I (ip - 1) (λ _, x1)) s1 ip); rewrite ?upd_I_same.
  1-3: done. 1: apply Hw. 1: apply Hw. 2: by right. 2: change LOGSIZE with 30; lia.
  { split; [apply Z.div_pos; [lia|done]|]. apply Z.div_lt_upper_bound; [done|]. lia. }
  intros r s2 (D2 & hs2 & x2 & Hg & -> & Hfull & _).
  destruct (write_grown tot j D1 hs1 x1 D2 hs2 x2 s2) as (Hs2 & Hw2 & Hl2); [done..|].
  pose proof (ls_len _ _ _ _ Hl2) as Hlen2.
  assert (i_dev x2 = dv) as Hdev2 by (by rewrite (w_same _ _ _ _ _ _ _ Hw2)).
  apply wp_if; [intros E0%Z.eqb_eq|intros N0%Z.eqb_neq].
  { tx_step. exists (6 * j + 5)%nat, D2, hs2, x2. split_and!; (done || lia || auto). }
  tx_step. tx_step. rewrite upd_I_same, Hdev2. tx_step.
  wp_use bread_ok; [done|apply lookup_empty|change NBUF with 30; rewrite map_size_empty; lia|]. intros bp s3 Hs3.
  cbv zeta. fold l. tx_step. wp_use Hsrc; [done|lia|lia|lia|]. intros r s4 [-> Hs4]. cbn [fst snd].
  pose proof (write_chunk tot j l D2 hs2 x2 s4 bp) as Hc. cbn zeta in Hc.
  specialize (Hc Hs4 N0 Hw2 Hl2 ltac:(lia) ltac:(lia) B2 B3). apply wp_bind_inv in Hc.
  tx_step. eapply wp_mono; [exact Hc|]. intros [] s5 Hc5. cbn beta in Hc5. apply wp_bind_inv in Hc5.
  apply wp_if_f; [done|]. tx_step. eapply wp_mono; [exact Hc5|]. intros [] s6 Hc6.
  tx_step. eapply wp_mono; [exact Hc6|]. intros [] s7 Hw7. tx_step. split; [|lia].
  exists (S j). split; [done|]. intros ?. rewrite B4 by done. lia.
Qed.

Definition write_post (r : Z) (s' : pstate fsys) : Prop :=
  ∃ D' hs' x', 0 <= r <= n ∧ (r < n → full sb D') ∧ tx D' ∅ hs' (upd_I I (ip - 1) (λ _, x')) s' ∧
    file_written sb D x off (take (Z.to_nat r) bs) D' x' ∧
    logs (Z.to_nat (6 * nblocks off n + 1)) hs hs' ∧ IBLOCK (i_inum x) sb ∈ hs'.

(** The size and the inode are stored. *)
Lemma write_finish tot s1 : loop_post tot s1 →
  wp (size ← geti ip i_size;
      when (off + tot >? size) (seti ip (λ x, x <| i_size := off + tot |>)) ;;
      iupdate cfg swtch rw ip ;;
      mret (i32 tot)) write_post s1.
Proof.
  intros (j & D1 & hs1 & x1 & Hs1 & Hw & Hl & Ht & Hj & Hfull).
  pose proof (ls_len _ _ _ _ Hl) as Hlen. pose proof (w_same _ _ _ _ _ _ _ Hw) as Esame.
  set (x2 := x1 <| i_size := Z.max (i_size x) (off + tot) |>).
  assert (i_size x1 = i_size x) as Esz by (by rewrite Esame).
  tx_step. tx_step. rewrite upd_I_same, Esz. tx_step.
  apply (wp_mono _ (λ _ s2, tx D1 ∅ hs1 (upd_I I (ip - 1) (λ _, x2)) s2)).
  { unfold when. rewrite Z.gtb_ltb. apply wp_if; [intros Hc%Z.ltb_lt|intros Hc%Z.ltb_ge].
    - tx_step. eapply tx_ext; [done|done|]. intros i. unfold upd_I. destruct (i =? ip - 1); [|done].
      unfold x2. by rewrite Z.max_r by lia.
    - tx_step. eapply tx_ext; [done|done|]. intros i. unfold upd_I. destruct (i =? ip - 1); [|done].
      unfold x2. rewrite Z.max_l, <- Esz by lia. by destruct x1. }
  intros [] s2 Hs2. cbn beta in Hs2. change LOGSIZE with 30 in *.
  assert (i_inum x2 = i_inum x ∧ i_dev x2 = dv) as [Einum Edev].
  { unfold x2. rewrite Esame. done. }
  pose proof (iupdate_spec D1 hs1 (upd_I I (ip - 1) (λ _, x2)) s2 ip) as Hup. cbn zeta in Hup.
  rewrite !upd_I_same, Einum in Hup. specialize (Hup Hs2 Hip Edev Hinum Hout ltac:(change LOGSIZE with 30; lia)).
  tx_step. eapply wp_mono; [exact Hup|]. intros [] s3 Hs3. tx_step. change (MAXFILE * BSIZE) with 274432 in *. rewrite i32_small by lia.
  assert (length (take (Z.to_nat tot) bs) = Z.to_nat tot) as Etk by (rewrite length_take; lia).
  exists (store_inode sb D1 x2), (logging hs1 (IBLOCK (i_inum x) sb)), x2. split_and!; try done; try lia.
  - intros ?. intros b Hb. rewrite (meta_used sb Hlay D1); [by apply Hfull| |done].
    intros c Hc. apply store_inode_other; [done|by rewrite Einum|done].
  - apply (writes_done sb Hlay D x off (take (Z.to_nat tot) bs) D1 x1); try done; rewrite Etk, Z2Nat.id by lia;
      [change (MAXFILE * BSIZE) with 274432; lia|done].
  - eapply (logs_trans sb j 1); [done|apply logs_one, lay_iblock_size; done|lia].
  - apply logging_in. by right.
Qed.

Lemma writei_spec s : tx D ∅ hs I s → wp (writei cfg swtch rw ip src off n) write_post s.
Proof.
  intros Hs. unfold writei. tx_step. tx_step. change (MAXFILE * BSIZE) with 274432 in *. rewrite u32_small by lia.
  apply wp_if_f; [apply orb_false_iff; rewrite Z.gtb_ltb, !Z.ltb_ge; lia|].
  apply wp_if_f; [rewrite Z.gtb_ltb, Z.ltb_ge; change (MAXFILE * BSIZE) with 274432; lia|]. tx_step.
  apply (wp_mono _ loop_post); [|intros; by apply write_finish].
  eapply (wp_while write_inv (λ tot _, n - tot)).
  - intros tot s1 Hinv. pose proof Hinv as (j & (D1 & hs1 & x1 & Hs1 & Hw & Hl & Ht & Hj) & _).
    apply wp_if; [intros Hlt%Z.ltb_lt|intros Hge%Z.ltb_ge].
    + eapply wp_mono; [by apply write_round|]. intros [tot'|tot'] s2; [|done]. intros [Hi ?]. split; [done|].
      destruct Hi as (? & (? & ? & ? & _ & _ & _ & ? & _) & _). lia.
    + tx_step. exists (6 * j)%nat, D1, hs1, x1. split_and!; (done || lia).
  - exists 0%nat. split; [|intros _; rewrite Z.add_0_r; lia]. exists D, hs, x. split_and!; try lia.
    + by apply tx_same.
    + by apply writes_refl.
    + apply logs_refl.
    + unfold nblocks, BSIZE. pose proof (Z.div_le_mono off (off + n + 1024 - 1) 1024). lia.
  - lia.
Qed.
End writei.
End ops.
