(* ===== verification/FsTrunc.v ===== *)
(** [itrunc]: the blocks of the file, and no others, become free. *)
From S2P Require Import Prelude CString Spinlock Riscv Kalloc Vm Proc FsState Sleeplock Bio Log Fs.
From S2P Require Import FsFrame BioOps LogOps LogTx FsTx FsAlloc FsInode FsDinode FsFile FsWrite.

(** ** Freed blocks *)

Section freed.
Context (sb : superblock).
Hypothesis Hlay : layout sb.
Abbreviation used := (used sb).

(** The bitmap says that the blocks [bs] are free; nothing else changed. *)
Record freed (D : Z → list Z) (bs : list Z) (D1 : Z → list Z) : Prop := {
  fr_blocks : blocks D1;
  fr_used : ∀ b, 0 <= b < sb_size sb → used D1 b = if decide (b ∈ bs) then false else used D b;
  fr_same : ∀ b, ¬ (sb_bmapstart sb <= b < datastart sb) → D1 b = D b
}.

Lemma freed_nil D : blocks D → freed D [] D.
Proof. intros HB. split; [done| |done]. intros b Hb. by rewrite decide_False by apply not_elem_of_nil. Qed.

Lemma freed_step D bs D1 b : freed D bs D1 → 0 <= b < sb_size sb → freed D (bs ++ [b]) (mark sb false D1 b).
Proof.
  intros [F1 F2 F3] Hb. split.
  - by apply mark_blocks.
  - intros c Hc. rewrite used_mark by done. destruct (Z.eqb_spec c b) as [->|N].
    + by rewrite decide_True by set_solver.
    + rewrite F2 by done. repeat case_decide; set_solver.
  - intros c Hc. destruct (lay_bblock sb Hlay b Hb) as (_ & ? & _). rewrite mark_other by lia. by apply F3.
Qed.

Lemma freed_data D bs D1 b : freed D bs D1 → data_block sb b → D1 b = D b.
Proof. intros [F1 F2 F3] [? ?]. apply F3. lia. Qed.

(** The log grows by blocks of the bitmap only. *)
Definition logs_bitmap (hs hs' : list Z) : Prop :=
  (∀ k, k ∈ hs → k ∈ hs') ∧ (∀ k, k ∈ hs' → k ∈ hs ∨ sb_bmapstart sb <= k < datastart sb).

Lemma logs_bitmap_refl hs : logs_bitmap hs hs.
Proof. split; auto. Qed.

Lemma logs_bitmap_step hs hs' b : logs_bitmap hs hs' → 0 <= b < sb_size sb → logs_bitmap hs (logging hs' (BBLOCK b sb)).
Proof.
  intros [L1 L2] Hb. destruct (lay_bblock sb Hlay b Hb) as (_ & ? & _). split.
  - intros k Hk. apply logging_in. auto.
  - intros k [?| ->]%logging_in; auto.
Qed.

Lemma logs_bitmap_length hs hs' : logs_bitmap hs hs' → NoDup hs' →
  Z.of_nat (length hs') <= Z.of_nat (length hs) + sb_size sb / BPB + 1.
Proof.
  intros [_ L2] Hnd. assert (length hs' <= length (hs ++ seqZ (sb_bmapstart sb) (sb_size sb / BPB + 1)))%nat as H.
  { apply submseteq_length, NoDup_submseteq; [done|]. intros k [?|?]%L2; apply elem_of_app; [by left|right].
    apply elem_of_seqZ. unfold datastart in *. lia. }
  rewrite length_app, length_seqZ in H. destruct (lo_size _ Hlay).
  pose proof (Z.div_pos (sb_size sb) BPB ltac:(lia) ltac:(done)). lia.
Qed.
End freed.

(** The addresses that are not null. *)
Definition nonzero (l : list Z) : list Z := filter (λ a, a ≠ 0) l.

Lemma nonzero_snoc l a : nonzero (l ++ [a]) = if decide (a = 0) then nonzero l else nonzero l ++ [a].
Proof.
  unfold nonzero. rewrite filter_app. case_decide.
  - rewrite filter_cons_False, filter_nil, app_nil_r; [done|]. by intros [].
  - by rewrite filter_cons_True, filter_nil.
Qed.

(** The blocks of a file, in the order in which [itrunc] frees them. *)
Definition direct_blocks (x : inode) (n : Z) : list Z := nonzero (map (iaddr x) (seqZ 0 n)).
Definition indirect_blocks (D : Z → list Z) (x : inode) (n : Z) : list Z :=
  nonzero (map (λ j, ind_get j (D (iaddr x NDIRECT))) (seqZ 0 n)).

Definition file_blocks (D : Z → list Z) (x : inode) : list Z :=
  direct_blocks x NDIRECT ++
  if iaddr x NDIRECT =? 0 then [] else indirect_blocks D x NINDIRECT ++ [iaddr x NDIRECT].

Lemma elem_of_nonzero (f : Z → Z) n b : b ∈ nonzero (map f (seqZ 0 n)) ↔ b ≠ 0 ∧ ∃ k, 0 <= k < n ∧ f k = b.
Proof.
  unfold nonzero. rewrite list_elem_of_filter. change (map f) with (fmap (M := list) f). rewrite list_elem_of_fmap.
  setoid_rewrite elem_of_seqZ.
  split; intros [H1 (k & H2 & H3)]; (split; [done|]); exists k; split; (done || lia).
Qed.

Lemma file_blocks_owned D x b : b ∈ file_blocks D x ↔ owned D x b.
Proof.
  unfold file_blocks, direct_blocks, indirect_blocks, owned. rewrite elem_of_app, elem_of_nonzero.
  change MAXFILE with 268. split.
  - intros [[N0 (k & Hk & E)]|Hb].
    + split; [done|]. right. exists k. unfold file_block, NDIRECT in *. destruct (Z.ltb_spec k 12); [|lia]. split; [lia|done].
    + destruct (Z.eqb_spec (iaddr x NDIRECT) 0) as [E0|N]; [by apply not_elem_of_nil in Hb|].
      rewrite elem_of_app, elem_of_nonzero, list_elem_of_singleton in Hb. destruct Hb as [[N0 (k & Hk & E)]| ->]; [|auto].
      split; [done|]. right. exists (NDIRECT + k). change NINDIRECT with 256 in Hk. unfold file_block, NDIRECT in *.
      destruct (Z.ltb_spec (12 + k) 12); [lia|]. destruct (Z.eqb_spec (iaddr x 12) 0); [done|].
      replace (12 + k - 12) with k by lia. split; [lia|done].
  - intros [N0 [->|(k & Hk & E)]].
    + right. destruct (Z.eqb_spec (iaddr x NDIRECT) 0); [done|]. set_solver.
    + unfold file_block in E. destruct (Z.ltb_spec k NDIRECT); [left; split; [done|]; exists k; split; [lia|done]|].
      right. destruct (Z.eqb_spec (iaddr x NDIRECT) 0); [congruence|]. apply elem_of_app. left.
      apply elem_of_nonzero. split; [done|]. exists (k - NDIRECT). change NINDIRECT with 256. unfold NDIRECT in *. split; [lia|done].
Qed.

(** * The operation *)

Section ops.
Context `{KI : !KernelImage}.
Context (J : vdisk → Prop) (cfg : sched_cfg) (swtch : option Z → option Z → FM ()).
Context (rw : Z → bool → FM ()) `{HD : !DiskDriver J rw}.
Context (S0 : pstate fsys) (u : Z) (dv : Z).
Hypothesis Hu : ps_cur S0 = Some u.
Context (m : mach) (sb : superblock) (d0 : disk) (nout : Z) (Fl : Z → file).
Hypothesis Hm : m_held m = [].
Hypothesis Hlay : layout sb.

Abbreviation tx := (tx J S0 u dv m sb d0 nout Fl).
Abbreviation bread_ok := (tx_bread J cfg swtch rw S0 u dv Hu m sb d0 nout Fl Hm).
Abbreviation brelse_ok := (tx_brelse J cfg S0 u dv Hu m sb d0 nout Fl Hm).
Abbreviation clean_ok := (tx_clean J S0 u dv m sb d0 nout Fl).
Abbreviation bfree_ok := (bfree_spec J cfg swtch rw S0 u dv Hu m sb d0 nout Fl Hm Hlay).
Abbreviation iupdate_ok := (iupdate_spec J cfg swtch rw S0 u dv Hu m sb d0 nout Fl Hm Hlay).
Abbreviation used := (used sb).

Lemma tx_nodup D H hs I s : tx D H hs I s → NoDup hs.
Proof. intros (f & _ & T). apply T. Qed.

(** The blocks of the file are free, the inode is empty and stored. *)
Record truncated (D : Z → list Z) (x : inode) (D' : Z → list Z) (x' : inode) : Prop := {
  tr_same : x' = x <| i_addrs := replicate 13 0 |> <| i_size := 0 |>;
  tr_disk : disk_ok sb D';
  tr_used : ∀ b, 0 <= b < sb_size sb → used D' b = true ↔ used D b = true ∧ ¬ owned D x b;
  tr_data : ∀ b, data_block sb b → D' b = D b;
  tr_stored : inode_range x → ∀ y, dinode sb D' (i_inum x) y = y <| i_type := i_type x |> <| i_major := i_major x |>
    <| i_minor := i_minor x |> <| i_nlink := i_nlink x |> <| i_size := 0 |> <| i_addrs := replicate 13 0 |>;
  tr_inodes : ∀ i y, 0 <= i < sb_ninodes sb → i ≠ i_inum x → dinode sb D' i y = dinode sb D i y
}.

Lemma truncated_freed D x D3 : disk_ok sb D → inode_ok sb D x → 0 <= i_inum x < sb_ninodes sb →
  freed sb D (file_blocks D x) D3 →
  let x' := x <| i_addrs := replicate 13 0 |> <| i_size := 0 |> in truncated D x (store_inode sb D3 x') x'.
Proof.
  intros HDk Hx Hi [F1 F2 F3] x'. destruct (lay_data sb Hlay) as (? & ? & ?).
  assert (∀ b, sb_bmapstart sb <= b → store_inode sb D3 x' b = D3 b) as Hst by (intros; by apply store_inode_other).
  assert (disk_ok sb D3) as HD3.
  { split; [done|]. intros b Hb. rewrite F2 by lia. case_decide as Hin; [|by apply HDk].
    apply file_blocks_owned, (owned_used sb D x) in Hin as [[? ?] _]; [lia|done]. }
  split; try done.
  - by apply store_inode_disk.
  - intros b Hb. rewrite (meta_used sb Hlay D3) by done. rewrite F2 by done. rewrite <- file_blocks_owned. case_decide; naive_solver.
  - intros b Hb. rewrite Hst by (by apply (data_after sb Hlay)). apply F3. destruct Hb. lia.
  - intros Hr y. rewrite (dinode_stored sb D3 x') by (try done; destruct Hr; split; try done; by apply Forall_replicate). done.
  - intros i y Hi' Hne. rewrite (dinode_other sb Hlay D3 x') by done. unfold dinode. rewrite F3; [done|].
    destruct (lay_iblock sb Hlay i Hi') as (_ & ? & _). lia.
Qed.

Section itrunc.
Context (D : Z → list Z) (hs : list Z) (I : Z → inode) (ip : Z).
Abbreviation x := (I (ip - 1)).
Hypothesis Hip : ip ≠ 0.
Hypothesis Hdev : i_dev x = dv.
Hypothesis Hinum : 0 <= i_inum x < sb_ninodes sb.
Hypothesis HDk : disk_ok sb D.
Hypothesis Hx : inode_ok sb D x.
Hypothesis Hout : 1 <= nout.
Hypothesis Hroom : Z.of_nat (length hs) + sb_size sb / BPB + 1 < LOGSIZE - 2.

(** The state between two blocks: [bs] are free, the copy of the inode has the
    addresses [ad]. *)
Definition freeing (H : gmap Z Z) (bs ad : list Z) (s : pstate fsys) : Prop :=
  ∃ D1 hs1, tx D1 H hs1 (upd_I I (ip - 1) (λ _, x <| i_addrs := ad |>)) s ∧ freed sb D bs D1 ∧ logs_bitmap sb hs hs1.

(** One [bfree]. *)
Lemma ibfree_step H bs ad b s :
  freeing H bs ad s → (size H <= 1)%nat → (∀ c, c < datastart sb → H !! c = None) →
  data_block sb b → used D b = true → b ∉ bs →
  wp (ibfree cfg swtch rw ip b) (λ _ s', freeing H (bs ++ [b]) ad s') s.
Proof.
  intros (D1 & hs1 & Hs & Hf & Hl) HH Hmeta Hb Hub Hnin. unfold ibfree. tx_step. tx_step. rewrite upd_I_same. cbn. rewrite Hdev.
  pose proof (data_size sb Hlay b Hb) as Hb'. destruct (lay_bblock sb Hlay b Hb') as (_ & ? & _).
  pose proof (logs_bitmap_length sb Hlay hs hs1 Hl (tx_nodup _ _ _ _ _ Hs)). change LOGSIZE with 30 in *.
  wp_use (bfree_ok D1 H hs1); [done|apply Hf|apply Hmeta; lia|done|change LOGSIZE with 30; lia|done| |].
  - rewrite (fr_used _ _ _ _ Hf), decide_False by done. done.
  - intros [] s1 Hs1. exists (mark sb false D1 b), (logging hs1 (BBLOCK b sb)).
    split_and!; [done|by apply freed_step|by apply logs_bitmap_step].
Qed.
(** The addresses after [j] of them were cleared. *)
Definition cleared (j : Z) : list Z := replicate (Z.to_nat j) 0 ++ drop (Z.to_nat j) (i_addrs x).

Lemma cleared_get j : 0 <= j → nth (Z.to_nat j) (cleared j) 0 = iaddr x j.
Proof.
  intros Hj. unfold cleared, iaddr. rewrite !nth_lookup, lookup_app_r by (rewrite length_replicate; lia).
  rewrite length_replicate, Nat.sub_diag, lookup_drop. by rewrite Nat.add_0_r.
Qed.

Lemma cleared_set j : 0 <= j <= NDIRECT → <[Z.to_nat j := 0]> (cleared j) = cleared (j + 1).
Proof.
  intros Hj. pose proof (io_len _ _ _ Hx) as Hl. unfold NDIRECT in *. unfold cleared. apply list_eq. intros k.
  rewrite Z2Nat.inj_add by lia. change (Z.to_nat 1) with 1%nat.
  destruct (decide (k = Z.to_nat j)) as [->|N].
  - rewrite list_lookup_insert_eq by (rewrite length_app, length_replicate, length_drop; lia).
    rewrite lookup_app_l, lookup_replicate_2 by (rewrite ?length_replicate; lia). done.
  - rewrite list_lookup_insert_ne by done. destruct (decide (k < Z.to_nat j)%nat).
    + rewrite !lookup_app_l, !lookup_replicate_2 by (rewrite ?length_replicate; lia). done.
    + rewrite !lookup_app_r, !length_replicate, !lookup_drop by (rewrite ?length_replicate; lia). f_equal. lia.
Qed.

Lemma cleared_same j : 0 <= j <= NDIRECT → iaddr x j = 0 → cleared (j + 1) = cleared j.
Proof.
  intros Hj E. rewrite <- cleared_set by done. apply list_insert_id.
  pose proof (cleared_get j ltac:(lia)) as Hg. rewrite E, nth_lookup in Hg.
  destruct (cleared j !! Z.to_nat j) eqn:El; [cbn in Hg; congruence|]. apply lookup_ge_None in El.
  unfold cleared in El. rewrite length_app, length_replicate, length_drop, (io_len _ _ _ Hx) in El. unfold NDIRECT in *. lia.
Qed.

Lemma direct_blocks_step j : 0 <= j →
  direct_blocks x (j + 1) = if decide (iaddr x j = 0) then direct_blocks x j else direct_blocks x j ++ [iaddr x j].
Proof.
  intros Hj. unfold direct_blocks. rewrite seqZ_app by lia. change (seqZ (0 + j) 1) with [0 + j]. rewrite map_app.
  cbn [map]. rewrite nonzero_snoc. done.
Qed.

Lemma direct_loop s : freeing ∅ [] (i_addrs x) s →
  wp (for_ (seqZ 0 NDIRECT) (λ i,
    a ← get_addr ip i;
    when (truth a) (
      ibfree cfg swtch rw ip a ;;
      set_addr ip i 0))) (λ _ s', freeing ∅ (direct_blocks x NDIRECT) (cleared NDIRECT) s') s.
Proof.
  intros Hs. apply (wp_for_seqZ _ _ (λ j s, freeing ∅ (direct_blocks x j) (cleared j) s)); [done|done| |done].
  intros j s1 Hj Hf. pose proof Hf as (D1 & hs1 & Hs1 & _). change NDIRECT with 12 in Hj.
  assert (file_block D x j = iaddr x j) as Efb.
  { unfold file_block, NDIRECT. destruct (Z.ltb_spec j 12); [done|lia]. }
  unfold get_addr. tx_step. tx_step. rewrite upd_I_same. change (i_addrs (x <| i_addrs := cleared j |>)) with (cleared j). rewrite cleared_get by lia.
  rewrite direct_blocks_step by lia. unfold truth, when. case_decide as E.
  - rewrite cleared_same by (unfold NDIRECT; (done || lia)). apply wp_if_f; [by rewrite E|]. tx_step. done.
  - assert (0 <= j < MAXFILE) as Hjm by (change MAXFILE with 268; lia).
    destruct (io_data _ _ _ Hx j Hjm) as (Hdb & Hub & _); [by rewrite Efb|]. rewrite Efb in Hdb, Hub.
    apply wp_if_t; [by apply negb_true_iff, Z.eqb_neq|]. tx_step.
    wp_use (ibfree_step ∅ (direct_blocks x j) (cleared j) (iaddr x j)); [done|by rewrite map_size_empty; lia|done|done|done| |].
    { unfold direct_blocks. rewrite elem_of_nonzero. intros (_ & k & Hk & Ek).
      assert (file_block D x k = iaddr x k) as Efk by (unfold file_block, NDIRECT; destruct (Z.ltb_spec k 12); [done|lia]).
      assert (k = j); [|lia]. apply (io_inj _ _ _ Hx); [change MAXFILE with 268; lia|done|congruence|congruence]. }
    intros [] s2 (D2 & hs2 & Hs2 & Hf2 & Hl2). unfold set_addr. tx_step. exists D2, hs2. split_and!; [|done|done].
    eapply tx_ext; [done|done|]. intros i. unfold upd_I. destruct (i =? ip - 1); [|done].
    cbn. by rewrite cleared_set by (unfold NDIRECT; lia).
Qed.
Abbreviation ind := (iaddr x NDIRECT).
Abbreviation dirs := (direct_blocks x NDIRECT).

Lemma indirect_blocks_step j : 0 <= j →
  indirect_blocks D x (j + 1) = if decide (ind_get j (D ind) = 0) then indirect_blocks D x j
    else indirect_blocks D x j ++ [ind_get j (D ind)].
Proof.
  intros Hj. unfold indirect_blocks. rewrite seqZ_app by lia. change (seqZ (0 + j) 1) with [0 + j]. rewrite map_app.
  cbn [map]. rewrite nonzero_snoc. done.
Qed.

(** Block [NDIRECT + j] of the file. *)
Lemma indirect_block j : ind ≠ 0 → 0 <= j < NINDIRECT → ind_get j (D ind) ≠ 0 →
  data_block sb (ind_get j (D ind)) ∧ used D (ind_get j (D ind)) = true ∧ ind_get j (D ind) ≠ ind ∧
  (ind_get j (D ind) ∉ dirs) ∧ (ind_get j (D ind) ∉ indirect_blocks D x j).
Proof.
  intros N Hj Nb. change NINDIRECT with 256 in Hj.
  assert (∀ k, 0 <= k < 256 → file_block D x (NDIRECT + k) = ind_get k (D ind)) as Efb.
  { intros k Hk. unfold file_block. destruct (Z.ltb_spec (NDIRECT + k) NDIRECT); [lia|].
    destruct (Z.eqb_spec ind 0); [done|]. f_equal. lia. }
  assert (∀ k, 0 <= k < 12 → file_block D x k = iaddr x k) as Efd.
  { intros k Hk. unfold file_block, NDIRECT. destruct (Z.ltb_spec k 12); [done|lia]. }
  pose proof (io_inj _ _ _ Hx (NDIRECT + j)) as Hinj. rewrite Efb in Hinj by done. change MAXFILE with 268 in Hinj.
  destruct (io_data _ _ _ Hx (NDIRECT + j)) as (? & ? & ?); rewrite ?Efb in * by done;
    [change MAXFILE with 268; unfold NDIRECT; lia|done|].
  split_and!; try done; unfold direct_blocks, indirect_blocks; rewrite elem_of_nonzero; intros (_ & k & Hk & Ek); unfold NDIRECT in *.
  - assert (12 + j = k); [|lia]. apply Hinj; [lia|lia|done|]. by rewrite Efd.
  - assert (12 + j = 12 + k); [|lia]. apply Hinj; [lia|lia|done|]. by rewrite Efb by lia.
Qed.

Lemma indirect_loop bp s : ind ≠ 0 → freeing {[ind := bp]} dirs (cleared NDIRECT) s →
  wp (for_ (seqZ 0 NINDIRECT) (λ j,
      a ← getb bp (λ x, ind_get j (b_data x));
      when (truth a) (ibfree cfg swtch rw ip a)))
    (λ _ s', freeing {[ind := bp]} (dirs ++ indirect_blocks D x NINDIRECT) (cleared NDIRECT) s') s.
Proof.
  intros N Hs. destruct (io_ind _ _ _ Hx N) as [Hdi Hui].
  apply (wp_for_seqZ _ _ (λ j s, freeing {[ind := bp]} (dirs ++ indirect_blocks D x j) (cleared NDIRECT) s)); [done| | |done].
  { unfold indirect_blocks. change (seqZ 0 0) with (@nil Z). by rewrite app_nil_r. }
  intros j s1 Hj Hf. pose proof Hf as (D1 & hs1 & Hs1 & Hfr & _). tx_step.
  eapply (tx_getb J S0 u dv m sb d0 nout Fl D1 _ _ _ _ _ _ (ind_get j)); [exact Hs1|apply lookup_singleton_eq|].
  rewrite (freed_data _ _ _ _ _ Hfr) by done. rewrite indirect_blocks_step by lia. unfold truth, when. case_decide as E.
  - apply wp_if_f; [by rewrite E|]. tx_step. done.
  - destruct (indirect_block j N Hj E) as (? & ? & ? & ? & ?).
    apply wp_if_t; [by apply negb_true_iff, Z.eqb_neq|].
    wp_use (ibfree_step {[ind := bp]} (dirs ++ indirect_blocks D x j)); [done|by rewrite map_size_singleton| |done|done| |].
    + intros c Hc. apply lookup_singleton_ne. destruct Hdi. lia.
    + rewrite elem_of_app. tauto.
    + intros [] s2 Hs2. by rewrite app_assoc.
Qed.
Lemma cleared_all : cleared (NDIRECT + 1) = replicate 13 0.
Proof.
  unfold cleared. pose proof (io_len _ _ _ Hx) as Hl. rewrite drop_ge by (rewrite Hl; done). by rewrite app_nil_r.
Qed.

Lemma indirect_part s : freeing ∅ dirs (cleared NDIRECT) s →
  wp (a ← get_addr ip NDIRECT;
      when (truth a) (
        dev ← geti ip i_dev;
        bp ← bread cfg swtch rw dev a;
        for_ (seqZ 0 NINDIRECT) (λ j,
          a ← getb bp (λ x, ind_get j (b_data x));
          when (truth a) (ibfree cfg swtch rw ip a)) ;;
        brelse cfg bp ;;
        a ← get_addr ip NDIRECT;
        ibfree cfg swtch rw ip a ;;
        set_addr ip NDIRECT 0)) (λ _ s', freeing ∅ (file_blocks D x) (replicate 13 0) s') s.
Proof.
  intros Hf. pose proof Hf as (D1 & hs1 & Hs1 & Hfr & Hl). unfold file_blocks.
  unfold get_addr. tx_step. tx_step. rewrite upd_I_same.
  change (i_addrs (x <| i_addrs := cleared NDIRECT |>)) with (cleared NDIRECT). rewrite cleared_get by done.
  unfold truth, when. destruct (Z.eqb_spec ind 0) as [E|N].
  { apply wp_if_f; [done|]. tx_step. rewrite app_nil_r, <- cleared_all, cleared_same by done. done. }
  destruct (io_ind _ _ _ Hx N) as [Hdi Hui]. pose proof (clean_ok _ _ _ _ _ ind Hs1 (lookup_empty _)) as Hcl.
  pose proof (logs_bitmap_length sb Hlay hs hs1 Hl (tx_nodup _ _ _ _ _ Hs1)). change LOGSIZE with 30 in *.
  apply wp_if_t; [done|]. tx_step. tx_step. rewrite upd_I_same. change (i_dev _) with (i_dev x). rewrite Hdev. tx_step.
  wp_use bread_ok; [done|apply lookup_empty|change NBUF with 30; rewrite map_size_empty; lia|]. intros bp s2 Hs2.
  tx_step. wp_use (indirect_loop bp); [done|by exists D1, hs1|]. intros [] s3 (D3 & hs3 & Hs3 & Hfr3 & Hl3). tx_step.
  wp_use brelse_ok; [done|apply lookup_empty| |].
  { unfold clean in *. rewrite (freed_data _ _ _ _ _ Hfr3) by done. rewrite (freed_data _ _ _ _ _ Hfr) in Hcl by done.
    destruct Hcl as [Hin|?]; [|by right]. left. destruct Hl as [_ L2]. destruct (L2 ind Hin) as [?|?]; [by apply Hl3|].
    destruct Hdi. lia. }
  intros [] s4 Hs4. tx_step. tx_step. rewrite upd_I_same.
  change (i_addrs (x <| i_addrs := cleared NDIRECT |>)) with (cleared NDIRECT). rewrite cleared_get by done. tx_step.
  wp_use (ibfree_step ∅ (dirs ++ indirect_blocks D x NINDIRECT) (cleared NDIRECT) ind); [by exists D3, hs3|by rewrite map_size_empty; lia|done|done|done| |].
  { unfold direct_blocks, indirect_blocks. rewrite elem_of_app, !elem_of_nonzero. intros [(_ & k & Hk & Ek)|(_ & k & Hk & Ek)].
    - destruct (io_data _ _ _ Hx k) as (_ & _ & Hne); [change MAXFILE with 268; unfold NDIRECT in *; lia| |];
        revert Hne || idtac; unfold file_block; destruct (Z.ltb_spec k NDIRECT); (congruence || lia).
    - destruct (indirect_block k N) as (_ & _ & ? & _); [done|congruence|done]. }
  intros [] s5 (D5 & hs5 & Hs5 & Hfr5 & Hl5). unfold set_addr. tx_step. exists D5, hs5. split_and!; [|by rewrite app_assoc|done].
  eapply tx_ext; [done|done|]. intros i. unfold upd_I. destruct (i =? ip - 1); [|done].
  by rewrite <- cleared_all, <- cleared_set by done.
Qed.

Lemma itrunc_spec s : tx D ∅ hs I s →
  wp (itrunc cfg swtch rw ip) (λ _ s', ∃ D' hs' x', tx D' ∅ hs' (upd_I I (ip - 1) (λ _, x')) s' ∧
    truncated D x D' x' ∧ Z.of_nat (length hs') <= Z.of_nat (length hs) + sb_size sb / BPB + 2 ∧
    IBLOCK (i_inum x) sb ∈ hs' ∧ ∀ k, k ∈ hs' → k ∈ hs ∨ sb_inodestart sb <= k) s.
Proof.
  intros Hs. unfold itrunc. tx_step. wp_use direct_loop.
  { exists D, hs. split_and!; [|by apply freed_nil, HDk|apply logs_bitmap_refl]. eapply tx_ext; [done|done|].
    intros i. unfold upd_I. destruct (Z.eqb_spec i (ip - 1)) as [->|]; [|done]. by destruct (I (ip - 1)). }
  intros [] s1 Hs1. pose proof (indirect_part s1 Hs1) as Hi. apply wp_bind_inv in Hi.
  tx_step. eapply wp_mono; [exact Hi|]. intros a s2 Ha. cbn beta in Ha. tx_step. eapply wp_mono; [exact Ha|].
  intros [] s3 (D3 & hs3 & Hs3 & Hfr & Hl). tx_step. tx_step.
  set (x' := x <| i_addrs := replicate 13 0 |> <| i_size := 0 |>).
  assert (tx D3 ∅ hs3 (upd_I I (ip - 1) (λ _, x')) s') as Hs4.
  { eapply tx_ext; [done|done|]. intros i. unfold upd_I. by destruct (i =? ip - 1). }
  pose proof (logs_bitmap_length sb Hlay hs hs3 Hl (tx_nodup _ _ _ _ _ Hs3)). change LOGSIZE with 30 in *.
  pose proof (iupdate_ok D3 hs3 _ s' ip Hs4) as Hup. cbn zeta in Hup. rewrite upd_I_same in Hup.
  specialize (Hup Hip Hdev Hinum Hout ltac:(change LOGSIZE with 30; lia)).
  eapply wp_mono; [exact Hup|]. intros [] s5 Hs5. exists (store_inode sb D3 x'), (logging hs3 (IBLOCK (i_inum x) sb)), x'.
  pose proof (logging_length hs3 (IBLOCK (i_inum x) sb)). split_and!; [done|by apply truncated_freed|lia| |].
  - apply logging_in. by right.
  - destruct (lay_iblock sb Hlay _ Hinum) as (_ & ? & _). destruct Hl as [_ L2].
    intros k [[?|?]%L2| ->]%logging_in; [by left|right; lia..].
Qed.
End itrunc.
End ops.
