(* ===== verification/FsCheck.v ===== *)
(** Consistency of the file system: what a checker would verify.  Every block of
    the data area that is marked as used belongs to exactly one file, and no
    file has a block that is marked as free. *)
From S2P Require Import Prelude CString Spinlock Riscv Kalloc Vm Proc FsState Sleeplock Bio Log Fs.
From S2P Require Import FsFrame BioOps LogOps LogTx FsTx FsAlloc FsInode FsDinode FsFile FsWrite FsTrunc.

Section check.
Context (sb : superblock).
Hypothesis Hlay : layout sb.

Definition no_inode : inode := mkInode 0 0 0 (mkSleeplock 0 0) 0 0 0 0 0 0 [].

(** Inode [i] as it is on the disk. *)
Definition disk_inode (D : Z → list Z) (i : Z) : inode := dinode sb D i no_inode.

(** Inode [i] is in use. *)
Definition allocated (D : Z → list Z) (i : Z) : Prop := 1 <= i < sb_ninodes sb ∧ i_type (disk_inode D i) ≠ 0.

Record consistent (D : Z → list Z) : Prop := {
  cs_disk : disk_ok sb D;
  cs_inode : ∀ i, allocated D i → inode_ok sb D (disk_inode D i);
  cs_disjoint : ∀ i j b, allocated D i → allocated D j → owned D (disk_inode D i) b → owned D (disk_inode D j) b → i = j;
  cs_used : ∀ b, data_block sb b → used sb D b = true → ∃ i, allocated D i ∧ owned D (disk_inode D i) b
}.

(** The copy in memory of an inode in use. *)
Record loaded (D : Z → list Z) (x : inode) : Prop := {
  ld_inum : 1 <= i_inum x < sb_ninodes sb;
  ld_type : i_type x ≠ 0;
  ld_range : inode_range x;
  ld_disk : dinode sb D (i_inum x) x = x
}.

(** Only the size and the addresses matter. *)
Lemma inode_ok_fields D x y : i_size x = i_size y → i_addrs x = i_addrs y → inode_ok sb D x → inode_ok sb D y.
Proof.
  intros Es Ea [O1 O2 O3 O4 O5 O6].
  assert (∀ k, iaddr y k = iaddr x k) as Ei by (intros k; unfold iaddr; by rewrite Ea).
  assert (∀ k, file_block D y k = file_block D x k) as Ef by (intros k; unfold file_block; by rewrite !Ei).
  split; rewrite ?Ei, <- ?Ea, <- ?Es; try done.
  - intros k. rewrite Ef. apply O3.
  - intros k. rewrite Ef. apply O5.
  - intros k k'. rewrite !Ef. apply O6.
Qed.

Lemma owned_fields D x y b : i_addrs x = i_addrs y → owned D x b → owned D y b.
Proof.
  intros Ea. unfold owned. assert (∀ k, iaddr y k = iaddr x k) as Ei by (intros k; unfold iaddr; by rewrite Ea).
  assert (∀ k, file_block D y k = file_block D x k) as Ef by (intros k; unfold file_block; by rewrite !Ei).
  rewrite Ei. by setoid_rewrite Ef.
Qed.

Lemma dinode_fields D i y : i_type (dinode sb D i y) = i_type (disk_inode D i) ∧
  i_size (dinode sb D i y) = i_size (disk_inode D i) ∧ i_addrs (dinode sb D i y) = i_addrs (disk_inode D i).
Proof. done. Qed.

Lemma loaded_fields D x : loaded D x → i_type (disk_inode D (i_inum x)) = i_type x ∧
  i_size (disk_inode D (i_inum x)) = i_size x ∧ i_addrs (disk_inode D (i_inum x)) = i_addrs x.
Proof. intros [_ _ _ E]. destruct (dinode_fields D (i_inum x) x) as (<- & <- & <-). by rewrite E. Qed.

Lemma loaded_allocated D x : loaded D x → allocated D (i_inum x).
Proof. intros Hl. destruct (loaded_fields D x Hl) as (E & _). split; [apply Hl|]. rewrite E. apply Hl. Qed.

Lemma loaded_ok D x : consistent D → loaded D x → inode_ok sb D x.
Proof.
  intros Hc Hl. destruct (loaded_fields D x Hl) as (_ & Es & Ea).
  eapply inode_ok_fields; [exact Es|exact Ea|]. by apply (cs_inode _ Hc), loaded_allocated.
Qed.

Lemma loaded_owned D x b : loaded D x → owned D (disk_inode D (i_inum x)) b ↔ owned D x b.
Proof. intros Hl. destruct (loaded_fields D x Hl) as (_ & _ & Ea). split; by apply owned_fields. Qed.

(** The blocks of the other files. *)
Lemma loaded_disjoint D x i b : consistent D → loaded D x → allocated D i → i ≠ i_inum x →
  owned D x b → ¬ owned D (disk_inode D i) b.
Proof.
  intros Hc Hl Hi Hne Hx%loaded_owned Hb; [|done]. apply Hne. eapply (cs_disjoint _ Hc); try done. by apply loaded_allocated.
Qed.

(** A change of one inode [x] of a consistent disk keeps it consistent when the
    other files stay as they are and the bitmap follows the blocks of [x]. *)
Lemma consistent_change D x D' x' : consistent D → loaded D x → disk_ok sb D' → loaded D' x' → i_inum x' = i_inum x →
  inode_ok sb D' x' →
  (∀ i, 0 <= i < sb_ninodes sb → i ≠ i_inum x → disk_inode D' i = disk_inode D i) →
  (∀ i, allocated D i → i ≠ i_inum x → inode_ok sb D' (disk_inode D i) ∧
    ∀ b, owned D' (disk_inode D i) b ↔ owned D (disk_inode D i) b) →
  (∀ b, owned D' x' b → owned D x b ∨ used sb D b = false) →
  (∀ b, data_block sb b → used sb D' b = true → owned D' x' b ∨ used sb D b = true ∧ ¬ owned D x b) →
  consistent D'.
Proof.
  intros Hc Hl HD' Hl' Einum Hok' Hsame Hother Hnew Hused.
  assert (∀ i, allocated D' i → i ≠ i_inum x → allocated D i ∧ disk_inode D' i = disk_inode D i) as Hal.
  { intros i [Hi Ht] Hne. rewrite Hsame in Ht by lia. split; [done|]. apply Hsame; lia. }
  assert (∀ i b, allocated D i → i ≠ i_inum x → owned D' x' b → ¬ owned D (disk_inode D i) b) as Hdis.
  { intros i b Hi Hne [Hb|Hf]%Hnew Hob; [by eapply loaded_disjoint|].
    destruct (owned_used sb D (disk_inode D i) b (cs_inode _ Hc i Hi) Hob). congruence. }
  assert (∀ b, owned D' (disk_inode D' (i_inum x)) b ↔ owned D' x' b) as Hme by (intros b; rewrite <- Einum; by apply loaded_owned).
  split; [done| | |].
  - intros i Hi. destruct (decide (i = i_inum x)) as [->|N].
    + rewrite <- Einum. destruct (loaded_fields D' x' Hl') as (_ & ? & ?). by eapply inode_ok_fields; [symmetry|symmetry|].
    + destruct (Hal i Hi N) as [Ha ->]. by apply Hother.
  - intros i j b Hi Hj Hbi Hbj. destruct (decide (i = i_inum x)) as [->|Ni], (decide (j = i_inum x)) as [->|Nj]; [done|..].
    + destruct (Hal j Hj Nj) as [Ha E]. rewrite E in Hbj. apply Hother in Hbj; [|done|done]. apply Hme in Hbi. by destruct (Hdis j b Ha Nj).
    + destruct (Hal i Hi Ni) as [Ha E]. rewrite E in Hbi. apply Hother in Hbi; [|done|done]. apply Hme in Hbj. by destruct (Hdis i b Ha Ni).
    + destruct (Hal i Hi Ni) as [Hai Ei], (Hal j Hj Nj) as [Haj Ej]. rewrite Ei in Hbi. rewrite Ej in Hbj.
      apply Hother in Hbi, Hbj; try done. by eapply (cs_disjoint _ Hc).
  - intros b Hb [Ho|[Hu Hno]]%Hused; [|..|done].
    + exists (i_inum x). split; [rewrite <- Einum; by apply loaded_allocated|by apply Hme].
    + destruct (cs_used _ Hc b Hb Hu) as (i & Hi & Hoi). destruct (decide (i = i_inum x)) as [->|N].
      * destruct Hno. by apply loaded_owned.
      * exists i. rewrite Hsame by (try done; destruct Hi; lia). split; [|by apply Hother].
        destruct Hi as [? Ht]. split; [done|]. by rewrite Hsame by (done || lia).
Qed.

Lemma consistent_write D x off bs D' x' : consistent D → loaded D x → 0 <= off →
  file_written sb D x off bs D' x' → consistent D' ∧ loaded D' x'.
Proof.
  intros Hc Hl Hoff [F1 F2 F3 F4 F5 F6 F7 F8 F9 F10].
  assert (loaded D' x') as Hl'.
  { destruct Hl as [L1 L2 L3 L4]. assert (i_inum x' = i_inum x ∧ i_type x' = i_type x) as [E1 E2] by (by rewrite F3).
    split; rewrite ?E1, ?E2; try done.
    - destruct L3 as [R1 R2 R3 R4 R5 R6 R7], (io_size _ _ _ F2) as [S1 S2].
      split; [apply F2|rewrite F3; done..| |by apply (addrs_range sb Hlay D'); [apply F1|]].
      change (MAXFILE * BSIZE) with 274432 in *. lia.
    - rewrite F5 by done. clear - F3. destruct x, x'. cbn in *. by injection F3 as -> -> -> -> -> -> -> -> -> _. }
  split; [|done]. apply (consistent_change D x D' x'); try done.
  - by rewrite F3.
  - intros i Hi Hne. by apply F9.
  - intros i Hi Hne. destruct (F10 (disk_inode D i)) as (H1 & _ & H2 & _); [by apply (cs_inode _ Hc)| |done].
    intros b. by apply loaded_disjoint.
  - intros b Hb Hub%F8; [|done]. destruct Hub as [Hu|?]; [|by left].
    destruct (decide (b ∈ file_blocks D x)) as [Ho|Hn]; rewrite file_blocks_owned in *; [left; by apply F6|by right].
Qed.
(** An inode without blocks. *)
Definition empty_inode (x : inode) : Prop := i_size x = 0 ∧ i_addrs x = replicate 13 0.

Lemma empty_block D x k : i_addrs x = replicate 13 0 → file_block D x k = 0 ∧ iaddr x NDIRECT = 0.
Proof.
  intros Ea. assert (∀ j, iaddr x j = 0) as Ei.
  { intros j. unfold iaddr. rewrite Ea, nth_lookup. destruct (replicate 13 0 !! Z.to_nat j) eqn:E; [|done].
    by apply lookup_replicate in E as [-> _]. }
  unfold file_block. rewrite !Ei. by destruct (k <? NDIRECT).
Qed.

Lemma empty_owned D x b : i_addrs x = replicate 13 0 → ¬ owned D x b.
Proof.
  intros Ea [N [E|(k & Hk & E)]]; destruct (empty_block D x k Ea) || destruct (empty_block D x 0 Ea); congruence.
Qed.

Lemma empty_ok D x : empty_inode x → inode_ok sb D x.
Proof.
  intros [Es Ea]. pose proof (λ k, proj1 (empty_block D x k Ea)) as Ef. pose proof (proj2 (empty_block D x 0 Ea)) as Ei.
  split; rewrite ?Es, ?Ea, ?Ei; try done; intros k; rewrite ?Ef; try done. intros. unfold BSIZE in *. lia.
Qed.

Lemma truncated_other D x D' x' i : consistent D → loaded D x → truncated sb D x D' x' → allocated D i → i ≠ i_inum x →
  inode_ok sb D' (disk_inode D i) ∧ ∀ b, owned D' (disk_inode D i) b ↔ owned D (disk_inode D i) b.
Proof.
  intros Hc Hl [T1 T2 T3 T4 T5 T6] Hi Hne. set (y := disk_inode D i). pose proof (cs_inode _ Hc i Hi) as Hy. fold y in Hy.
  pose proof Hy as [O1 O2 O3 O4 O5 O6].
  assert (∀ k, file_block D' y k = file_block D y k) as Ef.
  { intros k. unfold file_block. destruct (k <? NDIRECT); [done|]. destruct (Z.eqb_spec (iaddr y NDIRECT) 0); [done|].
    rewrite T4; [done|]. by apply O4. }
  assert (∀ b, owned D y b → used sb D' b = true) as Hu.
  { intros b Hb. destruct (owned_used sb D y b Hy Hb) as [Hd ?]. apply T3; [by apply data_size|]. split; [done|].
    intros Hx. by destruct (loaded_disjoint D x i b Hc Hl Hi Hne Hx). }
  split; [split; try done|intros b; split; by apply owned_same].
  - intros k. rewrite Ef. apply O3.
  - intros N. split; [by apply O4|]. apply Hu. split; [done|by left].
  - intros k Hk. rewrite Ef. intros N. destruct (O5 k Hk N) as (? & ? & ?). split_and!; [done| |done].
    apply Hu. split; [done|]. right. eauto.
  - intros k k'. rewrite !Ef. apply O6.
Qed.

Lemma consistent_trunc D x D' x' : consistent D → loaded D x → truncated sb D x D' x' →
  consistent D' ∧ loaded D' x' ∧ empty_inode x'.
Proof.
  intros Hc Hl Ht. pose proof Ht as [T1 T2 T3 T4 T5 T6]. pose proof Hl as [L1 L2 L3 L4].
  assert (empty_inode x') as He by (by rewrite T1).
  assert (loaded D' x') as Hl'.
  { assert (i_inum x' = i_inum x ∧ i_type x' = i_type x) as [E1 E2] by (by rewrite T1).
    split; rewrite ?E1, ?E2; try done.
    - rewrite T1. destruct L3. split; try done. by apply Forall_replicate.
    - rewrite T5 by done. clear - T1. destruct x, x'. cbn in *. by injection T1 as -> -> -> -> -> -> -> -> -> -> ->. }
  split; [|done]. apply (consistent_change D x D' x'); try done.
  - by rewrite T1.
  - by apply empty_ok.
  - intros i Hi Hne. by apply T6.
  - intros i. by apply (truncated_other D x D' x').
  - intros b Hb. by apply empty_owned in Hb; [|apply He].
  - intros b Hb Hu. right. apply T3; [by apply data_size|done].
Qed.
(** An empty inode is stored where there was none or an empty one: it is
    allocated, or freed. *)
Lemma consistent_empty D z : consistent D → 1 <= i_inum z < sb_ninodes sb → inode_range z → empty_inode z →
  (allocated D (i_inum z) → i_addrs (disk_inode D (i_inum z)) = replicate 13 0) → consistent (store_inode sb D z).
Proof.
  intros Hc Hi Hr He Hold. set (D' := store_inode sb D z). pose proof (cs_disk _ Hc) as HDk.
  assert (∀ b, sb_bmapstart sb <= b → D' b = D b) as Hst by (intros; apply store_inode_other; (done || lia)).
  assert (∀ i, allocated D' i → i ≠ i_inum z → disk_inode D' i = disk_inode D i) as Hsame.
  { intros i [Hi' _] N. apply (dinode_other sb Hlay); try done; [apply HDk|apply Hr|lia|lia]. }
  assert (∀ i, allocated D' i → i ≠ i_inum z → allocated D i) as Hal.
  { intros i Hi' N. split; [apply Hi'|]. rewrite <- Hsame by done. apply Hi'. }
  assert (i_addrs (disk_inode D' (i_inum z)) = replicate 13 0) as Ea.
  { unfold disk_inode, D'. rewrite dinode_stored by (apply HDk || done). apply He. }
  assert (∀ i b, allocated D' i → owned D' (disk_inode D' i) b → i ≠ i_inum z ∧ allocated D i ∧ owned D (disk_inode D i) b) as Hown.
  { intros i b Hi' Hb. destruct (decide (i = i_inum z)) as [->|N]; [by apply empty_owned in Hb|]. rewrite Hsame in Hb by done.
    pose proof (Hal i Hi' N) as Ha. split_and!; [done|done|]. revert Hb. apply owned_same. intros k. apply (meta_file_block sb Hlay); [done|].
    intros Nk. by apply (io_ind _ _ _ (cs_inode _ Hc i Ha)). }
  split.
  - apply store_inode_disk; try done; [apply Hr|lia].
  - intros i Hi'. destruct (decide (i = i_inum z)) as [->|N].
    + apply empty_ok. split; [|done]. unfold disk_inode, D'. rewrite dinode_stored by (apply HDk || done). apply He.
    + rewrite Hsame by done. eapply meta_inode_ok; [done|done|]. apply (cs_inode _ Hc). by apply Hal.
  - intros i j b Hi' Hj (? & ? & ?)%Hown (? & ? & ?)%Hown; try done. by eapply (cs_disjoint _ Hc).
  - intros b Hb Hu. rewrite (meta_used sb Hlay D) in Hu by (try done; by apply data_size).
    destruct (cs_used _ Hc b Hb Hu) as (i & Ha & Ho). destruct (decide (i = i_inum z)) as [->|N].
    { apply empty_owned in Ho; [done|]. by apply Hold. }
    assert (disk_inode D' i = disk_inode D i) as E.
    { apply (dinode_other sb Hlay); try done; [apply HDk|apply Hr|destruct Ha; lia|lia]. }
    exists i. unfold allocated. rewrite E. split; [done|]. revert Ho. apply owned_same. intros k. symmetry.
    apply (meta_file_block sb Hlay); [done|]. intros Nk. by apply (io_ind _ _ _ (cs_inode _ Hc i Ha)).
Qed.
End check.
