(* ===== verification/FsIget.v ===== *)
(** The table of inodes in memory: [iget], [idup], [ialloc], and [iput] when it is not
    the last reference to an inode without links. *)
From S2P Require Import Prelude CString Spinlock Riscv Kalloc Vm Proc FsState Sleeplock Bio Log Fs.
From S2P Require Import FsFrame BioOps LogOps LogTx FsTx FsAlloc FsInode FsDinode FsFile FsWrite FsTrunc FsCheck.

(** The slot of inode [inum] of device [dev], and the first free slot. *)
Definition cached (I : Z → inode) (dev inum i : Z) : bool :=
  (i_ref (I i) >? 0) && (i_dev (I i) =? dev) && (i_inum (I i) =? inum).
Definition slot_of (I : Z → inode) (l : list Z) (dev inum : Z) : option Z :=
  head (filter (λ i, cached I dev inum i = true) l).
Definition free_slot (I : Z → inode) (l : list Z) : option Z := head (filter (λ i, i_ref (I i) = 0) l).

(** The result of [iget]: the slot, and the inode in it. *)
Definition iget_result (I : Z → inode) (dev inum : Z) : option (Z * (inode → inode)) :=
  match slot_of I (seqZ 0 NINODE) dev inum with
  | Some i => Some (i, λ x, x <| i_ref := i_ref x + 1 |>)
  | None => match free_slot I (seqZ 0 NINODE) with
    | Some e => Some (e, λ x, x <| i_dev := dev |> <| i_inum := inum |> <| i_ref := 1 |> <| i_valid := 0 |>)
    | None => None
    end
  end.

(** The inode that [ialloc] stores. *)
Definition new_inode (type inum : Z) : inode :=
  mkInode 0 inum 0 (mkSleeplock 0 0) 0 type 0 0 0 0 (replicate 13 0).

Lemma splice_over o a a0 c d : 0 <= o → length a = length a0 → (Z.to_nat o + length (a0 ++ c) <= length d)%nat →
  splice o a (splice o (a0 ++ c) d) = splice o (a ++ c) d.
Proof.
  intros Ho Hl Hd. rewrite length_app in Hd. apply list_eq. intros i.
  rewrite !splice_lookup by (rewrite ?splice_length by (rewrite ?length_app; lia); rewrite ?length_app; lia).
  rewrite !length_app, Hl. repeat case_decide; try lia; try done.
  - by rewrite lookup_app_l by lia.
  - rewrite !lookup_app_r by lia. by rewrite Hl.
Qed.

Lemma ialloc_block D inum type sb : block (D (IBLOCK inum sb)) → - 2 ^ 15 <= type < 2 ^ 15 →
  put16 (inode_off inum) (u16 type) (splice (inode_off inum) (replicate (Z.to_nat DINODE_SIZE) 0) (D (IBLOCK inum sb))) =
  put_dinode (inode_off inum) (new_inode type inum) (D (IBLOCK inum sb)).
Proof.
  intros Hb Ht. destruct (put_dinode_block (new_inode type inum) (D (IBLOCK inum sb)) eq_refl Hb) as [E _].
  change (i_inum (new_inode type inum)) with inum in E. rewrite E.
  destruct Hb as [Hl _]. pose proof (inode_off_range inum) as [? ?]. unfold BSIZE in *. unfold put16.
  change (replicate (Z.to_nat DINODE_SIZE) 0) with (replicate 2 0 ++ replicate 62 0).
  change (dinode_bytes (new_inode type inum)) with (le_enc 2 (u16 type) ++ replicate 62 0).
  rewrite splice_over; [done|done|done|]. rewrite length_app, !length_replicate, Hl. lia.
Qed.

Section ops.
Context `{KI : !KernelImage}.
Context (J : vdisk → Prop) (cfg : sched_cfg) (swtch : option Z → option Z → FM ()).
Context (rw : Z → bool → FM ()) `{HD : !DiskDriver J rw}.
Context (S0 : pstate fsys) (u : Z) (dv : Z).
Hypothesis Hu : ps_cur S0 = Some u.
Context (sb : superblock) (d0 : disk) (nout : Z) (Fl : Z → file).
Hypothesis Hlay : layout sb.

Abbreviation tx m := (tx J S0 u dv m sb d0 nout Fl).

Lemma tx_acquire m lk D H hs I s (Q : () → pstate fsys → Prop) : tx m D H hs I s → lk ∉ m_held m →
  (∀ s', tx (m <| m_held := lk :: m_held m |>) D H hs I s' → Q () s') → wp (acquire lk) Q s.
Proof.
  intros (f & Hf & T) Hlk HQ. eapply wp_acquire_fs; [done|done|]. intros s' Hs'. apply HQ. by exists f.
Qed.

Lemma tx_release m lk D H hs I s (Q : () → pstate fsys → Prop) :
  tx (m <| m_held := lk :: m_held m |>) D H hs I s → lk ∉ m_held m →
  (∀ s', tx m D H hs I s' → Q () s') → wp (release lk) Q s.
Proof.
  intros (f & Hf & T) Hlk HQ. eapply wp_release_top; [done|done|done|]. intros s' Hs'. apply HQ. by exists f.
Qed.

Context (m : mach).
Hypothesis Hm : m_held m = [].
Abbreviation locked := (m <| m_held := ItableLock :: m_held m |>).

Lemma not_held lk : lk ∉ m_held m.
Proof. rewrite Hm. apply not_elem_of_nil. Qed.

(** ** [iget] *)

Lemma iget_scan_spec D H hs I dev inum l : ∀ empty s, Forall (λ i, 0 <= i) l → tx locked D H hs I s →
  wp (iget_scan l dev inum empty) (λ r s',
    match slot_of I l dev inum with
    | Some i => r.1 = Some i ∧ tx m D H hs (upd_I I i (λ x, x <| i_ref := i_ref x + 1 |>)) s'
    | None => r = (None, match empty with Some e => Some e | None => free_slot I l end) ∧ tx locked D H hs I s'
    end) s.
Proof.
  induction l as [|i l IH]; intros empty s Hl Hs; cbn [iget_scan].
  { tx_step. split; [by destruct empty|done]. }
  apply Forall_cons in Hl as [Hi Hl]. unfold iptr. tx_step. tx_step; [lia|]. replace (1 + i - 1) with i by lia.
  unfold slot_of, free_slot. rewrite !filter_cons.
  destruct (decide (cached I dev inum i = true)) as [Ec|Ec].
  - cbn [head]. apply wp_if_t; [exact Ec|]. tx_step. tx_step; [lia|]. replace (1 + i - 1) with i in * by lia. tx_step.
    eapply tx_release; [done|apply not_held|]. intros s2 Hs2. tx_step. done.
  - apply wp_if_f; [by apply not_true_is_false|]. eapply wp_mono; [by apply IH|]. intros r s2.
    unfold slot_of. destruct (head (filter _ l)); [done|]. intros [-> ?]. split; [|done]. f_equal.
    destruct empty; [done|]. unfold free_slot. destruct (Z.eqb_spec (i_ref (I i)) 0); [by rewrite decide_True|by rewrite decide_False].
Qed.

Lemma iget_spec D H hs I dev inum s i g : iget_result I dev inum = Some (i, g) → tx m D H hs I s →
  wp (iget dev inum) (λ r s', r = iptr i ∧ tx m D H hs (upd_I I i g) s') s.
Proof.
  intros Hr Hs. unfold iget. tx_step. eapply tx_acquire; [done|apply not_held|]. intros s1 Hs1. tx_step.
  wp_use (iget_scan_spec D H hs I dev inum (seqZ 0 NINODE)); [|done|].
  { apply Forall_forall. intros k Hk. apply elem_of_seqZ in Hk. lia. }
  intros r s2. unfold iget_result in Hr. destruct (slot_of I (seqZ 0 NINODE) dev inum) as [j|].
  - injection Hr as <- <-. intros [E Hs2]. destruct r as [o e]. cbn in E. subst o. tx_step. done.
  - intros [-> Hs2]. destruct (free_slot I (seqZ 0 NINODE)) as [e|] eqn:Ef; [|done]. injection Hr as <- <-.
    assert (0 <= e) as He.
    { unfold free_slot in Ef. apply head_Some_elem_of in Ef. apply list_elem_of_filter in Ef as [_ Ef]. apply elem_of_seqZ in Ef. lia. }
    unfold iptr. tx_step. tx_step; [lia|]. replace (1 + e - 1) with e in * by lia. tx_step. eapply tx_release; [done|apply not_held|].
    intros s4 Hs4. tx_step. done.
Qed.

Lemma idup_spec D H hs I s ip : ip ≠ 0 → tx m D H hs I s →
  wp (idup ip) (λ r s', r = ip ∧ tx m D H hs (upd_I I (ip - 1) (λ x, x <| i_ref := i_ref x + 1 |>)) s') s.
Proof.
  intros Hip Hs. unfold idup. tx_step. eapply tx_acquire; [done|apply not_held|]. intros s1 Hs1. tx_step. tx_step. tx_step.
  eapply tx_release; [done|apply not_held|]. intros s2 Hs2. tx_step. done.
Qed.

(** [iput] of a reference that is not the last one, or to an inode with links. *)
Lemma iput_keep D H hs I s ip : let x := I (ip - 1) in ip ≠ 0 → tx m D H hs I s →
  ¬ (i_ref x = 1 ∧ i_valid x ≠ 0 ∧ i_nlink x = 0) →
  wp (iput cfg swtch rw ip) (λ _ s', tx m D H hs (upd_I I (ip - 1) (λ x, x <| i_ref := i_ref x - 1 |>)) s') s.
Proof.
  intros x Hip Hs Hno. unfold iput. tx_step. eapply tx_acquire; [done|apply not_held|]. intros s1 Hs1. tx_step. tx_step. tx_step.
  unfold when, truth. fold x. apply wp_if_f.
  { apply not_true_is_false. intros E. apply Hno. unfold x in *.
    rewrite !andb_true_iff, !Z.eqb_eq, negb_true_iff, Z.eqb_neq in E. tauto. }
  tx_step. tx_step. tx_step. eapply tx_release; [done|apply not_held|]. intros s3 Hs3. done.
Qed.
(** ** [ialloc] *)

Abbreviation tx0 := (tx m).
Abbreviation bread_ok := (tx_bread J cfg swtch rw S0 u dv Hu m sb d0 nout Fl Hm).
Abbreviation brelse_ok := (tx_brelse J cfg S0 u dv Hu m sb d0 nout Fl Hm).
Abbreviation clean_ok := (tx_clean J S0 u dv m sb d0 nout Fl).
Abbreviation modify_ok := (modify_block J cfg S0 u dv Hu m sb d0 nout Fl Hm).

Lemma ialloc_spec D hs I s type :
  tx0 D ∅ hs I s → blocks D → sb_ninodes sb < 2 ^ 31 → free_slot I (seqZ 0 NINODE) ≠ None →
  1 <= nout → Z.of_nat (length hs) < LOGSIZE - 1 → - 2 ^ 15 <= type < 2 ^ 15 →
  wp (ialloc cfg swtch rw dv type) (λ r s',
    (r = 0 ∧ (∀ i, 1 <= i < sb_ninodes sb → allocated sb D i) ∧ tx0 D ∅ hs I s') ∨
    ∃ inum i g, 1 <= inum < sb_ninodes sb ∧ ¬ allocated sb D inum ∧ r = iptr i ∧ iget_result I dv inum = Some (i, g) ∧
      tx0 (store_inode sb D (new_inode type inum)) ∅ (logging hs (IBLOCK inum sb)) (upd_I I i g) s') s.
Proof.
  intros Hs HB Hn Hfree Hout Hlen Ht. unfold ialloc.
  eapply (wp_while (λ inum s1, 1 <= inum ∧ (∀ i, 1 <= i < inum → i < sb_ninodes sb → allocated sb D i) ∧ tx0 D ∅ hs I s1)
    (λ inum _, Z.max 0 (sb_ninodes sb - inum))).
  2: { split_and!; [done|lia|done]. }
  2: { change (2 ^ 64) with (2 ^ 31 * 2 ^ 33). lia. }
  intros inum s1 (Hi & Hall & Hs1). tx_step. tx_step.
  apply wp_if; [intros Hlt%Z.ltb_lt|intros Hge%Z.ltb_ge].
  2: { tx_step. left. split_and!; [done| |done]. intros i Hi'. apply Hall; lia. }
  destruct (lay_iblock sb Hlay inum) as (_ & ? & ?); [lia|]. change LOGSIZE with 30 in *.
  pose proof (clean_ok _ _ _ _ _ (IBLOCK inum sb) Hs1 (lookup_empty _)) as Hcl.
  tx_step. wp_use bread_ok; [done|apply lookup_empty|change NBUF with 30; rewrite map_size_empty; lia|]. intros bp s2 Hs2.
  tx_step. eapply (tx_getb J S0 u dv m sb d0 nout Fl D _ _ _ _ _ _ (λ d, d)); [exact Hs2|apply lookup_insert_eq|].
  apply wp_if; [intros E%Z.eqb_eq|intros N%Z.eqb_neq].
  - pose proof (ialloc_block D inum type sb (HB _) Ht) as Eb.
    tx_step. eapply tx_set_data; [done|apply lookup_insert_eq|]. intros s3 Hs3.
    assert (wp (set_data bp (put16 (inode_off inum) (u16 type)) ;; log_write bp ;; brelse cfg bp)
      (λ _ s', tx0 (store_inode sb D (new_inode type inum)) ∅ (logging hs (IBLOCK inum sb)) I s') s3) as Hmod.
    { eapply (modify_ok _ ∅ hs I s3 (IBLOCK inum sb) bp); [exact Hs3|apply lookup_empty|done|change LOGSIZE with 30; lia|lia|].
      intros s4 Hs4. eapply tx_ext; [exact Hs4| |done]. intros k. rewrite put_block_twice, put_block_same, Eb. done. }
    apply wp_bind_inv in Hmod. tx_step. eapply wp_mono; [exact Hmod|]. intros [] s4 Hm4. cbn beta in Hm4. apply wp_bind_inv in Hm4.
    tx_step. eapply wp_mono; [exact Hm4|]. intros [] s5 Hm5. cbn beta in Hm5. tx_step. eapply wp_mono; [exact Hm5|]. intros [] s6 Hs6.
    assert (∃ i g, iget_result I dv inum = Some (i, g)) as (i & g & Hg).
    { unfold iget_result. destruct (slot_of I (seqZ 0 NINODE) dv inum); [eauto|]. destruct (free_slot I (seqZ 0 NINODE)); [eauto|done]. }
    tx_step. wp_use (iget_spec (store_inode sb D (new_inode type inum)) ∅ (logging hs (IBLOCK inum sb)) I dv inum s6 i g); [done|done|].
    intros r s7 [-> Hs7]. tx_step. right. exists inum, i, g. split_and!; try done. by intros [_ []].
  - tx_step. wp_use brelse_ok; [done|apply lookup_empty|done|]. intros [] s3 Hs3. tx_step.
    split; [|lia]. split_and!; [lia| |done]. intros i Hi1 Hi2. destruct (decide (i = inum)) as [->|]; [|apply Hall; lia].
    split; [lia|done].
Qed.
End ops.
