(* ===== verification/FsDir.v ===== *)
(** Directories: a directory is a finite map from names to inode numbers. *)
From S2P Require Import Prelude CString Spinlock Riscv Kalloc Vm Proc FsState Sleeplock Bio Log Fs.
From S2P Require Import FsFrame BioOps LogOps LogTx FsTx FsAlloc FsInode FsDinode FsFile FsWrite FsTrunc FsCheck FsIget.

(** ** Names *)

(** The bytes before the NUL, and those of them that count. *)
Fixpoint cname (s : list Z) : list Z :=
  match s with [] => [] | c :: s' => if c =? 0 then [] else c :: cname s' end.
Definition key (s : list Z) : list Z := take (Z.to_nat DIRSIZ) (cname s).

Lemma cname_take n s : cname (take n s) = take n (cname s).
Proof. revert n. induction s as [|c s IH]; intros [|n]; cbn; try done; destruct (c =? 0); cbn; by rewrite ?IH. Qed.

Lemma cname_length s : (length (cname s) <= length s)%nat.
Proof. induction s as [|c s IH]; cbn; [lia|]. destruct (c =? 0); cbn; lia. Qed.

Lemma str_at_cname m a s : Forall byte s → (∀ i : nat, (i <= length s)%nat → m (a + Z.of_nat i) = nth i s 0) → str_at m a (cname s).
Proof.
  intros Hs. revert a. induction Hs as [|c s Hc Hs IH]; intros a Hm;
    pose proof (Hm O ltac:(cbn; lia)) as H0; rewrite Z.add_0_r in H0; cbn [nth] in H0.
  - apply str_at_nil. unfold rd8. by rewrite H0.
  - assert (rd8 m a = c) as Hr by (unfold rd8; rewrite H0; by apply u8_small).
    cbn. destruct (Z.eqb_spec c 0) as [->|N]; [by apply str_at_nil|]. apply str_at_cons. split_and!; [done|done|].
    apply IH. intros i Hi. replace (a + 1 + Z.of_nat i) with (a + Z.of_nat (S i)) by lia. rewrite Hm by (cbn; lia). done.
Qed.

(** A name that fits a buffer. *)
Definition name_ok (s : list Z) : Prop := Forall byte s ∧ (length s < Z.to_nat STR2)%nat.

Lemma strings_left s t : name_ok s → str_at (strings s t) 0 (cname s).
Proof.
  intros [Hs Hl]. apply str_at_cname; [done|]. intros i Hi. unfold strings. unfold STR2 in *.
  destruct (Z.ltb_spec (0 + Z.of_nat i) 4096); [|lia]. f_equal. lia.
Qed.

Lemma strings_right s t : Forall byte t → str_at (strings s t) STR2 (cname t).
Proof.
  intros Hs. apply str_at_cname; [done|]. intros i Hi. unfold strings. unfold STR2 in *.
  destruct (Z.ltb_spec (4096 + Z.of_nat i) 4096); [lia|]. f_equal. lia.
Qed.

Lemma namecmp_key s t : name_ok s → Forall byte t → namecmp s t = 0 ↔ key s = key t.
Proof.
  intros Hs Ht. unfold namecmp, KString.strncmp, key.
  apply strncmp_loop_spec; [by apply strings_left|by apply strings_right].
Qed.

(** The name that [dirlink] stores. *)
Lemma strncpy_name name : Forall byte name →
  strncpy_l (replicate (Z.to_nat DIRSIZ) 0) name DIRSIZ = key name ++ replicate (Z.to_nat DIRSIZ - length (key name)) 0.
Proof.
  intros Hn. unfold strncpy_l, KString.strncpy. apply list_eq. intros i.
  change (map ?f ?l) with (fmap (M := list) f l). rewrite list_lookup_fmap, length_replicate.
  destruct (decide (i < Z.to_nat DIRSIZ)%nat) as [Hi|Hi].
  - rewrite lookup_seq_lt by done. cbn [fmap option_fmap option_map].
    rewrite (strncpy_loop_spec _ _ _ _ (cname name)); [|by apply strings_right|left; unfold STR2, DIRSIZ; lia].
    change DIRSIZ with 14 in *. destruct (Z.leb_spec 0 (Z.of_nat (0 + i))), (Z.ltb_spec (Z.of_nat (0 + i)) (0 + Z.of_nat (Z.to_nat 14))); try lia.
    cbn [andb]. replace (Z.to_nat (Z.of_nat (0 + i) - 0)) with i by lia. unfold key. change DIRSIZ with 14.
    destruct (cname name !! i) as [c|] eqn:E; cbn [default from_option].
    + rewrite lookup_app_l, lookup_take_lt by (rewrite ?length_take; apply lookup_lt_Some in E; lia). done.
    + apply lookup_ge_None in E. rewrite lookup_app_r, lookup_replicate_2 by (rewrite ?length_take; lia). done.
  - rewrite lookup_seq_ge by lia. symmetry. apply lookup_ge_None. rewrite length_app, length_replicate.
    unfold key. rewrite length_take. lia.
Qed.

Lemma cname_pad s n : Forall (λ c, c ≠ 0) s → cname (s ++ replicate n 0) = s.
Proof.
  induction 1 as [|c s Hc Hs IH]; cbn; [by destruct n|]. destruct (Z.eqb_spec c 0); [done|]. by rewrite IH.
Qed.

Lemma cname_nonzero s : Forall (λ c, c ≠ 0) (cname s).
Proof. induction s as [|c s IH]; cbn; [done|]. destruct (Z.eqb_spec c 0); auto. Qed.

Lemma key_stored name : Forall byte name → key (strncpy_l (replicate (Z.to_nat DIRSIZ) 0) name DIRSIZ) = key name.
Proof.
  intros Hn. rewrite strncpy_name by done. unfold key at 1. rewrite cname_pad; [|by apply Forall_take, cname_nonzero].
  unfold key. rewrite take_take. done.
Qed.

(** ** Entries *)

Definition dirent (D : Z → list Z) (x : inode) (k : Z) : list Z := file_bytes D x (DIRENT_SIZE * k) DIRENT_SIZE.
Definition entry (D : Z → list Z) (x : inode) (k : Z) : Z * list Z :=
  (de_inum (dirent D x k), key (de_name (dirent D x k))).
Definition entries (D : Z → list Z) (x : inode) : list (Z * list Z) :=
  map (entry D x) (seqZ 0 (i_size x / DIRENT_SIZE)).

(** The first entry in use with the name; a free entry. *)
Definition names (n : list Z) (e : Z * list Z) : Prop := e.1 ≠ 0 ∧ e.2 = n.
#[global] Instance names_dec n e : Decision (names n e) := _.
Definition dir_find (es : list (Z * list Z)) (n : list Z) : option (nat * (Z * list Z)) := list_find (names n) es.
Definition dir_lookup (es : list (Z * list Z)) (n : list Z) : option Z := (λ r, r.2.1) <$> dir_find es n.

Lemma entries_length D x : 0 <= i_size x → length (entries D x) = Z.to_nat (i_size x / DIRENT_SIZE).
Proof. intros. unfold entries. by rewrite length_map, length_seqZ. Qed.

Lemma entries_lookup D x (k : nat) : Z.of_nat k < i_size x / DIRENT_SIZE → entries D x !! k = Some (entry D x (Z.of_nat k)).
Proof.
  intros Hk. unfold entries. change (map ?f ?l) with (fmap (M := list) f l). rewrite list_lookup_fmap.
  rewrite lookup_seqZ_lt by lia. done.
Qed.

(** ** The map *)

Lemma dir_lookup_app l1 l2 n : dir_lookup (l1 ++ l2) n = match dir_lookup l1 n with Some i => Some i | None => dir_lookup l2 n end.
Proof.
  unfold dir_lookup, dir_find. induction l1 as [|e l1 IH]; cbn; [done|]. case_decide; [done|].
  destruct (list_find (names n) (l1 ++ l2)) as [[]|], (list_find (names n) l1) as [[]|]; cbn in *;
    destruct (list_find (names n) l2) as [[]|]; cbn in *; congruence.
Qed.

Lemma dir_lookup_cons e l n : dir_lookup (e :: l) n = if decide (names n e) then Some e.1 else dir_lookup l n.
Proof.
  unfold dir_lookup, dir_find. cbn. case_decide; [done|]. by destruct (list_find (names n) l) as [[]|].
Qed.

(** The first free entry, or the end. *)
Definition dir_slot (es : list (Z * list Z)) : nat :=
  match list_find (λ e, e.1 = 0) es with Some (k, _) => k | None => length es end.

Lemma dir_slot_split es : let k := dir_slot es in
  drop k es = [] ∨ ∃ e, drop k es = e :: drop (S k) es ∧ e.1 = 0.
Proof.
  unfold dir_slot. destruct (list_find (λ e, e.1 = 0) es) as [[k e]|] eqn:E; [right|left; by rewrite drop_all].
  apply list_find_Some in E as (E1 & E2 & _). exists e. split; [by apply drop_S|done].
Qed.

Lemma dir_slot_length es : (dir_slot es <= length es)%nat.
Proof.
  unfold dir_slot. destruct (list_find (λ e, e.1 = 0) es) as [[k e]|] eqn:E; [|done].
  apply list_find_Some in E as (E1 & _). apply lookup_lt_Some in E1. lia.
Qed.

Lemma dir_lookup_insert es inum n n' : inum ≠ 0 → dir_lookup es n = None →
  let k := dir_slot es in
  dir_lookup (take k es ++ (inum, n) :: drop (S k) es) n' = if decide (n' = n) then Some inum else dir_lookup es n'.
Proof.
  intros Hi Hnone k. assert (∀ q, dir_lookup (drop k es) q = dir_lookup (drop (S k) es) q) as Hd.
  { intros q. destruct (dir_slot_split es) as [E|(e & E & E0)]; fold k in E.
    - rewrite E. apply (f_equal length) in E. rewrite length_drop in E. cbn in E. by rewrite drop_ge by lia.
    - rewrite E, dir_lookup_cons. rewrite decide_False; [done|]. by intros []. }
  assert (∀ q, dir_lookup es q = match dir_lookup (take k es) q with Some i => Some i | None => dir_lookup (drop (S k) es) q end) as Hes.
  { intros q. rewrite <- Hd, <- dir_lookup_app. by rewrite take_drop. }
  rewrite dir_lookup_app, dir_lookup_cons. rewrite Hes in Hnone. unfold names. cbn. destruct (decide (n' = n)) as [->|E].
  - destruct (dir_lookup (take k es) n); [done|]. by rewrite decide_True.
  - rewrite Hes. destruct (dir_lookup (take k es) n'); [done|]. rewrite decide_False; [done|]. intros [_ ?]. congruence.
Qed.

(** A directory: its size is a multiple of that of an entry. *)
Definition dir_ok (x : inode) : Prop := i_type x = T_DIR ∧ (DIRENT_SIZE | i_size x).

Lemma dir_read_len x k : dir_ok x → 0 <= k → k * DIRENT_SIZE < i_size x → read_len x (k * DIRENT_SIZE) DIRENT_SIZE = DIRENT_SIZE.
Proof.
  intros [_ [n Hn]] Hk Hlt. unfold read_len, DIRENT_SIZE in *. rewrite Z.gtb_ltb. destruct (Z.ltb_spec (i_size x) (k * 16)); lia.
Qed.

Lemma file_bytes_byte D x off n : blocks D → Forall byte (file_bytes D x off n).
Proof.
  intros HB. unfold file_bytes. apply Forall_forall. intros v Hv. change (map ?f ?l) with (fmap (M := list) f l) in Hv.
  apply list_elem_of_fmap in Hv as (i & -> & _). apply byte_at_byte, HB.
Qed.

Lemma dirent_name_byte D x k : blocks D → Forall byte (de_name (dirent D x k)).
Proof. intros HB. apply Forall_drop, file_bytes_byte, HB. Qed.

(** ** A new entry *)

Section written.
Context (sb : superblock) (D : Z → list Z) (x : inode) (k : nat) (de : list Z) (D' : Z → list Z) (x' : inode).
Hypothesis Hde : length de = Z.to_nat DIRENT_SIZE.
Hypothesis Hdir : dir_ok x.
Hypothesis Hsize : 0 <= i_size x.
Hypothesis Hk : Z.of_nat k * DIRENT_SIZE <= i_size x.
Hypothesis Hw : file_written sb D x (Z.of_nat k * DIRENT_SIZE) de D' x'.

Lemma written_size : i_size x' = Z.max (i_size x) (Z.of_nat k * DIRENT_SIZE + DIRENT_SIZE).
Proof. rewrite (fw_same _ _ _ _ _ _ _ Hw). cbn. rewrite Hde. done. Qed.

Lemma written_dir : dir_ok x'.
Proof.
  destruct Hdir as [Ht [n Hn]]. split; [by rewrite (fw_same _ _ _ _ _ _ _ Hw)|]. rewrite written_size, Hn.
  exists (Z.max n (Z.of_nat k + 1)). unfold DIRENT_SIZE. lia.
Qed.

Lemma written_dirent (j : nat) : Z.of_nat j < i_size x' / DIRENT_SIZE →
  dirent D' x' (Z.of_nat j) = if decide (j = k) then de else dirent D x (Z.of_nat j).
Proof.
  intros Hj. destruct written_dir as [_ [n Hn]]. rewrite Hn, Z.div_mul in Hj by done. pose proof written_size as Hs.
  change DIRENT_SIZE with 16 in *. apply list_eq. intros i. unfold dirent. change DIRENT_SIZE with 16.
  rewrite file_bytes_lookup by done. case_decide as Hi; cycle 1.
  { symmetry. apply lookup_ge_None. case_decide; [lia|]. rewrite file_bytes_length by done. lia. }
  rewrite (fw_byte _ _ _ _ _ _ _ Hw) by lia. rewrite Hde. change (Z.of_nat (Z.to_nat 16)) with 16. case_decide as Hin; destruct (decide (j = k)) as [->|N]; try lia.
  - unfold byte_at. rewrite nth_lookup. replace (Z.to_nat _) with i by lia.
    destruct (lookup_lt_is_Some_2 de i) as [v ->]; [lia|done].
  - rewrite file_bytes_lookup by done. by rewrite decide_True by done.
Qed.

(** The entries are those of before, with entry [k] set or added. *)
Lemma written_entries : entries D' x' = take k (entries D x) ++ (de_inum de, key (de_name de)) :: drop (S k) (entries D x).
Proof.
  pose proof written_dir as [_ [n' Hn']]. destruct Hdir as [Ht [n Hn]]. pose proof written_size as Hs.
  assert (length (entries D x) = Z.to_nat n) as Hl by (rewrite entries_length, Hn, Z.div_mul by done; done).
  assert (length (entries D' x') = Z.to_nat n') as Hl' by (rewrite entries_length, Hn', Z.div_mul by (done || lia); done).
  assert (n' = Z.max n (Z.of_nat k + 1) ∧ Z.of_nat k <= n ∧ 0 <= n) as (En' & Hkn & Hn0) by (unfold DIRENT_SIZE in *; lia).
  apply list_eq. intros j. destruct (decide (j < length (entries D' x'))%nat) as [Hj|Hj]; cycle 1.
  { rewrite !(proj2 (lookup_ge_None _ _)); [done|rewrite length_app, length_cons, length_take, length_drop; lia|lia]. }
  assert (Z.of_nat j < i_size x' / DIRENT_SIZE) as Hj' by (rewrite Hn', Z.div_mul by done; lia).
  rewrite entries_lookup by done. unfold entry. rewrite written_dirent by done. case_decide as E.
  - subst j. rewrite list_lookup_middle; [done|]. rewrite length_take. lia.
  - assert (Z.of_nat j < i_size x / DIRENT_SIZE) as Hjx by (rewrite Hn, Z.div_mul by done; lia).
    pose proof (entries_lookup D x j Hjx) as Hent. destruct (decide (j < k)%nat).
    + rewrite lookup_app_l, lookup_take_lt by (rewrite ?length_take; lia). done.
    + rewrite lookup_app_r, length_take by (rewrite length_take; lia). replace (j - k `min` length (entries D x))%nat with (S (j - S k)) by lia.
      transitivity (drop (S k) (entries D x) !! (j - S k)%nat); [|done]. rewrite lookup_drop.
      replace (S k + (j - S k))%nat with j by lia. done.
Qed.
End written.

(** The entry that [dirlink] stores. *)
Definition new_dirent (name : list Z) (inum : Z) : list Z := mk_dirent inum (strncpy_l (replicate (Z.to_nat DIRSIZ) 0) name DIRSIZ).

Lemma new_dirent_fields name inum : name_ok name → 0 < inum < 2 ^ 16 →
  length (new_dirent name inum) = Z.to_nat DIRENT_SIZE ∧ Forall byte (new_dirent name inum) ∧
  de_inum (new_dirent name inum) = inum ∧ key (de_name (new_dirent name inum)) = key name.
Proof.
  intros Hname Hinum. unfold new_dirent, mk_dirent, de_inum, de_name, get16, slice. destruct Hname as [Hb _].
  rewrite strncpy_name by done. unfold u16. rewrite Z.mod_small by lia. split_and!.
  - rewrite !length_app, le_enc_length, length_replicate. unfold key. rewrite length_take. change DIRSIZ with 14. change DIRENT_SIZE with 16. lia.
  - rewrite !Forall_app. split_and!; [apply le_enc_bytes| |by apply Forall_replicate].
    apply Forall_take. clear -Hb. induction Hb as [|c s Hc Hs IH]; cbn; [done|]. destruct (c =? 0); auto.
  - rewrite drop_0. change (Z.to_nat 2) with 2%nat. rewrite take_app_length' by (by rewrite le_enc_length). apply le_dec_enc. lia.
  - rewrite drop_app_length' by (by rewrite le_enc_length). rewrite <- strncpy_name by done. by apply key_stored.
Qed.

Section ops.
Context `{KI : !KernelImage}.
Context (J : vdisk → Prop) (cfg : sched_cfg) (swtch : option Z → option Z → FM ()).
Context (rw : Z → bool → FM ()) `{HD : !DiskDriver J rw}.
Context (S0 : pstate fsys) (u : Z) (dv : Z).
Hypothesis Hu : ps_cur S0 = Some u.
Context (m : mach) (sb : superblock) (d0 : disk) (nout : Z) (Fl : Z → file).
Hypothesis Hm : m_held m = [].
Hypothesis Hlay : layout sb.

Abbreviation tx := (tx J S0 u dv m sb d0 nout Fl).
Abbreviation readi_ok := (readi_spec J cfg swtch rw S0 u dv Hu m sb d0 nout Fl Hm Hlay).
Abbreviation writei_ok := (writei_spec J cfg swtch rw S0 u dv Hu m sb d0 nout Fl Hm Hlay).
Abbreviation iget_ok := (iget_spec J S0 u dv sb d0 nout Fl m Hm).

Section dir.
Context (D : Z → list Z) (hs : list Z) (I : Z → inode) (dp : Z).
Abbreviation x := (I (dp - 1)).
Hypothesis Hdp : dp ≠ 0.
Hypothesis Hdev : i_dev x = dv.
Hypothesis HDk : disk_ok sb D.
Hypothesis Hx : inode_ok sb D x.
Hypothesis Hdir : dir_ok x.
Hypothesis Hlen : Z.of_nat (length hs) < LOGSIZE - 5.

(** Reading entry [k]. *)
Lemma read_entry k s : tx D ∅ hs I s → 0 <= k → k * DIRENT_SIZE < i_size x →
  wp (readi cfg swtch rw dp ToLocal (k * DIRENT_SIZE) DIRENT_SIZE)
    (λ r s', r = (DIRENT_SIZE, dirent D x k) ∧ tx D ∅ hs I s') s.
Proof.
  intros Hs Hk Hlt. destruct (io_size _ _ _ Hx) as [? Hsz]. change (MAXFILE * BSIZE) with 274432 in Hsz.
  wp_use (readi_ok D hs I s dp (k * DIRENT_SIZE) DIRENT_SIZE); try done; [unfold DIRENT_SIZE in *; lia..|].
  intros r s' [-> Hs']. split; [|done]. rewrite dir_read_len by done. unfold dirent. do 2 f_equal. lia.
Qed.

Lemma dir_end k : 0 <= k → i_size x <= k * DIRENT_SIZE → i_size x / DIRENT_SIZE <= k.
Proof. intros. destruct Hdir as [_ [n Hn]]. rewrite Hn, Z.div_mul by done. unfold DIRENT_SIZE in *. lia. Qed.

Lemma dir_inside k : k * DIRENT_SIZE < i_size x → k < i_size x / DIRENT_SIZE.
Proof. intros. destruct Hdir as [_ [n Hn]]. rewrite Hn, Z.div_mul by done. unfold DIRENT_SIZE in *. lia. Qed.

Lemma dirlookup_spec name s : tx D ∅ hs I s → name_ok name →
  (∀ k e, dir_find (entries D x) (key name) = Some (k, e) → iget_result I dv e.1 ≠ None) →
  wp (dirlookup cfg swtch rw dp name) (λ r s',
    match dir_find (entries D x) (key name) with
    | None => r = (0, i_size x) ∧ tx D ∅ hs I s'
    | Some (k, e) => ∃ i g, iget_result I dv e.1 = Some (i, g) ∧ r = (iptr i, Z.of_nat k * DIRENT_SIZE) ∧ tx D ∅ hs (upd_I I i g) s'
    end) s.
Proof.
  intros Hs Hname Higet. destruct (io_size _ _ _ Hx) as [Hs0 Hsz]. change (MAXFILE * BSIZE) with 274432 in Hsz.
  unfold dirlookup. tx_step. tx_step. apply wp_if_f; [by rewrite (proj1 Hdir)|].
  eapply (wp_while (λ off s1, ∃ k : nat, off = Z.of_nat k * DIRENT_SIZE ∧ off <= i_size x ∧
      (∀ j e, entries D x !! j = Some e → (j < k)%nat → ¬ names (key name) e) ∧ tx D ∅ hs I s1)
    (λ off _, i_size x - off)).
  2: { exists 0%nat. split_and!; [done|done|lia|done]. }
  2: { lia. }
  intros off s1 (k & -> & Hle & Hno & Hs1). tx_step. tx_step.
  apply wp_if; [intros Hlt%Z.ltb_lt|intros Hge%Z.ltb_ge]; cycle 1.
  { tx_step. replace (dir_find (entries D x) (key name)) with (@None (nat * (Z * list Z))).
    - split; [f_equal; lia|done].
    - symmetry. apply list_find_None, Forall_lookup. intros j e Hj. apply (Hno j e Hj).
      apply lookup_lt_Some in Hj. rewrite entries_length in Hj by done. pose proof (dir_end (Z.of_nat k) ltac:(lia) Hge). lia. }
  tx_step. wp_use (read_entry (Z.of_nat k)); [done|lia|done|]. intros r s2 [-> Hs2]. cbn [fst snd].
  apply wp_if_f; [done|]. pose proof (dir_inside _ Hlt) as Hin. pose proof (entries_lookup D x k Hin) as Hent.
  assert (Hnext : ¬ names (key name) (entry D x (Z.of_nat k)) →
    (∃ k' : nat, Z.of_nat k * DIRENT_SIZE + DIRENT_SIZE = Z.of_nat k' * DIRENT_SIZE ∧
      Z.of_nat k * DIRENT_SIZE + DIRENT_SIZE <= i_size x ∧
      (∀ j e, entries D x !! j = Some e → (j < k')%nat → ¬ names (key name) e) ∧ tx D ∅ hs I s2) ∧
    0 <= i_size x - (Z.of_nat k * DIRENT_SIZE + DIRENT_SIZE) < i_size x - Z.of_nat k * DIRENT_SIZE).
  { intros Hn. destruct Hdir as [_ [n En]]. unfold DIRENT_SIZE in *. split; [|lia]. exists (S k). split_and!; [lia|lia| |done].
    intros j e Hj Hjk. destruct (decide (j = k)) as [->|]; [|apply (Hno j e Hj); lia]. congruence. }
  apply wp_if; [intros E%Z.eqb_eq|intros E%Z.eqb_neq].
  { tx_step. apply Hnext. intros [? _]. done. }
  apply wp_if; [intros Ek%Z.eqb_eq|intros Ek%Z.eqb_neq].
  - apply namecmp_key in Ek; [|done|apply dirent_name_byte, HDk].
    assert (dir_find (entries D x) (key name) = Some (k, entry D x (Z.of_nat k))) as Hf.
    { apply list_find_Some. split_and!; [done|done|]. intros j e Hj Hjk. by apply (Hno j e). }
    rewrite Hf. specialize (Higet _ _ Hf). destruct (iget_result I dv (entry D x (Z.of_nat k)).1) as [[i g]|] eqn:Eg; [|done].
    tx_step. tx_step. rewrite Hdev. tx_step.
    wp_use (iget_ok D ∅ hs I dv (de_inum (dirent D x (Z.of_nat k))) s2 i g); [done|done|].
    intros r s3 [-> Hs3]. tx_step. exists i, g. done.
  - tx_step. apply Hnext. intros [_ En]. apply Ek, namecmp_key; [done|apply dirent_name_byte, HDk|done].
Qed.
Lemma dirlink_slot_spec s : tx D ∅ hs I s →
  wp (dirlink_slot cfg swtch rw dp) (λ off s', off = Z.of_nat (dir_slot (entries D x)) * DIRENT_SIZE ∧ tx D ∅ hs I s') s.
Proof.
  intros Hs. destruct (io_size _ _ _ Hx) as [Hs0 Hsz]. change (MAXFILE * BSIZE) with 274432 in Hsz. unfold dirlink_slot.
  eapply (wp_while (λ off s1, ∃ k : nat, off = Z.of_nat k * DIRENT_SIZE ∧ off <= i_size x ∧
      (∀ j e, entries D x !! j = Some e → (j < k)%nat → e.1 ≠ 0) ∧ tx D ∅ hs I s1)
    (λ off _, i_size x - off)).
  2: { exists 0%nat. split_and!; [done|done|lia|done]. }
  2: { lia. }
  intros off s1 (k & -> & Hle & Hno & Hs1). tx_step. tx_step. destruct Hdir as [_ [n En]].
  apply wp_if; [intros Hlt%Z.ltb_lt|intros Hge%Z.ltb_ge]; cycle 1.
  { tx_step. split; [|done]. unfold dir_slot. replace (list_find (λ e, e.1 = 0) (entries D x)) with (@None (nat * (Z * list Z))).
    - rewrite entries_length by done. rewrite En, Z.div_mul by done. unfold DIRENT_SIZE in *. lia.
    - symmetry. apply list_find_None, Forall_lookup. intros j e Hj. apply (Hno j e Hj).
      apply lookup_lt_Some in Hj. rewrite entries_length in Hj by done. pose proof (dir_end (Z.of_nat k) ltac:(lia) Hge). lia. }
  tx_step. wp_use (read_entry (Z.of_nat k)); [done|lia|done|]. intros r s2 [-> Hs2]. cbn [fst snd].
  apply wp_if_f; [done|]. pose proof (entries_lookup D x k (dir_inside _ Hlt)) as Hent.
  apply wp_if; [intros E%Z.eqb_eq|intros E%Z.eqb_neq]; tx_step.
  - split; [|done]. unfold dir_slot. replace (list_find _ _) with (Some (k, entry D x (Z.of_nat k))); [done|].
    symmetry. apply list_find_Some. split_and!; [done|done|]. intros j e Hj Hjk. by apply (Hno j e).
  - unfold DIRENT_SIZE in *. split; [|lia]. exists (S k). split_and!; [lia|lia| |done].
    intros j e Hj Hjk. destruct (decide (j = k)) as [->|]; [|apply (Hno j e Hj); lia]. rewrite Hent in Hj. by injection Hj as <-.
Qed.
(** ** [dirlink] *)

Context (name : list Z) (inum : Z).
Hypothesis Hname : name_ok name.
Hypothesis Hinum : 0 < inum < 2 ^ 16.

Hypothesis Hout : 1 <= nout.
Hypothesis Hino : 0 <= i_inum x < sb_ninodes sb.
Hypothesis Hroom : i_size x + DIRENT_SIZE <= MAXFILE * BSIZE.
Hypothesis Hlog : Z.of_nat (length hs) + 6 < LOGSIZE - 1.

Lemma slot_blocks k : 0 <= k → nblocks (k * DIRENT_SIZE) DIRENT_SIZE = 1.
Proof.
  intros Hk. unfold nblocks, DIRENT_SIZE, BSIZE. pose proof (Z.div_mod k 64 ltac:(lia)). pose proof (Z.mod_pos_bound k 64 ltac:(lia)).
  replace (k * 16 + 16 + 1024 - 1) with (1024 * (k / 64 + 1) + (k mod 64 * 16 + 15)) by lia.
  replace (k * 16) with (1024 * (k / 64) + k mod 64 * 16) by lia.
  rewrite <- (Z.div_unique_pos _ 1024 (k / 64 + 1) (k mod 64 * 16 + 15)), <- (Z.div_unique_pos (1024 * (k / 64) + k mod 64 * 16) 1024 (k / 64) (k mod 64 * 16)) by lia. lia.
Qed.

Lemma dirlink_spec s : tx D ∅ hs I s → dir_lookup (entries D x) (key name) = None →
  wp (dirlink cfg swtch rw dp name inum) (λ r s', ∃ D' hs' x' w, tx D' ∅ hs' (upd_I I (dp - 1) (λ _, x')) s' ∧
    file_written sb D x (Z.of_nat (dir_slot (entries D x)) * DIRENT_SIZE) (take w (new_dirent name inum)) D' x' ∧
    logs sb 7 hs hs' ∧ IBLOCK (i_inum x) sb ∈ hs' ∧
    ((r = 0 ∧ take w (new_dirent name inum) = (new_dirent name inum)) ∨ (r = -1 ∧ full sb D'))) s.
Proof.
  intros Hs Hnone. assert (dir_find (entries D x) (key name) = None) as Hf.
  { unfold dir_lookup in Hnone. by destruct (dir_find (entries D x) (key name)). }
  destruct (io_size _ _ _ Hx) as [Hs0 Hsz]. destruct (new_dirent_fields name inum Hname Hinum) as (F1 & F2 & _).
  unfold dirlink. tx_step. wp_use (dirlookup_spec name); [done|done|by intros k e; rewrite Hf|].
  rewrite Hf. intros r s1 [-> Hs1]. cbn [fst]. apply wp_if_f; [done|].
  tx_step. wp_use dirlink_slot_spec; [done|]. intros off s2 [-> Hs2]. cbv zeta. fold (new_dirent name inum).
  set (k := dir_slot (entries D x)). assert (Z.of_nat k * DIRENT_SIZE <= i_size x) as Hk.
  { pose proof (dir_slot_length (entries D x)) as Hk. rewrite entries_length in Hk by done. destruct Hdir as [_ [n En]].
    rewrite En, Z.div_mul in Hk by done. fold k in Hk. unfold DIRENT_SIZE in *. lia. }
  assert (Z.of_nat (length (new_dirent name inum)) = DIRENT_SIZE) as Hl16 by (rewrite F1; done).
  pose proof (writei_ok D hs I dp (Z.of_nat k * DIRENT_SIZE) (FromLocal (new_dirent name inum)) (new_dirent name inum)) as Hwr. rewrite Hl16 in Hwr.
  tx_step. wp_use Hwr; try done; [unfold DIRENT_SIZE in *; lia|unfold DIRENT_SIZE in *; lia| |].
  { rewrite slot_blocks by lia. lia. }
  intros r s3 (D' & hs' & x' & Hr & Hfull & Hs3 & Hw & Hl & Hin). tx_step. exists D', hs', x', (Z.to_nat r).
  rewrite Hl16 in *. rewrite slot_blocks in Hl by lia. split_and!; try done.
  destruct (Z.eqb_spec r DIRENT_SIZE) as [->|N]; cbn [negb]; [left|right; split; [done|apply Hfull; lia]].
  split; [done|]. apply take_ge. by rewrite F1.
Qed.
End dir.
End ops.
