(* ===== verification/FsAtomic.v ===== *)
(** An operation between [begin_op] and [end_op] is atomic under crashes. *)
From S2P Require Import Prelude CString Spinlock Riscv Kalloc Vm Proc FsState Sleeplock Bio Log Fs.
From S2P Require Import FsFrame BioOps LogOps LogTx FsTx FsAlloc FsFile.

(** The bracket every file system call puts around its operation. *)
Definition in_op {A} (cfg : sched_cfg) (swtch : option Z → option Z → FM ()) (rw : Z → bool → FM ()) (op : FM A) : FM A :=
  begin_op cfg swtch ;;
  a ← op;
  end_op cfg swtch rw ;;
  mret a.

Section atomic.
Context (J : vdisk → Prop) (cfg : sched_cfg) (swtch : option Z → option Z → FM ()).
Context (rw : Z → bool → FM ()) `{HD : !DiskDriver J rw}.
Context (S0 : pstate fsys) (u : Z) (dv : Z).
Hypothesis Hu : ps_cur S0 = Some u.
Context (m : mach) (sb : superblock) (Fl : Z → file).
Hypothesis Hm : m_held m = [].
Hypothesis Hlay : layout sb.
Abbreviation st := (sb_logstart sb).

(** No operation is in progress: the cache agrees with the disk [d], the log is
    empty. *)
Record quiet_fs (d : disk) (I : Z → inode) (f : fsys) : Prop := {
  q_cache : cache dv (taken S0 u) f (dread d) ∅ ∅;
  q_log : log_ok dv st [] (fs_log f);
  q_ctl : log_ctl (fs_log f) = (LOGSIZE, 0, 0);
  q_head : disk_header (dread d st) [];
  q_disk : fs_disk f = d;
  q_sb : fs_sb f = sb;
  q_inode : ∀ i, fs_inode f i = I i;
  q_file : ∀ i, fs_file f i = Fl i
}.
Definition quiet (d : disk) (I : Z → inode) (s : pstate fsys) : Prop := ∃ f, at_fs J S0 m f s ∧ quiet_fs d I f.

(** Outside the log the disk [d'] has the contents [D'], and it results from [d]
    by writes after any of which a crash leaves the old or the new contents. *)
Definition atomic_step (d : disk) (D' : Z → list Z) (d' : disk) : Prop :=
  (∀ b, ¬ in_log st b → dread d' b = D' b) ∧
  ∃ ws, d_writes d' = d_writes d ++ ws ∧
    ∀ k, let c := foldl put_block (dread d) (take k ws) in recovers st c (dread d) ∨ recovers st c D'.

Abbreviation tx d := (tx J S0 u dv m sb d 1 Fl).

Lemma begin_tx d I s : quiet d I s → wp (begin_op cfg swtch) (λ _ s', tx d (dread d) ∅ [] I s') s.
Proof.
  intros (f & Hf & [Q1 Q2 Q3 Q4 Q5 Q6 Q7 Q8]). injection Q3 as E1 E2 E3.
  wp_use (begin_op_spec J cfg swtch S0); [done|done|done|rewrite (lg_n _ _ _ _ Q2), E2; by vm_compute|].
  intros [] s1 Hs1. eexists. split; [exact Hs1|]. split; try done.
  - by eapply cache_same; [| |exact Q1].
  - by destruct Q2.
  - unfold log_ctl. cbn. by rewrite E1, E2, E3.
  - constructor.
  - by intros k ?%elem_of_nil.
Qed.

(** The last write of a commit empties the header. *)
Lemma commit_header hs D d : length (D st) = Z.to_nat BSIZE → loggable st hs →
  disk_header (foldl put_block d (commit_writes st hs D) st) [].
Proof.
  intros Hl Hla. unfold commit_writes. rewrite !foldl_app. cbn [foldl]. rewrite put_block_same.
  eapply header_ok; [by eapply loggable_nil|]. by eapply (header_ok st).
Qed.
Lemma end_tx d D' hs I' s : tx d D' ∅ hs I' s → length (dread d st) = Z.to_nat BSIZE → disk_header (dread d st) [] →
  hs ≠ [] → Z.of_nat (length hs) < LOGSIZE → (∀ k, k ∈ hs → ¬ in_log st k) →
  wp (end_op cfg swtch rw) (λ _ s', ∃ d', quiet d' I' s' ∧ atomic_step d D' d') s.
Proof.
  intros (f & Hf & [T1 T2 T3 T4 T5 T6 T7 T8 T9]) Hlen Hdh Hne Hlg Hout. injection T3 as E1 E2 E3.
  destruct (lay_data sb Hlay) as (? & ? & ?). destruct (lo_log _ Hlay).
  assert (loggable st hs) as Hla.
  { split; [|done|done|by intros; split; auto]. pose proof (lo_bmap _ Hlay). pose proof (lo_size _ Hlay).
    pose proof (Z.div_pos (sb_size sb) BPB ltac:(lia) ltac:(done)). lia. }
  assert (D' st = dread d st) as Est.
  { rewrite <- T7. apply (c_clean _ _ _ _ _ _ T1); [|apply lookup_empty]. rewrite elem_of_list_to_set.
    intros Hin. apply (Hout st Hin), in_log_start. }
  wp_use (end_op_spec J cfg swtch rw S0 u dv Hu m f s D' st hs); try done.
  intros [] s' (f' & D'' & Hs' & Hc' & HD'' & [Hlg' Hctl'] & Hw). pose proof (c_clean _ _ _ _ _ _ Hc') as Hcl.
  assert (∀ b, dread (fs_disk f') b = foldl put_block (dread d) (commit_writes st hs D') b) as Hdr.
  { intros b. rewrite (wrote_dread _ _ _ b Hw). cbn. by rewrite T7. }
  exists (fs_disk f'). split.
  - exists f'. split; [done|]. destruct Hw as [W1 W2 W3 W4 W5 W6]. cbn in *. split; try done.
    + eapply cache_ext; [|exact Hc']. intros b. by apply Hcl.
    + by rewrite Hctl', E1.
    + rewrite Hdr. apply commit_header; [by rewrite Est|done].
    + by rewrite W4.
    + intros i. by rewrite W5.
    + intros i. by rewrite W6.
  - split; [intros b Hb; rewrite <- HD'' by done; symmetry; by apply Hcl|].
    exists (commit_writes st hs D'). split; [rewrite (wr_writes _ _ _ Hw); cbn; by rewrite T7|].
    intros k. apply crash_commit; try done. intros b Hb Hnl. rewrite <- T7.
    apply (c_clean _ _ _ _ _ _ T1); [by rewrite elem_of_list_to_set|apply lookup_empty].
Qed.

(** Every operation with a specification in terms of [tx] is atomic. *)
Lemma in_op_spec {A} (op : FM A) (P : A → (Z → list Z) → (Z → inode) → Prop) d I s :
  quiet d I s →
  (∀ s1, tx d (dread d) ∅ [] I s1 → wp op (λ a s2, ∃ D' hs I', tx d D' ∅ hs I' s2 ∧ P a D' I' ∧
    hs ≠ [] ∧ Z.of_nat (length hs) < LOGSIZE ∧ (∀ k, k ∈ hs → ¬ in_log st k)) s1) →
  wp (in_op cfg swtch rw op) (λ a s', ∃ d' D' I', quiet d' I' s' ∧ P a D' I' ∧ atomic_step d D' d') s.
Proof.
  intros Hq Hop. assert (disk_header (dread d st) []) as Hdh by (destruct Hq as (f & _ & Q); apply Q).
  unfold in_op. tx_step. eapply wp_mono; [by apply begin_tx|]. intros [] s1 Hs1. tx_step.
  eapply wp_mono; [by apply Hop|]. intros a s2 (D' & hs & I' & Hs2 & HP & Hne & Hlen & Hout). tx_step.
  eapply wp_mono; [eapply end_tx; try done; apply Hdh|]. intros [] s3 (d' & Hq' & Hat). tx_step. by exists d', D', I'.
Qed.
End atomic.
