(* ===== verification/Sched.v ===== *)
(** The schedulers of [kernel/proc.c]: which process each configuration
    chooses, and the random numbers of the lottery. *)
From S2P Require Import Prelude CString Spinlock Riscv Kalloc Vm Proc.

(** * Random numbers *)

(** Schrage's method computes 7^5 * x mod (2^31 - 1) without overflow. *)
Lemma do_rand_ref ctx :
  do_rand ctx = (16807 * (ctx mod 0x7ffffffe + 1)) mod 0x7fffffff - 1 ∧
  0 <= do_rand ctx <= 0x7ffffffd.
Proof.
  unfold do_rand. set (x := ctx mod 0x7ffffffe + 1).
  assert (1 <= x <= 0x7ffffffe) as Hx by (pose proof (Z.mod_pos_bound ctx 0x7ffffffe ltac:(done)); lia).
  rewrite Z.quot_div_nonneg, Z.rem_mod_nonneg by lia.
  pose proof (Z.div_mod x 127773 ltac:(done)) as Hd.
  pose proof (Z.mod_pos_bound x 127773 ltac:(done)) as Hm.
  set (hi := x / 127773) in *. set (lo := x mod 127773) in *.
  assert (0 <= hi <= 16807) as Hhi by lia.
  assert (16807 * x = 0x7fffffff * hi + (16807 * lo - 2836 * hi)) as Heq by lia.
  set (y := 16807 * lo - 2836 * hi) in *.
  assert (- 0x7fffffff < y < 0x7fffffff) as Hy by lia.
  assert (y ≠ 0) as Hy0.
  { intros E. rewrite E in Heq.
    assert (hi = 0 ∨ 0 < hi) as [->|Hpos] by lia; [lia|].
    assert ((16807 * x) mod 0x7fffffff = 0) as Hz by (rewrite Heq, Z.add_0_r, Z.mul_comm; by apply Z.mod_mul).
    assert (Z.gcd 0x7fffffff 16807 = 1) by done.
    apply Z.mod_divide in Hz; [|done]. apply Z.gauss in Hz; [|done].
    destruct Hz as [k Hk]. lia. }
  destruct (Z.ltb_spec y 0) as [Hneg|Hnn].
  - assert ((16807 * x) mod 0x7fffffff = y + 0x7fffffff) as ->; [|lia].
    symmetry. apply (Z.mod_unique _ _ (hi - 1)); lia.
  - assert ((16807 * x) mod 0x7fffffff = y) as ->; [|lia].
    symmetry. apply (Z.mod_unique _ _ hi); lia.
Qed.

(** * Choosing the best process *)

(** The choice as a fold over the table. *)
Fixpoint pick (better : proc → proc → bool) (P : Z → proc) (l : list Z) (best : option Z) : option Z :=
  match l with
  | [] => best
  | p :: l' =>
      pick better P l'
        (if decide (state (P p) = RUNNABLE) then
           match best with
           | None => Some p
           | Some b => if better (P b) (P p) then Some p else best
           end
         else best)
  end.

(** The orders of the three schedulers, as lexicographic orders on keys. *)
Definition key : Type := Z * Z * Z.
Definition key_lt (a b : key) : bool :=
  let '(a1, a2, a3) := a in
  let '(b1, b2, b3) := b in
  (a1 <? b1) || ((a1 =? b1) && ((a2 <? b2) || ((a2 =? b2) && (a3 <? b3)))).

Definition fcfs_key (x : proc) : key := (stick x, 0, 0).
Definition pbs_key (x : proc) : key :=
  (compute_priority (priority x) (niceness x), nscheduled x, - stick x).
Definition mlfq_key (x : proc) : key := (queue x, intime x, 0).

Ltac key_cases := repeat match goal with
  | |- context [?a <? ?b] => destruct (Z.ltb_spec a b)
  | |- context [?a =? ?b] => destruct (Z.eqb_spec a b)
  end; simpl; try done; try lia.

Lemma fcfs_better_key b p : fcfs_better b p = key_lt (fcfs_key p) (fcfs_key b).
Proof. unfold fcfs_better, key_lt, fcfs_key. rewrite Z.gtb_ltb. key_cases. Qed.

Lemma compare_priority_key b p : compare_priority b p = key_lt (pbs_key p) (pbs_key b).
Proof. unfold compare_priority, key_lt, pbs_key. rewrite Z.gtb_ltb. key_cases. Qed.

Lemma mlfq_better_key b p : mlfq_better b p = key_lt (mlfq_key p) (mlfq_key b).
Proof. unfold mlfq_better, key_lt, mlfq_key. key_cases. Qed.

Lemma key_lt_iff a1 a2 a3 b1 b2 b3 :
  key_lt (a1, a2, a3) (b1, b2, b3) = true ↔
  a1 < b1 ∨ (a1 = b1 ∧ (a2 < b2 ∨ (a2 = b2 ∧ a3 < b3))).
Proof.
  unfold key_lt. rewrite !orb_true_iff, !andb_true_iff, !orb_true_iff, !andb_true_iff.
  by rewrite !Z.ltb_lt, !Z.eqb_eq.
Qed.

Lemma key_lt_irrefl a : key_lt a a = false.
Proof. destruct a as [[a1 a2] a3]. apply not_true_iff_false. rewrite key_lt_iff. lia. Qed.

Lemma key_lt_trans a b c : key_lt a b = true → key_lt b c = true → key_lt a c = true.
Proof.
  destruct a as [[a1 a2] a3], b as [[b1 b2] b3], c as [[c1 c2] c3]. rewrite !key_lt_iff. lia.
Qed.

Lemma key_lt_nlt a b c : key_lt a b = true → key_lt c b = false → key_lt a c = true.
Proof.
  destruct a as [[a1 a2] a3], b as [[b1 b2] b3], c as [[c1 c2] c3].
  rewrite <- not_true_iff_false, !key_lt_iff. lia.
Qed.

(** [b] is the first of the runnable processes with the least key. *)
Definition first_least (k : proc → key) (P : Z → proc) (l : list Z) (b : Z) : Prop :=
  ∃ l1 l2, l = l1 ++ b :: l2 ∧ state (P b) = RUNNABLE ∧
    (∀ p, p ∈ l → state (P p) = RUNNABLE → key_lt (k (P p)) (k (P b)) = false) ∧
    (∀ p, p ∈ l1 → state (P p) = RUNNABLE → key_lt (k (P b)) (k (P p)) = true).

Lemma pick_spec better k P l0 l best :
  (∀ b p, better b p = key_lt (k p) (k b)) →
  match best with
  | None => ∀ p, p ∈ l0 → state (P p) ≠ RUNNABLE
  | Some b => first_least k P l0 b
  end →
  match pick better P l best with
  | None => ∀ p, p ∈ l0 ++ l → state (P p) ≠ RUNNABLE
  | Some b => first_least k P (l0 ++ l) b
  end.
Proof.
  intros Hb. revert l0 best. induction l as [|p l IH]; intros l0 best H0; simpl.
  { by rewrite app_nil_r. }
  rewrite (cons_middle p), app_assoc. apply IH. case_decide as Hr.
  - destruct best as [b|].
    + destruct H0 as (l1 & l2 & -> & Hbr & Hmin & Hfirst). rewrite Hb.
      destruct (key_lt (k (P p)) (k (P b))) eqn:E.
      * exists (l1 ++ b :: l2), []. split_and!; [done|done| |].
        -- intros q [Hq|Hq]%elem_of_app Hqr.
           ++ destruct (key_lt (k (P q)) (k (P p))) eqn:E'; [|done].
              rewrite <- (Hmin q Hq Hqr). symmetry. by eapply key_lt_trans.
           ++ apply list_elem_of_singleton in Hq as ->. apply key_lt_irrefl.
        -- intros q Hq Hqr. eapply key_lt_nlt; [done|by apply Hmin].
      * exists l1, (l2 ++ [p]). split_and!; [by rewrite <- app_assoc|done| |done].
        intros q [Hq|Hq]%elem_of_app Hqr; [by apply Hmin|].
        by apply list_elem_of_singleton in Hq as ->.
    + exists l0, []. split_and!; [done|done| |].
      * intros q [Hq|Hq]%elem_of_app Hqr; [by destruct (H0 q Hq)|].
        apply list_elem_of_singleton in Hq as ->. apply key_lt_irrefl.
      * intros q Hq Hqr. by destruct (H0 q Hq).
  - destruct best as [b|].
    + destruct H0 as (l1 & l2 & -> & Hbr & Hmin & Hfirst).
      exists l1, (l2 ++ [p]). split_and!; [by rewrite <- app_assoc|done| |done].
      intros q [Hq|Hq]%elem_of_app Hqr; [by apply Hmin|].
      by apply list_elem_of_singleton in Hq as ->.
    + intros q [Hq|Hq]%elem_of_app; [by apply H0|]. by apply list_elem_of_singleton in Hq as ->.
Qed.

(** * The scans *)

Section sched.
Context `{KI : !KernelImage} {F : Type}.
Context (swtch : option Z → option Z → kM (pstate F) ()).
Implicit Types s : pstate F.

(** The lock of the best process so far. *)
Definition block (best : option Z) : list lock :=
  match best with Some b => [ProcLock b] | None => [] end.

(** One step of a scan: the lock of the new best process is held, no other. *)
Definition step_ok (better : proc → proc → bool) (step : option Z → Z → kM (pstate F) (option Z)) : Prop :=
  ∀ best p s h, held s = block best ++ h → best ≠ Some p → NoDup (held s) → ProcLock p ∉ held s →
    let r := if decide (state (ps_proc s p) = RUNNABLE) then
        match best with
        | None => Some p
        | Some b => if better (ps_proc s b) (ps_proc s p) then Some p else best
        end
      else best in
    step best p s = Ok r (set_held (block r ++ h) s).

Lemma filter_swap (b p : Z) h :
  b ≠ p → ProcLock b ∉ h →
  filter (λ x, x ≠ ProcLock b) (ProcLock p :: ProcLock b :: h) = ProcLock p :: h.
Proof.
  intros Hne Hn. rewrite filter_cons_True by congruence. rewrite filter_cons_False by tauto.
  by rewrite filter_ne_notin.
Qed.

Lemma acquire_ok lk s : lk ∉ held s → acquire lk s = Ok () (set_held (lk :: held s) s).
Proof. intros Hn. unfold acquire. krun. by rewrite bool_decide_eq_false_2. Qed.

Lemma release_head lk s h : held s = lk :: h → lk ∉ h → release lk s = Ok () (set_held h s).
Proof.
  intros Hh Hn. unfold release. krun. change (m_held (ps_m s)) with (held s).
  rewrite Hh, bool_decide_eq_true_2 by constructor.
  rewrite filter_cons_False by naive_solver. by rewrite filter_ne_notin.
Qed.

Lemma release_swap b p s h :
  held s = ProcLock p :: ProcLock b :: h → b ≠ p → ProcLock b ∉ h →
  release (ProcLock b) s = Ok () (set_held (ProcLock p :: h) s).
Proof.
  intros Hh Hne Hn. unfold release. krun. change (m_held (ps_m s)) with (held s).
  rewrite Hh, bool_decide_eq_true_2 by (constructor; constructor). by rewrite filter_swap.
Qed.

Lemma set_held_same l s : held s = l → set_held l s = s.
Proof. intros <-. apply set_held_held. Qed.

Ltac sched_run := cbv [mbind kM_bind mret kM_ret gets getp when].

Lemma scan_step_ok better : step_ok better (scan_step better).
Proof.
  intros best p s h Hh Hne Hnd Hn. unfold scan_step.
  erewrite bind_ok; [|by apply acquire_ok]. set (s1 := set_held _ s).
  assert (held s1 = ProcLock p :: block best ++ h) as Hh1 by (by rewrite <- Hh).
  assert (set_held (block best ++ h) s1 = set_held (block best ++ h) s) as Hback by (unfold s1; by rewrite set_held_set_held).
  rewrite Hh in Hnd, Hn.
  assert (release (ProcLock p) s1 = Ok () (set_held (block best ++ h) s)) as Hrel
    by (rewrite (release_head _ _ (block best ++ h)) by done; by rewrite Hback).
  sched_run. change (ps_proc s1) with (ps_proc s). case_decide as Hr.
  - destruct best as [b|]; cbn [block app] in *.
    + change (ps_proc s1) with (ps_proc s). apply NoDup_cons in Hnd as [Hb Hnd].
      destruct (better (ps_proc s b) (ps_proc s p)).
      * rewrite (release_swap b p s1 h) by (done || congruence). rewrite bool_decide_eq_true_2 by done.
        cbn [negb block app]. unfold s1. by rewrite set_held_set_held.
      * rewrite bool_decide_eq_false_2 by done. cbn [negb block app]. by rewrite Hrel.
    + rewrite bool_decide_eq_true_2 by done. cbn [negb block app]. unfold s1. by rewrite Hh.
  - rewrite bool_decide_eq_false_2 by done. cbn [negb block app]. by rewrite Hrel.
Qed.

Lemma mlfq_step_ok : step_ok mlfq_better mlfq_step.
Proof.
  intros best p s h Hh Hne Hnd Hn. unfold mlfq_step.
  erewrite bind_ok; [|by apply acquire_ok]. set (s1 := set_held _ s).
  assert (held s1 = ProcLock p :: block best ++ h) as Hh1 by (by rewrite <- Hh).
  rewrite Hh in Hnd, Hn.
  assert (release (ProcLock p) s1 = Ok () (set_held (block best ++ h) s)) as Hrel.
  { rewrite (release_head _ _ (block best ++ h)) by done. unfold s1. by rewrite set_held_set_held. }
  sched_run. change (ps_proc s1) with (ps_proc s). case_decide as Hr.
  - destruct best as [b|]; cbn [block app] in *.
    + change (ps_proc s1) with (ps_proc s). apply NoDup_cons in Hnd as [Hb Hnd].
      destruct (mlfq_better (ps_proc s b) (ps_proc s p)).
      * rewrite (release_swap b p s1 h) by (done || congruence). cbn [negb block app]. unfold s1.
        by rewrite set_held_set_held.
      * by rewrite Hrel.
    + cbn [negb block app]. unfold s1. by rewrite Hh.
  - by rewrite Hrel.
Qed.

Lemma scan_ok better step l best s h :
  step_ok better step → NoDup l → held s = block best ++ h → NoDup (held s) →
  (∀ p, p ∈ l → ProcLock p ∉ held s) →
  scan step l best s =
  Ok (pick better (ps_proc s) l best) (set_held (block (pick better (ps_proc s) l best) ++ h) s).
Proof.
  intros Hstep. revert best s. induction l as [|p l IH]; intros best s Hl Hh Hnd Hn; cbn [scan pick].
  { by rewrite set_held_same. }
  apply NoDup_cons in Hl as [Hpl Hl].
  assert (best ≠ Some p) as Hne.
  { intros ->. apply (Hn p); [constructor|]. rewrite Hh. constructor. }
  erewrite bind_ok; [|apply (Hstep best p s h); try done; apply Hn; constructor].
  set (r := if decide _ then _ else _). set (s1 := set_held (block r ++ h) s).
  assert (r = best ∨ r = Some p) as Hr.
  { unfold r. case_decide; [|by left]. destruct best as [b|]; [|by right]. case_match; [by right|by left]. }
  assert (ProcLock p ∉ held s) as Hnp by (apply Hn; constructor).
  assert (NoDup (block r ++ h) ∧ ∀ q, q ∈ l → ProcLock q ∉ block r ++ h) as [Hnd1 Hn1].
  { destruct Hr as [->| ->]; rewrite Hh in *.
    - split; [done|]. intros q Hq. apply Hn. by constructor.
    - cbn [block app]. apply NoDup_app in Hnd as (_ & _ & Hndh). split.
      + apply NoDup_cons. split; [|done]. intros Hin. apply Hnp, elem_of_app. by right.
      + intros q Hq. rewrite elem_of_cons. intros [[= ->]|Hin]; [done|].
        apply (Hn q); [by constructor|]. apply elem_of_app. by right. }
  rewrite (IH r s1) by done. unfold s1. by rewrite set_held_set_held.
Qed.

Lemma procs_nodup : NoDup procs.
Proof. apply NoDup_seqZ. Qed.

(** * Rounds of the scheduler *)

Lemma scan_table better step s :
  step_ok better step → held s = [] →
  scan step procs None s =
  Ok (pick better (ps_proc s) procs None) (set_held (block (pick better (ps_proc s) procs None)) s).
Proof.
  intros Hstep Hh. rewrite (scan_ok better step procs None s []); try done.
  - by rewrite app_nil_r.
  - apply procs_nodup.
  - rewrite Hh. constructor.
  - intros p _. rewrite Hh. set_solver.
Qed.

(** The state in which the process [b] starts to run. *)
Definition dispatched (f : proc → proc) (b : Z) (s : pstate F) : pstate F :=
  s <| ps_m := ps_m s <| m_held := [ProcLock b] |> |>
    <| ps_proc := λ j, if j =? b then f (ps_proc s j) <| state := RUNNING |> else ps_proc s j |>
    <| ps_cur := Some b |>.

(** After the process has switched back. *)
Definition switch_back (b : Z) : kM (pstate F) () :=
  swtch None (Some b) ;;
  modify (λ s, s <| ps_cur := None |>) ;;
  release (ProcLock b).

Lemma switch_back_ext b s s' : s = s' → switch_back b s = switch_back b s'.
Proof. by intros ->. Qed.

Lemma fcfs_round s :
  held s = [] →
  sched_pass FCFS swtch s =
  match pick fcfs_better (ps_proc s) procs None with
  | None => Ok () s
  | Some b => switch_back b (dispatched id b s)
  end.
Proof.
  intros Hh. unfold sched_pass.
  erewrite bind_ok; [|by apply (scan_table _ _ s (scan_step_ok fcfs_better))].
  destruct (pick _ _ _ _) as [b|]; cbn [block].
  - reflexivity.
  - by rewrite set_held_same.
Qed.

Lemma pbs_round s :
  held s = [] →
  sched_pass PBS swtch s =
  match pick compare_priority (ps_proc s) procs None with
  | None => Ok () s
  | Some b => switch_back b (dispatched (λ x, x <| tickls := i32 (ps_ticks s) |>
      <| nscheduled := nscheduled x + 1 |>) b s)
  end.
Proof.
  intros Hh. unfold sched_pass.
  erewrite bind_ok; [|by apply (scan_table _ _ s (scan_step_ok compare_priority))].
  destruct (pick _ _ _ _) as [b|]; cbn [block].
  - reflexivity.
  - by rewrite set_held_same.
Qed.

Lemma mlfq_round s :
  held s = [] →
  sched_pass MLFQ swtch s =
  match pick mlfq_better (ps_proc s) procs None with
  | None => Ok () s
  | Some b => switch_back b (dispatched (λ x, x <| ticksused := 0 |> <| waittime := 0 |>) b s)
  end.
Proof.
  intros Hh. unfold sched_pass.
  erewrite bind_ok; [|by apply (scan_table _ _ s mlfq_step_ok)].
  destruct (pick _ _ _ _) as [b|]; cbn [block].
  - reflexivity.
  - by rewrite set_held_same.
Qed.

(** * The lottery *)

(** The tickets of the runnable processes of a list. *)
Fixpoint ticket_sum (P : Z → proc) (l : list Z) : Z :=
  match l with
  | [] => 0
  | p :: l' => (if decide (state (P p) = RUNNABLE) then tickets (P p) else 0) + ticket_sum P l'
  end.

(** The process that draws the number [rn]. *)
Fixpoint winner (P : Z → proc) (l : list Z) (rn : Z) : option Z :=
  match l with
  | [] => None
  | p :: l' =>
      if decide (state (P p) = RUNNABLE) then
        if tickets (P p) >=? rn then Some p else winner P l' (rn - tickets (P p))
      else winner P l' rn
  end.

Lemma ticket_sum_app P l1 l2 : ticket_sum P (l1 ++ l2) = ticket_sum P l1 + ticket_sum P l2.
Proof. induction l1 as [|p l1 IH]; simpl; [done|]. rewrite IH. lia. Qed.

Lemma ticket_sum_nonneg P l :
  (∀ p, p ∈ l → 0 <= tickets (P p)) → 0 <= ticket_sum P l.
Proof.
  induction l as [|p l IH]; simpl; intros H; [lia|].
  assert (0 <= tickets (P p)) by (apply H; constructor).
  assert (0 <= ticket_sum P l) by (apply IH; intros q Hq; apply H; by constructor).
  case_decide; lia.
Qed.

(** [b] wins exactly for the numbers of its own interval, as long as it has
    tickets: the chance of a process is its share of the tickets. *)
Lemma winner_interval P l1 b l2 rn :
  (∀ p, p ∈ l1 ++ b :: l2 → 0 <= tickets (P p)) → NoDup (l1 ++ b :: l2) →
  state (P b) = RUNNABLE → 1 <= rn →
  winner P (l1 ++ b :: l2) rn = Some b ↔
  ticket_sum P l1 < rn <= ticket_sum P l1 + tickets (P b).
Proof.
  revert rn. induction l1 as [|p l1 IH]; intros rn Hpos Hnd Hb Hrn; simpl.
  - rewrite decide_True by done. rewrite Z.geb_leb. destruct (Z.leb_spec rn (tickets (P b))).
    + split; [lia|done].
    + apply NoDup_cons in Hnd as [Hbl _]. split; [|lia]. intros Hw. exfalso. apply Hbl.
      clear -Hw. revert Hw. generalize (rn - tickets (P b)). induction l2 as [|q l2 IH2]; intros n; simpl; [done|].
      case_decide; [case_match|]; intros Hw; [injection Hw as ->; constructor|constructor; by eapply IH2..].
  - apply NoDup_cons in Hnd as [Hpl Hnd].
    assert (p ≠ b) as Hne by (intros ->; apply Hpl, elem_of_app; right; constructor).
    assert (0 <= tickets (P p)) as Hp by (apply Hpos; constructor).
    assert (∀ q, q ∈ l1 ++ b :: l2 → 0 <= tickets (P q)) as Hpos'
      by (intros q Hq; apply Hpos; by constructor).
    assert (0 <= ticket_sum P l1) as Hs
      by (apply ticket_sum_nonneg; intros q Hq; apply Hpos'; apply elem_of_app; by left).
    case_decide as Hr.
    + rewrite Z.geb_leb. destruct (Z.leb_spec rn (tickets (P p))).
      * split; [by intros [= ->]|lia].
      * rewrite IH by (done || lia). lia.
    + rewrite IH by done. lia.
Qed.

(** Some process wins every number up to the number of tickets. *)
Lemma winner_some P l rn :
  (∀ p, p ∈ l → 0 <= tickets (P p)) → 1 <= rn <= ticket_sum P l →
  ∃ b, winner P l rn = Some b ∧ b ∈ l ∧ state (P b) = RUNNABLE ∧ 0 < tickets (P b).
Proof.
  revert rn. induction l as [|p l IH]; intros rn Hpos Hrn; simpl in *; [lia|].
  assert (∀ q, q ∈ l → 0 <= tickets (P q)) as Hpos' by (intros q Hq; apply Hpos; by constructor).
  case_decide as Hr.
  - rewrite Z.geb_leb. destruct (Z.leb_spec rn (tickets (P p))).
    + exists p. split_and!; [done|constructor|done|lia].
    + destruct (IH (rn - tickets (P p))) as (b & ? & ? & ? & ?); [done|lia|].
      exists b. split_and!; try done. by constructor.
  - destruct (IH rn) as (b & ? & ? & ? & ?); [done|lia|]. exists b. split_and!; try done. by constructor.
Qed.

(** The state in which the winner starts to run. *)
Definition lbs_dispatched (b c : Z) (s : pstate F) : pstate F :=
  dispatched id b (s <| ps_ctickets := c |>
    <| ps_totaltickets := ps_totaltickets s - tickets (ps_proc s b) |>).

Lemma lbs_loop_ok l i rn s :
  held s = [] → 0 <= i → NoDup l →
  let acc := if i =? 0 then 0 else ps_ctickets s in
  ∃ c, lbs_loop swtch l i rn s =
    match winner (ps_proc s) l (rn - acc) with
    | None => Ok () (s <| ps_ctickets := c |>)
    | Some b => switch_back b (lbs_dispatched b c s)
    end.
Proof.
  revert i s. induction l as [|p l IH]; intros i s Hh Hi Hnd acc; cbn [lbs_loop winner].
  { exists (ps_ctickets s). by destruct s. }
  apply NoDup_cons in Hnd as [Hpl Hnd].
  erewrite bind_ok; [|apply acquire_ok; rewrite Hh; set_solver]. rewrite Hh.
  set (s1 := set_held [ProcLock p] s).
  cbv [mbind kM_bind getp gets]. change (ps_proc s1) with (ps_proc s).
  assert (∀ s', held s' = [ProcLock p] → release (ProcLock p) s' = Ok () (set_held [] s')) as Hrel.
  { intros s' Hs'. apply (release_head _ _ []); [done|set_solver]. }
  case_decide as Hr.
  - cbv [modify]. set (tk := tickets (ps_proc s p)).
    set (s2 := s1 <| ps_ctickets := if i =? 0 then tk else tk + ps_ctickets s1 |>).
    assert (ps_ctickets s2 = acc + tk) as Hc.
    { unfold s2, acc. cbn. destruct (i =? 0); lia. }
    change (tickets (ps_proc s1 p)) with tk. fold s2. rewrite Hc, !Z.geb_leb.
    destruct (Z.leb_spec rn (acc + tk)) as [Hle|Hgt].
    + replace (rn - acc <=? tk) with true by (symmetry; apply Z.leb_le; lia).
      exists (acc + tk). unfold run. rewrite <- Hc. reflexivity.
    + replace (rn - acc <=? tk) with false by (symmetry; apply Z.leb_gt; lia).
      rewrite Hrel by done. set (s3 := set_held [] s2).
      destruct (IH (i + 1) s3) as [c Hl]; [done|lia|done|]. exists c.
      assert ((if i + 1 =? 0 then 0 else ps_ctickets s3) = acc + tk) as Hacc.
      { destruct (Z.eqb_spec (i + 1) 0); [lia|]. exact Hc. }
      rewrite Hacc in Hl. rewrite Hl. change (ps_proc s3) with (ps_proc s).
      replace (rn - acc - tk) with (rn - (acc + tk)) by lia.
      destruct (winner _ _ _); [done|]. unfold s3, s2, s1.
      destruct s as [[] ? ? ? ? ? ? ? ? ? ? ?]; cbn in *; by subst.
  - rewrite Hrel by done.
    assert (set_held [] s1 = s) as -> by (unfold s1; rewrite set_held_set_held; by apply set_held_same).
    apply (IH i s Hh Hi Hnd).
Qed.

Lemma lbs_round s :
  held s = [] → 0 < ps_totaltickets s → 
  let r := do_rand (ps_rand_next s) in
  let rn := r mod ps_totaltickets s + 1 in
  let s1 := s <| ps_rand_next := r |> in
  ∃ c, sched_pass LBS swtch s =
    match winner (ps_proc s) procs rn with
    | None => Ok () (s1 <| ps_ctickets := c |>)
    | Some b => switch_back b (lbs_dispatched b c s1)
    end.
Proof.
  intros Hh Ht r rn s1. destruct (do_rand_ref (ps_rand_next s)) as [_ Hr].
  unfold sched_pass, rand. cbv [mbind kM_bind gets modify mret kM_ret].
  destruct (Z.eqb_spec (ps_totaltickets s) 0); [lia|]. fold r in Hr |- *.
  rewrite u64_small, i32_small by lia. rewrite Z.rem_mod_nonneg by lia. fold rn s1.
  destruct (lbs_loop_ok procs 0 rn s1) as [c Hc]; [done|lia|apply procs_nodup|].
  exists c. cbn [Z.eqb] in Hc. by rewrite Z.sub_0_r in Hc.
Qed.

End sched.
