(* ===== verification/ProcOps.v ===== *)
(** Sleeping, waking and killing: what [wakeup], [kill] and [reparent] do to
    the process table. *)
From S2P Require Import Prelude CString Spinlock Riscv Kalloc Vm Proc ProcState Sched.

Section procops.
Context `{KI : !KernelImage} {F : Type}.
Context (cfg : sched_cfg).
Implicit Types s st : pstate F.

(** The state with another process table and another number of tickets. *)
Definition with_table s (P : Z → proc) (t : Z) : pstate F :=
  s <| ps_proc := P |> <| ps_totaltickets := t |>.

Lemma with_table_id s : with_table s (ps_proc s) (ps_totaltickets s) = s.
Proof. by destruct s. Qed.

Lemma with_table_unlock s l P P' t t' :
  set_held (held s) (with_table (set_held l (with_table s P t)) P' t') = with_table s P' t'.
Proof. by destruct s as [[] ? ? ? ? ? ? ? ? ? ? ?]. Qed.

(** ** wakeup *)

(** The processes that [wakeup(c)] wakes. *)
Definition waiting (s : pstate F) (c p : Z) : bool :=
  negb (bool_decide (ps_cur s = Some p)) && bool_decide (state (ps_proc s p) = SLEEPING)
  && (chan (ps_proc s p) =? c).

(** The tickets that come back to the pool. *)
Definition woken_tickets (s : pstate F) (c : Z) (l : list Z) : Z :=
  match cfg with
  | LBS => foldr Z.add 0 ((λ p, if waiting s c p then tickets (ps_proc s p) else 0) <$> l)
  | _ => 0
  end.

Definition woken s c (l : list Z) s' : Prop :=
  ∃ P, s' = with_table s P (ps_totaltickets s + woken_tickets s c l) ∧
    ∀ p, P p = if decide (p ∈ l ∧ waiting s c p = true) then wake_proc cfg (ps_ticks s) (ps_proc s p)
               else ps_proc s p.

Lemma foldr_add_app (l1 l2 : list Z) : foldr Z.add 0 (l1 ++ l2) = foldr Z.add 0 l1 + foldr Z.add 0 l2.
Proof. induction l1; simpl; lia. Qed.

Lemma woken_tickets_app s c l p :
  woken_tickets s c (l ++ [p]) =
  woken_tickets s c l + match cfg with LBS => if waiting s c p then tickets (ps_proc s p) else 0 | _ => 0 end.
Proof.
  unfold woken_tickets. destruct cfg; try lia. rewrite fmap_app, foldr_add_app. simpl. lia.
Qed.

Lemma wake_tickets now x : tickets (wake_proc cfg now x) = tickets x.
Proof. by destruct x, cfg. Qed.

(** [wake], with the process lock held. *)
Lemma wake_ok p s :
  wake cfg p s = Ok () (with_table s (λ j, if j =? p then wake_proc cfg (ps_ticks s) (ps_proc s j) else ps_proc s j)
    (ps_totaltickets s + match cfg with LBS => tickets (ps_proc s p) | _ => 0 end)).
Proof.
  unfold wake, ticks, setp, getp, with_table. krun.
  destruct s, cfg; cbn; rewrite ?Z.eqb_refl, ?Z.add_0_r; done.
Qed.

Lemma procs_split l p rest : procs = l ++ p :: rest → p ∈ procs ∧ p ∉ l.
Proof.
  intros Hl. pose proof procs_nodup as Hnd. rewrite Hl in *. apply NoDup_app in Hnd as (_ & Hnd & _).
  split; [set_solver|]. intros ?. by apply (Hnd p); [|constructor].
Qed.

Lemma wakeup_spec c s :
  (∀ p, p ∈ procs → ps_cur s ≠ Some p → ProcLock p ∉ held s) →
  wp (wakeup cfg c) (λ _ s', woken s c procs s') s.
Proof.
  intros Hu. unfold wakeup. eapply (wp_for _ _ (λ l s', woken s c l s')).
  - exists (ps_proc s). assert (woken_tickets s c [] = 0) as -> by (unfold woken_tickets; by destruct cfg).
    rewrite Z.add_0_r, with_table_id. split; [done|]. intros p. rewrite decide_False; [done|]. set_solver.
  - intros l p rest s1 Hl (P & -> & HP). set (s1 := with_table _ _ _).
    destruct (procs_split l p rest Hl) as [Hin Hp].
    assert (P p = ps_proc s p) as HPp by (rewrite HP, decide_False; [done|tauto]).
    wp_step. wp_step. cbn beta.
    assert (waiting s c p = false → woken s c (l ++ [p]) s1) as Hskip.
    { intros Hw. exists P. rewrite woken_tickets_app, Hw. split.
      - unfold s1. f_equal. destruct cfg; lia.
      - intros q. rewrite HP. destruct (decide (q = p)) as [->|].
        + rewrite decide_False by tauto. rewrite decide_False; [done|]. by intros [_ ?%(eq_trans (eq_sym Hw))].
        + apply decide_ext. set_solver. }
    change (ps_cur s1) with (ps_cur s). unfold waiting in Hskip.
    destruct (bool_decide (ps_cur s = Some p)) eqn:Hcur; cbn [negb andb] in *.
    { apply wp_ret. by apply Hskip. }
    apply bool_decide_eq_false in Hcur. specialize (Hu p Hin Hcur).
    apply wp_when_t; [done|]. wp_step. apply acquire_spec; [exact Hu|]. set (s2 := set_held _ s1).
    change (held s1) with (held s) in *.
    assert (∀ s3 (Q : () → pstate F → Prop), held s3 = ProcLock p :: held s → Q () (set_held (held s) s3) →
      wp (release (ProcLock p)) Q s3) as Hrel by (intros s3 Q Hh HQ; by eapply release_spec).
    unfold getp. wp_step. wp_step. cbn beta. wp_step. wp_step. cbn beta. wp_step.
    change (ps_proc s2) with P. rewrite HPp.
    destruct (bool_decide _ && _) eqn:Hw.
    + unfold wp at 1. unfold when. rewrite wake_ok. apply Hrel; [done|].
      eexists. rewrite woken_tickets_app. unfold waiting.
      rewrite bool_decide_eq_false_2 by done. cbn [negb andb]. rewrite Hw. split.
      * unfold s2, s1. rewrite with_table_unlock. f_equal. cbn. rewrite HPp. destruct cfg; lia.
      * intros q. cbn. destruct (Z.eqb_spec q p) as [->|Hne].
        -- rewrite decide_True; [by rewrite HPp|]. unfold waiting. rewrite bool_decide_eq_false_2 by done.
           split; [set_solver|done].
        -- change (ps_proc s2 q) with (P q). rewrite HP. apply decide_ext. set_solver.
    + apply wp_ret. apply Hrel; [done|].
      assert (set_held (held s) s2 = s1) as -> by (unfold s2, s1; by destruct s as [[] ? ? ? ? ? ? ? ? ? ? ?]).
      by apply Hskip.
  - done.
Qed.


(** ** kill *)

(** The first process of the table with this pid. *)
Definition first_pid (P : Z → proc) (target p : Z) : Prop :=
  ∃ l1 l2, procs = l1 ++ p :: l2 ∧ pid (P p) = target ∧ ∀ q, q ∈ l1 → pid (P q) ≠ target.

Definition killed_proc (now : Z) (x : proc) : proc :=
  if decide (state x = SLEEPING) then wake_proc cfg now (x <| killed_ := 1 |>) else x <| killed_ := 1 |>.

Definition kill_tickets (x : proc) : Z :=
  match cfg with LBS => if decide (state x = SLEEPING) then tickets x else 0 | _ => 0 end.

Lemma wp_wake p st m P n t f (Q : () → pstate F → Prop) :
  (∀ P', P' p = wake_proc cfg (ps_ticks st) (P p) → (∀ q, q ≠ p → P' q = P q) →
     Q () (pst st m P' n (t + match cfg with LBS => tickets (P p) | _ => 0 end) f)) →
  wp (wake cfg p) Q (pst st m P n t f).
Proof.
  intros H. unfold wp. rewrite wake_ok. apply (H (λ j, if j =? p then _ else P j)).
  - by rewrite Z.eqb_refl.
  - intros q Hq. by apply Z.eqb_neq in Hq as ->.
Qed.

Lemma kill_spec target st m P n t f :
  (∀ p, ProcLock p ∉ m_held m) →
  wp (kill cfg target) (λ r st',
    (r = -1 ∧ st' = pst st m P n t f ∧ ∀ p, p ∈ procs → pid (P p) ≠ target) ∨
    (r = 0 ∧ ∃ p P', first_pid P target p ∧ st' = pst st m P' n (t + kill_tickets (P p)) f ∧
       P' p = killed_proc (ps_ticks st) (P p) ∧ ∀ q, q ≠ p → P' q = P q)) (pst st m P n t f).
Proof.
  intros Hu. unfold kill. wp_step.
  eapply (wp_foreach _ _ (λ l st', st' = pst st m P n t f ∧ ∀ p, p ∈ l → pid (P p) ≠ target)).
  - split; [done|]. intros p Hp. by apply elem_of_nil in Hp.
  - intros l p rest st' Hl [-> Hn]. wp_step. apply wp_acquire; [apply Hu|]. wp_step. apply wp_getp.
    destruct (Z.eqb_spec (pid (P p)) target) as [E|E].
    + wp_step. apply wp_setp. intros P1 HP1 Ho1. wp_step. apply wp_getp. rewrite HP1. wp_step.
      change (state (P p <| killed_ := 1 |>)) with (state (P p)).
      assert (first_pid P target p) as Hf by (by exists l, rest).
      unfold killed_proc, kill_tickets. apply wp_when; intros Hs; b2p.
      * apply wp_wake. intros P2 HP2 Ho2. wp_step. eapply wp_release; [done|apply Hu|]. wp_step. wp_step. right.
        split; [done|]. exists p, P2. rewrite HP1 in HP2 |- *. rewrite !decide_True by done.
        split_and!; [done|by destruct m|done|]. intros q Hq. by rewrite Ho2, Ho1.
      * wp_step. eapply wp_release; [done|apply Hu|]. wp_step. wp_step. right. split; [done|].
        exists p, P1. rewrite !decide_False by done. split_and!; [done| |done|done].
        destruct m, cfg; by rewrite Z.add_0_r.
    + wp_step. eapply wp_release; [done|apply Hu|]. wp_step. split; [by destruct m|].
      intros q [Hq|Hq]%elem_of_app; [by apply Hn|]. by apply list_elem_of_singleton in Hq as ->.
  - intros st' [-> Hn]. wp_step. left. by split_and!.
Qed.
End procops.
