(* ===== verification/ProcNew.v ===== *)
(** Creating and destroying processes: [allocproc], [freeproc] and [fork] of
    [kernel/proc.c] with the memory they use. *)
From S2P Require Import Prelude CString Spinlock Riscv Kalloc Vm PageTable Uvm UvmOps UvmGrow UvmFree.
From S2P Require Import UserCopy CowView Proc ProcState ProcMem Sched.

Section procnew.
Context `{KI : !KernelImage} {F : Type} (cfg : sched_cfg).
Implicit Types (T : gmap Z (gmap Z Z)) (M : gmap Z Z) (K : Z → Z) (st : pstate F).

(** The memory invariant does not depend on the locks. *)
Lemma vm_held_any m fl T K h : vm m fl T K → vm (m <| m_held := h |>) fl T K.
Proof. intros [[] H2 H3 H4 H5 H6 H7]. split; try done. intros r M HT. by destruct (H2 r M HT) as [[] ? ?]. Qed.

(** Take away a reference of the kernel, if there is one. *)
Definition kdrop K (a : Z) : Z → Z := if a =? 0 then K else kadd K a (-1).

Lemma kdrop_le K a p : kdrop K a p <= K p.
Proof. unfold kdrop, kadd. destruct (a =? 0); [lia|]. destruct (p =? a); lia. Qed.

Lemma kdrop_pos K a : kpos (kdrop K a) → kpos K.
Proof. intros H p. pose proof (kdrop_le K a p). specialize (H p). lia. Qed.

(** [if(p) kfree(p)] *)
Lemma free_opt m fl T K a :
  vm m fl T K → alloc_unlocked m → kpos (kdrop K a) → a = 0 ∨ page_ok a →
  wp (when (truth a) (kfree a)) (λ _ m', ∃ fl', vm m' fl' T (kdrop K a) ∧ drops m T m' T ∧
    ∀ t, table_of m' T t ↔ table_of m T t) m.
Proof.
  intros Hvm Hu HK Ha. unfold kdrop in *. destruct (Z.eqb_spec a 0) as [->|Hne].
  { apply wp_when_f; [done|]. exists fl. split_and!; [done|apply drops_refl|done]. }
  destruct Ha as [?|Ha]; [done|]. specialize (HK a) as HKa. rewrite kadd_eq in HKa.
  assert (¬ table_of m T a) as Hn by (intros [? _]%(vm_tab _ _ _ _ Hvm); lia).
  pose proof (refs_nonneg T a). pose proof (vm_rc _ _ _ _ Hvm a Ha Hn) as Hrc.
  apply wp_when_t; [by unfold truth; apply negb_true_iff, Z.eqb_neq|].
  wp_use kfree_vm; [done|done|done|done|lia|]. intros _ m' ((Hh & Hm & Hc) & Ht & Hvm').
  eexists. split_and!; [done| |done]. split; [done|]. intros p Hp Hr Hnp. rewrite Ht, Hc in *.
  split_and!; [done|case_decide; lia|]. intros x Hx. apply Hm.
  destruct (decide (p = a)) as [->|Hpa]; [right; rewrite decide_True in Hr by done; lia|].
  left. by apply (page_ok_disjoint p).
Qed.

(** ** freeproc *)

(** The memory that a process slot may own. *)
Record slot_mem T (x : proc) : Prop := {
  sm_tf : trapframe x = 0 ∨ page_ok (trapframe x);
  sm_tc : trapcopy x = 0 ∨ page_ok (trapcopy x);
  sm_pt : pagetable x = 0 ∨ ∃ M tf n, T !! pagetable x = Some M ∧ proc_map M tf n ∧ 0 <= tf < 2 ^ 56 ∧
    0 <= sz x <= MAXVA ∧ PGROUNDUP (sz x) = Z.of_nat n * PGSIZE
}.

(** What is left without the memory of [x]. *)
Definition drop_tables T (x : proc) : gmap Z (gmap Z Z) :=
  if pagetable x =? 0 then T else delete (pagetable x) T.
Definition drop_refs K (x : proc) : Z → Z := kdrop (kdrop K (trapframe x)) (trapcopy x).

Lemma free_tables m fl T K x :
  vm m fl T K → kpos K → alloc_unlocked m → slot_mem T x →
  wp (when (truth (pagetable x)) (proc_freepagetable (pagetable x) (sz x))) (λ _ m', ∃ fl',
    vm m' fl' (drop_tables T x) K ∧ drops m T m' (drop_tables T x)) m.
Proof.
  intros Hvm HK Hu [_ _ Hpt]. unfold drop_tables. destruct (Z.eqb_spec (pagetable x) 0) as [E|E].
  { rewrite E. apply wp_when_f; [done|]. exists fl. split; [done|apply drops_refl]. }
  destruct Hpt as [?|(M & tf & n & HT & Hmap & Htf & Hsz & Hup)]; [done|].
  apply wp_when_t; [by unfold truth; apply negb_true_iff, Z.eqb_neq|].
  by apply (proc_freepagetable_vm m fl T K (pagetable x) M tf (sz x) n).
Qed.

Lemma freeproc_spec p st m P n t f fl T K :
  vm m fl T K → alloc_unlocked m → slot_mem T (P p) → kpos (drop_refs K (P p)) →
  wp (freeproc cfg p) (λ _ st', ∃ m' P' fl', st' = pst st m' P' n t f ∧
    vm m' fl' (drop_tables T (P p)) (drop_refs K (P p)) ∧ drops m T m' (drop_tables T (P p)) ∧
    P' p = clear_proc cfg (P p <| trapframe := 0 |> <| trapcopy := 0 |>) ∧
    ∀ q, q ≠ p → P' q = P q) (pst st m P n t f).
Proof.
  intros Hvm Hu Hsm HK. unfold drop_refs in *. unfold freeproc.
  wp_step. apply wp_getp. wp_step. apply wp_when_mem.
  wp_use (free_opt m fl T K (trapframe (P p))); [done|done|by eapply kdrop_pos|apply Hsm|].
  intros _ m1 (fl1 & Hvm1 & Hd1 & Ht1). wp_step. apply wp_setp. intros P1 HP1 Ho1.
  wp_step. apply wp_getp. rewrite HP1. change (trapcopy (P p <| trapframe := 0 |>)) with (trapcopy (P p)).
  wp_step. apply wp_when_mem.
  assert (alloc_unlocked m1) as Hu1 by (unfold alloc_unlocked; by rewrite (proj1 Hd1)).
  wp_use (free_opt m1 fl1 T _ (trapcopy (P p))); [done|done|done|apply Hsm|].
  intros _ m2 (fl2 & Hvm2 & Hd2 & Ht2). wp_step. apply wp_setp. intros P2 HP2 Ho2.
  wp_step. apply wp_getp. wp_step. apply wp_getp. rewrite HP2, HP1.
  change (pagetable (P p <| trapframe := 0 |> <| trapcopy := 0 |>)) with (pagetable (P p)).
  change (sz (P p <| trapframe := 0 |> <| trapcopy := 0 |>)) with (sz (P p)). wp_step. apply wp_when_mem.
  wp_use (free_tables m2 fl2 T _ (P p)); [done|done| |done|].
  { unfold alloc_unlocked. by rewrite (proj1 Hd2). }
  intros _ m3 (fl3 & Hvm3 & Hd3). apply wp_setp. intros P3 HP3 Ho3.
  exists m3, P3, fl3. split_and!; [done|done| |by rewrite HP3, HP2, HP1|].
  - eapply drops_trans; [done| |done|].
    { intros q Hq Hn. eapply Z.le_trans; [by eapply (drops_le m2); [..|rewrite Ht2]|].
      by eapply (drops_le m1). }
    eapply drops_trans; [done| |done|done]. intros q Hq Hn. by eapply (drops_le m2).
  - intros q Hq. by rewrite Ho3, Ho2, Ho1.
Qed.

(** ** allocproc *)

Definition first_unused (P : Z → proc) (p : Z) : Prop :=
  ∃ l1 l2, procs = l1 ++ p :: l2 ∧ state (P p) = UNUSED ∧ ∀ q, q ∈ l1 → state (P q) ≠ UNUSED.

Lemma mach_relock (m : mach) h : m <| m_held := h |> <| m_held := m_held m |> = m.
Proof. by destruct m. Qed.

Lemma find_unused_spec st m P n t f :
  (∀ p, ProcLock p ∉ m_held m) →
  wp find_unused (λ r st', match r with
    | None => st' = pst st m P n t f ∧ ∀ p, p ∈ procs → state (P p) ≠ UNUSED
    | Some p => st' = pst st (m <| m_held := ProcLock p :: m_held m |>) P n t f ∧ first_unused P p
    end) (pst st m P n t f).
Proof.
  intros Hu. unfold find_unused.
  eapply (wp_foreach _ _ (λ l st', st' = pst st m P n t f ∧ ∀ p, p ∈ l → state (P p) ≠ UNUSED)).
  - split; [done|]. intros p Hp. by apply elem_of_nil in Hp.
  - intros l p rest st' Hl [-> Hn]. wp_step. apply wp_acquire; [apply Hu|].
    wp_step. apply wp_getp. case_decide as E.
    + wp_step. split; [done|]. by exists l, rest.
    + wp_step. eapply wp_release; [done|apply Hu|]. wp_step. rewrite mach_relock. split; [done|].
      intros q [Hq|Hq]%elem_of_app; [by apply Hn|]. by apply list_elem_of_singleton in Hq as ->.
  - done.
Qed.

Lemma allocpid_spec st m P n t f :
  PidLock ∉ m_held m →
  wp allocpid (λ r st', r = n ∧ st' = pst st m P (n + 1) t f) (pst st m P n t f).
Proof.
  intros Hu. unfold allocpid. wp_step. apply wp_acquire; [done|]. wp_step. wp_step. cbn beta.
  wp_step. wp_step. cbn beta. wp_step.
  change (pst st _ P n t f <| ps_nextpid := _ |>) with (pst st (m <| m_held := PidLock :: m_held m |>) P (n + 1) t f).
  eapply wp_release; [done|done|]. wp_step. by rewrite mach_relock.
Qed.

(** The slot after [allocproc]. *)
Definition new_proc (pc newpid now tf tc pt : Z) (x : proc) : proc :=
  init_proc cfg newpid now x <| trapframe := tf |> <| trapcopy := tc |>
    <| sigalarm := 0 |> <| ticksn := 0 |> <| ticksp := 0 |> <| tickspa := 0 |> <| handler := 0 |>
    <| pagetable := pt |> <| context_ := mkContext pc (u64 (kstack x + PGSIZE)) |>
    <| rtime := 0 |> <| etime := 0 |> <| ctime := now |>.

(** An unused slot owns no memory. *)
Definition slot_clean (x : proc) : Prop :=
  state x = UNUSED → pagetable x = 0 ∧ trapframe x = 0 ∧ trapcopy x = 0 ∧ sz x = 0.

Record alloc_failed (m : mach) (fl : list Z) T K (P : Z → proc) (p : Z) (m' : mach) (fl' : list Z) (P' : Z → proc) : Prop := {
  af_vm : vm m' fl' T K;
  af_mem : grows m T m' T;
  af_short : (length fl <= 7)%nat;
  af_unused : state (P' p) = UNUSED ∧ slot_clean (P' p);
  af_other : ∀ q, q ≠ p → P' q = P q
}.

(** The kernel's references to the trap frame and its copy. *)
Definition frames K (tf tc : Z) : Z → Z := kadd (kadd K tf 1) tc 1.

Record alloc_done (m : mach) (fl : list Z) T K (tf tc pt : Z) (m' : mach) (fl' : list Z) : Prop := {
  ad_vm : vm m' fl' (<[pt := bare_map tf]> T) (frames K tf tc);
  ad_mem : grows m T m' (<[pt := bare_map tf]> T);
  ad_used : (length fl <= length fl' + 7)%nat;
  ad_pt : pt ≠ 0 ∧ T !! pt = None;
  ad_tf : page_ok tf ∧ ¬ table_of m' (<[pt := bare_map tf]> T) tf;
  ad_tc : page_ok tc ∧ ¬ table_of m' (<[pt := bare_map tf]> T) tc;
  ad_fresh : m_pgrc m (tf / PGSIZE) = 0 ∧ m_pgrc m (tc / PGSIZE) = 0 ∧ tf ≠ tc
}.

Lemma kalloc_grow m fl T K :
  vm m fl T K → kpos K → alloc_unlocked m →
  wp kalloc (λ r m', (fl = [] ∧ r = 0 ∧ m' = m) ∨
    (∃ fl', fl = r :: fl' ∧ r ≠ 0 ∧ page_ok r ∧ m_pgrc m (r / PGSIZE) = 0 ∧ ¬ table_of m' T r ∧
       m_pgrc m' (r / PGSIZE) = 1 ∧ vm m' fl' T (kadd K r 1) ∧ grows m T m' T)) m.
Proof.
  intros Hvm HK Hu. destruct fl as [|p fl].
  { unfold wp. rewrite (kalloc_vm_empty m T K) by done. by left. }
  wp_use kalloc_vm; [done..|]. intros r m' (-> & Hp & H0 & Hn & (Hh & Hm & Hc) & Ht & Hvm').
  right. exists fl. pose proof (page_ok_range p Hp).
  split_and!; [done|lia|done|done|by rewrite Ht|by rewrite Hc, decide_True|done|].
  split; [done|]. intros q Hq Hr Hnq. assert (q ≠ p) by (intros ->; lia).
  rewrite Ht, Hc, decide_False by (by apply page_index_ne). split_and!; [done|lia|].
  intros x Hx. rewrite Hm, decide_False; [done|]. by apply (page_ok_disjoint q).
Qed.

Lemma kdrop_kadd K a : a ≠ 0 → ∀ q, kdrop (kadd K a 1) a q = K q.
Proof. intros Ha q. unfold kdrop, kadd. destruct (Z.eqb_spec a 0); [done|]. destruct (q =? a); lia. Qed.

Lemma grows_held m T m' T' h : grows m T m' T' → grows (m <| m_held := h |>) T (m' <| m_held := h |>) T'.
Proof. intros [_ H]. by split. Qed.

Lemma grows_unlock m T m' T' h :
  grows (m <| m_held := h |>) T m' T' → grows m T (m' <| m_held := m_held m |>) T'.
Proof. intros [_ H]. by split. Qed.

Lemma clear_proc_clean x :
  state (clear_proc cfg x) = UNUSED ∧ pagetable (clear_proc cfg x) = 0 ∧
  trapframe (clear_proc cfg x) = trapframe x ∧ trapcopy (clear_proc cfg x) = trapcopy x ∧
  sz (clear_proc cfg x) = 0.
Proof. destruct x. by destruct cfg. Qed.

Lemma drop_tables_none T x : pagetable x = 0 → drop_tables T x = T.
Proof. unfold drop_tables. by intros ->. Qed.

(** Failing half way: the references of the slot are given back. *)
Lemma alloc_fail_spec p st m0 m P0 P n t f fl0 fl T K0 K tf tc :
  vm m0 fl0 T K0 → vm m fl T K → alloc_unlocked m → (length fl0 <= 7)%nat →
  grows (m0 <| m_held := ProcLock p :: m_held m0 |>) T m T → ProcLock p ∉ m_held m0 →
  trapframe (P p) = tf → trapcopy (P p) = tc → pagetable (P p) = 0 →
  (∀ q, kdrop (kdrop K tf) tc q = K0 q) → kpos K0 → tf = 0 ∨ page_ok tf → tc = 0 ∨ page_ok tc →
  (∀ q, q ≠ p → P q = P0 q) →
  wp (alloc_fail cfg p) (λ r st', r = None ∧ ∃ m' fl' P', st' = pst st m' P' n t f ∧
    alloc_failed m0 fl0 T K0 P0 p m' fl' P') (pst st m P n t f).
Proof.
  intros Hvm0 Hvm Hu Hlen Hg Hn Etf Etc Hpt HK HK0 Htf Htc Hother. unfold alloc_fail. wp_step.
  assert (∀ q, drop_refs K (P p) q = K0 q) as HK' by (unfold drop_refs; by rewrite Etf, Etc).
  wp_use (freeproc_spec p st m P n t f fl T K); [done|done|split; rewrite ?Etf, ?Etc; [done|done|by left]| |].
  { intros q. by rewrite HK'. }
  intros _ st1 (m1 & P1 & fl1 & -> & Hvm1 & Hd1 & HP1 & HPo). rewrite drop_tables_none in Hvm1, Hd1 by done.
  assert (vm m1 fl1 T K0) as Hvm1' by (eapply vm_ext; [|done]; intros q; by rewrite HK').
  pose proof (grows_drops _ _ _ _ _ _ _ _ (vm_held_any _ _ _ _ (ProcLock p :: m_held m0) Hvm0) Hvm1' Hg Hd1) as Hg1.
  wp_step. eapply wp_release; [apply Hg1|done|]. wp_step. split; [done|].
  exists (m1 <| m_held := m_held m0 |>), fl1, P1. split; [done|].
  destruct (clear_proc_clean (P p <| trapframe := 0 |> <| trapcopy := 0 |>)) as (Hst & Hcp & Hctf & Hctc & Hcsz).
  split; [by apply vm_held_any|by eapply grows_unlock|done| |].
  - rewrite HP1. split; [done|]. intros _. by rewrite Hcp, Hctf, Hctc, Hcsz.
  - intros q Hq. by rewrite HPo, Hother.
Qed.

Lemma kpos_kadd K a : kpos K → kpos (kadd K a 1).
Proof. intros HK q. unfold kadd. specialize (HK q). destruct (q =? a); lia. Qed.

Lemma init_proc_mem newpid now x :
  trapframe (init_proc cfg newpid now x) = trapframe x ∧ trapcopy (init_proc cfg newpid now x) = trapcopy x ∧
  pagetable (init_proc cfg newpid now x) = pagetable x ∧ kstack (init_proc cfg newpid now x) = kstack x.
Proof. by destruct x, cfg. Qed.

Lemma alloc_unlocked_proc m p : alloc_unlocked m → alloc_unlocked (m <| m_held := ProcLock p :: m_held m |>).
Proof. intros [H1 H2]. split; [cbn; set_solver|]. intros i. specialize (H2 i). cbn. set_solver. Qed.

Lemma mach_held_eq (m : mach) h h' : m_held m = h → m <| m_held := h' |> <| m_held := h |> = m.
Proof. intros <-. by destruct m. Qed.

(** The last part of [allocproc]: the page table. *)
Definition alloc_table (p pc : Z) : kM (pstate F) (option Z) :=
  setp p (λ x, x <| sigalarm := 0 |> <| ticksn := 0 |> <| ticksp := 0 |>
                 <| tickspa := 0 |> <| handler := 0 |>) ;;
  pt ← proc_pagetable p;
  setp p (λ x, x <| pagetable := pt |>) ;;
  if pt =? 0 then alloc_fail cfg p else
  setp p (λ x, x <| context_ := mkContext pc (u64 (kstack x + PGSIZE)) |>
                 <| rtime := 0 |> <| etime := 0 |>) ;;
  now ← ticks;
  setp p (λ x, x <| ctime := now |>) ;;
  mret (Some p).

(** The allocations of [allocproc], with the lock of the slot held. *)
Definition alloc_memory (p pc newpid : Z) : kM (pstate F) (option Z) :=
  now ← ticks;
  setp p (init_proc cfg newpid now) ;;
  tf ← onmem kalloc;
  setp p (λ x, x <| trapframe := tf |>) ;;
  if tf =? 0 then alloc_fail cfg p else
  tc ← onmem kalloc;
  setp p (λ x, x <| trapcopy := tc |>) ;;
  if tc =? 0 then alloc_fail cfg p else
  alloc_table p pc.

(** Two pages are allocated, for the trap frame and its copy. *)
Record two_frames (m : mach) (fl : list Z) T K (p tf tc : Z) (m2 : mach) (fl2 : list Z) : Prop := {
  tw_vm : vm m2 fl2 T (frames K tf tc);
  tw_grows : grows (m <| m_held := ProcLock p :: m_held m |>) T m2 T;
  tw_list : fl = tf :: tc :: fl2;
  tw_tf : tf ≠ 0 ∧ page_ok tf ∧ ¬ table_of m2 T tf ∧ 0 < m_pgrc m2 (tf / PGSIZE);
  tw_tc : tc ≠ 0 ∧ page_ok tc ∧ ¬ table_of m2 T tc ∧ 0 < m_pgrc m2 (tc / PGSIZE)
}.

Lemma two_frames_fresh m fl T K p tf tc m2 fl2 :
  vm m fl T K → two_frames m fl T K p tf tc m2 fl2 →
  m_pgrc m (tf / PGSIZE) = 0 ∧ m_pgrc m (tc / PGSIZE) = 0 ∧ tf ≠ tc.
Proof.
  intros Hvm [_ _ -> (_ & Hp1 & _) (_ & Hp2 & _)]. pose proof (vm_kmem _ _ _ _ Hvm) as Hk.
  rewrite <- !(ki_free _ _ Hk) by done. pose proof (ki_nodup _ _ Hk) as [Hn _]%NoDup_cons.
  split_and!; set_solver.
Qed.

Lemma alloc_table_spec p pc st m m2 P P2 n t f fl fl2 T K tf tc :
  vm m fl T K → kpos K → alloc_unlocked m → ProcLock p ∉ m_held m → two_frames m fl T K p tf tc m2 fl2 →
  trapframe (P2 p) = tf → trapcopy (P2 p) = tc → pagetable (P2 p) = 0 → (∀ q, q ≠ p → P2 q = P q) →
  wp (alloc_table p pc) (λ r st',
    (r = None ∧ ∃ m' fl' P', st' = pst st m' P' n t f ∧ alloc_failed m fl T K P p m' fl' P') ∨
    (r = Some p ∧ ∃ m' fl' P' pt,
        st' = pst st (m' <| m_held := ProcLock p :: m_held m |>) P' n t f ∧
        alloc_done m fl T K tf tc pt m' fl' ∧ (∀ q, q ≠ p → P' q = P q) ∧
        P' p = P2 p <| sigalarm := 0 |> <| ticksn := 0 |> <| ticksp := 0 |> <| tickspa := 0 |>
          <| handler := 0 |> <| pagetable := pt |> <| context_ := mkContext pc (u64 (kstack (P2 p) + PGSIZE)) |>
          <| rtime := 0 |> <| etime := 0 |> <| ctime := ps_ticks st |>)) (pst st m2 P2 n t f).
Proof.
  intros Hvm HK Hu Hn Htwo Etf Etc Ept Hother.
  pose proof (two_frames_fresh _ _ _ _ _ _ _ _ _ Hvm Htwo) as (Hf1 & Hf2 & Hne).
  destruct Htwo as [Hvm2 Hg2 Hfl (Htf & Hp1 & Hnt1 & Hc1) (Htc & Hp2 & Hnt2 & Hc2)].
  assert (∀ mx, m_held mx = ProcLock p :: m_held m → alloc_unlocked mx) as Hux
    by (intros mx E; pose proof (alloc_unlocked_proc m p Hu) as H; unfold alloc_unlocked in *; by rewrite E).
  unfold alloc_table. wp_step. apply wp_setp. intros P4 HP4 Ho4.
  assert (trapframe (P4 p) = tf) as Htf4 by (by rewrite HP4).
  pose proof (proc_pagetable_spec p (pst st m2 P4 n t f) fl2 T (frames K tf tc)) as Hspec.
  cbn [pst ps_proc ps_m] in Hspec. rewrite Htf4 in Hspec. wp_step.
  wp_use Hspec; [done|by do 2 apply kpos_kadd|apply Hux, Hg2|pose proof (page_ok_range tf Hp1); lia|apply Hp1|].
  intros pt st' (m3 & fl3 & -> & Hres3). change (pst st m2 P4 n t f <| ps_m := m3 |>) with (pst st m3 P4 n t f).
  wp_step. apply wp_setp. intros P5 HP5 Ho5. rewrite HP4 in HP5.
  destruct Hres3 as [(-> & Hl3 & Hvm3 & Hg3)|(Hpt & HTn & Hvm3 & Hg3 & Hl3)]; cbn [Z.eqb].
  { wp_use (alloc_fail_spec p st m m3 P P5 n t f fl fl3 T K (frames K tf tc) tf tc); try done;
      try (rewrite HP5; cbn; congruence); [| | | |by right|by right| |].
    - apply Hux. by rewrite (proj1 Hg3), (proj1 Hg2).
    - rewrite Hfl. simpl. lia.
    - by eapply grows_trans.
    - intros q. unfold frames, kdrop, kadd. destruct (Z.eqb_spec tf 0), (Z.eqb_spec tc 0); try done.
      destruct (q =? tf), (q =? tc); lia.
    - intros q Hq. by rewrite Ho5, Ho4, Hother.
    - intros r st' H. by left. }
  destruct (Z.eqb_spec pt 0) as [|_]; [done|].
  assert (kstack (P5 p) = kstack (P2 p)) as Hks by (by rewrite HP5).
  wp_step. apply wp_setp. intros P6 HP6 Ho6. rewrite Hks, HP5 in HP6. wp_step. apply wp_ticks.
  wp_step. apply wp_setp. intros P7 HP7 Ho7. rewrite HP6 in HP7. wp_step. right. split; [done|].
  pose proof (grows_trans _ _ _ _ _ _ Hg2 Hg3) as Hg.
  exists (m3 <| m_held := m_held m |>), fl3, P7, pt. rewrite (mach_held_eq m3) by apply Hg.
  split_and!; [done| |intros q Hq; by rewrite Ho7, Ho6, Ho5, Ho4, Hother|exact HP7].
  split; try done.
  - by apply vm_held_any.
  - by eapply grows_unlock.
  - rewrite Hfl. simpl. lia.
  - split; [done|]. by apply (proj2 Hg3 tf Hp1); [lia|].
  - split; [done|]. by apply (proj2 Hg3 tc Hp2); [lia|].
Qed.

Lemma alloc_memory_spec p pc newpid st m P n t f fl T K :
  vm m fl T K → kpos K → alloc_unlocked m → ProcLock p ∉ m_held m → state (P p) = UNUSED → slot_clean (P p) →
  wp (alloc_memory p pc newpid) (λ r st',
    (r = None ∧ ∃ m' fl' P', st' = pst st m' P' n t f ∧ alloc_failed m fl T K P p m' fl' P') ∨
    (r = Some p ∧ ∃ m' fl' P' tf tc pt,
        st' = pst st (m' <| m_held := ProcLock p :: m_held m |>) P' n t f ∧
        alloc_done m fl T K tf tc pt m' fl' ∧
        P' p = new_proc pc newpid (ps_ticks st) tf tc pt (P p) ∧ ∀ q, q ≠ p → P' q = P q))
    (pst st (m <| m_held := ProcLock p :: m_held m |>) P n t f).
Proof.
  intros Hvm HK Hu Hn Hst Hcl. destruct (Hcl Hst) as (Hpt0 & Htf0 & Htc0 & _).
  destruct (init_proc_mem newpid (ps_ticks st) (P p)) as (Hi1 & Hi2 & Hi3 & Hi4).
  set (ml := m <| m_held := ProcLock p :: m_held m |>).
  pose proof (vm_held_any m fl T K (ProcLock p :: m_held m) Hvm) as Hvml. fold ml in Hvml.
  pose proof (alloc_unlocked_proc m p Hu) as Hul. fold ml in Hul.
  unfold alloc_memory. wp_step. apply wp_ticks. wp_step. apply wp_setp. intros P1 HP1 Ho1.
  wp_step. apply wp_mem. wp_use kalloc_grow; [done..|]. intros tf m1 Hres1. wp_step. apply wp_setp.
  intros P2 HP2 Ho2. rewrite HP1 in HP2.
  remember (init_proc cfg newpid (ps_ticks st) (P p)) as x0 eqn:Ex0.
  destruct Hres1 as [(-> & -> & ->)|(fl1 & -> & Htf & Hp1 & H01 & Hnt1 & Hc1 & Hvm1 & Hg1)]; cbn [Z.eqb].
  { wp_use (alloc_fail_spec p st m ml P P2 n t f [] [] T K K 0 0); try done; try (simpl; lia); try apply grows_refl;
      try (rewrite HP2; cbn; congruence); [intros q Hq; by rewrite Ho2, Ho1|].
    intros r st' H. by left. }
  destruct (Z.eqb_spec tf 0) as [|_]; [done|].
  assert (alloc_unlocked m1) as Hu1 by (unfold alloc_unlocked; by rewrite (proj1 Hg1)).
  wp_step. apply wp_mem. wp_use (kalloc_grow m1 fl1 T (kadd K tf 1)); [done|by apply kpos_kadd|done|].
  intros tc m2 Hres2. wp_step. apply wp_setp. intros P3 HP3 Ho3. rewrite HP2 in HP3.
  destruct Hres2 as [(-> & -> & ->)|(fl2 & -> & Htc & Hp2 & H02 & Hnt2 & Hc2 & Hvm2 & Hg2)]; cbn [Z.eqb].
  { wp_use (alloc_fail_spec p st m m1 P P3 n t f [tf] [] T K (kadd K tf 1) tf 0); try done; try (simpl; lia);
      try (rewrite HP3; cbn; congruence); [ |by right|intros q Hq; by rewrite Ho3, Ho2, Ho1|].
    - intros q. unfold kdrop at 1. cbn. by apply kdrop_kadd.
    - intros r st' H. by left. }
  destruct (Z.eqb_spec tc 0) as [|_]; [done|]. destruct (proj2 Hg2 tf Hp1 ltac:(lia) Hnt1) as (Hnt12 & Hle2 & _).
  wp_use (alloc_table_spec p pc st m m2 P P3 n t f (tf :: tc :: fl2) fl2 T K tf tc); try done;
    try (rewrite HP3; cbn; congruence); [| |].
  - split; [done|by eapply grows_trans|done|..]; split_and!; try done; lia.
  - intros q Hq. by rewrite Ho3, Ho2, Ho1.
  - intros r st' [Hf|(-> & m' & fl' & P' & pt & -> & Hd & Hq & HP)]; [by left|right]. split; [done|].
    exists m', fl', P', tf, tc, pt. split_and!; try done. rewrite HP, HP3. unfold new_proc.
    rewrite <- Hi4, <- Ex0. done.
Qed.

(** [allocproc] returns the first unused slot with a trap frame, its copy and a
    page table; or there is no such slot; or memory is short and it leaves
    things as they were. *)
Lemma allocproc_spec pc st m P n t f fl T K :
  vm m fl T K → kpos K → alloc_unlocked m → (∀ p, ProcLock p ∉ m_held m) → PidLock ∉ m_held m →
  (∀ p, slot_clean (P p)) →
  wp (allocproc cfg pc) (λ r st', match r with
    | None => (st' = pst st m P n t f ∧ ∀ p, p ∈ procs → state (P p) ≠ UNUSED) ∨
        ∃ p m' fl' P', first_unused P p ∧ st' = pst st m' P' (n + 1) t f ∧
          alloc_failed m fl T K P p m' fl' P'
    | Some p => first_unused P p ∧ ∃ m' fl' P' tf tc pt,
        st' = pst st (m' <| m_held := ProcLock p :: m_held m |>) P' (n + 1) t f ∧
        alloc_done m fl T K tf tc pt m' fl' ∧
        P' p = new_proc pc n (ps_ticks st) tf tc pt (P p) ∧ ∀ q, q ≠ p → P' q = P q
    end) (pst st m P n t f).
Proof.
  intros Hvm HK Hu Hl Hpl Hcl. unfold allocproc. wp_step. wp_use find_unused_spec; [done|].
  intros [p|] st' [-> Hp]; [|wp_step; by left]. wp_step. wp_use allocpid_spec; [cbn; set_solver|].
  intros r st' [-> ->]. pose proof Hp as (l1 & l2 & _ & Hst & _).
  wp_use (alloc_memory_spec p pc n st m P (n + 1) t f fl T K); [done..|].
  intros r st' [(-> & m' & fl' & P' & -> & Hf)|(-> & m' & fl' & P' & tf & tc & pt & -> & Hd & HP & Hq)].
  - right. by exists p, m', fl', P'.
  - split; [done|]. by exists m', fl', P', tf, tc, pt.
Qed.
End procnew.
