(* ===== verification/Fork.v ===== *)
(** [fork] of [kernel/proc.c]: the child is a copy of the parent. *)
From S2P Require Import Prelude CString Spinlock Riscv Kalloc Vm PageTable Uvm UvmOps UvmGrow UvmFree.
From S2P Require Import UserCopy CowView Proc ProcState ProcMem Sched ProcNew.

Section kernel_page.
Context `{KI : !KernelImage}.
Implicit Types (T : gmap Z (gmap Z Z)) (M : gmap Z Z) (K : Z → Z).

(** ** Pages that only the kernel uses *)

Record kernel_page (m : mach) T (q : Z) : Prop := {
  kp_ok : page_ok q;
  kp_table : ¬ table_of m T q;
  kp_refs : refs T q = 0;
  kp_used : 0 < m_pgrc m (q / PGSIZE)
}.

(** User programs do not see what the kernel writes there. *)
Lemma kernel_write m fl T K q m2 :
  vm m fl T K → kernel_page m T q → (∀ x, ¬ in_page q x → rd8 m2 x = rd8 (m_mem m) x) →
  let m' := m <| m_mem := m2 |> in
  vm m' fl T K ∧ (∀ t, table_of m' T t ↔ table_of m T t) ∧
  ∀ r M va, T !! r = Some M → user_low M → 0 <= va → uread m' M va = uread m M va.
Proof.
  intros Hvm [Hok Hnt Hr Hc] Hm m'.
  destruct (vm_write m fl T K q m2) as [Hvm' Ht]; try done.
  { intros Hin%(ki_free _ _ (vm_kmem _ _ _ _ Hvm)); [lia|done]. }
  split_and!; [done|done|]. intros r M va HT Hlow Hva. unfold uread.
  destruct (Z.eqb_spec (uaddr M va) 0) as [|E]; [done|]. f_equal.
  destruct (uaddr_mapped _ _ _ _ _ _ va Hvm HT Hlow Hva E) as (_ & pte & HM & _ & Ho & Hpa & Hpk & _).
  apply Hm. pose proof (Z.mod_pos_bound va PGSIZE ltac:(done)).
  apply (page_ok_disjoint (uaddr M va)); [done|done| |unfold in_page; lia].
  intros Eq. pose proof (refs_mapped T r M _ pte HT HM Ho) as H1. rewrite <- Hpa, Eq in H1. lia.
Qed.

Lemma kernel_page_write m T q' m2 :
  (∀ t, table_of (m <| m_mem := m2 |>) T t ↔ table_of m T t) →
  kernel_page m T q' → kernel_page (m <| m_mem := m2 |>) T q'.
Proof. intros Ht [? Hn ? ?]. split; try done. by rewrite Ht. Qed.

End kernel_page.

Section fork.
Context `{KI : !KernelImage} {F : Type} (cfg : sched_cfg) (fops : fileops F).
Implicit Types (T : gmap Z (gmap Z Z)) (M : gmap Z Z) (K : Z → Z) (st : pstate F).

(** The operations of the file layer that [fork] calls change the file layer
    only. *)
Context (Hdup : ∀ fd st, wp (filedup fops fd) (λ _ st', ∃ f', st' = st <| ps_fs := f' |>) st).
Context (Hidup : ∀ ip st, wp (idup fops ip) (λ _ st', ∃ f', st' = st <| ps_fs := f' |>) st).

(** ** The parts of [fork] after the memory is shared *)

Definition fork_publish (p np newpid : Z) : kM (pstate F) Z :=
  release (ProcLock np) ;;
  acquire WaitLock ;;
  setp np (λ x, x <| parent := Some p |>) ;;
  release WaitLock ;;
  acquire (ProcLock np) ;;
  setp np (λ x, x <| state := RUNNABLE |>) ;;
  now ← ticks;
  tk ← getp p tickets;
  match cfg with
  | MLFQ => setp p (λ x, x <| queue := 0 |> <| intime := i32 now |>)
  | LBS => setp np (λ x, x <| tickets := tk |>) ;;
           modify (λ s, s <| ps_totaltickets := ps_totaltickets s + tk |>)
  | _ => mret ()
  end ;;
  release (ProcLock np) ;;
  mret newpid.

Definition fork_files (p np : Z) : kM (pstate F) Z :=
  for_ (seqZ 0 NOFILE) (λ i,
    f ← getp p (λ x, ofile x !!! Z.to_nat i);
    when (truth f) (
      g ← filedup fops f;
      setp np (λ x, x <| ofile := <[Z.to_nat i := g]> (ofile x) |>))) ;;
  d ← getp p cwd;
  nd ← idup fops d;
  setp np (λ x, x <| cwd := nd |>) ;;
  nm ← getp p name;
  setp np (λ x, x <| name := safestrcpy_l 16 (name x) nm |>) ;;
  newpid ← getp np pid;
  fork_publish p np newpid.

Definition fork_frame (p np size : Z) : kM (pstate F) Z :=
  setp np (λ x, x <| sz := size |>) ;;
  tr ← getp p trace;
  tm ← getp p tracemask;
  setp np (λ x, x <| trace := tr |> <| tracemask := tm |>) ;;
  tf ← getp p trapframe;
  ntf ← getp np trapframe;
  onmem (kmemmove ntf tf tf_size) ;;
  onmem (kstore64 (ntf + tf_a0) 0) ;;
  fork_files p np.

(** The tickets that the child adds to the pool. *)
Definition fork_tickets (x : proc) : Z := match cfg with LBS => tickets x | _ => 0 end.

(** What [fork] does to the parent. *)
Definition fork_parent (now : Z) (x : proc) : proc :=
  match cfg with MLFQ => x <| queue := 0 |> <| intime := i32 now |> | _ => x end.

(** The fields of the child that the rest of [fork] leaves alone. *)
Record same_child (x y : proc) : Prop := {
  sc_pid : pid y = pid x;
  sc_sz : sz y = sz x;
  sc_pt : pagetable y = pagetable x;
  sc_tf : trapframe y = trapframe x;
  sc_tc : trapcopy y = trapcopy x;
  sc_killed : killed_ y = killed_ x;
  sc_trace : trace y = trace x ∧ tracemask y = tracemask x
}.

Lemma same_child_trans x y z : same_child x y → same_child y z → same_child x z.
Proof. intros [? ? ? ? ? ? [? ?]] [? ? ? ? ? ? [? ?]]. split; try congruence. split; congruence. Qed.

Lemma fork_publish_spec p np newpid st m P n t f h :
  p ≠ np → m_held m = ProcLock np :: h → ProcLock np ∉ h → WaitLock ∉ h →
  wp (fork_publish p np newpid) (λ r st', r = newpid ∧ ∃ P',
    st' = pst st (m <| m_held := h |>) P' n (t + fork_tickets (P p)) f ∧
    P' p = fork_parent (ps_ticks st) (P p) ∧ (∀ q, q ≠ p → q ≠ np → P' q = P q) ∧
    same_child (P np) (P' np) ∧ state (P' np) = RUNNABLE ∧ parent (P' np) = Some p) (pst st m P n t f).
Proof.
  intros Hne Hh Hn Hw. unfold fork_publish, fork_tickets, fork_parent.
  wp_step. eapply wp_release; [done|done|]. wp_step. apply wp_acquire; [done|]. wp_step. apply wp_setp.
  intros P1 HP1 Ho1. wp_step. eapply wp_release; [done|done|]. wp_step. apply wp_acquire; [done|].
  wp_step. apply wp_setp. intros P2 HP2 Ho2. rewrite HP1 in HP2. wp_step. apply wp_ticks. wp_step. apply wp_getp.
  assert (P2 p = P p) as HPp by (rewrite Ho2, Ho1; done). rewrite HPp.
  assert (∀ q, q ≠ np → P2 q = P q) as HPo by (intros q Hq; by rewrite Ho2, Ho1).
  match goal with |- wp _ ?Q (pst st ?m' P2 n t f) => set (Qf := Q); set (mf := m') end.
  assert (∀ P' t', P' p = fork_parent (ps_ticks st) (P p) → (∀ q, q ≠ p → q ≠ np → P' q = P q) →
    same_child (P np) (P' np) → state (P' np) = RUNNABLE → parent (P' np) = Some p →
    t' = t + fork_tickets (P p) → wp (release (ProcLock np) ;; mret newpid) Qf (pst st mf P' n t' f)) as Hfin.
  { intros P' t' H1 H2 H3 H4 H5 ->. wp_step. eapply wp_release; [done|done|]. wp_step. split; [done|].
    by exists P'. }
  wp_step. unfold fork_tickets, fork_parent in Hfin.
  destruct cfg; try (wp_step; apply Hfin; rewrite ?HP2; (done || by split || lia || (intros q _ Hq; by apply HPo))).
  - wp_step. apply wp_setp. intros P3 HP3 Ho3. rewrite HP2 in HP3. wp_step.
    apply (Hfin P3 (t + tickets (P p))); rewrite ?HP3;
      (done || by split || by rewrite Ho3 || (intros q _ Hq; by rewrite Ho3, HPo)).
  - apply wp_setp. intros P3 HP3 Ho3. rewrite HPp in HP3.
    apply Hfin; rewrite ?(Ho3 np), ?HP2 by done; (done || by split || lia || (intros q Hp Hq; by rewrite Ho3, HPo)).
Qed.

Lemma fork_files_spec p np st m P n t f h :
  p ≠ np → m_held m = ProcLock np :: h → ProcLock np ∉ h → WaitLock ∉ h →
  wp (fork_files p np) (λ r st', r = pid (P np) ∧ ∃ P' f',
    st' = pst st (m <| m_held := h |>) P' n (t + fork_tickets (P p)) f' ∧
    P' p = fork_parent (ps_ticks st) (P p) ∧ (∀ q, q ≠ p → q ≠ np → P' q = P q) ∧
    same_child (P np) (P' np) ∧ state (P' np) = RUNNABLE ∧ parent (P' np) = Some p) (pst st m P n t f).
Proof.
  intros Hne Hh Hn Hw. unfold fork_files. wp_step.
  set (I := λ st', ∃ P' f', st' = pst st m P' n t f' ∧ (∀ q, q ≠ np → P' q = P q) ∧ same_child (P np) (P' np)).
  eapply (wp_for _ _ (λ _, I)); [by exists P, f|..].
  - intros _ i _ st' _ (P1 & f1 & -> & Ho1 & Hc1). wp_step. apply wp_getp. apply wp_when; [|by exists P1, f1].
    intros _. wp_step. wp_use Hdup. intros g st' [f2 ->].
    change (pst st m P1 n t f1 <| ps_fs := f2 |>) with (pst st m P1 n t f2).
    apply wp_setp. intros P2 HP2 Ho2. exists P2, f2. split_and!; [done|intros q Hq; by rewrite Ho2, Ho1|].
    rewrite HP2. eapply same_child_trans; [done|by split].
  - intros st' (P1 & f1 & -> & Ho1 & Hc1). wp_step. apply wp_getp. wp_step. wp_use Hidup. intros nd st' [f2 ->].
    change (pst st m P1 n t f1 <| ps_fs := f2 |>) with (pst st m P1 n t f2).
    wp_step. apply wp_setp. intros P2 HP2 Ho2. wp_step. apply wp_getp. wp_step. apply wp_setp. intros P3 HP3 Ho3.
    wp_step. apply wp_getp.
    assert (same_child (P np) (P3 np)) as Hc3
      by (rewrite HP3, HP2; eapply same_child_trans; [done|by split]).
    assert (∀ q, q ≠ np → P3 q = P q) as Hq3 by (intros q Hq; by rewrite Ho3, Ho2, Ho1).
    wp_use (fork_publish_spec p np (pid (P3 np)) st m P3 n t f2 h); [done..|].
    intros r st' (-> & P4 & -> & HP & HPo & Hc4 & Hst & Hpar). rewrite (Hq3 p Hne) in *.
    split; [apply Hc3|]. exists P4, f2. split_and!; try done; [|by eapply same_child_trans].
    intros q Hqp Hq. by rewrite HPo, Hq3.
Qed.

(** The child's trap frame is the parent's, with a return value of 0. *)
Definition frame_copied (m m' : mach) (tf ntf : Z) : Prop :=
  ∀ i, 0 <= i < 36 →
    ld64 (m_mem m') (ntf + 8 * i) = if i =? 14 then 0 else ld64 (m_mem m) (tf + 8 * i).

Lemma copy_frame m fl T K tf ntf :
  vm m fl T K → kernel_page m T tf → kernel_page m T ntf → tf ≠ ntf →
  let m2 := st64 (KString.memmove (m_mem m) ntf tf tf_size) (ntf + tf_a0) 0 in
  let m' := m <| m_mem := m2 |> in
  vm m' fl T K ∧ (∀ t, table_of m' T t ↔ table_of m T t) ∧ frame_copied m m' tf ntf ∧
  (∀ x, ¬ in_page ntf x → rd8 m2 x = rd8 (m_mem m) x) ∧
  ∀ r M va, T !! r = Some M → user_low M → 0 <= va → uread m' M va = uread m M va.
Proof.
  intros Hvm Htf Hntf Hne m2 m'.
  assert (∀ x, ¬ in_page ntf x → rd8 m2 x = rd8 (m_mem m) x) as Hout.
  { intros x Hx. unfold m2. unfold in_page in Hx. rewrite rd8_st64_ne, memmove_spec by (unfold tf_a0, tf_size, PGSIZE in *; lia).
    destruct (_ && _) eqn:E; [|done]. b2p. unfold tf_size, PGSIZE in *. lia. }
  destruct (kernel_write m fl T K ntf m2 Hvm Hntf Hout) as (Hvm' & Ht & Hv). split_and!; try done.
  intros i Hi. unfold m', m2, tf_a0, tf_size. cbn. destruct (Z.eqb_spec i 14) as [->|Hi'].
  - by rewrite ld64_st64_same.
  - rewrite ld64_st64_ne by lia. by rewrite ld64_memmove by lia.
Qed.

Lemma kernel_page_held m T q h : kernel_page m T q → kernel_page (m <| m_held := h |>) T q.
Proof. intros [? ? ? ?]. by split. Qed.

Lemma fork_frame_spec p np st m P n t f h fl T K :
  let tf := trapframe (P p) in let ntf := trapframe (P np) in
  p ≠ np → m_held m = ProcLock np :: h → ProcLock np ∉ h → WaitLock ∉ h →
  vm m fl T K → kernel_page m T tf → kernel_page m T ntf → tf ≠ ntf →
  wp (fork_frame p np (sz (P p))) (λ r st', r = pid (P np) ∧ ∃ m' P' f',
    st' = pst st m' P' n (t + fork_tickets (P p)) f' ∧ m_held m' = h ∧
    vm m' fl T K ∧ kernel_page m' T tf ∧ kernel_page m' T ntf ∧ frame_copied m m' tf ntf ∧
    (∀ r M va, T !! r = Some M → user_low M → 0 <= va → uread m' M va = uread m M va) ∧
    P' p = fork_parent (ps_ticks st) (P p) ∧ (∀ q, q ≠ p → q ≠ np → P' q = P q) ∧
    same_child (P np <| sz := sz (P p) |> <| trace := trace (P p) |> <| tracemask := tracemask (P p) |>) (P' np) ∧
    state (P' np) = RUNNABLE ∧ parent (P' np) = Some p) (pst st m P n t f).
Proof.
  intros tf ntf Hne Hh Hn Hw Hvm Htf Hntf Hnt. unfold fork_frame.
  wp_step. apply wp_setp. intros P1 HP1 Ho1. wp_step. apply wp_getp. wp_step. apply wp_getp.
  wp_step. apply wp_setp. intros P2 HP2 Ho2. rewrite HP1 in HP2.
  assert (P1 p = P p) as HP1p by (by apply Ho1). rewrite HP1p in HP2.
  assert (P2 p = P p) as HP2p by (by rewrite Ho2, Ho1).
  wp_step. apply wp_getp. rewrite HP2p. wp_step. apply wp_getp. rewrite HP2.
  change (trapframe (P np <| sz := sz (P p) |> <| trace := trace (P p) |> <| tracemask := tracemask (P p) |>)) with ntf.
  fold tf. wp_step. apply wp_mem. unfold kmemmove.
  rewrite (in_ram_sub ntf PGSIZE ntf), (in_ram_sub tf PGSIZE tf)
    by (apply page_ok_ram, Htf || apply page_ok_ram, Hntf || unfold tf_size, PGSIZE; lia).
  cbn [andb]. wp_step. wp_step. apply wp_mem. unfold kstore64.
  rewrite (in_ram_sub ntf PGSIZE) by (apply page_ok_ram, Hntf || unfold tf_a0, PGSIZE; lia). wp_step.
  destruct (copy_frame m fl T K tf ntf Hvm Htf Hntf Hnt) as (Hvm' & Htab & Hfr & _ & Hv).
  match goal with |- wp _ _ (pst st ?x P2 n t f) =>
    change x with (m <| m_mem := st64 (KString.memmove (m_mem m) ntf tf tf_size) (ntf + tf_a0) 0 |>) end.
  set (m' := m <| m_mem := _ |>) in *.
  wp_use (fork_files_spec p np st m' P2 n t f h); [done..|].
  intros r st' (-> & P3 & f3 & -> & HP & HPo & Hc & Hst & Hpar). rewrite HP2p in *. rewrite HP2 in Hc |- *.
  split; [done|]. exists (m' <| m_held := h |>), P3, f3. split_and!; try done.
  - by apply vm_held_any.
  - apply kernel_page_held. by apply kernel_page_write.
  - apply kernel_page_held. by apply kernel_page_write.
  - intros q Hqp Hq. by rewrite HPo, Ho2, Ho1.
Qed.

(** ** The address spaces of parent and child *)

Lemma run_top k M tf : proc_map M tf k → ¬ (0 <= tramp_vpn < Z.of_nat k) ∧ ¬ (0 <= tf_vpn < Z.of_nat k).
Proof.
  intros [Hu _ _ _]. destruct top_vpns as (_ & _ & Ho1 & Ho2 & _).
  split; intros Hi; destruct (Hu _ Hi) as [Ho _]; congruence.
Qed.

Lemma cow_proc_map m fl T K r M tf k j :
  vm m fl T K → T !! r = Some M → proc_map M tf k → (j <= k)%nat → proc_map (cow_run j M) tf k.
Proof.
  intros Hvm HT Hpm Hj. destruct (run_top _ _ _ Hpm) as [H1 H2]. pose proof Hpm as [Hu Htr Htf Hd]. split.
  - intros i Hi. destruct (Hu i Hi) as (Ho & pte & HM & Hf). split; [done|]. rewrite cow_run_lookup.
    case_decide; [|by exists pte]. exists (cow_pte pte). rewrite HM. split; [done|].
    apply cow_pte_ok; [|done]. by eapply (mapped_range m fl T K r M k i).
  - rewrite cow_run_lookup, decide_False; [done|lia].
  - rewrite cow_run_lookup, decide_False; [done|lia].
  - intros i pte. rewrite cow_run_lookup. case_decide; [|by apply Hd]. intros _. left. lia.
Qed.

Lemma bare_lookup tf i : owned i = true → bare_map tf !! i = None.
Proof.
  intros Ho. destruct top_vpns as (_ & _ & H1 & H2 & _). unfold bare_map.
  rewrite lookup_insert_ne, lookup_singleton_ne; [done| |]; intros <-; congruence.
Qed.

Lemma share_proc_map m fl T K r M tf ntf k :
  vm m fl T K → T !! r = Some M → proc_map M tf k → proc_map (share_run k M (bare_map ntf)) ntf k.
Proof.
  intros Hvm HT Hpm. destruct (run_top _ _ _ Hpm) as [H1 H2]. pose proof Hpm as [Hu _ _ _].
  destruct (bare_proc_map ntf) as [_ Htr Htf Hd]. split.
  - intros i Hi. destruct (Hu i Hi) as (Ho & pte & HM & Hf). split; [done|].
    rewrite share_run_lookup, decide_True, HM by done. exists (cow_pte pte). split; [done|].
    apply cow_pte_ok; [|done]. by eapply (mapped_range m fl T K r M k i).
  - rewrite share_run_lookup, decide_False; [done|lia].
  - rewrite share_run_lookup, decide_False; [done|lia].
  - intros i pte. rewrite share_run_lookup. case_decide; [by left|]. intros HM.
    destruct (Hd i pte HM) as [?|?]; [lia|by right].
Qed.

Lemma bare_refs T pt tf q : T !! pt = None → refs (<[pt := bare_map tf]> T) q = refs T q.
Proof.
  intros HT. rewrite refs_insert by done. destruct top_vpns as (_ & _ & H1 & H2 & Hne & _). unfold bare_map.
  rewrite refs1_insert by (by rewrite lookup_singleton_ne).
  rewrite <- insert_empty, refs1_insert by apply lookup_empty. rewrite refs1_empty, !ref1_ne by (by right). lia.
Qed.

(** A process that is not an unused slot, with [k] pages of user memory. *)
Record running (m : mach) T (x : proc) M (k : nat) : Prop := {
  rn_state : state x ≠ UNUSED;
  rn_map : T !! pagetable x = Some M;
  rn_proc : proc_map M (trapframe x) k;
  rn_tf : kernel_page m T (trapframe x);
  rn_sz : 0 <= sz x <= MAXVA;
  rn_up : PGROUNDUP (sz x) = Z.of_nat k * PGSIZE
}.

Lemma running_size m T x M k : running m T x M k → sz x <= Z.of_nat k * PGSIZE < sz x + PGSIZE.
Proof.
  intros [_ _ _ _ Hsz Hup]. rewrite <- Hup.
  destruct (PGROUNDUP_spec (sz x)) as [? _]; [assert (MAXVA < 2 ^ 64 - PGSIZE) by done; lia|lia].
Qed.

(** [alloc_done] leaves the other processes alone and gives the child two pages
    of the kernel. *)
Lemma alloc_kernel_page m fl T K tf tc pt m' fl' q :
  vm m fl T K → kpos K → alloc_done m fl T K tf tc pt m' fl' →
  (q = tf ∨ kernel_page m T q) → kernel_page m' (<[pt := bare_map tf]> T) q.
Proof.
  intros Hvm HK [Hvm' Hg _ [_ HT] [Hp Hn] _ (H0 & _)] [->|[Hok Hnt Hr Hc]].
  - assert (refs (<[pt := bare_map tf]> T) tf = 0) as Hz
      by (rewrite bare_refs by done; by apply (free_no_ref _ _ _ _ _ Hvm HK Hp H0)).
    split; [done|done|done|]. rewrite (vm_rc _ _ _ _ Hvm'), Hz by done.
    unfold frames. pose proof (kpos_kadd (kadd K tf 1) tc (kpos_kadd K tf HK) tf) as HK1.
    unfold kadd in *. rewrite Z.eqb_refl in *. specialize (HK tf). destruct (tf =? tc); lia.
  - destruct (proj2 Hg q Hok Hc Hnt) as (Hnt' & Hle & _). split; [done|done|by rewrite bare_refs|lia].
Qed.

(** ** fork *)

(** The state after a [fork] that failed. *)
Record fork_failed (st : pstate F) (m : mach) (P : Z → proc) T K (m' : mach) (P' : Z → proc) : Prop := {
  ff_held : m_held m' = m_held m;
  ff_vm : ∃ fl' T', vm m' fl' T' K ∧ all_low T' ∧ views_same m T m' T';
  ff_procs : ∀ q, state (P q) ≠ UNUSED → P' q = P q;
  ff_clean : ∀ q, slot_clean (P' q)
}.

(** The state after a successful [fork] of [p] with memory [M]. *)
Record forked (st : pstate F) (m : mach) (P : Z → proc) (n : Z) T K (p : Z) M (k : nat)
    (np : Z) (m' : mach) (P' : Z → proc) : Prop := {
  fk_held : m_held m' = m_held m;
  fk_slot : first_unused P np;
  fk_child : pid (P' np) = n ∧ state (P' np) = RUNNABLE ∧ parent (P' np) = Some p ∧ sz (P' np) = sz (P p) ∧
    trace (P' np) = trace (P p) ∧ tracemask (P' np) = tracemask (P p);
  fk_parent : P' p = fork_parent (ps_ticks st) (P p);
  fk_other : ∀ q, q ≠ p → q ≠ np → P' q = P q;
  fk_frame : frame_copied m m' (trapframe (P p)) (trapframe (P' np));
  fk_vm : ∃ fl' T' M' Mc, vm m' fl' T' (frames K (trapframe (P' np)) (trapcopy (P' np))) ∧ all_low T' ∧
    views_same m T m' T' ∧ running m' T' (P' p) M' k ∧ running m' T' (P' np) Mc k ∧
    (∀ va, 0 <= va < Z.of_nat k * PGSIZE → uread m' Mc va = uread m M va) ∧
    ∀ i, 0 <= i < Z.of_nat k → M' !! i = Mc !! i ∧
      ∀ pte, Mc !! i = Some pte → truth (Z.land pte PTE_W) = false
}.

Lemma alloc_failed_fork st m fl T K P p m' fl' P' :
  vm m fl T K → kpos K → all_low T → state (P p) = UNUSED → (∀ q, slot_clean (P q)) →
  alloc_failed m fl T K P p m' fl' P' → fork_failed st m P T K m' P'.
Proof.
  intros Hvm HK Hlow Hp Hcl [Hvm' Hg _ [_ Hc] Ho]. split.
  - apply Hg.
  - exists fl', T. split_and!; [done|done|]. intros r M HT. exists M. split; [done|]. intros va Hva.
    eapply grows_view; try done. by apply (Hlow r).
  - intros q Hq. apply Ho. by intros ->.
  - intros q. destruct (decide (q = p)) as [->|Hq]; [done|]. by rewrite Ho.
Qed.

Lemma all_low_bare T pt tf : 0 <= tf < 2 ^ 56 → all_low T → all_low (<[pt := bare_map tf]> T).
Proof.
  intros Htf Hlow r M [[_ <-]|[_ HT]]%lookup_insert_Some; [|by apply (Hlow r)].
  by eapply proc_map_low, bare_proc_map.
Qed.

Lemma new_fields pc n now ntf ntc npt x :
  let y := new_proc cfg pc n now ntf ntc npt x in
  pagetable y = npt ∧ trapframe y = ntf ∧ trapcopy y = ntc ∧ sz y = sz x ∧ pid y = n.
Proof. destruct x. by destruct cfg. Qed.

Section steps.
  Context (st : pstate F) (m : mach) (P : Z → proc) (n t : Z) (f : F) (fl : list Z).
  Context (T : gmap Z (gmap Z Z)) (K : Z → Z) (p : Z) (M : gmap Z Z) (k : nat) (pc : Z).
  Context (Hvm : vm m fl T K) (HK : kpos K) (Hu : alloc_unlocked m) (Hlow : all_low T).
  Context (Hlocks : ∀ q, ProcLock q ∉ m_held m) (Hwl : WaitLock ∉ m_held m) (Hcl : ∀ q, slot_clean (P q)).
  Context (Hrun : running m T (P p) M k).

  (** The state after [allocproc]. *)
  Context (np : Z) (m1 : mach) (fl1 : list Z) (P1 : Z → proc) (ntf ntc npt : Z).
  Context (Hnp : first_unused P np) (Had : alloc_done m fl T K ntf ntc npt m1 fl1).
  Context (HP1 : P1 np = new_proc cfg pc n (ps_ticks st) ntf ntc npt (P np)).
  Context (Ho1 : ∀ q, q ≠ np → P1 q = P q).
  Abbreviation h := (ProcLock np :: m_held m).
  Abbreviation T1 := (<[npt := bare_map ntf]> T).

Lemma np_unused : state (P np) = UNUSED ∧ p ≠ np ∧ pagetable (P p) ≠ npt.
Proof.
  destruct Hnp as (_ & _ & _ & Hst & _). split_and!; [done| |].
  - intros E. apply (rn_state _ _ _ _ _ Hrun). by rewrite E.
  - intros E. pose proof (rn_map _ _ _ _ _ Hrun) as HT. rewrite E in HT.
    destruct Had as [_ _ _ [_ HTn] _ _ _]. by rewrite HTn in HT.
Qed.

(** The memory the child starts with. *)
Lemma child_mem :
  vm m1 fl1 T1 (frames K ntf ntc) ∧ kpos (frames K ntf ntc) ∧ all_low T1 ∧ delete npt T1 = T ∧
  T1 !! pagetable (P p) = Some M ∧ 0 <= ntf < 2 ^ 56.
Proof.
  destruct np_unused as (_ & _ & Hne). destruct Had as [Hvm1 _ _ [_ HTn] [Hp _] _ _].
  pose proof (page_ok_range ntf Hp). split_and!; try lia; [done|by do 2 apply kpos_kadd| | |].
  - apply all_low_bare; [lia|done].
  - by apply delete_insert_id.
  - rewrite lookup_insert_ne by done. apply Hrun.
Qed.

(** [uvmcopy] failed: the child's memory is given back. *)
Lemma fork_undo m2 fl2 j :
  (j <= k)%nat → let T2 := <[pagetable (P p) := cow_run j M]> T1 in
  vm m2 fl2 T2 (frames K ntf ntc) → grows (m1 <| m_held := h |>) T1 m2 T2 → all_low T2 →
  views_same (m1 <| m_held := h |>) T1 m2 T2 →
  wp (freeproc cfg np ;; release (ProcLock np) ;; mret (-1)) (λ r st', r = -1 ∧ ∃ m' P',
    st' = pst st m' P' (n + 1) t f ∧ fork_failed st m P T K m' P') (pst st m2 P1 (n + 1) t f).
Proof.
  intros Hj T2 Hvm2 Hg2 Hlow2 Hv2. destruct np_unused as (Hst & Hne & Hptn).
  destruct child_mem as (Hvm1 & HK1 & Hlow1 & Hdel & HTp & Hntf).
  destruct (new_fields pc n (ps_ticks st) ntf ntc npt (P np)) as (Ept & Etf & Etc & Esz & _). rewrite <- HP1 in Ept, Etf, Etc, Esz.
  destruct (Hcl np Hst) as (_ & _ & _ & Hsz0). pose proof Had as [_ Hg1 _ [Hpt0 HTn] [Hpf _] [Hpc _] (_ & _ & Hfc)].
  pose proof (page_ok_range ntf Hpf). pose proof (page_ok_range ntc Hpc).
  assert (∀ q, drop_refs (frames K ntf ntc) (P1 np) q = K q) as HKd.
  { intros q. unfold drop_refs, frames, kdrop, kadd. rewrite Etf, Etc.
    destruct (Z.eqb_spec ntf 0), (Z.eqb_spec ntc 0); try lia. destruct (q =? ntf), (q =? ntc); lia. }
  assert (drop_tables T2 (P1 np) = <[pagetable (P p) := cow_run j M]> T) as HTd.
  { unfold drop_tables. rewrite Ept. destruct (Z.eqb_spec npt 0) as [|_]; [done|]. unfold T2.
    rewrite delete_insert_ne by done. by rewrite Hdel. }
  wp_step. wp_use (freeproc_spec cfg np st m2 P1 (n + 1) t f fl2 T2 (frames K ntf ntc)); [done| | | |].
  - unfold alloc_unlocked. rewrite (proj1 Hg2). exact (alloc_unlocked_proc m np Hu).
  - split; [right; by rewrite Etf|right; by rewrite Etc|right]. exists (bare_map ntf), ntf, 0%nat.
    rewrite Ept, Esz, Hsz0. unfold T2. rewrite lookup_insert_ne, lookup_insert_eq by done.
    split_and!; [done|apply bare_proc_map|lia|lia|lia|done|done].
  - intros q. rewrite HKd. apply HK.
  - intros _ st' (m3 & P3 & fl3 & -> & Hvm3 & Hd3 & HP3 & Ho3). rewrite HTd in Hvm3, Hd3.
    wp_step. eapply wp_release; [by rewrite (proj1 Hd3), (proj1 Hg2)|apply Hlocks|]. wp_step. split; [done|].
    exists (m3 <| m_held := m_held m |>), P3. split; [done|]. split; [done| | |].
    + exists fl3, (<[pagetable (P p) := cow_run j M]> T). split_and!.
      * apply vm_held_any. eapply vm_ext; [|done]. intros q. by rewrite HKd.
      * intros r N [[_ <-]|[_ HN]]%lookup_insert_Some; [apply (Hlow2 (pagetable (P p))); apply lookup_insert_eq|by apply (Hlow r)].
      * intros r N HN. destruct (Hv2 r N) as (N' & HN' & Hv'); [rewrite lookup_insert_ne; [done|intros ->; congruence]|].
        exists N'. assert (r ≠ npt) as Hrn by (intros ->; congruence).
        assert ((<[pagetable (P p) := cow_run j M]> T) !! r = Some N') as HN''.
        { revert HN'. unfold T2. rewrite !lookup_insert. repeat case_decide; congruence. }
        split; [done|]. intros va Hva. transitivity (uread m2 N' va).
        { apply (drops_view m2 fl2 T2 _ m3 fl3 _ _ r N' va Hvm2 Hvm3); try done.
          - intros q. rewrite HKd. apply HK.
          - by apply (Hlow2 r). }
        rewrite Hv' by done. eapply (grows_view m fl T K m1 T1 r N va); try done. by apply (Hlow r).
    + intros q Hq. rewrite Ho3, Ho1; [done|..]; intros ->; congruence.
    + intros q. destruct (decide (q = np)) as [->|Hq]; [|by rewrite Ho3, Ho1].
      rewrite HP3. intros _. destruct (clear_proc_clean cfg (P1 np <| trapframe := 0 |> <| trapcopy := 0 |>)) as (_ & -> & -> & -> & ->). done.
Qed.

(** The pages of the kernel keep their contents. *)
Lemma kernel_page_same m2 T2 q i :
  grows (m1 <| m_held := h |>) T1 m2 T2 → kernel_page m T q → 0 <= i < 512 →
  ld64 (m_mem m2) (q + 8 * i) = ld64 (m_mem m) (q + 8 * i).
Proof.
  intros [_ Hg2] [Hok Hnt Hr Hc] Hi. destruct Had as [_ [_ Hg1] _ _ _ _ _].
  destruct (Hg1 q Hok Hc Hnt) as (Hnt1 & Hle & Hd1).
  destruct (Hg2 q Hok ltac:(cbn; lia) Hnt1) as (_ & _ & Hd2).
  rewrite (ld64_page_ext (m_mem m1) (m_mem m2)) by done. by apply ld64_page_ext.
Qed.

Lemma parent_running m' T' x M' now :
  running m' T' x M' k → running m' T' (fork_parent now x) M' k.
Proof. intros [? ? ? ? ? ?]. unfold fork_parent. by destruct cfg. Qed.

(** [uvmcopy] succeeded: the rest of [fork] makes the child runnable. *)
Lemma fork_done m2 fl2 :
  let T2 := cow_state k (pagetable (P p)) npt M (bare_map ntf) T1 in
  let Mc := share_run k M (bare_map ntf) in
  vm m2 fl2 T2 (frames K ntf ntc) → grows (m1 <| m_held := h |>) T1 m2 T2 →
  views_same (m1 <| m_held := h |>) (delete npt T1) m2 T2 →
  (∀ va, 0 <= va < Z.of_nat k * PGSIZE → uread m2 Mc va = uread (m1 <| m_held := h |>) M va) →
  wp (fork_frame p np (sz (P p))) (λ r st', r = n ∧ ∃ m' P' f',
    st' = pst st m' P' (n + 1) (t + fork_tickets (P p)) f' ∧
    forked st m P n T K p M k np m' P') (pst st m2 P1 (n + 1) t f).
Proof.
  intros T2 Mc Hvm2 Hg2 Hv2 Hch. destruct np_unused as (Hst & Hne & Hptn).
  destruct child_mem as (Hvm1 & HK1 & Hlow1 & Hdel & HTp & Hntf). rewrite Hdel in Hv2.
  destruct (new_fields pc n (ps_ticks st) ntf ntc npt (P np)) as (Ept & Etf & Etc & _ & Epid). rewrite <- HP1 in Ept, Etf, Etc, Epid.
  pose proof Had as [_ Hg1 _ [Hpt0 HTn] _ _ (Hff & _)].
  pose proof Hrun as [Hrs HTM Hpm Hktf Hsz Hup].
  assert (HTb : T1 !! npt = Some (bare_map ntf)) by apply lookup_insert_eq.
  assert (∀ q, q = ntf ∨ kernel_page m T q → kernel_page m2 T2 q) as Hkp.
  { intros q Hq. destruct (alloc_kernel_page m fl T K ntf ntc npt m1 fl1 q Hvm HK Had Hq) as [Hok Hnt Hr Hc].
    destruct (proj2 Hg2 q Hok Hc Hnt) as (Hnt2 & Hle & _). split; [done|done| |cbn in Hle; lia].
    by apply (cow_refs_zero m1 fl1 T1 (frames K ntf ntc)); [..|apply Hpm|]. }
  assert (P1 p = P p) as HPp by (by apply Ho1).
  pose proof (fork_frame_spec p np st m2 P1 (n + 1) t f (m_held m) fl2 T2 (frames K ntf ntc)) as Hspec.
  cbn zeta in Hspec. rewrite HPp, Etf, Epid in Hspec.
  wp_use Hspec; [done|apply Hg2|apply Hlocks|done|done|by apply Hkp; right|by apply Hkp; left| |].
  { intros E. pose proof (kp_used _ _ _ Hktf) as Hused. rewrite E in Hused. lia. }
  intros r st' (-> & m3 & P3 & f3 & -> & Hh3 & Hvm3 & Hk3 & Hkn3 & Hfr & Hv3 & HPp3 & HPo3 & [Sp Ss Spt Stf Stc _ [Str Stm]] & Hst3 & Hpar3).
  cbn in Sp, Ss, Spt, Stf, Stc, Str, Stm. split; [done|]. exists m3, P3, f3. split; [done|].
  pose proof (cow_state_low m1 fl1 T1 _ _ _ M (bare_map ntf) k Hvm1 Hlow1 HTp HTb (pm_user _ _ _ Hpm)) as Hlow2.
  fold T2 in Hlow2.
  assert (∀ va, uread (m1 <| m_held := h |>) M va = uread m1 M va) as Hml by done.
  split; try done.
  - split_and!; congruence.
  - intros q Hq Hq'. by rewrite HPo3, Ho1.
  - rewrite Stf, Etf. intros i Hi. rewrite Hfr by done. destruct (i =? 14); [done|].
    apply (kernel_page_same m2 T2); [done|done|lia].
  - assert (HT2p : T2 !! pagetable (P p) = Some (cow_run k M)).
    { unfold T2, cow_state. by rewrite lookup_insert_ne, lookup_insert_eq. }
    assert (HT2n : T2 !! npt = Some Mc) by apply lookup_insert_eq.
    exists fl2, T2, (cow_run k M), Mc. rewrite Stf, Stc, Etf, Etc. split_and!; try done.
    + intros r N HN. destruct (Hv2 r N HN) as (N' & HN' & Hv'). exists N'. split; [done|]. intros va Hva.
      rewrite (Hv3 r N' va HN' (Hlow2 r N' HN') Hva), Hv' by done.
      eapply (grows_view m fl T K m1 T1 r N va); try done. by apply (Hlow r).
    + rewrite HPp3. apply parent_running. split; try done. by apply (cow_proc_map m fl T K (pagetable (P p))).
    + split; rewrite ?Hst3, ?Spt, ?Ss, ?Stf, ?Ept, ?Etf; try done.
      by apply (share_proc_map m fl T K (pagetable (P p)) M (trapframe (P p))).
    + intros va Hva. rewrite (Hv3 npt Mc va HT2n (Hlow2 _ _ HT2n)), Hch by (done || lia). rewrite Hml.
      eapply (grows_view m fl T K m1 T1 _ M va); try done; [by apply (Hlow _ _ HTM)|lia].
    + intros i Hi. destruct (pm_user _ _ _ Hpm i Hi) as (_ & q & HMq & _). unfold Mc.
      rewrite cow_run_lookup, share_run_lookup, !decide_True, HMq by done. split; [done|].
      intros pte [= <-]. apply cow_pte_ok. by eapply (mapped_range m fl T K _ M k i); [..|apply Hpm| |].
Qed.
End steps.

Lemma fork_spec pc p st m P n t f fl T K M k :
  vm m fl T K → kpos K → alloc_unlocked m → all_low T → (∀ q, ProcLock q ∉ m_held m) →
  PidLock ∉ m_held m → WaitLock ∉ m_held m → (∀ q, slot_clean (P q)) →
  ps_cur st = Some p → running m T (P p) M k →
  wp (fork cfg fops pc) (λ r st', ∃ m' P' n' t' f', st' = pst st m' P' n' t' f' ∧
    ((r = -1 ∧ t' = t ∧ f' = f ∧ fork_failed st m P T K m' P' ∧
       ((∀ q, q ∈ procs → state (P q) ≠ UNUSED) ∨ (length fl <= 7 + 2 * k)%nat)) ∨
     (r = n ∧ n' = n + 1 ∧ t' = t + fork_tickets (P p) ∧ ∃ np, forked st m P n T K p M k np m' P')))
    (pst st m P n t f).
Proof.
  intros Hvm HK Hu Hlow Hpl Hpid Hwl Hcl Hcur Hrun. unfold fork. wp_step. unfold myproc. wp_step. wp_step.
  change (ps_cur (pst st m P n t f)) with (ps_cur st). rewrite Hcur. wp_step. cbn beta.
  wp_step. wp_use (allocproc_spec cfg pc st m P n t f fl T K); [done..|]. intros [np|] st'.
  2: { intros [[-> Hnone]|(q & m' & fl' & P' & (l1 & l2 & _ & Hq & _) & -> & Hf)]; wp_step.
    - exists m, P, n, t, f. split; [done|]. left. split_and!; try done; [|by left]. split; try done.
      exists fl, T. split_and!; try done. intros r N HN. by exists N.
    - exists m', P', (n + 1), t, f. split; [done|]. left. pose proof (af_short _ _ _ _ _ _ _ _ _ Hf).
      split_and!; try done; [|right; lia]. by apply (alloc_failed_fork st m fl T K P q m' fl' P'). }
  intros (Hnp & m1 & fl1 & P1 & tf & tc & pt & -> & Had & HP1 & Ho1).
  destruct (np_unused m P fl T K p M k Hrun np m1 fl1 tf tc pt Hnp Had) as (Hst & Hne & Hptn).
  destruct (child_mem m P fl T K p M k HK Hlow Hrun np m1 fl1 tf tc pt Hnp Had)
    as (Hvm1 & HK1 & Hlow1 & Hdel & HTp & Hntf).
  assert (P1 p = P p) as HPp by (by apply Ho1).
  destruct (new_fields pc n (ps_ticks st) tf tc pt (P np)) as (Ept & _). rewrite <- HP1 in Ept.
  wp_step. apply wp_getp. wp_step. apply wp_getp. wp_step. apply wp_getp. rewrite HPp, Ept.
  wp_step. apply wp_mem.
  wp_use (uvmcopy_views _ fl1 (<[pt := bare_map tf]> T) (frames K tf tc) (pagetable (P p)) pt M (bare_map tf) (sz (P p)) k);
    [by apply vm_held_any|done|exact (alloc_unlocked_proc m np Hu)|done|done|done|apply lookup_insert_eq
    |apply Hrun| |by eapply running_size|].
  { intros i Hi. apply bare_lookup. by apply Hrun. }
  intros r m2 (fl2 & [(-> & _ & Hvm2 & Hg2 & Hv2 & Hc2 & _)|(-> & Hlen & j & Hj & Hvm2 & Hg2 & Hl2 & Hv2)]); cbn [Z.ltb Z.compare].
  - wp_use (fork_done st m P n t f fl T K p M k pc Hvm HK Hlow Hpl Hwl Hrun np m1 fl1 P1 tf tc pt Hnp Had HP1 Ho1 m2 fl2);
      [done..|]. intros r st' (-> & m' & P' & f' & -> & Hf). exists m', P', (n + 1), (t + fork_tickets (P p)), f'.
    split; [done|]. right. split_and!; try done. by exists np.
  - wp_use (fork_undo st m P n t f fl T K p M k pc Hvm HK Hu Hlow Hpl Hcl Hrun np m1 fl1 P1 tf tc pt Hnp Had HP1 Ho1 m2 fl2 j);
      [done..|]. intros r st' (-> & m' & P' & -> & Hf). exists m', P', (n + 1), t, f.
    split; [done|]. left. pose proof (ad_used _ _ _ _ _ _ _ _ _ Had). split_and!; try done. right. lia.
Qed.
End fork.
