(* ===== verification/ProcGrow.v ===== *)
(** Growing and shrinking a process: [growproc] of [kernel/proc.c], behind
    [sbrk]. *)
From S2P Require Import Prelude CString Spinlock Riscv Kalloc Vm PageTable Uvm UvmOps UvmGrow.
From S2P Require Import UserCopy CowView Proc ProcState ProcMem Sched ProcNew Fork.

Section procgrow.
Context `{KI : !KernelImage} {F : Type}.
Implicit Types (T : gmap Z (gmap Z Z)) (M : gmap Z Z) (K : Z → Z) (st : pstate F).

(** ** The user's view of a space that grew *)

Lemma user_mkpte p perm :
  0 <= p < 2 ^ 56 → 0 <= perm < 1024 → Z.testbit perm 4 = true → truth (Z.land (mkpte p perm) PTE_U) = true.
Proof.
  intros Hp Hpe Hb. rewrite mkpte_make. change PTE_U with (Z.shiftl 1 4).
  rewrite truth_flag_make by (lia || by apply lor_flags_range). by rewrite Z.lor_spec, Hb.
Qed.

Lemma grown_view s fl T K r M s' T' M' v0 (n : nat) perm va :
  vm s fl T K → kpos K → T !! r = Some M → user_low M → grows s T s' T' → grown s M s' M' v0 n perm →
  0 <= perm < 1024 → Z.testbit perm 4 = true → 0 <= va →
  (∀ i, v0 <= i < v0 + Z.of_nat n → owned i = true) →
  uread s' M' va = if decide (v0 <= va / PGSIZE < v0 + Z.of_nat n) then Some 0 else uread s M va.
Proof.
  intros Hvm HK HT Hlow Hg [Hout Hin] Hpe Hb Hva Hown. case_decide as Hi.
  - destruct (Hin _ Hi) as (p & HM & Hp & _ & _ & Hz). pose proof (page_ok_range p Hp) as Hpr.
    pose proof (Hown _ Hi) as Ho. unfold owned in Ho. apply Z.ltb_lt in Ho.
    assert (va < MAXVA) as Hmax.
    { change (TRAPFRAME / PGSIZE) with 67108862 in Ho. change MAXVA with (67108864 * 4096).
      pose proof (Z.mod_pos_bound va PGSIZE ltac:(done)). pose proof (Z.div_mod va PGSIZE ltac:(done)).
      unfold PGSIZE in *. lia. }
    assert (uaddr M' va = p) as Ha.
    { unfold uaddr. destruct (Z.leb_spec MAXVA va); [lia|]. rewrite HM, user_mkpte by (done || lia).
      apply mkpte_pa; [lia|apply Hp|done]. }
    unfold uread. rewrite Ha. destruct (Z.eqb_spec p 0); [lia|]. f_equal. apply Hz.
    pose proof (Z.mod_pos_bound va PGSIZE ltac:(done)). unfold in_page. lia.
  - rewrite <- (grows_view s fl T K s' T' r M va) by done. apply uread_uaddr.
    unfold uaddr. by rewrite Hout.
Qed.

Lemma grown_more s M s' M' (k n : nat) perm tf :
  proc_map M tf k → grown s M s' M' (Z.of_nat k) n perm → Z.testbit perm 1 = true → 0 <= perm < 1024 →
  (∀ i, Z.of_nat k <= i < Z.of_nat k + Z.of_nat n → owned i = true) → proc_map M' tf (k + n).
Proof.
  intros [Hu Htr Ht Hd] Hg Hr Hp Hown. destruct top_vpns as (_ & _ & Ho1 & Ho2 & _).
  assert (∀ v, owned v = false → ¬ (Z.of_nat k <= v < Z.of_nat k + Z.of_nat n)) as Hv.
  { intros v Hv Hi. by rewrite Hown in Hv. }
  split.
  - intros i Hi. destruct (decide (i < Z.of_nat k)) as [Hlt|Hge].
    + rewrite (proj1 Hg) by lia. apply Hu. lia.
    + split; [apply Hown; lia|]. apply (grown_mapped s M s' M' (Z.of_nat k) n perm i); try done. lia.
  - by rewrite (proj1 Hg) by (by apply Hv).
  - by rewrite (proj1 Hg) by (by apply Hv).
  - intros i pte HM. destruct (decide (Z.of_nat k <= i < Z.of_nat k + Z.of_nat n)) as [|Hi]; [left; lia|].
    rewrite (proj1 Hg) in HM by done. destruct (Hd i pte HM) as [?|?]; [left; lia|by right].
Qed.

Lemma grown_refs s M s' M' v0 n perm q T r :
  grown s M s' M' v0 n perm → T !! r = Some M → refs T q = 0 →
  0 <= perm < 1024 → m_pgrc s (q / PGSIZE) ≠ 0 → refs (<[r := M']> T) q = 0.
Proof.
  intros [Hout Hin] HT Hz Hp Hq. pose proof (refs_nonneg (<[r := M']> T) q) as Hnn.
  destruct (Z.leb_spec (refs (<[r := M']> T) q) 0) as [|Hgt]; [lia|]. exfalso.
  apply refs_pos in Hgt as (r' & N & vpn & pte & HN & HMN & Ho & Hpa).
  assert (∀ N, T !! r' = Some N → N !! vpn = Some pte → False) as Hno.
  { intros N' HN' HM'. pose proof (refs_mapped T r' N' vpn pte HN' HM' Ho). rewrite Hpa in *. lia. }
  apply lookup_insert_Some in HN as [[-> <-]|[_ HN]]; [|by eapply Hno].
  destruct (decide (v0 <= vpn < v0 + Z.of_nat n)) as [Hi|Hi].
  - destruct (Hin vpn Hi) as (p & HMp & Hpok & Hc & _). simplify_eq. pose proof (page_ok_range p Hpok).
    rewrite mkpte_pa in Hq by (done || lia || apply Hpok). done.
  - rewrite Hout in HMN by done. by eapply Hno.
Qed.

(** The pages that stay mapped keep their contents. *)
Lemma drops_view_at s fl T K s' fl' T' K' r M M' va :
  vm s fl T K → vm s' fl' T' K' → kpos K' → T !! r = Some M → T' !! r = Some M' → user_low M →
  drops s T s' T' → 0 <= va → M' !! (va / PGSIZE) = M !! (va / PGSIZE) → uread s' M' va = uread s M va.
Proof.
  intros Hvm Hvm' HK HT HT' Hlow [_ Hd] Hva HM. unfold uread.
  assert (uaddr M' va = uaddr M va) as -> by (unfold uaddr; by rewrite HM).
  destruct (Z.eqb_spec (uaddr M va) 0) as [|E]; [done|]. f_equal.
  destruct (uaddr_mapped _ _ _ _ _ _ va Hvm HT Hlow Hva E) as (_ & pte & HMp & _ & Ho & Hpa & Hok & Hnt).
  rewrite <- HM in HMp. destruct (mapped_page _ _ _ _ _ _ _ _ Hvm' HT' HMp Ho) as (_ & _ & Hrc). specialize (Hrc (HK _)).
  rewrite <- Hpa in Hrc. destruct (Hd _ Hok ltac:(lia) Hnt) as (_ & _ & Hx). apply Hx.
  pose proof (Z.mod_pos_bound va PGSIZE ltac:(done)). unfold in_page. lia.
Qed.

(** Nothing is visible to the user above the size. *)
Lemma proc_map_above M tf k m va :
  0 <= tf < 2 ^ 56 → proc_map M tf k → Z.of_nat k <= va / PGSIZE → uread m M va = None.
Proof.
  intros Htf Hpm Hi. assert (uaddr M va = 0) as E; [|unfold uread; by rewrite E].
  unfold uaddr. destruct (MAXVA <=? va); [done|]. destruct (M !! (va / PGSIZE)) as [pte|] eqn:EM; [|done].
  destruct (truth (Z.land pte PTE_U)) eqn:EU; [|done]. exfalso.
  pose proof (proc_map_low M tf k Htf Hpm _ _ EM EU) as Ho. destruct top_vpns as (_ & _ & Ho1 & Ho2 & _).
  destruct (pm_dom _ _ _ Hpm _ _ EM) as [?|[E|E]]; [lia|rewrite E in Ho; congruence|rewrite E in Ho; congruence].
Qed.

Lemma proc_map_cut M tf (k k' : nat) :
  proc_map M tf k → (k' <= k)%nat → proc_map (unmap_run (k - k') M (Z.of_nat k')) tf k'.
Proof.
  intros [Hu Htr Ht Hd] Hle. destruct top_vpns as (_ & _ & Ho1 & Ho2 & _).
  assert (∀ v, owned v = false → ¬ (Z.of_nat k' <= v < Z.of_nat k' + Z.of_nat (k - k'))) as Hv.
  { intros v Hv Hi. by rewrite (proj1 (Hu v ltac:(lia))) in Hv. }
  split.
  - intros i Hi. rewrite unmap_run_lookup, decide_False by lia. apply Hu. lia.
  - by rewrite unmap_run_lookup, decide_False by (by apply Hv).
  - by rewrite unmap_run_lookup, decide_False by (by apply Hv).
  - intros i pte. rewrite unmap_run_lookup. case_decide; [done|]. intros HM.
    destruct (Hd i pte HM) as [?|?]; [left; lia|by right].
Qed.

Lemma kernel_page_drops m fl T K m' fl' r M n v0 q :
  vm m fl T K → T !! r = Some M → vm m' fl' (<[r := unmap_run n M v0]> T) K →
  (∀ t, table_of m' (<[r := unmap_run n M v0]> T) t ↔ table_of m T t) →
  kernel_page m T q → kernel_page m' (<[r := unmap_run n M v0]> T) q.
Proof.
  intros Hvm HT Hvm' Htab [Hok Hnt Hr Hc]. set (T' := <[r := unmap_run n M v0]> T) in *.
  assert (refs T' q = 0) as Hz.
  { pose proof (refs_nonneg T' q). destruct (Z.leb_spec (refs T' q) 0) as [|Hgt]; [lia|]. exfalso.
    apply refs_pos in Hgt as (r' & N & vpn & pte & HN & HMN & Ho & Hpa).
    assert (∀ N, T !! r' = Some N → N !! vpn = Some pte → False) as Hno.
    { intros N' HN' HM'. pose proof (refs_mapped T r' N' vpn pte HN' HM' Ho). rewrite Hpa in *. lia. }
    apply lookup_insert_Some in HN as [[-> <-]|[_ HN]]; [|by eapply Hno].
    rewrite unmap_run_lookup in HMN. case_decide; [done|by eapply Hno]. }
  assert (¬ table_of m' T' q) as Hnt' by (by rewrite Htab).
  split; [done|done|done|]. rewrite (vm_rc _ _ _ _ Hvm') by done. rewrite (vm_rc _ _ _ _ Hvm) in Hc by done. lia.
Qed.

Lemma running_sz m T x M k : running m T x M k → running m T (x <| sz := sz x |>) M k.
Proof. by intros []. Qed.

(** ** growproc *)

Section at_state.
Context (p : Z) (st : pstate F) (m : mach) (P : Z → proc) (n t : Z) (f : F) (fl : list Z).
Context (T : gmap Z (gmap Z Z)) (K : Z → Z) (M : gmap Z Z) (k k' : nat) (d : Z).
Context (Hvm : vm m fl T K) (HK : kpos K) (Hu : alloc_unlocked m) (Hlow : all_low T).
Context (Hcur : ps_cur st = Some p) (Hrun : running m T (P p) M k).
Abbreviation pt := (pagetable (P p)).

Lemma size_pages : 0 <= sz (P p) + d → sz (P p) + d <= TRAPFRAME → PGROUNDUP (sz (P p) + d) = Z.of_nat k' * PGSIZE →
  (∀ i, i < Z.of_nat k' → owned i = true) ∧ sz (P p) + d <= Z.of_nat k' * PGSIZE < sz (P p) + d + PGSIZE.
Proof.
  intros H0 Hd Hup. assert (TRAPFRAME < 2 ^ 64 - PGSIZE) as HX by done.
  destruct (PGROUNDUP_spec (sz (P p) + d)) as [Hb _]; [lia|]. rewrite Hup in Hb. split; [|lia].
  intros i Hi. unfold owned. change (TRAPFRAME / PGSIZE) with 67108862. change TRAPFRAME with (67108862 * 4096) in Hd.
  unfold PGSIZE in *. lia.
Qed.

Lemma growproc_grow :
  0 < d → sz (P p) + d <= TRAPFRAME → PGROUNDUP (sz (P p) + d) = Z.of_nat k' * PGSIZE →
  wp (growproc d) (λ r st', ∃ m' P' fl' M', let T' := <[pt := M']> T in
    st' = pst st m' P' n t f ∧ m_held m' = m_held m ∧ (∀ q, q ≠ p → P' q = P q) ∧ vm m' fl' T' K ∧
    all_low T' ∧ others_same m T pt m' ∧
    ((r = 0 ∧ P' p = P p <| sz := sz (P p) + d |> ∧ running m' T' (P' p) M' k' ∧
      ∀ va, 0 <= va → uread m' M' va =
        if decide (Z.of_nat k <= va / PGSIZE < Z.of_nat k') then Some 0 else uread m M va) ∨
     (r = -1 ∧ (length fl <= 3 * (k' - k))%nat ∧ P' p = P p ∧ M' = M ∧
      ∀ va, 0 <= va → uread m' M va = uread m M va))) (pst st m P n t f).
Proof using All.
  intros Hd Hmax Hup. destruct (size_pages ltac:(destruct (rn_sz _ _ _ _ _ Hrun); lia) Hmax Hup) as [Hown Hb].
  pose proof (running_size _ _ _ _ _ Hrun) as Hk. pose proof Hrun as [Hst HT Hpm Hktf Hsz Hupk].
  assert (k <= k')%nat as Hkk by (unfold PGSIZE in *; lia).
  assert (TRAPFRAME < MAXVA ∧ MAXVA < 2 ^ 64 - PGSIZE) as [HTF HX] by done.
  unfold growproc, myproc. wp_step. wp_step. wp_step. change (ps_cur (pst st m P n t f)) with (ps_cur st).
  rewrite Hcur. wp_step. cbn beta. wp_step. apply wp_getp. wp_step. apply wp_getp.
  apply wp_if_t; [lia|]. rewrite u64_small by lia. wp_step. apply wp_mem.
  assert (∀ m' T', grows m T m' T' → others_same m T pt m') as Hoth.
  { intros m' T' Hg r N va _ HN Hva. eapply (grows_view m fl T K m' T' r); try done. by apply (Hlow r). }
  wp_use (uvmalloc_vm m fl T K pt M (sz (P p)) (sz (P p) + d) PTE_W (Z.of_nat k) (k' - k));
    [done|done|done|done|lia|lia|done|done|unfold PGSIZE in *; lia|unfold PGSIZE in *; lia|..].
  { intros i Hi. split; [apply Hown; lia|]. destruct (M !! i) as [pte|] eqn:E; [exfalso|done].
    destruct top_vpns as (_ & _ & Ho1 & Ho2 & _). assert (owned i = true) as Ho by (apply Hown; lia).
    destruct (pm_dom _ _ _ Hpm i pte E) as [?|[-> | ->]]; [lia|congruence|congruence]. }
  intros x m' [(-> & fl' & M' & Hvm' & Hgr & Hg & _)|(-> & Hlen & fl' & Hvm' & Hg)].
  - apply wp_if_f; [lia|]. wp_step. apply wp_setp. intros P' HP' Ho'. wp_step.
    assert (proc_map M' (trapframe (P p)) k') as Hpm'.
    { replace k' with (k + (k' - k))%nat by lia. eapply (grown_more m M m' M'); [done|done|done|done|].
      intros i Hi. apply Hown. lia. }
    exists m', P', fl', M'. cbn zeta. split_and!; try done; [apply Hg| |by eapply Hoth|].
    { intros r N [[_ <-]|[_ HN]]%lookup_insert_Some; [|by apply (Hlow r)].
      pose proof (page_ok_range _ (kp_ok _ _ _ Hktf)). by apply (proc_map_low M' (trapframe (P p)) k'); [lia|]. }
    left. rewrite HP'. split_and!; [done|done| |].
    + split; cbn; try done; [apply lookup_insert_eq| |lia].
      destruct Hktf as [Hok Hnt Hr Hc]. destruct (proj2 Hg _ Hok Hc Hnt) as (Hnt' & Hle & _).
      split; [done|done| |lia]. apply (grown_refs m M m' M' (Z.of_nat k) (k' - k) (Z.lor (Z.lor PTE_R PTE_U) PTE_W)); done || lia.
    + intros va Hva. rewrite (grown_view m fl T K pt M m' (<[pt := M']> T) M' (Z.of_nat k) (k' - k)
        (Z.lor (Z.lor PTE_R PTE_U) PTE_W)); try done; [|by apply (Hlow pt)|intros i Hi; apply Hown; lia].
      apply decide_ext. lia.
  - apply wp_if_t; [done|]. wp_step. exists m', P, fl', M. cbn zeta. rewrite insert_id by done.
    split_and!; try done; [apply Hg|by eapply Hoth|]. right. split_and!; try done.
    intros va Hva. eapply (grows_view m fl T K m' T pt); try done. by apply (Hlow pt).
Qed.

(** Shrinking to a size below zero changes nothing and succeeds. *)
Lemma growproc_shrink :
  d < 0 → - 2 ^ 31 <= d →
  PGROUNDUP (Z.max 0 (sz (P p) + d)) = Z.of_nat k' * PGSIZE →
  let new := if sz (P p) + d <? 0 then sz (P p) else sz (P p) + d in
  let k1 := if sz (P p) + d <? 0 then k else k' in
  wp (growproc d) (λ r st', r = 0 ∧ ∃ m' P' fl' M', let T' := <[pt := M']> T in
    st' = pst st m' P' n t f ∧ m_held m' = m_held m ∧ (∀ q, q ≠ p → P' q = P q) ∧
    P' p = P p <| sz := new |> ∧ vm m' fl' T' K ∧ all_low T' ∧ others_same m T pt m' ∧
    running m' T' (P' p) M' k1 ∧
    ∀ va, 0 <= va → uread m' M' va = if decide (Z.of_nat k1 <= va / PGSIZE) then None else uread m M va)
    (pst st m P n t f).
Proof using All.
  intros Hd Hd' Hup new k1. pose proof Hrun as [Hst HT Hpm Hktf Hsz Hupk].
  pose proof (running_size _ _ _ _ _ Hrun) as Hk. pose proof (page_ok_range _ (kp_ok _ _ _ Hktf)) as Htf.
  assert (TRAPFRAME < MAXVA ∧ MAXVA = 2 ^ 38) as [HTF HX] by done.
  unfold growproc, myproc. wp_step. wp_step. wp_step. change (ps_cur (pst st m P n t f)) with (ps_cur st).
  rewrite Hcur. wp_step. cbn beta. wp_step. apply wp_getp. wp_step. apply wp_getp.
  apply wp_if_f; [lia|]. wp_step. apply wp_if_t; [lia|]. apply wp_mem. unfold k1, new in *.
  destruct (Z.ltb_spec (sz (P p) + d) 0) as [Hneg|Hpos].
  - assert (u64 (sz (P p) + d) = sz (P p) + d + 2 ^ 64) as ->.
    { unfold u64. symmetry. apply (Z.mod_unique _ _ (-1)); lia. }
    unfold uvmdealloc. destruct (Z.leb_spec (sz (P p)) (sz (P p) + d + 2 ^ 64)); [|lia].
    wp_step. wp_step. apply wp_setp. intros P' HP' Ho'. wp_step. split; [done|].
    exists m, P', fl, M. cbn zeta. rewrite insert_id by done. split_and!; try done.
    + rewrite HP'. by apply running_sz.
    + intros va Hva. case_decide as Hi; [|done]. by apply (proc_map_above M (trapframe (P p)) k); [lia|..].
  - rewrite u64_small by lia. rewrite Z.max_r in Hup by lia.
    destruct (PGROUNDUP_spec (sz (P p) + d)) as [Hb _]; [unfold PGSIZE; lia|]. rewrite Hup in Hb.
    assert (k' <= k)%nat as Hkk by (unfold PGSIZE in *; lia).
    wp_use (uvmdealloc_vm m fl T K pt M (sz (P p)) (sz (P p) + d) (Z.of_nat k') (k - k'));
      [done|done|done|done|lia|lia|done|intros _; rewrite Hupk; f_equal; lia|lia|intros i Hi; apply Hpm; lia|].
    intros x m' (-> & fl' & Hvm' & Hdr & Htab). rewrite Z.min_r by lia. set (M' := unmap_run (k - k') M (Z.of_nat k')) in *.
    wp_step. apply wp_setp. intros P' HP' Ho'. wp_step. split; [done|].
    assert (proc_map M' (trapframe (P p)) k') as Hpm' by (by apply proc_map_cut).
    assert (∀ r N va, T !! r = Some N → (<[pt := M']> T) !! r = Some N → 0 <= va → uread m' N va = uread m N va) as Hsame.
    { intros r N va HN HN' Hva. eapply (drops_view_at m fl T K m' fl' _ K r N N); try done. by apply (Hlow r). }
    exists m', P', fl', M'. cbn zeta. split_and!; try done; [apply Hdr| | | |].
    + intros r N [[_ <-]|[_ HN]]%lookup_insert_Some; [|by apply (Hlow r)].
      by apply (proc_map_low M' (trapframe (P p)) k'); [lia|].
    + intros r N va Hr HN Hva. apply (Hsame r); [done|by rewrite lookup_insert_ne|done].
    + rewrite HP'. split; cbn; try done; [apply lookup_insert_eq| |lia].
      by apply (kernel_page_drops m fl T K m' fl').
    + intros va Hva. case_decide as Hi; [by apply (proc_map_above M' (trapframe (P p)) k'); [lia|..]|].
      eapply (drops_view_at m fl T K m' fl' (<[pt := M']> T) K pt M M'); try done; [apply lookup_insert_eq|by apply (Hlow pt)|].
      unfold M'. rewrite unmap_run_lookup, decide_False by lia. done.
Qed.
End at_state.
End procgrow.
