(* ===== verification/Inv.v ===== *)
(** Invariants of the process table that every operation of [kernel/proc.c],
    [kernel/trap.c] and [kernel/sysproc.c] keeps.

    [kupdate] lists the updates of a [struct proc] in the code; an invariant of
    the table that these updates and [allocproc] keep is kept by everything. *)
From S2P Require Import Prelude CString Spinlock Riscv Kalloc Vm Proc Trap Sched.

(** * Table invariants *)

(** The invariant depends on the processes and on [nextpid] only. *)
Class TableInv {F : Type} (I : pstate F → Prop) : Prop :=
  table_inv : ∀ s s', ps_proc s' = ps_proc s → ps_nextpid s' = ps_nextpid s → I s → I s'.

Section table.
Context {F : Type} (I : pstate F → Prop) `{HI : !TableInv I}.

Lemma pres_modify_other (f : pstate F → pstate F) :
  (∀ s, ps_proc (f s) = ps_proc s ∧ ps_nextpid (f s) = ps_nextpid s) → preserves I (modify f).
Proof. intros H. apply pres_modify. intros s. destruct (H s) as (? & ?). by apply HI. Qed.

Lemma pres_acquire lk : preserves I (acquire lk).
Proof. unfold acquire. pres. apply pres_modify. intros s. by apply HI. Qed.

Lemma pres_release lk : preserves I (release lk).
Proof. unfold release. pres. apply pres_modify. intros s. by apply HI. Qed.

Lemma pres_onmem {A} (c : kM mach A) : preserves I (onmem c).
Proof. apply pres_zoom. intros s t. by apply HI. Qed.

Lemma pres_getp {A} i (f : proc → A) : preserves I (getp i f).
Proof. apply pres_gets. Qed.

Lemma pres_ticks : preserves I ticks.
Proof. apply pres_gets. Qed.

Lemma pres_myproc : preserves I myproc.
Proof. unfold myproc. pres. Qed.

Lemma pres_w_csr f : preserves I (w_csr f).
Proof. apply pres_modify. intros s. by apply HI. Qed.

Lemma pres_r_csr f : preserves I (r_csr f).
Proof. apply pres_gets. Qed.

Lemma pres_intr_on : preserves I intr_on.
Proof. apply pres_w_csr. Qed.
Lemma pres_intr_off : preserves I intr_off.
Proof. apply pres_w_csr. Qed.

Lemma pres_argraw n : preserves I (argraw n).
Proof. unfold argraw. pres; try apply pres_myproc; apply pres_getp || apply pres_onmem. Qed.
End table.

#[export] Hint Resolve pres_acquire pres_release pres_onmem pres_getp pres_ticks pres_myproc
  pres_w_csr pres_r_csr pres_intr_on pres_intr_off pres_argraw : pres.
#[export] Hint Extern 1 (TableInv _) => apply _ : pres.
#[export] Hint Extern 2 (preserves _ (modify _)) =>
  apply pres_modify_other; [apply _|intros; by split] : pres.

(** ** The updates of [struct proc] *)

Inductive kupdate (cfg : sched_cfg) : (proc → proc) → Prop :=
| ku_state v : kupdate cfg (λ x, x <| state := v |>)
| ku_kstack v : kupdate cfg (λ x, x <| kstack := v |>)
| ku_trapframe v : kupdate cfg (λ x, x <| trapframe := v |>)
| ku_trapcopy v : kupdate cfg (λ x, x <| trapcopy := v |>)
| ku_clear : kupdate cfg (clear_proc cfg)
| ku_noalarm : kupdate cfg (λ x, x <| sigalarm := 0 |> <| ticksn := 0 |> <| ticksp := 0 |>
    <| tickspa := 0 |> <| handler := 0 |>)
| ku_pagetable v : kupdate cfg (λ x, x <| pagetable := v |>)
| ku_context r : kupdate cfg (λ x, x <| context_ := mkContext r (u64 (kstack x + PGSIZE)) |>
    <| rtime := 0 |> <| etime := 0 |>)
| ku_ctime v : kupdate cfg (λ x, x <| ctime := v |>)
| ku_etime v : kupdate cfg (λ x, x <| etime := v |>)
| ku_sz v : kupdate cfg (λ x, x <| sz := v |>)
| ku_name l : kupdate cfg (λ x, x <| name := safestrcpy_l 16 (name x) l |>)
| ku_cwd v : kupdate cfg (λ x, x <| cwd := v |>)
| ku_mlfq_new v : kupdate cfg (λ x, x <| queue := 0 |> <| intime := v |>)
| ku_tickets v : kupdate cfg (λ x, x <| tickets := v |>)
| ku_trace t m : kupdate cfg (λ x, x <| trace := t |> <| tracemask := m |>)
| ku_ofile i v : kupdate cfg (λ x, x <| ofile := <[i := v]> (ofile x) |>)
| ku_parent v : kupdate cfg (λ x, x <| parent := v |>)
| ku_demote : kupdate cfg (λ x,
    if negb (queue x =? NQUEUE - 1) && (ticksused x >=? Z.shiftl 1 (queue x))
    then x <| queue := queue x + 1 |> else x)
| ku_requeue v : kupdate cfg (λ x, x <| intime := v |> <| ticksused := 0 |>)
| ku_tickrng v : kupdate cfg (λ x, x <| tickrng := v |>)
| ku_sleep now : kupdate cfg (pbs_sleep now)
| ku_chan v : kupdate cfg (λ x, x <| chan := v |>)
| ku_wake now : kupdate cfg (wake_proc cfg now)
| ku_killed v : kupdate cfg (λ x, x <| killed_ := v |>)
| ku_xstate v : kupdate cfg (λ x, x <| xstate := v |>)
| ku_niceness v : kupdate cfg (λ x, x <| niceness := v |>)
| ku_priority v : kupdate cfg (λ x, x <| priority := v |>)
| ku_pbs_run v : kupdate cfg (λ x, x <| state := RUNNING |> <| tickls := v |>
    <| nscheduled := nscheduled x + 1 |>)
| ku_mlfq_run : kupdate cfg (λ x, x <| ticksused := 0 |> <| waittime := 0 |> <| state := RUNNING |>)
| ku_tick : kupdate cfg (tick_proc cfg)
| ku_sigalarm f n h : kupdate cfg (λ x, x <| sigalarm := f |> <| ticksn := n |>
    <| tickspa := ticksp x |> <| handler := h |>)
| ku_sigreturn : kupdate cfg (λ x, x <| sigalarm := if ticksn x >? 0 then 1 else 0 |>
    <| tickspa := ticksp x |>)
| ku_ticksp : kupdate cfg (λ x, x <| ticksp := ticksp x + 1 |>)
| ku_alarm_off : kupdate cfg (λ x, x <| sigalarm := 0 |>)
| ku_ticksused : kupdate cfg (λ x, x <| ticksused := ticksused x + 1 |>).
#[export] Hint Constructors kupdate : pres.

(** * Process creation, for an invariant that the initialisation keeps *)

Section alloc.
Context `{KI : !KernelImage} {F : Type} (cfg : sched_cfg).
Context (I : pstate F → Prop) `{HI : !TableInv I}.
Context (Hset : ∀ p f, kupdate cfg f → preserves I (setp p f)).
Hint Resolve Hset : pres.

Lemma kinv_freeproc p : preserves I (freeproc cfg p).
Proof. unfold freeproc. pres. Qed.
Lemma kinv_proc_pagetable p : preserves I (proc_pagetable p).
Proof. unfold proc_pagetable. pres. Qed.

(** [R n] is what [allocpid] returning [n] guarantees. *)
Lemma kinv_allocproc (R : Z → pstate F → Prop) a :
  hoare I allocpid R → (∀ p n now, hoare (R n) (setp p (init_proc cfg n now)) (λ _, I)) →
  preserves I (allocproc cfg a).
Proof.
  pose proof kinv_freeproc. pose proof kinv_proc_pagetable.
  intros Hpid Hinit. unfold allocproc. apply pres_bind; [unfold find_unused; pres|]. intros [p|]; [|pres].
  eapply hoare_bind; [apply Hpid|]. intros n.
  eapply (hoare_bind _ _ _ (λ _, R n)); [by apply hoare_gets|]. intros now.
  eapply hoare_bind; [apply Hinit|]. intros ?.
  match goal with |- hoare _ ?m _ => change (preserves I m) end. unfold alloc_fail. pres.
Qed.
End alloc.

(** * Every operation keeps the invariant *)

Section kinv.
Context `{KI : !KernelImage} {F : Type}.
Context (cfg : sched_cfg) (swtch : option Z → option Z → kM (pstate F) ()) (fops : fileops F).
Context (dops : devops F) (A : asm) (sys_file : Z → option (kM (pstate F) Z)) (wtime0 rtime0 : Z).
Context (I : pstate F → Prop) `{HI : !TableInv I}.
Context (Hset : ∀ p f, kupdate cfg f → preserves I (setp p f)).
Context (Halloc : ∀ a, preserves I (allocproc cfg a)).

(** What the other threads, the file system and the drivers do in between. *)
Context (Hswtch : ∀ a b, preserves I (swtch a b)).
Context (Hdup : ∀ f, preserves I (filedup fops f)) (Hclose : ∀ f, preserves I (fileclose fops f)).
Context (Hidup : ∀ f, preserves I (idup fops f)) (Hiput : ∀ f, preserves I (iput fops f)).
Context (Hbegin : preserves I (begin_op fops)) (Hend : preserves I (end_op fops)).
Context (Hnamei : ∀ n, preserves I (namei fops n)) (Hfsinit : ∀ d, preserves I (fsinit fops d)).

Hint Resolve Hset Halloc Hswtch Hdup Hclose Hidup Hiput Hbegin Hend Hnamei Hfsinit : pres.

Lemma kinv_free p : preserves I (freeproc cfg p).
Proof. by apply kinv_freeproc. Qed.
Hint Resolve kinv_free : pres.

Lemma kinv_sched : preserves I (sched swtch).
Proof. unfold sched. pres. Qed.
Hint Resolve kinv_sched : pres.

Lemma kinv_yield : preserves I (yield cfg swtch).
Proof. unfold yield. destruct cfg; pres. Qed.
Hint Resolve kinv_yield : pres.

Lemma kinv_sleep c lk : preserves I (sleep cfg swtch c lk).
Proof. unfold sleep. destruct cfg; pres. Qed.
Hint Resolve kinv_sleep : pres.

Lemma kinv_wake p : preserves I (wake cfg p).
Proof. unfold wake. pres. Qed.
Hint Resolve kinv_wake : pres.

Lemma kinv_wakeup c : preserves I (wakeup cfg c).
Proof. unfold wakeup. pres. Qed.
Hint Resolve kinv_wakeup : pres.

Lemma kinv_kill p : preserves I (kill cfg p).
Proof. unfold kill. pres. Qed.

Lemma kinv_killed p : preserves I (killed p).
Proof. unfold killed. pres. Qed.
Lemma kinv_setkilled p : preserves I (setkilled p).
Proof. unfold setkilled. pres. Qed.
Hint Resolve kinv_kill kinv_killed kinv_setkilled : pres.

Lemma kinv_userinit a : preserves I (userinit cfg fops a).
Proof. unfold userinit. pres. Qed.

Lemma kinv_fork a : preserves I (fork cfg fops a).
Proof. unfold fork. pres. Qed.

Lemma kinv_growproc n : preserves I (growproc n).
Proof. unfold growproc. pres. Qed.
Hint Resolve kinv_userinit kinv_fork kinv_growproc : pres.

Lemma kinv_reparent p : preserves I (reparent cfg p).
Proof. unfold reparent. pres. Qed.
Hint Resolve kinv_reparent : pres.

Lemma kinv_exit n : preserves I (exit cfg swtch fops n).
Proof. unfold exit. pres. Qed.
Hint Resolve kinv_exit : pres.

Lemma kinv_wait_scan l p a k : preserves I (wait_scan cfg l p a k).
Proof. revert k. induction l as [|pp l IH]; intros k; simpl; pres. Qed.
Hint Resolve kinv_wait_scan : pres.

Lemma kinv_waitx_scan l p a k w r : preserves I (waitx_scan cfg l p a k w r).
Proof. revert k w r. induction l as [|pp l IH]; intros k w r; simpl; pres. Qed.
Hint Resolve kinv_waitx_scan : pres.

Lemma kinv_wait a : preserves I (wait cfg swtch a).
Proof. unfold wait. pres. Qed.

Lemma kinv_waitx a w r : preserves I (waitx cfg swtch a w r).
Proof. unfold waitx. pres. Qed.

Lemma kinv_set_priority a b : preserves I (set_priority cfg swtch a b).
Proof. unfold set_priority. pres. Qed.
Hint Resolve kinv_wait kinv_waitx kinv_set_priority : pres.

Lemma kinv_scan step l best :
  (∀ b p, preserves I (step b p)) → preserves I (scan step l best).
Proof. intros H. revert best. induction l as [|p l IH]; intros best; simpl; pres. Qed.

Lemma kinv_run b : preserves I (run swtch b).
Proof. unfold run. pres. Qed.
Hint Resolve kinv_run : pres.

Lemma kinv_lbs l i rn : preserves I (lbs_loop swtch l i rn).
Proof. revert i. induction l as [|p l IH]; intros i; simpl; pres. Qed.
Hint Resolve kinv_lbs : pres.

Lemma kinv_scheduler : preserves I (scheduler_round cfg swtch).
Proof.
  pose proof kinv_lbs. unfold scheduler_round, sched_pass, intr_on. destruct cfg; pres; try (apply kinv_scan; intros; unfold scan_step, mlfq_step; pres).
  unfold rand. pres.
Qed.

Lemma kinv_clockintr : preserves I (clockintr cfg).
Proof. unfold clockintr. pres. Qed.
Hint Resolve kinv_clockintr : pres.

Context (Hclaim : preserves I (plic_claim dops)) (Hcomplete : ∀ i, preserves I (plic_complete dops i)).
Context (Huart : preserves I (uartintr dops)) (Hdisk : preserves I (virtio_disk_intr dops)).
Context (Hfile : ∀ n f, sys_file n = Some f → preserves I f).
Hint Resolve Hclaim Hcomplete Huart Hdisk : pres.

Lemma kinv_devintr : preserves I (devintr cfg dops).
Proof. unfold devintr. pres. Qed.
Hint Resolve kinv_devintr : pres.

Lemma kinv_mlfq_preempt p : preserves I (mlfq_preempt cfg swtch p).
Proof. unfold mlfq_preempt. pres. Qed.
Hint Resolve kinv_mlfq_preempt : pres.

Lemma kinv_preempt p : preserves I (preempt cfg swtch p).
Proof.
  pose proof kinv_yield. pose proof (kinv_mlfq_preempt p). unfold preempt. destruct cfg; pres.
Qed.

Lemma kinv_alarm p : preserves I (alarm p).
Proof. unfold alarm. pres. Qed.

Lemma kinv_page_fault p va : preserves I (page_fault cfg swtch fops p va).
Proof. unfold page_fault, kill_and_exit. pres. Qed.

Lemma kinv_usertrapret : preserves I (usertrapret A).
Proof. unfold usertrapret. pres. Qed.
Hint Resolve kinv_preempt kinv_alarm kinv_page_fault kinv_usertrapret : pres.

Lemma kinv_syscalls n f : syscalls cfg swtch fops A sys_file wtime0 rtime0 n = Some f → preserves I f.
Proof.
  unfold syscalls. intros H.
  assert (∀ c, cfg = c → match c with PBS => Some (sys_set_priority cfg swtch) | LBS => Some sys_settickets | _ => None end = Some f →
    preserves I f) as H26.
  { intros [] _ [= <-]; [unfold sys_settickets, argint|unfold sys_set_priority, argint]; pres. }
  repeat case_match; simplify_eq; eauto; unfold sys_fork, sys_exit, sys_wait, sys_kill, sys_getpid,
    sys_sbrk, sys_sleep, sys_uptime, sys_trace, sys_sigalarm, sys_sigreturn, sys_waitx, copy_field,
    argaddr, argint; pres.
Qed.
Hint Resolve kinv_syscalls : pres.

Lemma kinv_trace_args n f : preserves I (trace_args cfg n f).
Proof.
  unfold trace_args. generalize (seqZ 0 (sysargs cfg n)). intros l.
  induction l as [|i l IH]; unfold argint in *; pres.
Qed.
Hint Resolve kinv_trace_args : pres.

Lemma kinv_syscall : preserves I (syscall cfg swtch fops A sys_file wtime0 rtime0).
Proof.
  unfold syscall. pres_step; [pres|]. pres_step; [pres|]. pres_step; [pres|]. cbn zeta.
  match goal with |- preserves _ (match ?x with _ => _ end) => destruct x as [f|] eqn:E; [|pres] end.
  assert (preserves I f) as Hf by (case_match; [by eapply kinv_syscalls|done]). pres.
Qed.
Hint Resolve kinv_syscall : pres.

Lemma kinv_usertrap : preserves I (usertrap cfg swtch fops dops A sys_file wtime0 rtime0).
Proof. unfold usertrap. pres. Qed.

Lemma kinv_kerneltrap : preserves I (kerneltrap cfg swtch dops).
Proof.
  pose proof kinv_preempt. unfold kerneltrap. pose proof kinv_devintr. destruct cfg; pres.
Qed.

Lemma kinv_forkret : preserves I (forkret fops A).
Proof. unfold forkret. pres. Qed.


(** ** The kernel as a transition system: one trap, one scheduling round or one
    boot step at a time. *)
Inductive kstep : pstate F → pstate F → Prop :=
| ks_usertrap s a s' :
    usertrap cfg swtch fops dops A sys_file wtime0 rtime0 s = Ok a s' → kstep s s'
| ks_kerneltrap s a s' : kerneltrap cfg swtch dops s = Ok a s' → kstep s s'
| ks_scheduler s a s' : scheduler_round cfg swtch s = Ok a s' → kstep s s'
| ks_forkret s a s' : forkret fops A s = Ok a s' → kstep s s'
| ks_userinit s a s' : userinit cfg fops (forkret_addr A) s = Ok a s' → kstep s s'.

Lemma kinv_reachable s s' : I s → rtc kstep s s' → I s'.
Proof.
  intros Hs Hr. induction Hr as [|s1 s2 s3 Hstep _ IH]; [done|]. apply IH.
  destruct Hstep as [? ? ? H|? ? ? H|? ? ? H|? ? ? H|? ? ? H]; revert H.
  - by apply kinv_usertrap.
  - by apply kinv_kerneltrap.
  - by apply kinv_scheduler.
  - by apply kinv_forkret.
  - by apply kinv_userinit.
Qed.

End kinv.

(** The assumptions about the environment, as a record. *)
Record env_keeps {F : Type} (swtch : option Z → option Z → kM (pstate F) ()) (fops : fileops F)
    (dops : devops F) (sys_file : Z → option (kM (pstate F) Z)) (I : pstate F → Prop) : Prop := {
  ek_swtch : ∀ a b, preserves I (swtch a b);
  ek_filedup : ∀ f, preserves I (filedup fops f);
  ek_fileclose : ∀ f, preserves I (fileclose fops f);
  ek_idup : ∀ f, preserves I (idup fops f);
  ek_iput : ∀ f, preserves I (iput fops f);
  ek_begin_op : preserves I (begin_op fops);
  ek_end_op : preserves I (end_op fops);
  ek_namei : ∀ n, preserves I (namei fops n);
  ek_fsinit : ∀ d, preserves I (fsinit fops d);
  ek_claim : preserves I (plic_claim dops);
  ek_complete : ∀ i, preserves I (plic_complete dops i);
  ek_uart : preserves I (uartintr dops);
  ek_disk : preserves I (virtio_disk_intr dops);
  ek_file : ∀ n f, sys_file n = Some f → preserves I f
}.

Lemma env_reachable `{KI : !KernelImage} {F : Type} cfg swtch (fops : fileops F) dops A sys_file w r
    (I : pstate F → Prop) `{!TableInv I} s s' :
  (∀ p f, kupdate cfg f → preserves I (setp p f)) → (∀ a, preserves I (allocproc cfg a)) →
  env_keeps swtch fops dops sys_file I → I s →
  rtc (kstep cfg swtch fops dops A sys_file w r) s s' → I s'.
Proof. intros Hset Halloc [] Hs Hr. eapply kinv_reachable; try done. Qed.
