(* ===== verification/InvTable.v ===== *)
(** Two invariants of the process table in every reachable state: under MLFQ a
    process is in one of the [NQUEUE] queues, and process identifiers are
    unique. *)
From S2P Require Import Prelude CString Spinlock Riscv Kalloc Vm Proc Trap Sched Inv.

(** * Queues *)

Definition queue_ok (x : proc) : Prop := 0 <= queue x < NQUEUE.
Definition queues_ok {F} (s : pstate F) : Prop := ∀ p, queue_ok (ps_proc s p).

#[export] Instance queues_ok_table F : TableInv (queues_ok (F := F)).
Proof. intros s s' H _ Hs p. by rewrite H. Qed.

Lemma demote_queue x : queue_ok x →
  queue_ok (if negb (queue x =? NQUEUE - 1) && (ticksused x >=? Z.shiftl 1 (queue x))
            then x <| queue := queue x + 1 |> else x).
Proof.
  unfold queue_ok, NQUEUE. intros H. destruct (negb _ && _) eqn:E; [|done]. b2p. cbn.
  destruct x; cbn in *. lia.
Qed.

Lemma tick_queue cfg x : queue_ok x → queue_ok (tick_proc cfg x).
Proof.
  unfold tick_proc, queue_ok, NQUEUE. intros H. repeat case_decide; [|destruct x; cbn in *; lia|lia].
  destruct cfg; try done. destruct x; cbn in *.
  destruct (_ >=? MAX_WAIT_TIME); cbn; [|lia].
  match goal with |- context [?a <? 0] => destruct (Z.ltb_spec a 0) end; cbn; lia.
Qed.

Lemma kupdate_queue cfg f x : kupdate cfg f → queue_ok x → queue_ok (f x).
Proof.
  intros Hf Hx. destruct Hf; try (destruct x; exact Hx).
  - destruct x, cfg; unfold queue_ok in *; cbn in *; done.
  - destruct x; done.
  - by apply demote_queue.
  - unfold pbs_sleep. case_decide; [|done]. by destruct x.
  - by destruct x, cfg.
  - by apply tick_queue.
Qed.

Lemma queues_setp {F} p f :
  (∀ x, queue_ok x → queue_ok (f x)) → preserves (queues_ok (F := F)) (setp p f).
Proof.
  intros H. apply pres_modify. intros s Hs q. cbn. destruct (q =? p); [by apply H|done].
Qed.

Lemma queues_allocproc `{KI : !KernelImage} {F} cfg a :
  preserves (queues_ok (F := F)) (allocproc cfg a).
Proof.
  apply (kinv_allocproc cfg _ (λ p f Hf, queues_setp p f (λ x, kupdate_queue cfg f x Hf)) (λ _, queues_ok)).
  - intros s n s' Hs. unfold allocpid. cbv [mbind kM_bind gets modify mret kM_ret acquire release panic].
    repeat case_match; intros; simplify_eq; done.
  - intros p n now. apply queues_setp. intros x Hx. by destruct x, cfg.
Qed.

(** * Process identifiers *)

(** [pid] 0 marks a slot without a process. *)
Record pids_ok {F} (s : pstate F) : Prop := {
  pid_next : 1 <= ps_nextpid s;
  pid_below : ∀ p, 0 <= pid (ps_proc s p) < ps_nextpid s;
  pid_unique : ∀ p q, pid (ps_proc s p) ≠ 0 → pid (ps_proc s p) = pid (ps_proc s q) → p = q
}.

#[export] Instance pids_ok_table F : TableInv (pids_ok (F := F)).
Proof. intros s s' H H' [H1 H2 H3]. split; by rewrite ?H, ?H'. Qed.

(** Updates that keep the pid or clear it. *)
Lemma pids_setp {F} p f :
  (∀ x, pid (f x) = pid x ∨ pid (f x) = 0) → preserves (pids_ok (F := F)) (setp p f).
Proof.
  intros H. apply pres_modify. intros s [H1 H2 H3].
  assert (∀ q, pid (if q =? p then f (ps_proc s q) else ps_proc s q) = pid (ps_proc s q) ∨
    pid (if q =? p then f (ps_proc s q) else ps_proc s q) = 0) as Hq
    by (intros q; destruct (q =? p); [apply H|by left]).
  split; cbn in *; [done| |].
  - intros q. destruct (Hq q) as [-> | ->]; [done|lia].
  - intros q1 q2. destruct (Hq q1) as [E1|E1], (Hq q2) as [E2|E2]; rewrite E1, E2; try done.
    apply H3.
Qed.

Lemma kupdate_pid cfg f x : kupdate cfg f → pid (f x) = pid x ∨ pid (f x) = 0.
Proof.
  intros Hf. destruct Hf; try (left; by destruct x).
  - right. by destruct x, cfg.
  - left. destruct (_ && _); by destruct x.
  - left. unfold pbs_sleep. case_decide; by destruct x.
  - left. by destruct x, cfg.
  - left. unfold tick_proc. repeat case_decide; [|by destruct x|done].
    destruct cfg; try done. destruct x; cbn. by repeat (case_match; cbn).
Qed.

(** [allocpid] hands out a pid that no process has. *)
Definition fresh_pid {F} (n : Z) (s : pstate F) : Prop :=
  pids_ok s ∧ 1 <= n < ps_nextpid s ∧ ∀ p, pid (ps_proc s p) ≠ n.

Lemma fresh_allocpid {F} : hoare (pids_ok (F := F)) allocpid fresh_pid.
Proof.
  intros s n s' [H1 H2 H3]. unfold allocpid.
  cbv [mbind kM_bind gets modify mret kM_ret acquire release panic].
  repeat case_match; intros; simplify_eq. split_and!; [split| | |]; cbn in *; try done; try lia.
  - intros p. specialize (H2 p). lia.
  - intros p E. specialize (H2 p). lia.
Qed.

Lemma fresh_init {F} cfg p n now :
  hoare (fresh_pid (F := F) n) (setp p (init_proc cfg n now)) (λ _, pids_ok).
Proof.
  apply hoare_modify. intros s ([H1 H2 H3] & Hn & Hf).
  assert (∀ x, pid (init_proc cfg n now x) = n) as Hi by (intros []; by destruct cfg).
  split; cbn; [done| |].
  - intros q. destruct (Z.eqb_spec q p); [rewrite Hi; lia|apply H2].
  - intros q1 q2. destruct (Z.eqb_spec q1 p), (Z.eqb_spec q2 p); subst; rewrite ?Hi; try done.
    + intros _ E. by destruct (Hf q2).
    + intros _ E. by destruct (Hf q1).
    + apply H3.
Qed.

Lemma pids_allocproc `{KI : !KernelImage} {F} cfg a :
  preserves (pids_ok (F := F)) (allocproc cfg a).
Proof.
  apply (kinv_allocproc cfg _ (λ p f Hf, pids_setp p f (λ x, kupdate_pid cfg f x Hf)) fresh_pid).
  - apply fresh_allocpid.
  - intros. apply fresh_init.
Qed.
