(* ===== verification/TrapOps.v ===== *)
(** Traps and system calls: signals of the alarm, page faults on shared pages,
    and the arguments and results of system calls. *)
From S2P Require Import Prelude CString Spinlock Riscv Kalloc Vm PageTable Uvm UvmOps UvmGrow.
From S2P Require Import UserCopy CowView Proc ProcState ProcMem Sched ProcNew Fork Trap.

Section trapops.
Context `{KI : !KernelImage} {F : Type}.
Implicit Types (T : gmap Z (gmap Z Z)) (M : gmap Z Z) (K : Z → Z) (st : pstate F).

(** A process with a trap frame and a page for its copy. *)
Record has_frames (x : proc) : Prop := {
  hf_tf : page_ok (trapframe x);
  hf_tc : page_ok (trapcopy x);
  hf_ne : trapframe x ≠ trapcopy x
}.

(** The [i]-th 64-bit field of a trap frame. *)
Definition field (m : mach) (tf i : Z) : Z := ld64 (m_mem m) (tf + 8 * i).

Lemma frame_ram q off n : page_ok q → 0 <= off → off + n <= tf_size → in_ram (q + off) n = true.
Proof.
  intros Hq Ho Hn. apply (in_ram_sub q PGSIZE); [by apply page_ok_ram|lia|unfold tf_size, PGSIZE in *; lia].
Qed.

Lemma kmemmove_frame dst src (Q : () → mach → Prop) m :
  page_ok dst → page_ok src → Q () (m <| m_mem := KString.memmove (m_mem m) dst src tf_size |>) →
  wp (kmemmove dst src tf_size) Q m.
Proof.
  intros Hd Hs HQ. unfold kmemmove.
  pose proof (frame_ram dst 0 tf_size Hd) as H1. pose proof (frame_ram src 0 tf_size Hs) as H2.
  rewrite Z.add_0_r in H1, H2. rewrite H1, H2 by (unfold tf_size; lia). cbn [andb]. by apply wp_modify.
Qed.

Lemma kstore_frame q off v (Q : () → mach → Prop) m :
  page_ok q → 0 <= off <= 280 → Q () (m <| m_mem := st64 (m_mem m) (q + off) v |>) →
  wp (kstore64 (q + off) v) Q m.
Proof.
  intros Hq Ho HQ. unfold kstore64. rewrite frame_ram by (done || unfold tf_size; lia). by apply wp_modify.
Qed.

Lemma kload_frame q off (Q : Z → mach → Prop) m :
  page_ok q → 0 <= off <= 280 → Q (ld64 (m_mem m) (q + off)) m → wp (kload64 (q + off)) Q m.
Proof.
  intros Hq Ho HQ. unfold kload64. rewrite frame_ram by (done || unfold tf_size; lia). by apply wp_gets.
Qed.

(** Frames in different pages do not overlap. *)
Lemma frame_other q q' off i v m :
  page_ok q → page_ok q' → q ≠ q' → 0 <= off <= 280 → 0 <= i < 36 →
  ld64 (st64 m (q + off) v) (q' + 8 * i) = ld64 m (q' + 8 * i).
Proof.
  intros [Hq _] [Hq' _] Hne Ho Hi. apply ld64_st64_ne.
  destruct (aligned_disjoint q q' Hq Hq' Hne); unfold PGSIZE in *; lia.
Qed.

Lemma frame_move_other q q' src i m :
  page_ok q → page_ok q' → q ≠ q' → 0 <= i < 36 →
  ld64 (KString.memmove m q src tf_size) (q' + 8 * i) = ld64 m (q' + 8 * i).
Proof.
  intros [Hq _] [Hq' _] Hne Hi. apply ld64_ext. intros x Hx. rewrite memmove_spec by (unfold tf_size; lia).
  destruct (_ && _) eqn:E; [|done]. b2p.
  destruct (aligned_disjoint q q' Hq Hq' Hne); unfold tf_size, PGSIZE in *; lia.
Qed.

(** ** Alarms *)

(** The alarm of a timer interrupt goes off. *)
Definition alarm_due (x : proc) : bool :=
  (ticksn x >? 0) && (ticksp x + 1 - tickspa x =? ticksn x) && truth (sigalarm x).

Lemma alarm_spec p st m P n t f :
  has_frames (P p) →
  wp (alarm p) (λ _ st', ∃ m' P', st' = pst st m' P' n t f ∧ (∀ q, q ≠ p → P' q = P q) ∧
    let x := P p <| ticksp := ticksp (P p) + 1 |> in
    let tf := trapframe x in
    if alarm_due (P p) then
      P' p = x <| sigalarm := 0 |> ∧
      (∀ i, 0 <= i < 36 → field m' (trapcopy x) i = field m tf i) ∧
      (∀ i, 0 <= i < 36 → field m' tf i = if i =? 3 then u64 (handler x) else field m tf i)
    else P' p = x ∧ m' = m) (pst st m P n t f).
Proof.
  intros [Htf Htc Hne]. unfold alarm. wp_step. apply wp_setp. intros P1 HP1 Ho1. wp_step. wp_step. cbn beta.
  change (ps_proc (pst st m P1 n t f) p) with (P1 p). rewrite HP1. unfold alarm_due.
  change (ticksn (P p <| ticksp := ticksp (P p) + 1 |>)) with (ticksn (P p)).
  change (ticksp (P p <| ticksp := ticksp (P p) + 1 |>)) with (ticksp (P p) + 1).
  change (tickspa (P p <| ticksp := ticksp (P p) + 1 |>)) with (tickspa (P p)).
  change (sigalarm (P p <| ticksp := ticksp (P p) + 1 |>)) with (sigalarm (P p)).
  destruct (_ && _ && _); [apply wp_when_t; [done|]|apply wp_when_f; [done|]].
  2: { exists m, P1. by split_and!. }
  wp_step. apply wp_setp. intros P2 HP2 Ho2. wp_step. apply wp_mem.
  apply kmemmove_frame; [done|done|]. apply wp_mem. apply kstore_frame; [done|unfold tf_epc; lia|].
  eexists _, P2. split; [done|]. split; [intros q Hq; by rewrite Ho2, Ho1|]. cbn zeta.
  split_and!; [by rewrite HP2, HP1| |]; intros i Hi; unfold field; cbn.
  - rewrite frame_other by (done || unfold tf_epc; lia). by rewrite ld64_memmove by (unfold tf_size; lia).
  - destruct (Z.eqb_spec i 3) as [->|Hi3].
    + by rewrite ld64_st64_eq.
    + rewrite ld64_st64_ne by (unfold tf_epc; lia). by rewrite frame_move_other.
Qed.

(** The fields of the trap frame that belong to the kernel: satp, stack
    pointer, trap handler and hart. *)
Definition kernel_field (i : Z) : bool := (i =? 0) || (i =? 1) || (i =? 2) || (i =? 4).

Lemma copy_field_spec dst src i st m P n t f (Q : () → pstate F → Prop) :
  page_ok dst → page_ok src → 0 <= i <= 35 →
  Q () (pst st (m <| m_mem := st64 (m_mem m) (dst + 8 * i) (field m src i) |>) P n t f) →
  wp (copy_field dst src (8 * i)) Q (pst st m P n t f).
Proof.
  intros Hd Hs Hi HQ. unfold copy_field. wp_step. apply wp_mem. apply kload_frame; [done|lia|].
  apply wp_mem. by apply kstore_frame; [|lia|].
Qed.

(** Storing a field of another frame. *)
Lemma field_store m q q' i j v :
  page_ok q → page_ok q' → 0 <= i < 36 → 0 <= j < 36 → 0 <= v < 2 ^ 64 →
  field (m <| m_mem := st64 (m_mem m) (q + 8 * i) v |>) q' j =
  if (q' =? q) && (j =? i) then v else field m q' j.
Proof.
  intros Hq Hq' Hi Hj Hv. unfold field. cbn. destruct (Z.eqb_spec q' q) as [->|Hne]; cbn [andb].
  - destruct (Z.eqb_spec j i) as [->|Hji]; [by apply ld64_st64_same|]. apply ld64_st64_ne. lia.
  - apply frame_other; try done. lia.
Qed.

Lemma field_unlock m h q i : field (m <| m_held := h |>) q i = field m q i.
Proof. done. Qed.

Lemma field_layer m tc tf k j :
  page_ok tc → page_ok tf → tf ≠ tc → 0 <= k < 36 → 0 <= j < 36 →
  field (m <| m_mem := st64 (m_mem m) (tc + 8 * k) (field m tf k) |>) tc j =
  if j =? k then field m tf k else field m tc j.
Proof. intros ?????. rewrite field_store by (done || apply ld64_range). by rewrite Z.eqb_refl. Qed.

Lemma field_frame m tc tf k j :
  page_ok tc → page_ok tf → tf ≠ tc → 0 <= k < 36 → 0 <= j < 36 →
  field (m <| m_mem := st64 (m_mem m) (tc + 8 * k) (field m tf k) |>) tf j = field m tf j.
Proof.
  intros ?? Hne ??. rewrite field_store by (done || apply ld64_range).
  by apply Z.eqb_neq in Hne as ->.
Qed.

Lemma sigreturn_spec p st m P n t f :
  let x := P p in has_frames x → ps_cur st = Some p → ProcLock p ∉ m_held m →
  wp sys_sigreturn (λ r st', ∃ m' P', st' = pst st m' P' n t f ∧ m_held m' = m_held m ∧
    (∀ i, 0 <= i < 36 → field m' (trapframe x) i =
       if kernel_field i then field m (trapframe x) i else field m (trapcopy x) i) ∧
    r = field m (trapcopy x) 14 ∧
    P' p = x <| sigalarm := if ticksn x >? 0 then 1 else 0 |> <| tickspa := ticksp x |> ∧
    ∀ q, q ≠ p → P' q = P q) (pst st m P n t f).
Proof.
  intros x [Htf Htc Hne] Hcur Hl. unfold sys_sigreturn, myproc. wp_step. wp_step. wp_step.
  change (ps_cur (pst st m P n t f)) with (ps_cur st). rewrite Hcur. wp_step. cbn beta.
  wp_step. apply wp_acquire; [done|]. set (m0 := m <| m_held := _ |>).
  wp_step. apply wp_getp. wp_step. apply wp_getp. fold x. set (tf := trapframe x) in *. set (tc := trapcopy x) in *.
  wp_step. apply (copy_field_spec tc tf 4); [done|done|lia|]. set (m1 := m0 <| m_mem := _ |>).
  wp_step. apply (copy_field_spec tc tf 0); [done|done|lia|]. set (m2 := m1 <| m_mem := _ |>).
  wp_step. apply (copy_field_spec tc tf 1); [done|done|lia|]. set (m3 := m2 <| m_mem := _ |>).
  wp_step. apply (copy_field_spec tc tf 2); [done|done|lia|]. set (m4 := m3 <| m_mem := _ |>).
  wp_step. apply wp_mem. apply kmemmove_frame; [done|done|]. set (m5 := m4 <| m_mem := _ |>).
  assert (∀ i, 0 <= i < 36 → field m5 tf i = if kernel_field i then field m tf i else field m tc i) as H5.
  { intros i Hi. transitivity (field m4 tc i); [apply (ld64_memmove (m_mem m4) tf tc tf_size (8 * i)); unfold tf_size; lia|].
    assert (∀ j, 0 <= j < 36 → field m1 tf j = field m0 tf j) as B1 by (intros j Hj; apply field_frame; done || lia).
    assert (∀ j, 0 <= j < 36 → field m2 tf j = field m0 tf j) as B2
      by (intros j Hj; rewrite <- B1 by done; apply field_frame; done || lia).
    assert (∀ j, 0 <= j < 36 → field m3 tf j = field m0 tf j) as B3
      by (intros j Hj; rewrite <- B2 by done; apply field_frame; done || lia).
    assert (field m4 tc i = if i =? 2 then field m3 tf 2 else field m3 tc i) as -> by (apply field_layer; done || lia).
    assert (field m3 tc i = if i =? 1 then field m2 tf 1 else field m2 tc i) as -> by (apply field_layer; done || lia).
    assert (field m2 tc i = if i =? 0 then field m1 tf 0 else field m1 tc i) as -> by (apply field_layer; done || lia).
    assert (field m1 tc i = if i =? 4 then field m0 tf 4 else field m0 tc i) as -> by (apply field_layer; done || lia).
    rewrite B1, B2, B3 by lia.
    unfold kernel_field. change (field m0) with (field m).
    destruct (Z.eqb_spec i 0), (Z.eqb_spec i 1), (Z.eqb_spec i 2), (Z.eqb_spec i 4); subst; done || lia. }
  wp_step. apply wp_setp. intros P1 HP1 Ho1. wp_step. eapply wp_release; [done|done|].
  apply wp_mem. apply (kload_frame tf tf_a0); [done|unfold tf_a0; lia|].
  eexists _, P1. split; [done|]. split; [|split; [|split; [|split]]]; [| | |exact HP1|exact Ho1].
  - reflexivity.
  - intros i Hi. fold tf tc. rewrite field_unlock. by apply H5.
  - fold tc. change (field m5 tf 14 = field m tc 14). by rewrite H5.
Qed.

(** ** Page faults *)

(** The address is outside the space or next to the user's stack pointer. *)
Definition fault_refused (m : mach) (x : proc) (va : Z) : bool :=
  let base := PGROUNDDOWN (field m (trapframe x) 6) in
  (MAXVA <=? va) || ((u64 (base - PGSIZE) <=? va) && (va <=? base)).

Section fault.
  Context (cfg : sched_cfg) (swtch : option Z → option Z → kM (pstate F) ()) (fops : fileops F).

Lemma load_sp p st m P n t f :
  page_ok (trapframe (P p)) →
  onmem (kload64 (trapframe (P p) + tf_sp)) (pst st m P n t f) =
  Ok (field m (trapframe (P p)) 6) (pst st m P n t f).
Proof.
  intros Htf. unfold onmem, zoom, kload64. by rewrite frame_ram by (done || unfold tf_sp, tf_size; lia).
Qed.

Lemma page_fault_refused p va st m P n t f :
  page_ok (trapframe (P p)) → fault_refused m (P p) va = true →
  page_fault cfg swtch fops p va (pst st m P n t f) = kill_and_exit cfg swtch fops p (pst st m P n t f).
Proof.
  intros Htf Hr. unfold page_fault.
  erewrite bind_ok; [|reflexivity]. cbn [ps_proc pst].
  rewrite (bind_ok _ _ _ _ _ (load_sp p st m P n t f Htf)). unfold fault_refused in Hr. by rewrite Hr.
Qed.

(** What the handler does with a fault: kill and exit, mark the process as
    killed, or copy the shared page of an entry. *)
Inductive fault_action := FKill | FMark | FCopy (pte : Z).

Definition fault_case (m : mach) (x : proc) M (va : Z) : fault_action :=
  if fault_refused m x va then FKill else
  match M !! (va / PGSIZE) with
  | None => FKill
  | Some pte =>
      if negb (truth (Z.land pte PTE_U)) then FKill else
      if truth (Z.land pte PTE_C) then FCopy pte else FMark
  end.

(** The copy of a shared page, whose entry is at [a]. *)
Definition fault_copy (p a pte : Z) : kM (pstate F) () :=
  m ← onmem kalloc;
  if m =? 0 then kill_and_exit cfg swtch fops p else
  onmem (kmemmove m (PTE2PA pte) PGSIZE) ;;
  onmem (kstore64 a (Z.lor (PA2PTE m) (break_flags (PTE_FLAGS pte)))) ;;
  onmem (kfree (PTE2PA pte)).

Lemma onmem_ok {A} (c : kM mach A) a m st P n t f :
  c m = Ok a m → onmem c (pst st m P n t f) = Ok a (pst st m P n t f).
Proof. intros H. unfold onmem, zoom. cbn [ps_m pst]. by rewrite H. Qed.

Lemma flag_of_flags pte i : 0 <= i < 10 →
  truth (Z.land (PTE_FLAGS pte) (Z.shiftl 1 i)) = truth (Z.land pte (Z.shiftl 1 i)).
Proof. intros Hi. by rewrite truth_land_pow2, truth_flag by lia. Qed.

Lemma page_fault_cases p va M st m P n t f :
  page_ok (trapframe (P p)) → aspace m (pagetable (P p)) M → 0 <= va →
  let here := pst st m P n t f in
  match fault_case m (P p) M va with
  | FKill => page_fault cfg swtch fops p va here = kill_and_exit cfg swtch fops p here
  | FMark => page_fault cfg swtch fops p va here = setkilled p here
  | FCopy pte => ∃ a, leaf_addr (m_mem m) (pagetable (P p)) (PGROUNDDOWN va) = Some a ∧ in_ram a 8 = true ∧
      page_fault cfg swtch fops p va here = fault_copy p a pte here
  end.
Proof.
  intros Htf Ha Hva here. subst here. unfold fault_case.
  destruct (fault_refused m (P p) va) eqn:Hr; [by apply page_fault_refused|].
  pose proof Hr as Hmax. unfold fault_refused in Hmax. apply orb_false_iff in Hmax as [Hmax%Z.leb_gt _].
  destruct (PGROUNDDOWN_vpn va Hva) as [Hvpn Hrd].
  unfold page_fault. erewrite bind_ok; [|reflexivity]. rewrite (bind_ok _ _ _ _ _ (load_sp p st m P n t f Htf)).
  unfold fault_refused in Hr. rewrite Hr. erewrite bind_ok; [|reflexivity].
  change (ps_proc (pst st m P n t f) p) with (P p).
  erewrite bind_ok; [|apply onmem_ok, walk_pure; [apply Ha|lia]].
  pose proof (as_leaf _ _ _ Ha (PGROUNDDOWN va) ltac:(lia)) as Hl. unfold leaf_pte in Hl. rewrite Hvpn in Hl.
  destruct (leaf_addr (m_mem m) (pagetable (P p)) (PGROUNDDOWN va)) as [a|] eqn:El.
  - destruct (leaf_addr_ok _ _ a m (as_wf _ _ _ Ha) El) as (Hram & Hpos & _).
    change (default 0 (Some a)) with a.
    destruct (Z.eqb_spec a 0) as [|_]; [lia|].
    erewrite bind_ok; [|apply onmem_ok; unfold kload64; by rewrite Hram]. rewrite Hl.
    change PTE_V with (Z.shiftl 1 0). change PTE_U with (Z.shiftl 1 4). change PTE_C with (Z.shiftl 1 5).
    rewrite !flag_of_flags by lia. destruct (M !! (va / PGSIZE)) as [pte|] eqn:EM; [change (default 0 (Some pte)) with pte|done].
    destruct (as_valid _ _ _ Ha _ _ EM) as [HV _]. change PTE_V with (Z.shiftl 1 0) in HV. rewrite HV. cbn [negb].
    destruct (truth (Z.land pte (Z.shiftl 1 4))); cbn [negb]; [|done].
    destruct (truth (Z.land pte (Z.shiftl 1 5))); [|done]. by exists a.
  - destruct (M !! (va / PGSIZE)) as [pte|] eqn:EM; [|done]. simpl in Hl. subst pte.
    by destruct (as_valid _ _ _ Ha _ _ EM).
Qed.

(** Breaking the sharing of a page: the space of the process keeps its
    contents, its entry becomes writable, no other process notices. *)
Record unshared (m : mach) T (r va : Z) M (m' : mach) (pte' : Z) : Prop := {
  us_held : m_held m' = m_held m;
  us_write : truth (Z.land pte' PTE_W) = true;
  us_user : truth (Z.land pte' PTE_U) = true;
  us_cow : truth (Z.land pte' PTE_C) = false;
  us_one : m_pgrc m' (PTE2PA pte' / PGSIZE) = 1;
  us_view : ∀ va', 0 <= va' → uread m' (<[va / PGSIZE := pte']> M) va' = uread m M va';
  us_others : others_same m T r m'
}.

Lemma broken_unshared s fl T K r M va pte p s' :
  vm s fl T K → kpos K → all_low T → T !! r = Some M → M !! (va / PGSIZE) = Some pte →
  truth (Z.land pte PTE_U) = true → broken s T s' (PTE2PA pte) p →
  unshared s T r va M s' (break_pte p pte).
Proof.
  intros Hvm HK Hlow HT HM HU Hbk.
  assert (owned (va / PGSIZE) = true) as Ho by (by apply (Hlow r M HT _ pte)).
  destruct (break_pte_ok p pte (bk_page _ _ _ _ _ Hbk)) as (_ & Hpa & Hbit).
  destruct (broken_view s fl T K r M va pte p s') as (Hv1 & Hv2 & _); try done.
  change PTE_U with (Z.shiftl 1 4) in HU.
  split; try done; [apply Hbk|..|rewrite Hpa; apply Hbk].
  - change PTE_W with (Z.shiftl 1 2). rewrite Hbit by lia. by rewrite orb_true_r.
  - change PTE_U with (Z.shiftl 1 4). rewrite Hbit by lia. by rewrite HU.
  - change PTE_C with (Z.shiftl 1 5). rewrite Hbit by lia. by rewrite andb_false_r.
Qed.

Lemma page_fault_copies p va M T K fl pte st m P n t f :
  let r := pagetable (P p) in
  vm m fl T K → kpos K → alloc_unlocked m → all_low T → T !! r = Some M →
  page_ok (trapframe (P p)) → 0 <= va → fault_case m (P p) M va = FCopy pte → fl ≠ [] →
  wp (page_fault cfg swtch fops p va) (λ _ st', ∃ m' fl' pte', st' = pst st m' P n t f ∧
    vm m' fl' (<[r := <[va / PGSIZE := pte']> M]> T) K ∧ unshared m T r va M m' pte')
    (pst st m P n t f).
Proof.
  intros r Hvm HK Hu Hlow HT Htf Hva Hc Hfl. pose proof (vm_space _ _ _ _ Hvm r M HT) as Ha.
  pose proof (page_fault_cases p va M st m P n t f Htf Ha Hva) as Hpf. cbn zeta in Hpf. rewrite Hc in Hpf.
  destruct Hpf as (a & Hl & Hram & Hpf). unfold wp at 1. rewrite Hpf.
  unfold fault_case, fault_refused in Hc. destruct (Z.leb_spec MAXVA va) as [|Hmax]; [done|].
  destruct (_ || _); [done|]. destruct (M !! (va / PGSIZE)) as [pte0|] eqn:HM; [|done].
  destruct (truth (Z.land pte0 PTE_U)) eqn:HU; [|done]. destruct (truth (Z.land pte0 PTE_C)) eqn:HC; [|done].
  injection Hc as ->. destruct (PGROUNDDOWN_vpn va Hva) as [Hvpn Hrd]. destruct fl as [|q fl]; [done|].
  change (wp (fault_copy p a pte) (λ _ st', ∃ m' fl' pte', st' = pst st m' P n t f ∧
    vm m' fl' (<[r := <[va / PGSIZE := pte']> M]> T) K ∧ unshared m T r va M m' pte') (pst st m P n t f)).
  assert (owned (va / PGSIZE) = true) as Ho by (by apply (Hlow r M HT _ pte)).
  unfold fault_copy. wp_step. apply wp_mem.
  eapply wp_mono; [eapply (cow_break m fl T K r M (PGROUNDDOWN va) a pte q (mret ()) (λ _ m', ∃ fl',
    vm m' fl' (<[r := <[va / PGSIZE := break_pte q pte]> M]> T) K ∧ broken m T m' (PTE2PA pte) q))|];
    rewrite ?Hvpn; try done; [lia|intros m' fl' Hvm' Hbk _; wp_step; by exists fl'|].
  intros q' m1 (-> & Hq0 & Hw). apply Z.eqb_neq in Hq0 as ->. wp_step. apply wp_mem.
  apply wp_bind_inv in Hw. eapply wp_mono; [exact Hw|]. intros [] m2 Hw2. cbn beta in Hw2. wp_step. apply wp_mem.
  apply wp_bind_inv in Hw2. eapply wp_mono; [exact Hw2|]. intros [] m3 Hw3. cbn beta in Hw3. apply wp_mem.
  apply wp_bind_inv in Hw3. eapply wp_mono; [exact Hw3|]. intros [] m4 (fl' & Hvm' & Hbk).
  exists m4, fl', (break_pte q pte). split_and!; [done|done|]. by eapply broken_unshared.
Qed.

Lemma page_fault_oom p va M T K pte st m P n t f :
  vm m [] T K → alloc_unlocked m → T !! pagetable (P p) = Some M →
  page_ok (trapframe (P p)) → 0 <= va → fault_case m (P p) M va = FCopy pte →
  page_fault cfg swtch fops p va (pst st m P n t f) = kill_and_exit cfg swtch fops p (pst st m P n t f).
Proof.
  intros Hvm Hu HT Htf Hva Hc. pose proof (vm_space _ _ _ _ Hvm _ M HT) as Ha.
  pose proof (page_fault_cases p va M st m P n t f Htf Ha Hva) as Hpf. cbn zeta in Hpf. rewrite Hc in Hpf.
  destruct Hpf as (a & _ & _ & ->). unfold fault_copy.
  erewrite bind_ok; [|apply onmem_ok, kalloc_empty; [apply Hvm|done]]. done.
Qed.
End fault.
End trapops.
