(* ===== verification/SyscallOps.v ===== *)
(** System calls and the clock: arguments in registers and in user memory,
    dispatch by number, the return from an alarm, the return to user space and
    the clock tick. *)
From S2P Require Import Prelude CString Spinlock Riscv Kalloc Vm PageTable Uvm UvmOps UvmGrow.
From S2P Require Import UserCopy CowView Proc ProcState ProcMem Sched ProcOps ProcNew Fork Trap TrapOps.

Section sysops.
Context `{KI : !KernelImage} {F : Type}.
Context (cfg : sched_cfg) (swtch : option Z → option Z → kM (pstate F) ()) (fops : fileops F).
Context (A : asm) (sys_file : Z → option (kM (pstate F) Z)) (wtime0 rtime0 : Z).
Implicit Types (T : gmap Z (gmap Z Z)) (M : gmap Z Z) (K : Z → Z) (st : pstate F).

Abbreviation table := (syscalls cfg swtch fops A sys_file wtime0 rtime0).
Abbreviation syscall := (syscall cfg swtch fops A sys_file wtime0 rtime0).

Section at_state.
Context (p : Z) (st : pstate F) (m : mach) (P : Z → proc) (n t : Z) (f : F).
Context (Hcur : ps_cur st = Some p).
Abbreviation here := (pst st m P n t f).

Lemma myproc_here (Q : Z → pstate F → Prop) : Q p here → wp myproc Q here.
Proof using Hcur.
  intros HQ. unfold myproc. wp_step. wp_step. change (ps_cur here) with (ps_cur st). rewrite Hcur. by wp_step.
Qed.

(** ** Arguments *)

Lemma argraw_spec i (Q : Z → pstate F → Prop) :
  page_ok (trapframe (P p)) → 0 <= i <= 5 → Q (field m (trapframe (P p)) (14 + i)) here → wp (argraw i) Q here.
Proof using Hcur.
  intros Htf Hi HQ. unfold argraw. wp_step. apply myproc_here. wp_step. apply wp_getp.
  assert ((0 <=? i) && (i <=? 5) = true) as -> by lia. apply wp_mem. apply kload_frame; [done|unfold tf_a, tf_a0; lia|].
  unfold field in HQ. by replace (8 * (14 + i)) with (tf_a i) in HQ by (unfold tf_a, tf_a0; lia).
Qed.

Lemma argraw_panics i : i < 0 ∨ 5 < i → argraw i here = Panic "argraw".
Proof using Hcur.
  intros Hi. unfold argraw, myproc. krun. rewrite Hcur.
  destruct (Z.leb_spec 0 i), (Z.leb_spec i 5); cbn [andb]; lia || done.
Qed.

(** [fetchaddr]: the whole word lies below the size of the process, also when
    [addr + 8] wraps around. *)
Lemma fetchaddr_spec addr T K fl M :
  vm m fl T K → T !! pagetable (P p) = Some M → user_low M → 0 <= addr < 2 ^ 64 → 0 <= sz (P p) <= MAXVA →
  wp (fetchaddr addr) (λ x st', st' = here ∧
    ((x.1 = 0 ∧ addr + 8 <= sz (P p) ∧ length x.2 = 8%nat ∧ ureads m M addr x.2) ∨
     (x.1 = -1 ∧ (sz (P p) < addr + 8 ∨ ∃ i, 0 <= i < 8 ∧ uread m M (addr + i) = None)))) here.
Proof using Hcur.
  intros Hvm HT Hlow Ha Hsz. unfold fetchaddr. wp_step. apply myproc_here. wp_step. apply wp_getp.
  destruct (_ || _) eqn:E.
  { wp_step. split; [done|]. right. split; [done|]. left. apply orb_true_iff in E as [?%Z.leb_le|E]; [lia|].
    rewrite Z.gtb_ltb in E. apply Z.ltb_lt in E. pose proof (Z.mod_le (addr + 8) (2 ^ 64)). unfold u64 in E. lia. }
  apply orb_false_iff in E as [E1%Z.leb_gt E2]. wp_step. apply wp_getp. wp_step. apply wp_mem.
  wp_use (copyin_spec m fl T K _ M addr 8); try done; try lia. intros [r l] m' (-> & Hr & Hres). cbn [fst snd] in *.
  assert (addr + 8 <= sz (P p)) as Hfit.
  { rewrite Z.gtb_ltb in E2. apply Z.ltb_ge in E2. rewrite u64_small in E2; [done|].
    change MAXVA with (2 ^ 38) in Hsz. lia. }
  destruct Hres as [[-> Hl]|(-> & Hl & Hn)];
    [apply wp_if_f; [done|]|apply wp_if_t; [done|]]; apply wp_ret; (split; [done|]).
  - left. cbn. split_and!; done || lia.
  - right. split; [done|]. right. exists (Z.of_nat (length l)). split; [lia|done].
Qed.

(** ** Dispatch *)

(** An unknown number returns -1 in [a0] and changes nothing else. *)
Lemma syscall_unknown :
  let tf := trapframe (P p) in
  let num := i32 (field m tf 21) in
  page_ok tf → num <= 0 ∨ table num = None →
  wp syscall (λ _ st', st' = pst st (m <| m_mem := st64 (m_mem m) (tf + 8 * 14) (2 ^ 64 - 1) |>) P n t f) here.
Proof using Hcur.
  intros tf num Htf Hnum. unfold Trap.syscall. wp_step. apply myproc_here. wp_step. apply wp_getp. fold tf.
  wp_step. apply wp_mem. apply kload_frame; [done|unfold tf_a7; lia|]. cbn zeta.
  change (i32 (ld64 (m_mem m) (tf + tf_a7))) with num.
  assert ((if num >? 0 then table num else None) = None) as ->
    by (destruct Hnum as [?| ->]; destruct (num >? 0) eqn:?; done || lia).
  wp_step. apply wp_mem. apply kstore_frame; [done|unfold tf_a0; lia|]. by wp_step.
Qed.

(** The system call [sigreturn] restores the registers of the saved frame. *)
Lemma syscall_sigreturn :
  let x := P p in has_frames x → ProcLock p ∉ m_held m → i32 (field m (trapframe x) 21) = 24 →
  wp syscall (λ _ st', ∃ m' P', st' = pst st m' P' n t f ∧ m_held m' = m_held m ∧
    (∀ i, 0 <= i < 36 → field m' (trapframe x) i =
       if kernel_field i then field m (trapframe x) i else field m (trapcopy x) i) ∧
    P' p = x <| sigalarm := if ticksn x >? 0 then 1 else 0 |> <| tickspa := ticksp x |> ∧
    ∀ q, q ≠ p → P' q = P q) here.
Proof using Hcur.
  intros x Hf Hl Hnum. destruct (Hf) as [Htf Htc Hne]. unfold Trap.syscall. wp_step. apply myproc_here. wp_step. apply wp_getp.
  fold x. wp_step. apply wp_mem. apply kload_frame; [done|unfold tf_a7; lia|]. cbn zeta.
  change (i32 (ld64 (m_mem m) (trapframe x + tf_a7))) with (i32 (field m (trapframe x) 21)). rewrite Hnum.
  change (if 24 >? 0 then table 24 else None) with (Some (sys_sigreturn (F:=F))). cbv beta iota.
  wp_step. apply wp_mem. apply kload_frame; [done|unfold tf_a0; lia|]. wp_step. 
  wp_use (sigreturn_spec p st m P n t f); [done|done|done|].
  intros r st' (m' & P' & -> & Hh & Hfld & -> & HP & Ho). fold x in Hfld, HP |- *. wp_step. apply wp_getp.
  rewrite HP. change (trapframe (x <| sigalarm := _ |> <| tickspa := _ |>)) with (trapframe x).
  wp_step. apply wp_mem. apply kstore_frame; [done|unfold tf_a0; lia|].
  set (m2 := m' <| m_mem := _ |>).
  assert (∀ i, 0 <= i < 36 → field m2 (trapframe x) i = field m' (trapframe x) i) as H2.
  { intros i Hi. unfold m2. change tf_a0 with (8 * 14).
    rewrite field_store by (done || lia || apply ld64_range). rewrite Z.eqb_refl. cbn [andb].
    destruct (Z.eqb_spec i 14) as [->|]; [|done]. by rewrite Hfld. }
  wp_step. apply wp_getp. wp_step. apply wp_getp.
  destruct (_ && _).
  - wp_step. unfold trace_args. change (seqZ 0 (sysargs cfg 24)) with (@nil Z). cbv iota beta fix.
    wp_step. wp_step. apply wp_mem. apply kload_frame; [done|unfold tf_a0; lia|].
    wp_step. apply wp_getp. wp_step. exists m2, P'. split_and!; [done|done| |done|done].
    intros i Hi. by rewrite H2, Hfld.
  - wp_step. exists m2, P'. split_and!; [done|done| |done|done]. intros i Hi. by rewrite H2, Hfld.
Qed.
End at_state.

(** ** Alarms, end to end *)

(** When the alarm goes off the user runs its handler with alarms masked; the
    [sigreturn] of the handler gives back every register that was saved. *)
Lemma alarm_then_sigreturn p st m P n t f :
  let x := P p in
  has_frames x → alarm_due x = true →
  wp (alarm p) (λ _ st1,
    sigalarm (ps_proc st1 p) = 0 ∧ field (ps_m st1) (trapframe x) 3 = u64 (handler x) ∧
    ∀ st2, ps_cur st2 = Some p → ProcLock p ∉ m_held (ps_m st2) →
      trapframe (ps_proc st2 p) = trapframe x → trapcopy (ps_proc st2 p) = trapcopy x →
      (∀ i, 0 <= i < 36 → field (ps_m st2) (trapcopy x) i = field (ps_m st1) (trapcopy x) i) →
      i32 (field (ps_m st2) (trapframe x) 21) = 24 →
      wp syscall (λ _ st3, ∀ i, 0 <= i < 36 → field (ps_m st3) (trapframe x) i =
        if kernel_field i then field (ps_m st2) (trapframe x) i else field m (trapframe x) i) st2)
    (pst st m P n t f).
Proof.
  intros x Hf Hdue. wp_use alarm_spec; [done|]. intros _ st1 (m1 & P1 & -> & Ho & Hx).
  cbn zeta in Hx. change (P p) with x in Hx. rewrite Hdue in Hx. destruct Hx as (HP1 & Hcopy & Hframe).
  cbn [ps_proc ps_m pst]. rewrite HP1. split_and!; [done|exact (Hframe 3 ltac:(lia))|].
  intros st2 Hcur Hl Htf Htc Hsame Hnum. rewrite (pst_eq st2).
  destruct Hf as [Hf1 Hf2 Hf3].
  wp_use (syscall_sigreturn p st2); [done|split; by rewrite ?Htf, ?Htc|done|by rewrite Htf|].
  intros r st3 (m3 & P3 & -> & _ & Hres & _) i Hi. cbn [ps_m pst]. rewrite Htf, Htc in Hres. rewrite Hres by done.
  destruct (kernel_field i); [done|]. rewrite Hsame by done. by apply Hcopy.
Qed.

(** ** Returning to user space *)

(** The kernel's fields of the trap frame for the next trap. *)
Definition kernel_value (c : csr) (x : proc) (i : Z) : Z :=
  if i =? 0 then satp c else if i =? 1 then kstack x + PGSIZE
  else if i =? 2 then usertrap_pc A else tp c.

Lemma wp_w_csr g st m P n t f (Q : () → pstate F → Prop) :
  Q () (pst (st <| ps_csr := g (ps_csr st) |>) m P n t f) → wp (w_csr g) Q (pst st m P n t f).
Proof. done. Qed.

Lemma wp_r_csr g st m P n t f (Q : Z → pstate F → Prop) :
  Q (g (ps_csr st)) (pst st m P n t f) → wp (r_csr g) Q (pst st m P n t f).
Proof. done. Qed.

Definition user_status (ss : Z) : Z :=
  Z.lor (Z.land (Z.land ss (Z.lnot SSTATUS_SIE)) (Z.lnot SSTATUS_SPP)) SSTATUS_SPIE.

Lemma user_status_bits ss :
  truth (Z.land (user_status ss) SSTATUS_SPP) = false ∧ truth (Z.land (user_status ss) SSTATUS_SIE) = false ∧
  truth (Z.land (user_status ss) SSTATUS_SPIE) = true.
Proof.
  unfold user_status, SSTATUS_SPP, SSTATUS_SIE, SSTATUS_SPIE.
  rewrite !truth_land_pow2, !Z.lor_spec, !Z.land_spec, !Z.lnot_spec, !flag_bit by lia. cbn.
  by rewrite !andb_false_r, !orb_true_r.
Qed.

Lemma usertrapret_spec p st m P n t f :
  let x := P p in let c := ps_csr st in
  ps_cur st = Some p → page_ok (trapframe x) → 0 <= kstack x < 2 ^ 64 - PGSIZE →
  0 <= satp c < 2 ^ 64 → 0 <= tp c < 2 ^ 64 → 0 <= usertrap_pc A < 2 ^ 64 →
  wp (usertrapret A) (λ r st', ∃ m' c', st' = pst (st <| ps_csr := c' |>) m' P n t f ∧
    r = MAKE_SATP (pagetable x) ∧ m_held m' = m_held m ∧
    (∀ i, 0 <= i < 36 → field m' (trapframe x) i =
       if kernel_field i then kernel_value c x i else field m (trapframe x) i) ∧
    sepc c' = field m (trapframe x) 3 ∧ stvec c' = TRAMPOLINE + uservec_off A ∧
    sstatus c' = user_status (sstatus c) ∧
    ∀ y, ¬ (trapframe x <= y < trapframe x + 40) → rd8 (m_mem m') y = rd8 (m_mem m) y) (pst st m P n t f).
Proof.
  intros x c Hcur Htf Hks Hsatp Htp Hpc. unfold usertrapret. wp_step. apply (myproc_here p); [done|].
  wp_step. apply wp_w_csr. wp_step. apply wp_w_csr. wp_step. apply wp_getp. wp_step. apply wp_r_csr.
  change (satp (ps_csr (st <| ps_csr := _ |> <| ps_csr := _ |>))) with (satp c). fold x. set (tf := trapframe x) in *.
  wp_step. apply wp_mem, (kstore_frame _ (8 * 0)); [done|lia|]. set (m1 := m <| m_mem := _ |>).
  wp_step. apply wp_getp. fold x. rewrite (u64_small (kstack x + PGSIZE)) by (unfold PGSIZE in *; lia).
  wp_step. apply wp_mem, (kstore_frame _ (8 * 1)); [done|lia|]. set (m2 := m1 <| m_mem := _ |>).
  wp_step. apply wp_mem, (kstore_frame _ (8 * 2)); [done|lia|]. set (m3 := m2 <| m_mem := _ |>).
  wp_step. apply wp_r_csr. change (tp (ps_csr (st <| ps_csr := _ |> <| ps_csr := _ |>))) with (tp c).
  wp_step. apply wp_mem, (kstore_frame _ (8 * 4)); [done|lia|]. set (m4 := m3 <| m_mem := _ |>).
  assert (∀ i, 0 <= i < 36 → field m4 tf i = if kernel_field i then kernel_value c x i else field m tf i) as H4.
  { intros i Hi. unfold m4. rewrite field_store by (done || lia). unfold m3. rewrite field_store by (done || lia).
    unfold m2. rewrite field_store by (done || unfold PGSIZE in *; lia). unfold m1.
    rewrite field_store by (done || lia). rewrite !Z.eqb_refl. cbn [andb]. unfold kernel_field, kernel_value.
    destruct (Z.eqb_spec i 0), (Z.eqb_spec i 1), (Z.eqb_spec i 2), (Z.eqb_spec i 4); subst; done || lia. }
  wp_step. apply wp_w_csr. wp_step. apply wp_mem, (kload_frame _ (8 * 3)); [done|lia|].
  wp_step. apply wp_w_csr. wp_step. apply wp_getp. apply wp_ret.
  eexists m4, _. split; [reflexivity|]. split_and!; [done|done|exact H4| |done|done|].
  - change (field m4 tf 3 = field m tf 3). by rewrite H4.
  - intros y Hy. cbn. by rewrite !rd8_st64_ne by lia.
Qed.
End sysops.

Section clock.
Context `{KI : !KernelImage} {F : Type} (cfg : sched_cfg).

(** ** The clock *)

Lemma tick_state x : state (tick_proc cfg x) = state x.
Proof. unfold tick_proc. repeat case_decide; try done. destruct cfg; try done. by repeat case_match. Qed.

Lemma tick_chan x : chan (tick_proc cfg x) = chan x.
Proof. unfold tick_proc. repeat case_decide; try done. destruct cfg; try done. by repeat case_match. Qed.

Lemma tick_sleeping x : state x = SLEEPING → tick_proc cfg x = x.
Proof. intros Hx. unfold tick_proc. rewrite !decide_False; [done|by rewrite Hx..]. Qed.

(** A tick: the counter, every process's own counters, and the processes that
    sleep on it. *)
Lemma clockintr_spec (s : pstate F) :
  TicksLock ∉ held s → (∀ p, ProcLock p ∉ held s) →
  wp (clockintr cfg) (λ _ s', held s' = held s ∧ ps_ticks s' = u32 (ps_ticks s + 1) ∧
    ∀ p, p ∈ procs → ps_proc s' p =
      if waiting s chan_ticks p then wake_proc cfg (u32 (ps_ticks s + 1)) (ps_proc s p)
      else tick_proc cfg (ps_proc s p)) s.
Proof.
  intros Ht Hp. unfold clockintr. wp_step. apply acquire_spec; [done|]. wp_step. wp_step. cbn beta.
  set (s1 := set_held _ _ <| ps_ticks := _ |>). wp_step.
  eapply (wp_for _ _ (λ l s', ∃ P, s' = s1 <| ps_proc := P |> ∧
    ∀ q, P q = if decide (q ∈ l) then tick_proc cfg (ps_proc s q) else ps_proc s q)).
  - exists (ps_proc s). split; [by destruct s|]. intros q. rewrite decide_False; [done|]. set_solver.
  - intros l p rest s' Hl (P & -> & HP).
    assert (p ∉ l) as Hpl by (by apply (procs_split l p rest)).
    wp_step. apply acquire_spec; [intros [?|?]%elem_of_cons; [done|by apply (Hp p)]|].
    wp_step. unfold setp. wp_step. cbn beta. eapply release_spec; [done|intros [?|?]%elem_of_cons; [done|by apply (Hp p)]|].
    exists (λ j, if j =? p then tick_proc cfg (P j) else P j). split; [by destruct s as [[] ? ? ? ? ? ? ? ? ? ? ?]|].
    intros q. destruct (Z.eqb_spec q p) as [->|Hne].
    + rewrite HP, decide_False, decide_True by (set_solver || done). done.
    + rewrite HP. apply decide_ext. set_solver.
  - intros s2 (P & -> & HP). wp_step.
    wp_use wakeup_spec; [intros p _ _ [?|?]%elem_of_cons; [done|by apply (Hp p)]|].
    intros _ s3 (P3 & -> & HP3). eapply release_spec; [done|done|].
    split; [by destruct s as [[] ? ? ? ? ? ? ? ? ? ? ?]|]. split; [done|]. intros p Hin.
    change (P3 p = if waiting s chan_ticks p then wake_proc cfg (u32 (ps_ticks s + 1)) (ps_proc s p)
      else tick_proc cfg (ps_proc s p)).
    assert (P p = tick_proc cfg (ps_proc s p)) as HPp by (by rewrite HP, decide_True).
    assert (waiting (s1 <| ps_proc := P |>) chan_ticks p = waiting s chan_ticks p) as Hw.
    { unfold waiting. change (ps_proc (s1 <| ps_proc := P |>) p) with (P p).
      change (ps_cur (s1 <| ps_proc := P |>)) with (ps_cur s). by rewrite HPp, tick_state, tick_chan. }
    rewrite HP3, Hw. destruct (waiting s chan_ticks p) eqn:E.
    + rewrite decide_True by done. change (ps_proc (s1 <| ps_proc := P |>) p) with (P p). rewrite HPp.
      f_equal. apply tick_sleeping. unfold waiting in E. b2p. assumption.
    + rewrite decide_False by (intros [_ ?]; done). exact HPp.
Qed.
End clock.
