(* ===== verification/ShellOps.v ===== *)
(** The parser of the shell: it always ends, the tokens it finds lie in the
    line, and terminating them with NULs leaves the words of the line. *)
From S2P Require Import Prelude CString Shell.

(** ** Returning or panicking *)

(** [m] returns with [Q] or panics; it neither faults nor diverges. *)
Definition ends {S A} (m : kM S A) (Q : A → S → Prop) (s : S) : Prop :=
  match m s with Ok a s' => Q a s' | Panic _ => True | _ => False end.
#[global] Arguments ends {S A} m Q s : simpl never.

Section ends.
Context {S : Type}.
Implicit Types s : S.

Lemma ends_ret {A} (a : A) (Q : A → S → Prop) s : Q a s → ends (mret a) Q s.
Proof. done. Qed.

Lemma ends_panic {A} msg (Q : A → S → Prop) s : ends (panic msg) Q s.
Proof. done. Qed.

Lemma ends_bind {A B} (m : kM S A) (f : A → kM S B) Q s :
  ends m (λ a s', ends (f a) Q s') s → ends (m ≫= f) Q s.
Proof. unfold ends, mbind, kM_bind. by destruct (m s). Qed.

Lemma ends_mono {A} (m : kM S A) (P Q : A → S → Prop) s :
  ends m P s → (∀ a s', P a s' → Q a s') → ends m Q s.
Proof. unfold ends. destruct (m s); auto. Qed.

Lemma ends_gets {A} (f : S → A) (Q : A → S → Prop) s : Q (f s) s → ends (gets f) Q s.
Proof. done. Qed.

Lemma ends_modify (f : S → S) (Q : () → S → Prop) s : Q () (f s) → ends (modify f) Q s.
Proof. done. Qed.

Lemma ends_while {A B} (I : A → S → Prop) (μ : A → S → Z) (body : A → kM S (A + B)) Q a s :
  (∀ a s, I a s → ends (body a) (λ r s', match r with
     | inl a' => I a' s' ∧ 0 <= μ a' s' < μ a s
     | inr b => Q b s' end) s) →
  I a s → 0 <= μ a s < 2 ^ 64 → ends (while body a) Q s.
Proof.
  intros Hbody HI Hμ. apply ends_bind. unfold ends at 1. rewrite kloop_kloopn.
  assert (∀ n a s, I a s → 0 <= μ a s < Z.of_nat n →
    ends (kloopn n body a) (λ r s', match r with inl _ => False | inr b => Q b s' end) s) as Hn.
  { clear a s HI Hμ. induction n as [|n IH]; intros a s HI Hμ; [lia|].
    simpl. apply ends_bind. eapply ends_mono; [by apply Hbody|].
    intros [a'|b] s'; [|by intros; apply ends_ret]. intros [HI' Hμ']. apply IH; [done|lia]. }
  assert (ends (kloopn (Pos.to_nat loop_bound) body a)
    (λ r s', match r with inl _ => False | inr b => Q b s' end) s) as H.
  { apply Hn; [done|]. pose proof loop_bound_val. lia. }
  unfold ends in H. destruct (kloopn _ body a s) as [[?|?] ?| | |]; done.
Qed.
End ends.

(** One step of the symbolic execution. *)
Ltac ends_step :=
  first [apply ends_bind | apply ends_ret | apply ends_panic | apply ends_gets | apply ends_modify]; cbn beta.
Tactic Notation "ends_use" uconstr(l) := eapply ends_mono; [eapply l|].

Section parser.
Context (buf : list Z).
(** A command line has no NUL and fits in memory. *)
Context (Hnul : Forall (λ c, c ≠ 0) buf) (Hlen : es buf < 2 ^ 60).

Abbreviation es := (es buf).
Abbreviation char_at := (char_at buf).

Definition blank (c : Z) : bool := strchr_ whitespace c.
Definition word_char (c : Z) : bool := negb (blank c) && negb (strchr_ symbols c).

Lemma es_nonneg : 0 <= es.
Proof. unfold Shell.es. lia. Qed.

Lemma char_zero s : 0 <= s → char_at s = 0 ↔ es <= s.
Proof using Hnul.
  intros Hs. unfold Shell.char_at, Shell.es. split; intros H.
  - destruct (Z.leb_spec (Z.of_nat (length buf)) s); [done|exfalso].
    destruct (lookup_lt_is_Some_2 buf (Z.to_nat s) ltac:(lia)) as [c Hc].
    rewrite (nth_lookup_Some _ _ _ _ Hc) in H. rewrite Forall_lookup in Hnul. by apply (Hnul _ _ Hc).
  - apply nth_overflow. lia.
Qed.

Lemma scan_while_spec n p s :
  0 <= s <= es → es - s <= Z.of_nat n → let e := scan_while buf n p s in
  s <= e <= es ∧ (∀ i, s <= i < e → p (char_at i) = true) ∧ (e < es → p (char_at e) = false).
Proof.
  revert s. induction n as [|n IH]; intros s Hs Hn; cbn [scan_while]; cbv zeta.
  { split_and!; [lia|lia|intros; lia|lia]. }
  destruct (Z.ltb_spec s es) as [Hlt|Hge]; cbn [andb]; [|split_and!; [lia|lia|intros; lia|lia]].
  destruct (p (char_at s)) eqn:Hp; [|split_and!; [lia|lia|intros; lia|done]].
  destruct (IH (s + 1) ltac:(lia) ltac:(lia)) as ([H1 H2] & H3 & H4). split_and!; [lia|done| |done].
  intros i Hi. destruct (decide (i = s)) as [->|]; [done|]. apply H3. lia.
Qed.

Lemma scan_to_spec p s :
  0 <= s <= es → let e := scan_to buf p s in
  s <= e <= es ∧ (∀ i, s <= i < e → p (char_at i) = true) ∧ (e < es → p (char_at e) = false).
Proof. intros Hs. unfold scan_to. apply scan_while_spec; lia. Qed.

(** ** Tokens *)

(** A word of the line, as long as it can be. *)
Record token_ok (t : Z * Z) : Prop := {
  to_range : 0 <= t.1 < t.2 ∧ t.2 <= es;
  to_word : ∀ i, t.1 <= i < t.2 → word_char (char_at i) = true;
  to_end : t.2 < es → word_char (char_at t.2) = false
}.

Lemma gettoken_ends s :
  0 <= s <= es → ends (gettoken buf) (λ r s', s <= s' <= es ∧
    (r.1 = 0 → s' = es) ∧ (r.1 ≠ 0 → s < s') ∧ (r.1 = 97 → token_ok r.2)) s.
Proof using Hnul Hlen.
  intros Hs. unfold gettoken. do 2 ends_step. cbv zeta. do 3 ends_step. cbn [fst snd].
  destruct (scan_to_spec (strchr_ whitespace) s Hs) as ([H1 H2] & _ & H3). fold (skip_blanks buf s) in *.
  set (q := skip_blanks buf s) in *.
  assert (∀ e, q <= e <= es → e <= skip_blanks buf e <= es) as Hskip.
  { intros e He. by destruct (scan_to_spec (strchr_ whitespace) e ltac:(lia)) as (? & _). }
  unfold token_at. destruct (Z.eqb_spec (char_at q) 0) as [E0|E0]; cbn [fst snd].
  { apply char_zero in E0; [|lia]. specialize (Hskip q ltac:(lia)). split_and!; try done; lia. }
  assert (q < es) as Hq by (destruct (Z.leb_spec es q); [|done]; destruct E0; apply char_zero; lia).
  specialize (H3 Hq).
  destruct (strchr_ [124; 40; 41; 59; 38; 60] (char_at q)) eqn:E1; cbn [fst snd].
  { specialize (Hskip (q + 1) ltac:(lia)). unfold strchr_ in E1. apply bool_decide_eq_true in E1.
    split_and!; try lia. intros E. rewrite E in E1. set_solver. }
  destruct (Z.eqb_spec (char_at q) 62) as [E2|E2].
  { destruct (Z.eqb_spec (char_at (q + 1)) 62) as [E3|E3]; cbn [fst snd].
    - assert (q + 1 < es) by (destruct (Z.leb_spec es (q + 1)); [|done]; apply char_zero in H; lia).
      specialize (Hskip (q + 2) ltac:(lia)). split_and!; lia.
    - specialize (Hskip (q + 1) ltac:(lia)). split_and!; try lia. }
  cbn [fst snd].
  destruct (scan_to_spec (λ x, negb (strchr_ whitespace x) && negb (strchr_ symbols x)) q ltac:(lia)) as ([H4 H5] & H6 & H7).
  set (e := scan_to buf _ q) in *. specialize (Hskip e ltac:(lia)).
  assert (word_char (char_at q) = true) as Hwq.
  { unfold word_char, blank. rewrite H3. unfold strchr_ in *. apply bool_decide_eq_false in E1.
    rewrite bool_decide_eq_false_2; [done|]. unfold symbols. intros Hin. apply E1. set_solver. }
  assert (q < e) as Hqe.
  { destruct (decide (q = e)) as [E|]; [|lia]. rewrite <- E in H7. specialize (H7 Hq). unfold word_char, blank in Hwq. congruence. }
  split_and!; try lia. intros _. split; cbn [fst snd]; [lia|exact H6|exact H7].
Qed.

Lemma peek_ends toks s :
  0 <= s <= es → ends (peek buf toks) (λ b s', s <= s' <= es ∧ (b = true → s' < es ∧ char_at s' ∈ toks ∧ blank (char_at s') = false)) s.
Proof using Hnul Hlen.
  intros Hs. unfold peek. do 4 ends_step.
  destruct (scan_to_spec (strchr_ whitespace) s Hs) as (H1 & _ & H2). fold (skip_blanks buf s) in *.
  split; [done|]. intros [Ht Hin]%andb_true_iff. unfold strchr_ in Hin. apply bool_decide_eq_true in Hin.
  assert (skip_blanks buf s < es) as Hlt.
  { destruct (Z.leb_spec es (skip_blanks buf s)) as [H|]; [|done]. apply char_zero in H; [|lia]. unfold truth in Ht. by rewrite H in Ht. }
  split_and!; [done|done|by apply H2].
Qed.

(** The tokens of a command. *)
Fixpoint tokens (c : cmd) : list (Z * Z) :=
  match c with
  | EXEC argv => argv
  | REDIR c f _ _ => tokens c ++ [f]
  | PIPE l r | LIST l r => tokens l ++ tokens r
  | BACK c => tokens c
  end.

(** The commands that the parser builds: the tokens are words, the arguments fit,
    and the redirections are the three of the shell. *)
Definition redir_kind (mode fd : Z) : Prop := (mode, fd) ∈ [(RD_MODE, 0); (WR_MODE, 1); (APP_MODE, 1)].
Fixpoint tokens_ok (c : cmd) : Prop :=
  match c with
  | EXEC argv => Forall token_ok argv ∧ Z.of_nat (length argv) < MAXARGS
  | REDIR c f mode fd => tokens_ok c ∧ token_ok f ∧ redir_kind mode fd
  | PIPE l r | LIST l r => tokens_ok l ∧ tokens_ok r
  | BACK c => tokens_ok c
  end.
Definition redirs_ok (rs : list redir) : Prop := Forall (λ r, token_ok (rd_file r) ∧ redir_kind (rd_mode r) (rd_fd r)) rs.

Lemma tokens_ok_all c : tokens_ok c → Forall token_ok (tokens c).
Proof.
  induction c as [argv|c IH f m fd|l IHl r IHr|l IHl r IHr|c IH]; cbn [tokens_ok tokens]; [by intros []| | | |done].
  - intros (Hc & Hf & _). apply Forall_app. rewrite Forall_singleton. auto.
  - intros [Hl Hr]. apply Forall_app. auto.
  - intros [Hl Hr]. apply Forall_app. auto.
Qed.

Lemma redircmd_ok c rs : tokens_ok c → redirs_ok rs → tokens_ok (foldl redircmd c rs).
Proof.
  revert c. induction rs as [|r rs IH]; intros c Hc Hrs; [done|].
  apply Forall_cons in Hrs as [[Hr Hk] Hrs]. cbn [foldl]. apply IH; [|done]. by split_and!.
Qed.

Lemma parseredirs_ends s :
  0 <= s <= es → ends (parseredirs buf) (λ rs s', s <= s' <= es ∧ redirs_ok rs) s.
Proof using Hnul Hlen.
  intros Hs. unfold parseredirs. apply (ends_while (λ rs s', s <= s' <= es ∧ redirs_ok rs) (λ _ s', es - s')); [|split; [lia|constructor]|lia].
  intros rs s1 [Hs1 Hrs]. ends_step. ends_use (peek_ends [60; 62] s1); [lia|].
  intros [] s2 [Hs2 Hb]; [|by ends_step; split; [lia|]]. destruct (Hb eq_refl) as (Hlt & Hin & Hbl).
  ends_step. ends_use (gettoken_ends s2); [lia|]. intros t s3 (Hs3 & Ht0 & Ht1 & _).
  ends_step. ends_use (gettoken_ends s3); [lia|]. intros f s4 (Hs4 & Hf0 & Hf1 & Hf).
  destruct (Z.eqb_spec f.1 97) as [Ef|Ef]; cbn [negb]; [|by ends_step]. cbv zeta. ends_step.
  split; [split; [lia|]|].
  - unfold redirs_ok. destruct (t.1 =? 60), (t.1 =? 62), (t.1 =? 43); try done; apply Forall_app; (split; [done|]);
      apply Forall_singleton; (split; [by apply Hf|]); unfold redir_kind; cbn [rd_mode rd_fd]; set_solver.
  - specialize (Hf1 ltac:(lia)). lia.
Qed.

Lemma parseargs_ends s :
  0 <= s <= es → ends (parseargs buf) (λ r s', s <= s' <= es ∧ Forall token_ok r.1 ∧ redirs_ok r.2 ∧ Z.of_nat (length r.1) < MAXARGS) s.
Proof using Hnul Hlen.
  intros Hs. unfold parseargs. ends_step. ends_use (parseredirs_ends s); [lia|]. intros rs s1 [Hs1 Hrs].
  apply (ends_while (λ r s', s <= s' <= es ∧ Forall token_ok r.1 ∧ redirs_ok r.2 ∧ Z.of_nat (length r.1) < MAXARGS)
    (λ _ s', es - s')); [|by split_and!; try lia|lia].
  intros [argv rs1] s2 (Hs2 & Ha & Hrs1 & Hn). cbn [fst snd] in *. ends_step. ends_use (peek_ends _ s2); [lia|].
  intros [] s3 [Hs3 _]; [by ends_step; split_and!; try lia|]. ends_step. ends_use (gettoken_ends s3); [lia|].
  intros t s4 (Hs4 & Ht0 & Ht1 & Ht). destruct (Z.eqb_spec t.1 0) as [E|E]; [by ends_step; split_and!; try lia|].
  destruct (Z.eqb_spec t.1 97) as [E'|E']; cbn [negb]; [|by ends_step]. cbv zeta.
  destruct (Z.geb_spec (Z.of_nat (length (argv ++ [t.2]))) MAXARGS) as [|Hlt]; [by ends_step|].
  ends_step. ends_use (parseredirs_ends s4); [lia|]. intros rs' s5 [Hs5 Hrs']. ends_step. cbn [fst snd].
  specialize (Ht1 E). split; [|lia]. split_and!; try lia.
  - apply Forall_app. split; [done|]. apply Forall_singleton. by apply Ht.
  - by apply Forall_app.
Qed.

Lemma parseback_ends c s :
  0 <= s <= es → tokens_ok c → ends (parseback buf c) (λ c' s', s <= s' <= es ∧ tokens_ok c') s.
Proof using Hnul Hlen.
  intros Hs Hc. unfold parseback. apply (ends_while (λ c' s', s <= s' <= es ∧ tokens_ok c') (λ _ s', es - s')); [|split; [lia|exact Hc]|lia].
  intros c1 s1 [Hs1 Hc1]. ends_step. ends_use (peek_ends _ s1); [lia|].
  intros [] s2 [Hs2 Hb]; [|by ends_step; split; [lia|]]. destruct (Hb eq_refl) as (Hlt & Hin & _).
  ends_step. ends_use (gettoken_ends s2); [lia|]. intros t s3 (Hs3 & Ht0 & Ht1 & _). ends_step.
  split; [split; [lia|exact Hc1]|]. destruct (decide (t.1 = 0)) as [E|E]; [specialize (Ht0 E)|specialize (Ht1 E)]; lia.
Qed.

(** After [peek] found a symbol, [gettoken] passes it. *)
Lemma symbol_ends s (Q : Z * (Z * Z) → Z → Prop) :
  0 <= s < es → (∀ t s', s < s' <= es → Q t s') → ends (gettoken buf) Q s.
Proof using Hnul Hlen.
  intros Hs HQ. ends_use (gettoken_ends s); [lia|]. intros t s' (Hs' & Ht0 & Ht1 & _). apply HQ.
  destruct (decide (t.1 = 0)) as [E|E]; [specialize (Ht0 E)|specialize (Ht1 E)]; lia.
Qed.

(** The four levels of the grammar. *)
Definition level_ends (m : kM Z cmd) (s : Z) : Prop :=
  ends m (λ c s', s <= s' <= es ∧ tokens_ok c) s.

Lemma parser_ends n :
  (∀ s, 0 <= s <= es → 4 * (es - s) + 4 <= Z.of_nat n → level_ends (parseline buf n) s) ∧
  (∀ s, 0 <= s <= es → 4 * (es - s) + 3 <= Z.of_nat n → level_ends (parsepipe buf n) s) ∧
  (∀ s, 0 <= s <= es → 4 * (es - s) + 2 <= Z.of_nat n → level_ends (parseexec buf n) s) ∧
  (∀ s, 0 <= s <= es → 4 * (es - s) + 1 <= Z.of_nat n → level_ends (parseblock buf n) s).
Proof using Hnul Hlen.
  induction n as [|n (IHl & IHp & IHe & IHb)]; [split_and!; intros; lia|].
  split_and!; intros s Hs Hn; unfold level_ends in *.
  - cbn [parseline]. ends_step. ends_use (IHp s); [lia|lia|]. intros c s1 [Hs1 Hc].
    ends_step. ends_use (parseback_ends c s1); [lia|done|]. intros c' s2 [Hs2 Hc'].
    ends_step. ends_use (peek_ends _ s2); [lia|]. intros [] s3 [Hs3 Hb]; [|by ends_step; split; [lia|]].
    destruct (Hb eq_refl) as (Hlt & _). ends_step. apply symbol_ends; [lia|]. intros _ s4 Hs4.
    ends_step. ends_use (IHl s4); [lia|lia|]. intros r s5 [Hs5 Hr]. ends_step. by split_and!; try lia.
  - cbn [parsepipe]. ends_step. ends_use (IHe s); [lia|lia|]. intros c s1 [Hs1 Hc].
    ends_step. ends_use (peek_ends _ s1); [lia|]. intros [] s3 [Hs3 Hb]; [|by ends_step; split; [lia|]].
    destruct (Hb eq_refl) as (Hlt & _). ends_step. apply symbol_ends; [lia|]. intros _ s4 Hs4.
    ends_step. ends_use (IHp s4); [lia|lia|]. intros r s5 [Hs5 Hr]. ends_step. by split_and!; try lia.
  - cbn [parseexec]. ends_step. ends_use (peek_ends _ s); [lia|]. intros [] s1 [Hs1 Hb].
    + ends_use (IHb s1); [lia|lia|]. intros c s2 [Hs2 Hc]. split; [lia|done].
    + ends_step. ends_use (parseargs_ends s1); [lia|]. intros r s2 (Hs2 & Ha & Hr & Hn'). ends_step.
      split; [lia|]. by apply redircmd_ok.
  - cbn [parseblock]. ends_step. ends_use (peek_ends _ s); [lia|]. intros [] s1 [Hs1 Hb]; cbn [negb]; [|by ends_step].
    destruct (Hb eq_refl) as (Hlt & _). ends_step. apply symbol_ends; [lia|]. intros _ s2 Hs2.
    ends_step. ends_use (IHl s2); [lia|lia|]. intros c s3 [Hs3 Hc].
    ends_step. ends_use (peek_ends _ s3); [lia|]. intros [] s4 [Hs4 Hb4]; cbn [negb]; [|by ends_step].
    destruct (Hb4 eq_refl) as (Hlt4 & _). ends_step. apply symbol_ends; [lia|]. intros _ s5 Hs5.
    ends_step. ends_use (parseredirs_ends s5); [lia|]. intros rs s6 [Hs6 Hrs]. ends_step.
    split; [lia|]. by apply redircmd_ok.
Qed.

Lemma parsetop_ends : ends (parsetop buf) (λ c s, 0 <= s <= es ∧ tokens_ok c) 0.
Proof using Hnul Hlen.
  unfold parsetop. pose proof es_nonneg. ends_step.
  ends_use (proj1 (parser_ends (parse_fuel buf)) 0); [lia|unfold parse_fuel, Shell.es; lia|].
  intros c s1 [Hs1 Hc]. ends_step. ends_use (peek_ends [] s1); [lia|]. intros b s2 [Hs2 _].
  ends_step. split; [lia|done].
Qed.

Lemma parsecmd_ends_ : ends (parsecmd_ buf) (λ c s, s = es ∧ tokens_ok c) 0.
Proof using Hnul Hlen.
  unfold parsecmd_. ends_step. ends_use parsetop_ends. intros c s [_ Hc].
  do 2 ends_step. destruct (Z.eqb_spec s es); cbn [negb]; [by ends_step; split|by ends_step].
Qed.

(** ** Terminating the words *)

(** The bytes of a token. *)
Definition slice (b : list Z) (t : Z * Z) : list Z := take (Z.to_nat (t.2 - t.1)) (drop (Z.to_nat t.1) b).

Lemma before_nul_app l r : Forall (λ c, c ≠ 0) l → before_nul (l ++ 0 :: r) = l.
Proof. induction 1 as [|c l Hc Hl IH]; [done|]. cbn. apply Z.eqb_neq in Hc as ->. by rewrite IH. Qed.

Lemma put0_lookup p b (i : nat) :
  0 <= p → put0 p b !! i = if decide (p = Z.of_nat i) then (λ _, 0) <$> b !! i else b !! i.
Proof.
  intros Hp. unfold put0. case_decide as E.
  - subst p. rewrite Nat2Z.id. destruct (b !! i) as [c|] eqn:Ei.
    + apply lookup_lt_Some in Ei. cbn. by apply list_lookup_insert_eq.
    + rewrite list_insert_ge; [by rewrite Ei|]. by apply lookup_ge_None.
  - apply list_lookup_insert_ne. lia.
Qed.

Lemma put0s_lookup (l : list (Z * Z)) b (i : nat) :
  Forall (λ t, 0 <= t.2) l →
  foldl (λ b a, put0 a.2 b) b l !! i = if decide (Z.of_nat i ∈ l.*2) then (λ _, 0) <$> b !! i else b !! i.
Proof.
  revert b. induction l as [|t l IH]; intros b Hl; [by rewrite decide_False by apply not_elem_of_nil|].
  apply Forall_cons in Hl as [Ht Hl]. cbn [foldl]. rewrite IH, put0_lookup by done.
  rewrite fmap_cons. destruct (decide (t.2 = Z.of_nat i)) as [E|E].
  - rewrite (decide_True (P := Z.of_nat i ∈ t.2 :: l.*2)) by (rewrite E; constructor).
    case_decide; [|done]. by destruct (b !! i).
  - apply decide_ext. rewrite elem_of_cons. split; [by right|]. intros [?|?]; [by destruct E|done].
Qed.

(** [nulterminate] writes a NUL behind each token. *)
Lemma nulterminate_tokens c b : nulterminate c b = foldl (λ b a, put0 a.2 b) b (tokens c).
Proof.
  revert b. induction c as [argv|c IH f m fd|l IHl r IHr|l IHl r IHr|c IH]; intros b; cbn; [done|..].
  - by rewrite foldl_app, IH.
  - by rewrite foldl_app, IHl, IHr.
  - by rewrite foldl_app, IHl, IHr.
  - apply IH.
Qed.

Lemma nulterminate_length c b : length (nulterminate c b) = length b.
Proof.
  rewrite nulterminate_tokens. revert b. induction (tokens c) as [|t l IH]; intros b; [done|]. cbn [foldl].
  rewrite IH. apply length_insert.
Qed.

Lemma char_lookup i c : 0 <= i → buf !! Z.to_nat i = Some c → char_at i = c.
Proof. intros Hi Hc. unfold Shell.char_at. by apply nth_lookup_Some. Qed.

(** Every token is the C string at its start in the terminated line. *)
Lemma nulterminate_words c t :
  tokens_ok c → t ∈ tokens c → string_at (nulterminate c (buf ++ [0])) t.1 = slice buf t.
Proof using Hnul.
  intros Hc%tokens_ok_all Hin. pose proof (proj1 (Forall_forall _ _) Hc t Hin) as [Hr Hw He]. destruct t as [q e]. cbn [fst snd] in *.
  set (b := nulterminate c (buf ++ [0])). unfold Shell.es in Hr.
  assert (Forall (λ t, 0 <= t.2) (tokens c)) as Hpos.
  { eapply Forall_impl; [exact Hc|]. intros t' [Ht' _ _]. lia. }
  assert (∀ i : nat, b !! i = if decide (Z.of_nat i ∈ (tokens c).*2) then (λ _, 0) <$> (buf ++ [0]) !! i else (buf ++ [0]) !! i) as Hb
    by (intros i; unfold b; by rewrite nulterminate_tokens, put0s_lookup).
  assert (take (Z.to_nat (e - q)) (drop (Z.to_nat q) b) = slice buf (q, e)) as Hs.
  { unfold slice. cbn [fst snd]. apply list_eq. intros i. destruct (decide (i < Z.to_nat (e - q))%nat) as [Hi|Hi].
    2: { rewrite !lookup_take_ge by lia. done. }
    rewrite !lookup_take_lt, !lookup_drop, Hb by lia. rewrite decide_False; [by rewrite lookup_app_l by lia|].
    intros ([q' e'] & E & Hin')%list_elem_of_fmap. cbn in E.
    pose proof (proj1 (Forall_forall _ _) Hc _ Hin') as [Hr' _ He']. cbn [fst snd] in *. unfold Shell.es in *.
    rewrite <- E in He'. specialize (He' ltac:(lia)). rewrite Hw in He' by lia. done. }
  assert (drop (Z.to_nat e) b = 0 :: drop (S (Z.to_nat e)) b) as Hd.
  { apply drop_S. rewrite Hb. rewrite Z2Nat.id by lia.
    rewrite decide_True by (apply list_elem_of_fmap; by exists (q, e)).
    destruct (lookup_lt_is_Some_2 (buf ++ [0]) (Z.to_nat e)) as [x Hx]; [rewrite length_app; simpl; lia|]. by rewrite Hx. }
  unfold string_at. rewrite <- (take_drop (Z.to_nat (e - q)) (drop (Z.to_nat q) b)), Hs, drop_drop.
  replace (Z.to_nat q + Z.to_nat (e - q))%nat with (Z.to_nat e) by lia. rewrite Hd. apply before_nul_app.
  unfold slice. cbn [fst snd]. by apply Forall_take, Forall_drop.
Qed.
End parser.
