(* ===== verification/ShellPrint.v ===== *)
(** The commands of the shell as trees over words, their concrete syntax, and the
    proof that the parser of [user/sh.c] inverts it.

    [reads s r] says that the text [r] is what the parser sees from [*ps = s] on,
    up to blanks.  The lemmas on [gettoken] and [peek] are stated with it; each
    level of the grammar then has a predicate ([exec_text], [pipe_text],
    [back_text], [line_text]: this text parses to this command at this level) and
    one lemma per production. *)
From S2P Require Import Prelude CString Shell ShellOps.

(** ** Commands over words *)

Record sredir := mkSredir { sr_file : list Z; sr_mode : Z; sr_fd : Z }.

Inductive command :=
| cExec (argv : list (list Z))
| cRedir (c : command) (r : sredir)
| cPipe (left right : command)
| cList (left right : command)
| cBack (c : command).

(** The command that a parsed one stands for, when [f] gives the word of a token. *)
Definition named_redir (f : Z * Z → list Z) (r : redir) : sredir := mkSredir (f (rd_file r)) (rd_mode r) (rd_fd r).
Fixpoint named (f : Z * Z → list Z) (c : cmd) : command :=
  match c with
  | EXEC argv => cExec (f <$> argv)
  | REDIR c file mode fd => cRedir (named f c) (mkSredir (f file) mode fd)
  | PIPE l r => cPipe (named f l) (named f r)
  | LIST l r => cList (named f l) (named f r)
  | BACK c => cBack (named f c)
  end.

(** ** Concrete syntax *)

Definition blank_ : list Z := [32].
Definition print_words (ws : list (list Z)) : list Z := ws ≫= (λ w, w ++ blank_).
Definition redir_symbol (mode : Z) : list Z :=
  if mode =? RD_MODE then [60] else if mode =? WR_MODE then [62] else [62; 62].
Definition print_redir (r : sredir) : list Z := redir_symbol (sr_mode r) ++ blank_ ++ sr_file r ++ blank_.
Definition print_redirs (rs : list sredir) : list Z := rs ≫= print_redir.

(** The level of the grammar that produces a command. *)
Definition level (c : command) : nat :=
  match c with cExec _ | cRedir _ _ => 0 | cPipe _ _ => 1 | cBack _ => 2 | cList _ _ => 3 end.

(** Text of a command where the grammar wants level [k]: in parentheses when the
    command is of a higher one. *)
Definition paren (k : nat) (c : command) (text : list Z) : list Z :=
  if (level c <=? k)%nat then text else [40; 32] ++ text ++ [41; 32].

Fixpoint print (c : command) : list Z :=
  match c with
  | cExec argv => print_words argv
  | cRedir c r => paren 0 c (print c) ++ print_redir r
  | cPipe l r => paren 0 l (print l) ++ [124; 32] ++ paren 1 r (print r)
  | cBack c => paren 2 c (print c) ++ [38; 32]
  | cList l r => paren 2 l (print l) ++ [59; 32] ++ print r
  end.

(** The commands the shell can be given: words of word characters, fewer than
    [MAXARGS] arguments, and the three redirections. *)
Definition word (w : list Z) : Prop := w ≠ [] ∧ Forall (λ c, word_char c = true ∧ c ≠ 0) w.
Definition sredir_ok (r : sredir) : Prop :=
  word (sr_file r) ∧ redir_kind (sr_mode r) (sr_fd r).
Fixpoint command_ok (c : command) : Prop :=
  match c with
  | cExec argv => Forall word argv ∧ Z.of_nat (length argv) < MAXARGS
  | cRedir c r => command_ok c ∧ sredir_ok r
  | cPipe l r | cList l r => command_ok l ∧ command_ok r
  | cBack c => command_ok c
  end.

#[export] Instance word_dec w : Decision (word w).
Proof. unfold word. apply _. Defined.
#[export] Instance sredir_ok_dec r : Decision (sredir_ok r).
Proof. unfold sredir_ok, redir_kind. apply _. Defined.
#[export] Instance command_ok_dec c : Decision (command_ok c).
Proof. induction c; cbn [command_ok]; apply _. Defined.

(** ** The text that is left *)

Fixpoint trim (l : list Z) : list Z :=
  match l with
  | [] => []
  | c :: l' => if blank c then trim l' else l
  end.

(** The longest prefix of characters in [p], and the rest. *)
Fixpoint span (p : Z → bool) (l : list Z) : list Z * list Z :=
  match l with
  | [] => ([], [])
  | c :: l' => if p c then let r := span p l' in (c :: r.1, r.2) else ([], l)
  end.

Lemma trim_span l : trim l = (span blank l).2.
Proof. induction l as [|c l IH]; [done|]. cbn. by destruct (blank c). Qed.

Lemma trim_idem l : trim (trim l) = trim l.
Proof. induction l as [|c l IH]; [done|]. cbn. destruct (blank c) eqn:E; [done|]. cbn. by rewrite E. Qed.

Lemma span_word w r :
  Forall (λ c, word_char c = true) w → match r with [] => True | c :: _ => word_char c = false end →
  span word_char (w ++ r) = (w, r).
Proof.
  intros Hw Hr. induction Hw as [|c w Hc Hw IH]; cbn.
  - destruct r as [|c r]; [done|]. cbn. by rewrite Hr.
  - by rewrite Hc, IH.
Qed.

Lemma word_not_blank c : word_char c = true → blank c = false.
Proof. unfold word_char. by destruct (blank c). Qed.

Section reading.
Context (buf : list Z).
Context (Hnul : Forall (λ c, c ≠ 0) buf) (Hlen : es buf < 2 ^ 60).

Abbreviation es := (es buf).
Abbreviation char_at := (char_at buf).
Abbreviation from s := (drop (Z.to_nat s) buf).

Lemma from_char s : 0 <= s < es → from s = char_at s :: from (s + 1).
Proof.
  intros Hs. unfold Shell.es in Hs. destruct (lookup_lt_is_Some_2 buf (Z.to_nat s) ltac:(lia)) as [c Hc].
  rewrite (drop_S _ _ _ Hc), (char_lookup _ s c) by (done || lia). by replace (Z.to_nat (s + 1)) with (S (Z.to_nat s)) by lia.
Qed.

Lemma from_end s : es <= s → from s = [].
Proof. intros Hs. unfold Shell.es in Hs. apply drop_ge. lia. Qed.

Lemma from_cons s c r : 0 <= s <= es → from s = c :: r → s < es ∧ char_at s = c ∧ from (s + 1) = r.
Proof.
  intros Hs E. destruct (Z.leb_spec es s); [by rewrite from_end in E by done|].
  rewrite from_char in E by lia. by injection E as -> ->.
Qed.

Lemma from_nil s : 0 <= s <= es → from s = [] → char_at s = 0.
Proof using Hnul Hlen.
  intros Hs E. destruct (Z.leb_spec es s); [by apply (char_zero buf Hnul); [lia|]|]. by rewrite from_char in E by lia.
Qed.

Lemma slice_cons s e : 0 <= s < e → e <= es → slice buf (s, e) = char_at s :: slice buf (s + 1, e).
Proof.
  intros Hs He. unfold slice. cbn [fst snd]. rewrite from_char by lia.
  replace (Z.to_nat (e - s)) with (S (Z.to_nat (e - (s + 1)))) by lia. done.
Qed.

Lemma slice_nil s : slice buf (s, s) = [].
Proof. unfold slice. cbn [fst snd]. by rewrite Z.sub_diag. Qed.

Lemma scan_while_span n p s :
  0 <= s <= es → es - s <= Z.of_nat n → let e := scan_while buf n p s in
  slice buf (s, e) = (span p (from s)).1 ∧ from e = (span p (from s)).2.
Proof.
  revert s. induction n as [|n IH]; intros s Hs Hn; cbn [scan_while]; cbv zeta.
  { by rewrite slice_nil, from_end by lia. }
  destruct (Z.ltb_spec s es) as [Hlt|Hge]; cbn [andb]; [|by rewrite slice_nil, from_end by lia].
  rewrite from_char by lia. cbn [span]. destruct (p (char_at s)) eqn:Hp; cbn [fst snd].
  - destruct (IH (s + 1) ltac:(lia) ltac:(lia)) as [H1 H2].
    destruct (scan_while_spec buf n p (s + 1) ltac:(lia) ltac:(lia)) as ([H3 H4] & _).
    rewrite slice_cons, H1, H2 by lia. done.
  - by rewrite slice_nil, from_char by lia.
Qed.

Lemma scan_to_span p s :
  0 <= s <= es → slice buf (s, scan_to buf p s) = (span p (from s)).1 ∧ from (scan_to buf p s) = (span p (from s)).2.
Proof. intros Hs. apply scan_while_span; lia. Qed.

Lemma skip_trim s : 0 <= s <= es → 0 <= skip_blanks buf s <= es ∧ from (skip_blanks buf s) = trim (from s).
Proof.
  intros Hs. destruct (scan_to_spec buf (strchr_ whitespace) s Hs) as ([? ?] & _).
  split; [unfold skip_blanks; lia|]. rewrite trim_span. by apply scan_to_span.
Qed.

Definition reads (s : Z) (r : list Z) : Prop := 0 <= s <= es ∧ trim (from s) = trim r.

Lemma reads_trim s r r' : trim r = trim r' → reads s r → reads s r'.
Proof. unfold reads. by intros ->. Qed.

Lemma reads_blank s r : reads s (32 :: r) → reads s r.
Proof. by apply reads_trim. Qed.

(** What [peek] answers. *)
Definition starts (toks : list Z) (r : list Z) : bool := match trim r with [] => false | c :: _ => strchr_ toks c end.

Lemma peek_reads toks s r : reads s r → wp (peek buf toks) (λ b s', b = starts toks r ∧ reads s' r) s.
Proof using Hnul Hlen.
  intros [Hs Hr]. unfold peek. wp_steps. destruct (skip_trim s Hs) as [Hq Hf]. rewrite Hr in Hf.
  split; [|split; [done|]; by rewrite Hf, trim_idem].
  unfold starts. destruct (trim r) as [|c r'] eqn:E; [by rewrite (from_nil _ Hq Hf)|].
  destruct (from_cons _ _ _ Hq Hf) as (Hlt & Hc & _). unfold truth.
  destruct (Z.eqb_spec (char_at (skip_blanks buf s)) 0) as [E0|E0]; [|by rewrite Hc].
  apply (char_zero buf Hnul) in E0; lia.
Qed.

Lemma gettoken_reads s r t w rest :
  reads s r →
  (∀ q, 0 <= q <= es → from q = trim r → ∃ e, token_at buf q = (t, e) ∧ q <= e <= es ∧ slice buf (q, e) = w ∧ from e = rest) →
  wp (gettoken buf) (λ x s', x.1 = t ∧ slice buf x.2 = w ∧ reads s' rest) s.
Proof.
  intros [Hs Hr] Ht. unfold gettoken. wp_steps. destruct (skip_trim s Hs) as [Hq Hf]. rewrite Hr in Hf.
  destruct (Ht _ Hq Hf) as (e & E & He & Hw & Hrest). rewrite E. cbn [fst snd]. split_and!; [done|done|].
  destruct (skip_trim e ltac:(lia)) as [Hq' Hf']. split; [done|]. by rewrite Hf', trim_idem, Hrest.
Qed.

Lemma gettoken_end s r : reads s r → trim r = [] → wp (gettoken buf) (λ x s', x.1 = 0 ∧ reads s' r) s.
Proof using Hnul Hlen.
  intros Hr E. eapply wp_mono; [apply (gettoken_reads s r 0 [] []); [done|]|].
  - intros q Hq Hf. rewrite E in Hf. exists q. unfold token_at. rewrite (from_nil q Hq Hf).
    split_and!; [done|lia|lia|apply slice_nil|done].
  - intros x s' (H1 & _ & H2). split; [done|]. by apply (reads_trim _ [] r).
Qed.

Lemma gettoken_symbol s r c rest :
  reads s r → trim r = c :: rest → c ∈ [124; 40; 41; 59; 38; 60] →
  wp (gettoken buf) (λ x s', x.1 = c ∧ reads s' rest) s.
Proof using Hnul Hlen.
  intros Hr E Hc. eapply wp_mono; [apply (gettoken_reads s r c [c] rest); [done|]|by intros x s' (H1 & _ & H2)].
  intros q Hq Hf. rewrite E in Hf. destruct (from_cons _ _ _ Hq Hf) as (Hlt & Hch & Hrest).
  exists (q + 1). unfold token_at. rewrite Hch.
  replace (c =? 0) with false by (symmetry; apply Z.eqb_neq; intros ->; set_solver).
  unfold strchr_. rewrite bool_decide_eq_true_2 by done. split_and!; [done|lia|lia| |done].
  rewrite slice_cons, slice_nil, Hch by lia. done.
Qed.

(** [>] and [>>]. *)
Lemma gettoken_greater s r m rest :
  reads s r → m ∈ [WR_MODE; APP_MODE] → trim r = redir_symbol m ++ 32 :: rest →
  wp (gettoken buf) (λ x s', x.1 = (if m =? WR_MODE then 62 else 43) ∧ reads s' rest) s.
Proof using Hnul Hlen.
  intros Hr Hm E. eapply wp_mono; [apply (gettoken_reads s r (if m =? WR_MODE then 62 else 43) (redir_symbol m) (32 :: rest)); [done|]|].
  2: { intros x s' (H1 & _ & H2%reads_blank). done. }
  intros q Hq Hf. rewrite E in Hf. rewrite list_elem_of_In in Hm. destruct Hm as [<-|[<-|[]]]; cbn in Hf |- *.
  - destruct (from_cons _ _ _ Hq Hf) as (Hlt & Hch & Hf1). destruct (from_cons (q + 1) _ _ ltac:(lia) Hf1) as (Hlt1 & Hch1 & _).
    exists (q + 1). unfold token_at. rewrite Hch, Hch1. split_and!; [done|lia|lia| |done].
    rewrite slice_cons, slice_nil, Hch by lia. done.
  - destruct (from_cons _ _ _ Hq Hf) as (Hlt & Hch & Hf1). destruct (from_cons (q + 1) _ _ ltac:(lia) Hf1) as (Hlt1 & Hch1 & Hf2).
    exists (q + 2). unfold token_at. rewrite Hch, Hch1. replace (q + 2) with (q + 1 + 1) by lia. split_and!; [done|lia|lia| |done].
    rewrite !slice_cons, slice_nil, Hch, Hch1 by lia. done.
Qed.

Lemma gettoken_word s w rest :
  word w → reads s (w ++ 32 :: rest) → wp (gettoken buf) (λ x s', x.1 = 97 ∧ slice buf x.2 = w ∧ reads s' rest) s.
Proof using Hnul Hlen.
  intros [Hne Hw] Hr. destruct w as [|c w]; [done|]. apply Forall_cons in Hw as [[Hc Hc0] Hw].
  assert (trim ((c :: w) ++ 32 :: rest) = (c :: w) ++ 32 :: rest) as Ht.
  { cbn. by rewrite (word_not_blank _ Hc). }
  eapply wp_mono; [apply (gettoken_reads s _ 97 (c :: w) (32 :: rest) Hr)|].
  2: { intros x s' (H1 & H2 & H3%reads_blank). done. }
  intros q Hq Hf. rewrite Ht in Hf. destruct (from_cons _ _ _ Hq Hf) as (Hlt & Hch & _).
  exists (scan_to buf word_char q). destruct (scan_to_span word_char q Hq) as [H1 H2].
  destruct (scan_to_spec buf word_char q Hq) as (H3 & _).
  assert (Forall (λ c, word_char c = true) (c :: w)) as Hcw.
  { constructor; [done|]. eapply Forall_impl; [exact Hw|]. by intros ? []. }
  rewrite Hf, (span_word _ _ Hcw) in H1, H2 by done.
  split_and!; try done; try lia. unfold token_at. rewrite Hch.
  apply andb_true_iff in Hc as [_ Hsym]. apply negb_true_iff in Hsym. unfold strchr_ in *. apply bool_decide_eq_false in Hsym.
  apply Z.eqb_neq in Hc0 as ->. rewrite bool_decide_eq_false_2 by (intros Hin; apply Hsym; unfold symbols; set_solver).
  destruct (Z.eqb_spec c 62) as [->|]; [destruct Hsym; unfold symbols; set_solver|]. done.
Qed.

(** ** Redirections and arguments *)

Abbreviation nr := (named_redir (slice buf)).

Lemma gettoken_redir s r rest :
  sredir_ok r → reads s (print_redir r ++ rest) →
  wp (gettoken buf) (λ x s', x.1 = (if sr_mode r =? RD_MODE then 60 else if sr_mode r =? WR_MODE then 62 else 43) ∧
    reads s' (sr_file r ++ 32 :: rest)) s.
Proof using Hnul Hlen.
  intros [_ Hm] Hr. destruct r as [f m fd]. unfold print_redir, blank_ in Hr. cbn [sr_file sr_mode sr_fd] in *.
  rewrite <- !app_assoc in Hr. cbn [app] in Hr. unfold redir_kind in Hm. rewrite list_elem_of_In in Hm.
  destruct Hm as [[= <- <-]|[[= <- <-]|[[= <- <-]|[]]]].
  - eapply wp_mono; [apply (gettoken_symbol s _ 60 (32 :: f ++ 32 :: rest) Hr); [done|set_solver]|]. intros x s' [H1 H2%reads_blank]. by split.
  - eapply wp_mono; [apply (gettoken_greater s _ WR_MODE (f ++ 32 :: rest) Hr); [set_solver|done]|]. by intros x s' [H1 H2].
  - eapply wp_mono; [apply (gettoken_greater s _ APP_MODE (f ++ 32 :: rest) Hr); [set_solver|done]|]. by intros x s' [H1 H2].
Qed.

Lemma starts_redir r rest : starts [60; 62] (print_redir r ++ rest) = true.
Proof.
  unfold print_redir, redir_symbol. destruct (sr_mode r =? RD_MODE); [done|]. by destruct (sr_mode r =? WR_MODE).
Qed.

Lemma trim_redir r rest : trim (print_redir r ++ rest) = print_redir r ++ rest.
Proof.
  unfold print_redir, redir_symbol. destruct (sr_mode r =? RD_MODE); [done|]. by destruct (sr_mode r =? WR_MODE).
Qed.

Lemma redirs_length rs : (length rs <= length (print_redirs rs))%nat.
Proof.
  induction rs as [|r rs IH]; [done|]. unfold print_redirs in *. rewrite bind_cons, length_app. unfold print_redir at 1, blank_.
  rewrite !length_app. cbn [length]. lia.
Qed.

Lemma reads_length s r : reads s r → Z.of_nat (length (trim r)) <= es.
Proof.
  intros [Hs <-]. destruct (skip_trim s Hs) as [_ <-]. rewrite length_drop. unfold Shell.es. lia.
Qed.

Lemma redirs_bound s rs rest : reads s (print_redirs rs ++ rest) → Z.of_nat (length rs) <= es.
Proof.
  destruct rs as [|r rs]; [intros [? _]; cbn; lia|]. intros Hr%reads_length. unfold print_redirs in Hr.
  rewrite bind_cons, <- app_assoc, trim_redir, app_assoc, length_app, <- bind_cons in Hr.
  pose proof (redirs_length (r :: rs)). unfold print_redirs in *. lia.
Qed.

Lemma parseredirs_reads s rs rest :
  Forall sredir_ok rs → reads s (print_redirs rs ++ rest) → starts [60; 62] rest = false →
  wp (parseredirs buf) (λ rl s', nr <$> rl = rs ∧ reads s' rest) s.
Proof using Hnul Hlen.
  intros Hok Hr Hstop. unfold parseredirs.
  apply (wp_while (λ rl s', ∃ rs', (nr <$> rl) ++ rs' = rs ∧ reads s' (print_redirs rs' ++ rest))
    (λ rl _, Z.of_nat (length rs) - Z.of_nat (length rl))).
  2: { exists rs. done. }
  2: { pose proof (redirs_bound _ _ _ Hr). cbn [length]. lia. }
  clear s Hr. intros rl s ([|r rs'] & E & Hr).
  - rewrite app_nil_r in E. wp_step. eapply wp_mono; [by apply peek_reads|]. intros b s1 [-> Hs1].
    cbn [print_redirs] in *. unfold print_redirs in *. cbn [mbind list_bind app] in *. rewrite Hstop. by wp_step.
  - assert (sredir_ok r) as Hrok by (rewrite <- E in Hok; by apply Forall_app in Hok as [_ [? _]%Forall_cons]).
    unfold print_redirs in Hr. rewrite bind_cons, <- app_assoc in Hr.
    wp_step. eapply wp_mono; [by apply peek_reads|]. intros b s1 [-> Hs1]. rewrite starts_redir.
    wp_step. eapply wp_mono; [by apply (gettoken_redir s1 r)|]. intros t s2 [Ht Hs2].
    wp_step. eapply wp_mono; [apply (gettoken_word s2 (sr_file r) _ (proj1 Hrok) Hs2)|]. intros f s3 (Hf & Hw & Hs3).
    rewrite Hf. cbn [Z.eqb Pos.eqb negb]. cbv zeta. wp_step.
    assert (∀ x, nr x = r → (∃ rs'0, (nr <$> (rl ++ [x])) ++ rs'0 = rs ∧ reads s3 (print_redirs rs'0 ++ rest)) ∧
      0 <= Z.of_nat (length rs) - Z.of_nat (length (rl ++ [x])) < Z.of_nat (length rs) - Z.of_nat (length rl)) as Hx.
    { intros x Ex. rewrite length_app. cbn [length]. split.
      - exists rs'. rewrite fmap_app, <- app_assoc. cbn [fmap list_fmap app]. by rewrite Ex.
      - rewrite <- E, length_app, length_fmap. cbn [length]. lia. }
    rewrite Ht. destruct r as [fl m fd]. destruct Hrok as [_ Hm]. cbn [sr_file sr_mode sr_fd] in *. unfold redir_kind in Hm. rewrite list_elem_of_In in Hm.
    destruct Hm as [[= <- <-]|[[= <- <-]|[[= <- <-]|[]]]]; cbn [Z.eqb Pos.eqb RD_MODE WR_MODE APP_MODE]; apply Hx;
      unfold named_redir; cbn [rd_file rd_mode rd_fd]; by rewrite Hw.
Qed.

(** The text that is left starts with one of these, or is over. *)
Definition ends_at (l : list Z) (r : list Z) : Prop := match trim r with [] => True | c :: _ => c ∈ l end.

Lemma ends_at_starts l toks r : ends_at l r → Forall (λ c, c ∉ toks) l → starts toks r = false.
Proof.
  unfold ends_at, starts. destruct (trim r) as [|c r']; [done|]. intros Hc Hl. rewrite Forall_forall in Hl.
  unfold strchr_. apply bool_decide_eq_false_2. by apply Hl.
Qed.

Lemma ends_at_mono l l' r : ends_at l r → l ⊆ l' → ends_at l' r.
Proof. unfold ends_at. destruct (trim r); [done|]. set_solver. Qed.

Lemma starts_word toks w r : word w → Forall (λ c, c ∈ symbols) toks → starts toks (w ++ r) = false.
Proof.
  intros [Hne Hw] Ht. destruct w as [|c w]; [done|]. apply Forall_cons in Hw as [[Hc _] _]. unfold starts. cbn.
  rewrite (word_not_blank _ Hc). unfold strchr_. apply bool_decide_eq_false_2. intros Hin.
  rewrite Forall_forall in Ht. specialize (Ht _ Hin). unfold word_char, strchr_ in Hc. rewrite (bool_decide_eq_true_2 (c ∈ symbols)) in Hc by done.
  by rewrite andb_false_r in Hc.
Qed.

Lemma words_cons w ws r : print_words (w :: ws) ++ r = w ++ 32 :: print_words ws ++ r.
Proof. unfold print_words. rewrite bind_cons. unfold blank_. by rewrite <- !app_assoc. Qed.

(** What [parseexec] has left of its arguments, and the redirections after them. *)
Definition args_left (rs : list sredir) (rest : list Z) (ws : list (list Z)) (rl : list redir) (s : Z) : Prop :=
  match ws with
  | [] => nr <$> rl = rs ∧ reads s rest
  | _ => rl = [] ∧ reads s (print_words ws ++ print_redirs rs ++ rest)
  end.

Lemma parseredirs_left s ws rs rest :
  Forall word ws → Forall sredir_ok rs → reads s (print_words ws ++ print_redirs rs ++ rest) → starts [60; 62] rest = false →
  wp (parseredirs buf) (λ rl s', args_left rs rest ws rl s') s.
Proof using Hnul Hlen.
  intros Hws Hrs Hr Hstop. destruct ws as [|w ws]; [by apply parseredirs_reads|].
  eapply wp_mono; [apply (parseredirs_reads s [] (print_words (w :: ws) ++ print_redirs rs ++ rest)); [constructor|done|]|].
  - rewrite words_cons. apply Forall_cons in Hws as [Hw _]. apply starts_word; [done|]. unfold symbols. repeat constructor; set_solver.
  - intros rl s' [E Hs']. apply fmap_nil_inv in E. by split.
Qed.

Lemma parseargs_reads s ws rs rest :
  Forall word ws → Z.of_nat (length ws) < MAXARGS → Forall sredir_ok rs →
  reads s (print_words ws ++ print_redirs rs ++ rest) → ends_at [124; 41; 38; 59] rest →
  wp (parseargs buf) (λ r s', slice buf <$> r.1 = ws ∧ nr <$> r.2 = rs ∧ reads s' rest) s.
Proof using Hnul Hlen.
  intros Hws Hn Hrs Hr Hend.
  assert (starts [60; 62] rest = false) as Hstop by (eapply ends_at_starts; [exact Hend|]; repeat constructor; set_solver).
  unfold parseargs. wp_step. eapply wp_mono; [by eapply parseredirs_left|]. clear s Hr. intros rl s Hleft.
  apply (wp_while (λ r s', ∃ ws', (slice buf <$> r.1) ++ ws' = ws ∧ args_left rs rest ws' r.2 s')
    (λ r _, Z.of_nat (length ws) - Z.of_nat (length r.1))); [|by exists ws|unfold MAXARGS in Hn; cbn; lia].
  clear rl s Hleft. intros [argv rl] s (ws' & E & Hleft). cbn [fst snd] in *. destruct ws' as [|w ws']; cbn [args_left] in Hleft.
  - rewrite app_nil_r in E. destruct Hleft as [Hrl Hr]. wp_step. eapply wp_mono; [by apply peek_reads|]. intros b s1 [-> Hs1].
    unfold starts, ends_at in *. destruct (trim rest) as [|c r'] eqn:Et.
    + wp_step. eapply wp_mono; [by apply gettoken_end|]. intros t s2 [-> Hs2]. by wp_step.
    + unfold strchr_. rewrite bool_decide_eq_true_2 by done. by wp_step.
  - destruct Hleft as [-> Hr]. rewrite words_cons in Hr.
    assert (Forall word (w :: ws')) as [Hw Hws']%Forall_cons by (rewrite <- E in Hws; by apply Forall_app in Hws as [_ ?]).
    wp_step. eapply wp_mono; [by apply peek_reads|]. intros b s1 [-> Hs1].
    rewrite starts_word; [|done|unfold symbols; repeat constructor; set_solver].
    wp_step. eapply wp_mono; [by apply gettoken_word|]. intros t s2 (Ht & Htw & Hs2). rewrite Ht. cbn [Z.eqb Pos.eqb negb]. cbv zeta.
    assert (length ws = length argv + S (length ws'))%nat as Hl by (rewrite <- E, length_app, length_fmap; done).
    rewrite length_app. cbn [length]. destruct (Z.geb_spec (Z.of_nat (length argv + 1)) MAXARGS); [lia|].
    wp_step. eapply wp_mono; [by apply (parseredirs_left s2 ws' rs rest)|]. intros rl' s3 Hleft. wp_step. cbn [fst snd app].
    rewrite length_app. cbn [length]. split; [|lia]. exists ws'. rewrite fmap_app, <- app_assoc. cbn [fmap list_fmap app]. by rewrite Htw.
Qed.

(** ** The levels of the grammar *)

Abbreviation nm := (named (slice buf)).

Lemma named_redirs f c rl : named f (foldl redircmd c rl) = foldl cRedir (named f c) (named_redir f <$> rl).
Proof. revert c. induction rl as [|r rl IH]; intros c; [done|]. cbn. by rewrite IH. Qed.

Definition size (r : list Z) : Z := Z.of_nat (length r).
Definition amps (k : nat) : list Z := replicate k [38; 32] ≫= (λ x, x).

(** A simple command, or a block, with the redirections after it. *)
Definition exec_text (t : list Z) (c : command) : Prop := ∀ s n rs rest,
  Forall sredir_ok rs → reads s (t ++ print_redirs rs ++ rest) → ends_at [124; 41; 38; 59] rest →
  4 * size (t ++ print_redirs rs ++ rest) + 2 <= Z.of_nat n →
  wp (parseexec buf n) (λ c' s', nm c' = foldl cRedir c rs ∧ reads s' rest) s.

Definition pipe_text (t : list Z) (c : command) : Prop := ∀ s n rest,
  reads s (t ++ rest) → ends_at [41; 38; 59] rest → 4 * size (t ++ rest) + 3 <= Z.of_nat n →
  wp (parsepipe buf n) (λ c' s', nm c' = c ∧ reads s' rest) s.

(** A pipeline with the [&]s after it. *)
Definition back_text (t : list Z) (c : command) : Prop := ∀ s n k rest,
  reads s (t ++ amps k ++ rest) → ends_at [41; 59] rest → 4 * size (t ++ amps k ++ rest) + 3 <= Z.of_nat n →
  wp (c' ← parsepipe buf n; parseback buf c') (λ c' s', nm c' = Nat.iter k cBack c ∧ reads s' rest) s.

Definition line_text (t : list Z) (c : command) : Prop := ∀ s n rest,
  reads s (t ++ rest) → ends_at [41] rest → 4 * size (t ++ rest) + 4 <= Z.of_nat n →
  wp (parseline buf n) (λ c' s', nm c' = c ∧ reads s' rest) s.

Lemma starts_head toks c r : blank c = false → c ∈ toks → starts toks (c :: r) = true.
Proof. intros Hb Hc. unfold starts. cbn. rewrite Hb. by apply bool_decide_eq_true_2. Qed.

Lemma ends_at_head l c r : blank c = false → c ∈ l → ends_at l (c :: r).
Proof. intros Hb Hc. unfold ends_at. cbn. by rewrite Hb. Qed.

Ltac stops H := eapply ends_at_starts; [exact H|]; repeat constructor; set_solver.
Ltac fuel n := destruct n as [|n]; [unfold size in *; lia|].
Ltac size_lia := unfold size in *; repeat (rewrite length_app in * || cbn [length app] in * ); lia.
Ltac looks := wp_step; eapply wp_mono; [by apply peek_reads|];
  let b := fresh "b" in let x := fresh "x" in let H := fresh "Hx" in intros b x [-> H].

Lemma exec_words ws : Forall word ws → Z.of_nat (length ws) < MAXARGS → exec_text (print_words ws) (cExec ws).
Proof using Hnul Hlen.
  intros Hws Hn s n rs rest Hrs Hr Hend Hfuel. fuel n. cbn [parseexec]. looks.
  replace (starts [40] (print_words ws ++ print_redirs rs ++ rest)) with false.
  2: { symmetry. destruct ws as [|w ws]; [|rewrite words_cons; apply Forall_cons in Hws as [Hw _]; apply starts_word; [done|]; unfold symbols; repeat constructor; set_solver].
    destruct rs as [|r rs]; [by stops Hend|]. unfold print_redirs. rewrite bind_cons.
    unfold print_redir, redir_symbol. cbn. destruct (sr_mode r =? RD_MODE); [done|]. by destruct (sr_mode r =? WR_MODE). }
  wp_step. eapply wp_mono; [by eapply parseargs_reads|]. intros [argv rl] s' (H1 & H2 & H3). wp_step.
  cbn [fst snd] in *. rewrite named_redirs. cbn [named]. by rewrite H1, H2.
Qed.

Lemma exec_redir t c r : sredir_ok r → exec_text t c → exec_text (t ++ print_redir r) (cRedir c r).
Proof using Hnul Hlen.
  intros Hrok Ht s n rs rest Hrs Hr Hend Hfuel.
  assert ((t ++ print_redir r) ++ print_redirs rs ++ rest = t ++ print_redirs (r :: rs) ++ rest) as E.
  { unfold print_redirs. by rewrite bind_cons, <- !app_assoc. }
  rewrite E in *. apply (Ht s n (r :: rs) rest); [by constructor|done..].
Qed.

Lemma exec_block t c : line_text t c → exec_text ([40; 32] ++ t ++ [41; 32]) c.
Proof using Hnul Hlen.
  intros Ht s n rs rest Hrs Hr Hend Hfuel. cbn [app] in *. rewrite <- app_assoc in *. cbn [app] in *.
  fuel n. cbn [parseexec]. looks. rewrite starts_head by (done || set_solver). cbn [negb]. fuel n. cbn [parseblock]. looks. rewrite starts_head by (done || set_solver). cbn [negb]. wp_step.
  eapply wp_mono; [by eapply (gettoken_symbol _ _ 40); [done|done|set_solver]|]. intros ? s1 [_ Hs1%reads_blank].
  wp_step. eapply wp_mono; [apply (Ht s1 n _ Hs1); [apply ends_at_head; [done|set_solver]|size_lia]|]. intros c' s2 [Hc' Hs2].
  looks. rewrite starts_head by (done || set_solver). cbn [negb]. wp_step. eapply wp_mono; [by eapply (gettoken_symbol _ _ 41); [done|done|set_solver]|].
  intros ? s3 [_ Hs3%reads_blank]. wp_step. eapply wp_mono; [apply (parseredirs_reads s3 rs rest Hrs Hs3); by stops Hend|].
  intros rl s4 [Hrl Hs4]. wp_step. by rewrite named_redirs, Hc', Hrl.
Qed.

Lemma pipe_exec t c : exec_text t c → pipe_text t c.
Proof using Hnul Hlen.
  intros Ht s n rest Hr Hend Hfuel. fuel n. cbn [parsepipe]. wp_step.
  eapply wp_mono; [apply (Ht s n [] rest); [constructor|done| |unfold print_redirs; cbn; size_lia]|].
  { eapply ends_at_mono; [exact Hend|]. set_solver. }
  intros c' s1 [Hc' Hs1]. looks. replace (starts [124] rest) with false by (symmetry; stops Hend). by wp_step.
Qed.

Lemma pipe_cons t1 c1 t2 c2 : exec_text t1 c1 → pipe_text t2 c2 → pipe_text (t1 ++ [124; 32] ++ t2) (cPipe c1 c2).
Proof using Hnul Hlen.
  intros H1 H2 s n rest Hr Hend Hfuel. rewrite <- app_assoc in *. cbn [app] in *. fuel n. cbn [parsepipe]. wp_step.
  eapply wp_mono; [apply (H1 s n [] (124 :: 32 :: t2 ++ rest)); [constructor|done|apply ends_at_head; [done|set_solver]|unfold print_redirs; cbn; size_lia]|].
  intros c1' s1 [Hc1 Hs1]. looks. rewrite starts_head by (done || set_solver). cbn [negb]. wp_step.
  eapply wp_mono; [by eapply (gettoken_symbol _ _ 124); [done|done|set_solver]|]. intros ? s2 [_ Hs2%reads_blank].
  wp_step. eapply wp_mono; [apply (H2 s2 n rest Hs2 Hend); size_lia|]. intros c2' s3 [Hc2 Hs3]. wp_step.
  cbn [foldl] in Hc1. cbn [named]. by rewrite Hc1, Hc2.
Qed.

Lemma parseback_reads s k c rest :
  reads s (amps k ++ rest) → ends_at [41; 59] rest → Z.of_nat k < 2 ^ 64 →
  wp (parseback buf c) (λ c' s', nm c' = Nat.iter k cBack (nm c) ∧ reads s' rest) s.
Proof using Hnul Hlen.
  intros Hr Hend Hk. unfold parseback.
  apply (wp_while_n (S k)); [lia|]. clear Hk. revert c s Hr. induction k as [|k IH]; intros c s Hr; cbn [kloopn].
  - change (amps 0 ++ rest) with rest in Hr. wp_step. looks.
    replace (starts [38] rest) with false by (symmetry; stops Hend). do 2 wp_step. by split.
  - change (amps (S k) ++ rest) with (38 :: 32 :: amps k ++ rest) in Hr. wp_step. looks. rewrite starts_head by (done || set_solver). cbn [negb]. wp_step. eapply wp_mono; [by eapply (gettoken_symbol _ _ 38); [done|done|set_solver]|].
    intros ? s2 [_ Hs2%reads_blank]. wp_step. eapply wp_mono; [by apply IH|]. intros [?|c'] s3 H3; [done|].
    destruct H3 as [H3 H4]. split; [|done]. rewrite H3. cbn [named]. by rewrite <- Nat.iter_succ_r.
Qed.

Lemma amps_bound s k rest : reads s (amps k ++ rest) → Z.of_nat k <= es.
Proof.
  destruct k as [|k]; [intros [? _]; lia|]. intros Hr%reads_length.
  change (trim (amps (S k) ++ rest)) with (38 :: 32 :: amps k ++ rest) in Hr. cbn [length] in Hr. rewrite length_app in Hr.
  assert (k <= length (amps k))%nat; [|lia]. clear. induction k as [|k IH]; [done|].
  change (amps (S k)) with (38 :: 32 :: amps k). cbn [length]. lia.
Qed.

Lemma back_pipe t c : pipe_text t c → back_text t c.
Proof using Hnul Hlen.
  intros Ht s n k rest Hr Hend Hfuel. wp_step. eapply wp_mono; [apply (Ht s n _ Hr); [|done]|].
  - destruct k as [|k]; [|apply ends_at_head; [done|set_solver]]. eapply ends_at_mono; [exact Hend|]. set_solver.
  - intros c' s1 [<- Hs1]. apply parseback_reads; [done|done|]. apply amps_bound in Hs1. lia.
Qed.

Lemma back_amp t c : back_text t c → back_text (t ++ [38; 32]) (cBack c).
Proof.
  intros Ht s n k rest Hr Hend Hfuel. rewrite <- app_assoc in *.
  change ([38; 32] ++ amps k ++ rest) with (amps (S k) ++ rest) in *.
  rewrite <- Nat.iter_succ_r. by apply Ht.
Qed.

(** [parseline] after the pipeline and its [&]s. *)
Lemma line_start t c s n (k : cmd → kM Z cmd) rest (Q : cmd → Z → Prop) :
  back_text t c → reads s (t ++ rest) → ends_at [41; 59] rest → 4 * size (t ++ rest) + 3 <= Z.of_nat n →
  (∀ c' s', nm c' = c → reads s' rest → wp (k c') Q s') →
  wp (c ← parsepipe buf n; c ← parseback buf c; k c) Q s.
Proof.
  intros Ht Hr Hend Hfuel Hk. specialize (Ht s n O rest Hr Hend Hfuel). apply wp_bind_inv in Ht.
  wp_step. eapply wp_mono; [exact Ht|]. cbn beta. intros c1 s1 H1. wp_step. eapply wp_mono; [exact H1|].
  intros c2 s2 [E2 H2]. by apply Hk.
Qed.

Lemma line_back t c : back_text t c → line_text t c.
Proof using Hnul Hlen.
  intros Ht s n rest Hr Hend Hfuel. fuel n. cbn [parseline].
  apply (line_start t c s n _ rest); [done|done| |size_lia|].
  { eapply ends_at_mono; [exact Hend|]. set_solver. }
  intros c' s' Hc' Hs'. looks. replace (starts [59] rest) with false by (symmetry; stops Hend). by wp_step.
Qed.

Lemma line_cons t1 c1 t2 c2 : back_text t1 c1 → line_text t2 c2 → line_text (t1 ++ [59; 32] ++ t2) (cList c1 c2).
Proof using Hnul Hlen.
  intros H1 H2 s n rest Hr Hend Hfuel. rewrite <- app_assoc in *. cbn [app] in *. fuel n. cbn [parseline].
  apply (line_start t1 c1 s n _ (59 :: 32 :: t2 ++ rest)); [done|done|apply ends_at_head; [done|set_solver]|size_lia|].
  intros c1' s1 Hc1 Hs1. looks. rewrite starts_head by (done || set_solver). cbn [negb]. wp_step.
  eapply wp_mono; [by eapply (gettoken_symbol _ _ 59); [done|done|set_solver]|]. intros ? s2 [_ Hs2%reads_blank].
  wp_step. eapply wp_mono; [apply (H2 s2 n rest Hs2 Hend); size_lia|]. intros c2' s3 [Hc2 Hs3]. wp_step.
  cbn [named]. by rewrite Hc1, Hc2.
Qed.

(** ** Printed commands *)

(** The text of [c] parses to it at its own level and the ones above. *)
Record texts (c : command) : Prop := {
  tx_exec : (level c <= 0)%nat → exec_text (print c) c;
  tx_pipe : (level c <= 1)%nat → pipe_text (print c) c;
  tx_back : (level c <= 2)%nat → back_text (print c) c;
  tx_line : line_text (print c) c
}.

Section paren.
Context (c : command) (Hc : texts c).
Lemma paren_exec : exec_text (paren 0 c (print c)) c.
Proof using Hnul Hlen Hc. unfold paren. destruct (Nat.leb_spec (level c) 0); [by apply tx_exec|]. by apply exec_block, tx_line. Qed.
Lemma paren_pipe : pipe_text (paren 1 c (print c)) c.
Proof using Hnul Hlen Hc. unfold paren. destruct (Nat.leb_spec (level c) 1); [by apply tx_pipe|]. by apply pipe_exec, exec_block, tx_line. Qed.
Lemma paren_back : back_text (paren 2 c (print c)) c.
Proof using Hnul Hlen Hc. unfold paren. destruct (Nat.leb_spec (level c) 2); [by apply tx_back|]. by apply back_pipe, pipe_exec, exec_block, tx_line. Qed.
End paren.

Lemma print_texts c : command_ok c → texts c.
Proof using Hnul Hlen.
  induction c as [argv|c IH r|l IHl r IHr|l IHl r IHr|c IH]; cbn [command_ok]; intros Hok.
  - destruct Hok as [Hw Hn]. pose proof (exec_words argv Hw Hn) as H.
    split; intros; [done|by apply pipe_exec|by apply back_pipe, pipe_exec|by apply line_back, back_pipe, pipe_exec].
  - destruct Hok as [Hc Hr]. assert (exec_text (print (cRedir c r)) (cRedir c r)) as H by (apply exec_redir; [done|by apply paren_exec, IH]).
    split; intros; [done|by apply pipe_exec|by apply back_pipe, pipe_exec|by apply line_back, back_pipe, pipe_exec].
  - destruct Hok as [Hl Hr]. assert (pipe_text (print (cPipe l r)) (cPipe l r)) as H
      by (apply pipe_cons; [by apply paren_exec, IHl|by apply paren_pipe, IHr]).
    split; [cbn; lia|intros; done|intros; by apply back_pipe|by apply line_back, back_pipe].
  - destruct Hok as [Hl Hr]. split; [cbn; lia..|]. apply line_cons; [by apply paren_back, IHl|by apply tx_line, IHr].
  - assert (back_text (print (cBack c)) (cBack c)) as H by (by apply back_amp, paren_back, IH).
    split; [cbn; lia|cbn; lia|done|by apply line_back].
Qed.
End reading.

(** ** The line as a whole *)

Lemma print_chars (P : Z → Prop) c :
  (∀ x, word_char x = true → x ≠ 0 → P x) → Forall P [32; 40; 41; 38; 59; 60; 62; 124] → command_ok c → Forall P (print c).
Proof.
  intros HP Hsym. rewrite Forall_forall in Hsym.
  assert (∀ l, Forall (λ x, x ∈ [32; 40; 41; 38; 59; 60; 62; 124]) l → Forall P l) as Hs
    by (intros l H; eapply Forall_impl; [exact H|]; exact Hsym).
  assert (∀ w, word w → Forall P w) as Hword by (intros w [_ H]; eapply Forall_impl; [exact H|]; intros ? []; auto).
  assert (∀ k c, Forall P (print c) → Forall P (paren k c (print c))) as Hparen.
  { intros k c' H. unfold paren. destruct (level c' <=? k)%nat; [done|].
    apply Forall_app. split; [apply Hs; repeat constructor; set_solver|]. apply Forall_app. split; [done|apply Hs; repeat constructor; set_solver]. }
  induction c as [argv|c IH r|l IHl r IHr|l IHl r IHr|c IH]; cbn [command_ok print].
  - intros [Hw _]. unfold print_words. induction Hw as [|w ws Hw Hws IH]; [constructor|]. rewrite bind_cons.
    apply Forall_app. split; [|done]. apply Forall_app. split; [by apply Hword|]. apply Hs; repeat constructor; set_solver.
  - intros [Hc [Hw _]]. apply Forall_app. split; [by apply Hparen, IH|]. unfold print_redir, blank_.
    repeat (apply Forall_app; split); [|apply Hs; repeat constructor; set_solver|by apply Hword|apply Hs; repeat constructor; set_solver].
    unfold redir_symbol. apply Hs. destruct (_ =? _); [|destruct (_ =? _)]; repeat constructor; set_solver.
  - intros [Hl Hr]. apply Forall_app. split; [by apply Hparen, IHl|]. apply Forall_app.
    split; [apply Hs; repeat constructor; set_solver|by apply Hparen, IHr].
  - intros [Hl Hr]. apply Forall_app. split; [by apply Hparen, IHl|]. apply Forall_app.
    split; [apply Hs; repeat constructor; set_solver|by apply IHr].
  - intros Hc. apply Forall_app. split; [by apply Hparen, IH|apply Hs; repeat constructor; set_solver].
Qed.

Lemma command_no_nul c : command_ok c → Forall (λ x, x ≠ 0) (print c).
Proof. apply print_chars; [done|]. by repeat constructor. Qed.

Lemma named_ext f g c : (∀ t, t ∈ tokens c → f t = g t) → named f c = named g c.
Proof.
  induction c as [argv|c IH file m fd|l IHl r IHr|l IHl r IHr|c IH]; cbn [tokens named]; intros H.
  - f_equal. apply list_fmap_ext. intros i t Ht%list_elem_of_lookup_2. by apply H.
  - rewrite IH, H; [done|set_solver|]. intros t Ht. apply H. set_solver.
  - rewrite IHl, IHr; [done|..]; intros t Ht; apply H; set_solver.
  - rewrite IHl, IHr; [done|..]; intros t Ht; apply H; set_solver.
  - by rewrite IH.
Qed.

(** The line may have blanks behind the command, such as the newline. *)
Lemma parsetop_print c r :
  command_ok c → Forall (λ x, blank x = true ∧ x ≠ 0) r → es (print c ++ r) < 2 ^ 60 →
  wp (parsetop (print c ++ r)) (λ c' s, named (slice (print c ++ r)) c' = c ∧ s = es (print c ++ r)) 0.
Proof.
  intros Hok Hr Hsize. set (buf := print c ++ r) in *.
  assert (Forall (λ x, x ≠ 0) buf) as Hnul.
  { apply Forall_app. split; [by apply command_no_nul|]. eapply Forall_impl; [exact Hr|]. by intros ? []. }
  assert (trim r = []) as Ht by (clear -Hr; induction Hr as [|x r [Hx _] _ IH]; [done|]; cbn; by rewrite Hx).
  unfold parsetop. wp_step. eapply wp_mono.
  { apply (tx_line _ _ (print_texts buf Hnul Hsize c Hok) 0 (parse_fuel buf) r); [|unfold ends_at; by rewrite Ht|].
    - split; [unfold es; lia|]. by rewrite drop_0.
    - fold buf. unfold size, parse_fuel. lia. }
  intros c' s1 [Hc' [Hs1 Hs1']]. unfold peek. wp_steps. split; [done|].
  destruct (skip_trim buf s1 Hs1) as [Hq Hf]. rewrite Hs1', Ht in Hf. apply (f_equal length) in Hf.
  rewrite length_drop in Hf. cbn in Hf. unfold es in *. lia.
Qed.

(** The words of a line that was parsed are words. *)
Section parsed.
Context (buf : list Z) (Hnul : Forall (λ c, c ≠ 0) buf).

Lemma token_word t : token_ok buf t → word (slice buf t).
Proof using Hnul.
  intros [Hr Hw _]. destruct t as [q e]. cbn [fst snd] in *. unfold es in Hr. split.
  - intros E. apply (f_equal length) in E. unfold slice in E. rewrite length_take, length_drop in E. cbn in E. lia.
  - apply Forall_lookup. intros i c Hc. unfold slice in Hc. cbn [fst snd] in Hc.
    apply lookup_take_Some in Hc as [Hc Hi]. rewrite lookup_drop in Hc. rewrite Forall_lookup in Hnul. split; [|by apply (Hnul _ _ Hc)].
    rewrite <- (char_lookup buf (q + Z.of_nat i) c); [apply Hw; lia|lia|].
    by replace (Z.to_nat (q + Z.of_nat i)) with (Z.to_nat q + i)%nat by lia.
Qed.

Lemma parsed_ok c : tokens_ok buf c → command_ok (named (slice buf) c).
Proof using Hnul.
  induction c as [argv|c IH f m fd|l IHl r IHr|l IHl r IHr|c IH]; cbn [tokens_ok named command_ok].
  - intros [Ha Hn]. rewrite length_fmap. split; [|done]. rewrite Forall_fmap. eapply Forall_impl; [exact Ha|]. apply token_word.
  - intros (Hc & Hf & Hk). split; [by apply IH|]. split; [by apply token_word|done].
  - intros []; auto.
  - intros []; auto.
  - done.
Qed.
End parsed.

(** The words of a parsed command, as [runcmd] finds them. *)
Lemma named_strings buf c :
  Forall (λ c, c ≠ 0) buf → tokens_ok buf c →
  named (λ t, string_at (nulterminate c (buf ++ [0])) t.1) c = named (slice buf) c.
Proof. intros Hnul Hc. apply named_ext. intros t Ht. by apply nulterminate_words. Qed.
