(* ===== verification/ShellRun.v ===== *)
(** The shell as it calls the kernel ([runcmd], [getcmd], [main], [panic] and
    [fork1] of [user/sh.c]), and what a command line means: [csem] says, without
    descriptors being closed and duplicated, which programs a command starts with
    which files, in which order processes are made and waited for, and what happens
    when a call fails. *)
From ITree Require Import ITree.
From S2P Require Import Prelude CString Proc UserProg Shell ShellOps ShellPrint UserSys UserMain.

(** ** sh.c *)

Definition upanic {A} (s : list Z) : prog A := fails 2 (lit_nl "%s") [AStr_ s].

Definition fork1 : prog Z :=
  pid ← sys Fork;
  if pid =? -1 then upanic (lit "fork") else mret pid.

(** The strings of the command are in the terminated line [b]. *)
Fixpoint runcmd (b : list Z) (c : cmd) : prog Empty_set :=
  match c with
  | EXEC argv =>
      match (λ a, string_at b a.1) <$> argv with
      | [] => exit_ 1
      | path :: args =>
          sys (Exec path (path :: args)) ;;
          fprintf 2 (lit_nl "exec %s failed") [AStr_ path] ;;
          exit_ 0
      end
  | REDIR c file mode fd =>
      sys (Close fd) ;;
      r ← sys (Open (string_at b file.1) mode);
      if r <? 0 then fails 2 (lit_nl "open %s failed") [AStr_ (string_at b file.1)] else
      runcmd b c
  | LIST l r =>
      pid ← fork1;
      if pid =? 0 then runcmd b l else
      sys Wait ;;
      runcmd b r
  | PIPE l r =>
      p ← sys Pipe;
      match p with
      | None => upanic (lit "pipe")
      | Some (p0, p1) =>
          pid ← fork1;
          if pid =? 0 then
            sys (Close 1) ;; sys (Dup p1) ;; sys (Close p0) ;; sys (Close p1) ;;
            runcmd b l
          else
          pid ← fork1;
          if pid =? 0 then
            sys (Close 0) ;; sys (Dup p0) ;; sys (Close p0) ;; sys (Close p1) ;;
            runcmd b r
          else
          sys (Close p0) ;; sys (Close p1) ;;
          sys Wait ;; sys Wait ;;
          exit_ 0
      end
  | BACK c =>
      pid ← fork1;
      if pid =? 0 then runcmd b c else exit_ 0
  end.

(** [runcmd(parsecmd(buf))] in the child of the shell; [buf] is the line without
    its NUL. *)
Definition run_line (buf : list Z) : prog Empty_set :=
  match parsetop buf 0 with
  | Ok c s =>
      if negb (s =? es buf) then
        fprintf 2 (lit_nl "leftovers: %s") [AStr_ (drop (Z.to_nat s) buf)] ;;
        upanic (lit "syntax")
      else runcmd (nulterminate c (buf ++ [0])) c
  | Panic msg => upanic (lit msg)
  | _ => ITree.spin
  end.

(** The line, or [None] at the end of the input. *)
Definition getcmd (nbuf : Z) : prog (option (list Z)) :=
  sys (Write 2 (lit "$ ")) ;;
  l ← ugets nbuf;
  let buf := before_nul l in
  mret (if bool_decide (buf = []) then None else Some buf).

(** [while((fd = open("console", O_RDWR)) >= 0)] *)
Definition open_console : prog () :=
  loop (λ _ : (),
    fd ← sys (Open (lit "console") O_RDWR_);
    if fd <? 0 then mret (inr ()) else
    if fd >=? 3 then sys (Close fd) ;; mret (inr ()) else mret (inl ())) ().

Definition is_cd (buf : list Z) : bool := bool_decide (take 3 buf = lit "cd ").

(** The loop over command lines. *)
Definition sh_loop : prog Empty_set :=
  loop (λ _ : (),
    r ← getcmd 100;
    match r with
    | None => exit_ 0
    | Some buf =>
        if is_cd buf then
          let dir := drop 3 (take (length buf - 1) buf) in
          r ← sys (Other (Chdir dir));
          (if r <? 0 then fprintf 2 (lit_nl "cannot cd %s") [AStr_ dir] else mret ()) ;;
          mret (inl ())
        else
          pid ← fork1;
          if pid =? 0 then x ← run_line buf; match x : Empty_set with end else
          sys Wait ;;
          mret (inl ())
    end) ().

Definition sh_main : prog Empty_set := open_console ;; sh_loop.

(** ** What a command means *)

(** [l] is written character by character to [o], then [tr'] follows. *)
Fixpoint says (o : option obj) (l : list Z) (tr tr' : list act) : Prop :=
  match l with
  | [] => tr = tr'
  | c :: l => ∃ r tr1, tr = AWrite o [c] r :: tr1 ∧ says o l tr1 tr'
  end.

(** The process says [l] on its standard error and exits. *)
Definition dies (f : fds) (l : list Z) (status : Z) (tr : list act) : Prop := says (fd_obj f 2) l tr [AExit status].

#[global] Arguments dies : simpl never.

(** A fork: the child does one thing and the parent another, or the shell gives up. *)
Definition forked (f : fds) (child parent : list act → Prop) (tr : list act) : Prop :=
  match tr with
  | AFork pid tc :: tr => 0 < pid ∧ child tc ∧ parent tr
  | AForkFail :: tr => dies f (lit_nl "fork") 1 tr
  | _ => False
  end.

(** There is room for both ends of a pipe. *)
Definition has_room (f : fds) : Prop := match lowest f with Some i => is_Some (lowest (<[i := Some OConsole]> f)) | None => False end.

Fixpoint csem (c : command) (f : fds) (tr : list act) : Prop :=
  match c with
  | cExec [] => tr = [AExit 1]
  | cExec (path :: args) =>
      tr = [AStart path (path :: args) f] ∨
      ∃ tr', tr = AExecFail path :: tr' ∧ dies f (lit "exec " ++ path ++ lit_nl " failed") 0 tr'
  | cRedir c r =>
      match tr with
      | AOpen file mode ok :: tr =>
          file = sr_file r ∧ mode = sr_mode r ∧
          if ok then csem c (fd_set (sr_fd r) (Some (OFile file mode)) f) tr
          else dies f (lit "open " ++ file ++ lit_nl " failed") 1 tr
      | _ => False
      end
  | cPipe l r =>
      match tr with
      | APipe None :: tr => dies f (lit_nl "pipe") 1 tr
      | APipe (Some p) :: tr =>
          has_room f ∧
          forked f (csem l (fd_set 1 (Some (OPipeW p)) f))
            (forked f (csem r (fd_set 0 (Some (OPipeR p)) f))
              (λ tr, ∃ pid1 st1 pid2 st2, tr = [AWait pid1 st1; AWait pid2 st2; AExit 0])) tr
      | _ => False
      end
  | cList l r =>
      forked f (csem l f) (λ tr, match tr with AWait _ _ :: tr => csem r f tr | _ => False end) tr
  | cBack c => forked f (csem c f) (λ tr, tr = [AExit 0]) tr
  end.

(** ** The shell does what its commands mean *)

(** The standard descriptors are open. *)
Definition std (f : fds) : Prop := ∃ a b c f', f = Some a :: Some b :: Some c :: f'.

Lemma lowest_insert f i o o' : lowest f = Some i → is_Some (lowest (<[i := Some o]> f)) ↔ is_Some (lowest (<[i := Some o']> f)).
Proof.
  revert i. induction f as [|[x|] f IH]; intros i; cbn; [done| |by intros [= <-]].
  destruct (lowest f) as [j|] eqn:E; [|done]. intros [= <-]. cbn. rewrite !fmap_is_Some. by apply IH.
Qed.

Lemma behaves_puts fd l f tr (K : () → fds → list act → Prop) :
  behaves (puts fd l) f tr K ↔ ∃ tr', says (fd_obj f fd) l tr tr' ∧ K () f tr'.
Proof.
  revert tr. induction l as [|c l IH]; intros tr; cbn [puts says].
  { rewrite behaves_ret. naive_solver. }
  rewrite behaves_bind, behaves_sys. destruct tr as [|[] tr]; cbn; naive_solver.
Qed.

Lemma behaves_fails {A} fd fmt ap l f tr (K : A → fds → list act → Prop) :
  vprintf fmt false ap = Some l → behaves (fails fd fmt ap) f tr K ↔ says (fd_obj f fd) l tr [AExit 1].
Proof.
  intros E. unfold fails, fprintf. rewrite E, behaves_bind, behaves_puts. cbn [default]. setoid_rewrite behaves_exit. naive_solver.
Qed.

Lemma behaves_upanic {A} s f tr (K : A → fds → list act → Prop) :
  behaves (upanic s) f tr K ↔ dies f (s ++ [10]) 1 tr.
Proof. unfold upanic. by rewrite behaves_fails. Qed.

Lemma behaves_fork1 f tr (K : Z → fds → list act → Prop) :
  behaves fork1 f tr K ↔
  match tr with
  | AFork pid tc :: tr => 0 < pid ∧ K 0 f tc ∧ K pid f tr
  | AForkFail :: tr => dies f (lit_nl "fork") 1 tr
  | _ => False
  end.
Proof.
  unfold fork1. rewrite behaves_bind, behaves_sys. destruct tr as [|[] tr]; cbn [handle]; try done.
  - cbn [Z.eqb]. rewrite behaves_ret. destruct (Z.eqb_spec pid (-1)) as [->|]; [|by rewrite behaves_ret]. naive_solver lia.
  - rewrite Z.eqb_refl. by rewrite behaves_upanic.
Qed.

(** The branches after [fork1]. *)
Lemma behaves_forked {A} (child parent : prog A) f tr (K : A → fds → list act → Prop) :
  behaves (pid ← fork1; if pid =? 0 then child else parent) f tr K ↔
  forked f (λ tr, behaves child f tr K) (λ tr, behaves parent f tr K) tr.
Proof.
  rewrite behaves_bind, behaves_fork1. destruct tr as [|[] tr]; cbn; try done.
  split; intros (Hp & H); destruct (Z.eqb_spec pid 0); (done || lia).
Qed.

Lemma forked_iff f P P' Q Q' tr :
  (∀ tr, P tr ↔ P' tr) → (∀ tr, Q tr ↔ Q' tr) → forked f P Q tr ↔ forked f P' Q' tr.
Proof. intros HP HQ. destruct tr as [|[] tr]; cbn; try done. by rewrite HP, HQ. Qed.

Lemma dies_fd f f' l st tr : fd_obj f 2 = fd_obj f' 2 → dies f l st tr ↔ dies f' l st tr.
Proof. unfold dies. by intros ->. Qed.

Lemma forked_fd f f' P Q tr : fd_obj f 2 = fd_obj f' 2 → forked f P Q tr ↔ forked f' P Q tr.
Proof. intros E. destruct tr as [|[] tr]; cbn; try done. by apply dies_fd. Qed.

(** The two ends of a pipe, and the table without them. *)
Lemma pipe_ends f i o :
  lowest f = Some i → is_Some (lowest (<[i := Some o]> f)) ↔ has_room f.
Proof. intros E. unfold has_room. rewrite E. by apply lowest_insert. Qed.

Lemma behaves_close {A} k o (m : prog A) f tr (K : A → fds → list act → Prop) :
  f !! k = Some (Some o) → behaves (sys (Close (Z.of_nat k)) ;; m) f tr K ↔ behaves m (<[k := None]> f) tr K.
Proof.
  intros E. rewrite behaves_bind, behaves_sys. cbn. unfold fd_obj. destruct (Z.leb_spec 0 (Z.of_nat k)); [|lia].
  rewrite Nat2Z.id, E. unfold fd_set. by rewrite Nat2Z.id.
Qed.

Lemma behaves_dup {A} k i o (m : prog A) f tr (K : A → fds → list act → Prop) :
  f !! k = Some (Some o) → lowest f = Some i → behaves (sys (Dup (Z.of_nat k)) ;; m) f tr K ↔ behaves m (<[i := Some o]> f) tr K.
Proof.
  intros E Ei. rewrite behaves_bind, behaves_sys. cbn. unfold fd_obj. destruct (Z.leb_spec 0 (Z.of_nat k)); [|lia].
  by rewrite Nat2Z.id, E, Ei.
Qed.

Lemma behaves_table {A} (m : prog A) tr (K : A → fds → list act → Prop) f f' : f = f' → behaves m f tr K ↔ behaves m f' tr K.
Proof. by intros ->. Qed.

Section pipe.
Context (a b c : obj) (f' : fds) (i j : nat) (p : Z).
Abbreviation f := (Some a :: Some b :: Some c :: f').
Abbreviation F := (<[S (S (S j)) := Some (OPipeW p)]> (<[S (S (S i)) := Some (OPipeR p)]> f)).
Context (Hi : lowest f' = Some i) (Hj : lowest (<[i := Some (OPipeR p)]> f') = Some j).

Lemma pipe_slots : f' !! i = Some None ∧ f' !! j = Some None ∧ i ≠ j.
Proof using Hi Hj.
  pose proof (lowest_free _ _ Hi) as H1. pose proof (lowest_free _ _ Hj) as H2.
  destruct (decide (i = j)) as [E|Hne].
  - rewrite <- E, list_lookup_insert_eq in H2 by (by eapply lookup_lt_Some). done.
  - by rewrite list_lookup_insert_ne in H2.
Qed.

(** Closing both ends gives the table back. *)
Lemma close_ends (g : fds) {A} (m : prog A) tr (K : A → fds → list act → Prop) :
  g !! S (S (S i)) = Some (Some (OPipeR p)) → g !! S (S (S j)) = Some (Some (OPipeW p)) →
  behaves (sys (Close (Z.of_nat (S (S (S i))))) ;; sys (Close (Z.of_nat (S (S (S j))))) ;; m) g tr K ↔
  behaves m (<[S (S (S j)) := None]> (<[S (S (S i)) := None]> g)) tr K.
Proof using Hi Hj.
  intros H1 H2. destruct pipe_slots as (_ & _ & Hne). rewrite (behaves_close _ _ _ _ _ _ H1).
  apply (behaves_close _ (OPipeW p)). rewrite list_lookup_insert_ne by lia. done.
Qed.

Lemma without_ends : <[j := None]> (<[i := None]> (<[j := Some (OPipeW p)]> (<[i := Some (OPipeR p)]> f'))) = f'.
Proof using Hi Hj.
  destruct pipe_slots as (H1 & H2 & Hne). rewrite (list_insert_insert_ne _ i j) by done.
  rewrite list_insert_insert_eq, list_insert_insert_eq. rewrite (list_insert_id f' i) by done. by apply list_insert_id.
Qed.

Lemma F_lookup : F !! S (S (S i)) = Some (Some (OPipeR p)) ∧ F !! S (S (S j)) = Some (Some (OPipeW p)).
Proof using Hi Hj.
  destruct pipe_slots as (H1%lookup_lt_Some & H2%lookup_lt_Some & Hne). split.
  - rewrite list_lookup_insert_ne by lia. apply list_lookup_insert_eq. cbn [length]. lia.
  - apply list_lookup_insert_eq. rewrite length_insert. cbn [length]. lia.
Qed.

Lemma pipe_left {A} (m : prog A) tr (K : A → fds → list act → Prop) :
  behaves (sys (Close 1) ;; sys (Dup (Z.of_nat (S (S (S j))))) ;; sys (Close (Z.of_nat (S (S (S i))))) ;;
    sys (Close (Z.of_nat (S (S (S j))))) ;; m) F tr K ↔ behaves m (fd_set 1 (Some (OPipeW p)) f) tr K.
Proof using Hi Hj.
  destruct F_lookup as [H1 H2]. change 1 with (Z.of_nat 1). rewrite (behaves_close 1 b) by done.
  rewrite (behaves_dup (S (S (S j))) 1 (OPipeW p)) by (cbn in *; done). rewrite close_ends by (cbn in *; done).
  exact (behaves_table _ _ _ _ _ (f_equal (λ l, Some a :: Some (OPipeW p) :: Some c :: l) without_ends)).
Qed.

Lemma pipe_right {A} (m : prog A) tr (K : A → fds → list act → Prop) :
  behaves (sys (Close 0) ;; sys (Dup (Z.of_nat (S (S (S i))))) ;; sys (Close (Z.of_nat (S (S (S i))))) ;;
    sys (Close (Z.of_nat (S (S (S j))))) ;; m) F tr K ↔ behaves m (fd_set 0 (Some (OPipeR p)) f) tr K.
Proof using Hi Hj.
  destruct F_lookup as [H1 H2]. change 0 with (Z.of_nat 0). rewrite (behaves_close 0 a) by done.
  rewrite (behaves_dup (S (S (S i))) 0 (OPipeR p)) by (cbn in *; done). rewrite close_ends by (cbn in *; done).
  exact (behaves_table _ _ _ _ _ (f_equal (λ l, Some (OPipeR p) :: Some b :: Some c :: l) without_ends)).
Qed.

Lemma pipe_parent {A} (m : prog A) tr (K : A → fds → list act → Prop) :
  behaves (sys (Close (Z.of_nat (S (S (S i))))) ;; sys (Close (Z.of_nat (S (S (S j))))) ;; m) F tr K ↔ behaves m f tr K.
Proof using Hi Hj.
  destruct F_lookup as [H1 H2]. rewrite close_ends by done.
  exact (behaves_table _ _ _ _ _ (f_equal (λ l, Some a :: Some b :: Some c :: l) without_ends)).
Qed.
End pipe.

Lemma std_set f fd o : std f → fd ∈ [0; 1] → std (fd_set fd (Some o) f).
Proof.
  intros (a & b & c & f' & ->) Hfd. rewrite list_elem_of_In in Hfd. destruct Hfd as [<-|[<-|[]]]; cbn; by eexists _, _, _, _.
Qed.

(** [close(fd); open(...)] puts the file at [fd]. *)
Lemma redir_table f fd : std f → fd ∈ [0; 1] →
  is_Some (fd_obj f fd) ∧ lowest (fd_set fd None f) = Some (Z.to_nat fd) ∧ fd_obj (fd_set fd None f) 2 = fd_obj f 2 ∧
  ∀ o, <[Z.to_nat fd := Some o]> (fd_set fd None f) = fd_set fd (Some o) f.
Proof.
  intros (a & b & c & f' & ->) Hfd. rewrite list_elem_of_In in Hfd. destruct Hfd as [<-|[<-|[]]]; cbn; split_and!; by try eexists.
Qed.

Section runcmd.
Context (b : list Z).
Abbreviation str := (λ t : Z * Z, string_at b t.1).
Abbreviation meaning c := (∀ f tr (K : Empty_set → fds → list act → Prop), std f → command_ok (named str c) →
  behaves (runcmd b c) f tr K ↔ csem (named str c) f tr).

Lemma run_exec argv : meaning (EXEC argv).
Proof.
  intros f tr K Hf _. cbn [runcmd named csem]. destruct (str <$> argv) as [|path args]; [apply behaves_exit|].
  rewrite behaves_bind, behaves_sys. cbn [handle]. unfold fprintf. setoid_rewrite behaves_bind. setoid_rewrite behaves_puts.
  setoid_rewrite behaves_exit. unfold dies. change (default [] (vprintf (lit_nl "exec %s failed") false [AStr_ path])) with
    (lit "exec " ++ path ++ lit_nl " failed"). naive_solver.
Qed.

Lemma run_redir c file mode fd : meaning c → meaning (REDIR c file mode fd).
Proof.
  intros IH f tr K Hf [Hok [_ Hk]]. cbn [sr_mode sr_fd] in Hk.
  assert (fd ∈ [0; 1]) as Hfd by (unfold redir_kind in Hk; set_solver).
  destruct (redir_table f fd Hf Hfd) as ([o Ho] & Hl & H2 & Hset).
  cbn [runcmd named csem]. rewrite behaves_bind, behaves_sys. cbn [handle]. rewrite Ho, behaves_bind, behaves_sys.
  destruct tr as [|[| | | | | | | | |file' mode' ok| |] tr]; cbn [handle]; try done. cbn [sr_file sr_mode sr_fd].
  destruct ok.
  - rewrite Hl. split; intros (-> & -> & H); (split; [done|]; split; [done|]).
    + rewrite (proj2 (Z.ltb_ge _ _)) in H by lia. rewrite Hset in H. apply IH in H; [done|by apply std_set|done].
    + rewrite (proj2 (Z.ltb_ge _ _)) by lia. rewrite Hset. apply IH; [by apply std_set|done|done].
  - cbn [Z.ltb Z.compare]. rewrite (behaves_fails 2 _ _ (lit "open " ++ string_at b file.1 ++ lit_nl " failed")) by done.
    unfold dies. rewrite H2. naive_solver.
Qed.

Lemma run_list l r : meaning l → meaning r → meaning (LIST l r).
Proof.
  intros IHl IHr f tr K Hf [Hl Hr]. cbn [runcmd named csem]. rewrite behaves_forked. apply forked_iff; intros tr'.
  - by apply IHl.
  - rewrite behaves_bind, behaves_sys. destruct tr' as [|[] tr']; cbn [handle]; try done. by apply IHr.
Qed.

Lemma run_back c : meaning c → meaning (BACK c).
Proof.
  intros IH f tr K Hf Hok. cbn [runcmd named csem]. rewrite behaves_forked. apply forked_iff; intros tr'; [by apply IH|apply behaves_exit].
Qed.

Lemma run_waits f tr (K : Empty_set → fds → list act → Prop) :
  behaves (sys Wait ;; sys Wait ;; exit_ 0) f tr K ↔ ∃ pid1 st1 pid2 st2, tr = [AWait pid1 st1; AWait pid2 st2; AExit 0].
Proof.
  rewrite behaves_bind, behaves_sys. destruct tr as [|[] tr]; cbn [handle]; try naive_solver.
  rewrite behaves_bind, behaves_sys. destruct tr as [|[] tr]; cbn [handle]; try naive_solver. rewrite behaves_exit. naive_solver.
Qed.

Lemma run_pipe l r : meaning l → meaning r → meaning (PIPE l r).
Proof.
  intros IHl IHr f tr K Hf [Hl Hr]. cbn [runcmd named csem]. rewrite behaves_bind, behaves_sys.
  destruct tr as [|[| | | |[p|]| | | | | | |] tr]; cbn [handle]; try done; [|by rewrite behaves_upanic].
  pose proof (std_set f 1 (OPipeW p) Hf ltac:(set_solver)) as Hf1. pose proof (std_set f 0 (OPipeR p) Hf ltac:(set_solver)) as Hf0.
  destruct (lowest f) as [n|] eqn:Hn; [|unfold has_room; rewrite Hn; naive_solver].
  rewrite <- (pipe_ends f n (OPipeR p) Hn). destruct (lowest (<[n:=Some (OPipeR p)]> f)) as [m|] eqn:Hm.
  2: { split; [done|]. by intros [[? ?] _]. }
  destruct Hf as (a & b' & c & f' & ->). cbn [lowest] in Hn. destruct (lowest f') as [i|] eqn:Hi; [|done]. injection Hn as <-.
  change (lowest (Some a :: Some b' :: Some c :: <[i:=Some (OPipeR p)]> f') = Some m) in Hm. cbn [lowest] in Hm.
  destruct (lowest (<[i:=Some (OPipeR p)]> f')) as [j|] eqn:Hj; [|done]. injection Hm as <-.
  rewrite behaves_forked, (forked_fd _ (Some a :: Some b' :: Some c :: f')) by done.
  assert (∀ P : Prop, P ↔ is_Some (Some (S (S (S j)))) ∧ P) as Htrue by (intros P; split; [by split|by intros []]).
  rewrite <- Htrue. clear Htrue. apply forked_iff; intros tr1.
  - rewrite (pipe_left a b' c f' i j p Hi Hj). by apply IHl.
  - rewrite behaves_forked, (forked_fd _ (Some a :: Some b' :: Some c :: f')) by done. apply forked_iff; intros tr2.
    + rewrite (pipe_right a b' c f' i j p Hi Hj). by apply IHr.
    + rewrite (pipe_parent a b' c f' i j p Hi Hj). apply run_waits.
Qed.

Lemma runcmd_csem c : meaning c.
Proof.
  induction c; [apply run_exec|by apply run_redir|by apply run_pipe|by apply run_list|by apply run_back].
Qed.
End runcmd.

(** What the child of the shell does with a line. *)
Definition line_sem (buf : list Z) (f : fds) (tr : list act) : Prop :=
  match parsetop buf 0 with
  | Ok c s =>
      if s =? es buf then csem (named (slice buf) c) f tr
      else ∃ tr', says (fd_obj f 2) (lit "leftovers: " ++ drop (Z.to_nat s) buf ++ [10]) tr tr' ∧ dies f (lit_nl "syntax") 1 tr'
  | Panic msg => dies f (lit_nl msg) 1 tr
  | _ => False
  end.

Lemma run_line_sem buf f tr (K : Empty_set → fds → list act → Prop) :
  Forall (λ c, c ≠ 0) buf → es buf < 2 ^ 60 → std f → behaves (run_line buf) f tr K ↔ line_sem buf f tr.
Proof.
  intros Hnul Hlen Hf. pose proof (parsetop_ends buf Hnul Hlen) as He. unfold ends in He. unfold run_line, line_sem.
  destruct (parsetop buf 0) as [c s|msg| |]; [|by rewrite behaves_upanic|done..]. destruct He as [Hs Hc].
  destruct (Z.eqb_spec s (es buf)); cbn [negb].
  - rewrite <- (named_strings buf c) by done. apply runcmd_csem; [done|]. rewrite named_strings by done. by apply parsed_ok.
  - unfold fprintf. rewrite behaves_bind, behaves_puts. setoid_rewrite behaves_upanic. done.
Qed.

(** ** A session *)

(** The results of the process's own reads. *)
Fixpoint reads_of (tr : list act) : list (option (list Z)) :=
  match tr with
  | [] => []
  | ARead _ _ r :: tr => r :: reads_of tr
  | _ :: tr => reads_of tr
  end.

Definition keys (l : list Z) : list (option (list Z)) := (λ c, Some [c]) <$> l.
Definition typed (o : option obj) (l : list Z) : list act := (λ c, ARead o 1 (Some [c])) <$> l.

(** Lines that fit the buffer of the shell. *)
Definition line_ok (l : list Z) : Prop := Forall (λ c, c ≠ 0 ∧ c ≠ 10 ∧ c ≠ 13) l ∧ (length l <= 98)%nat.

(** What is typed: each line with a newline, then the end of the input. *)
Fixpoint script (lines : list (list Z)) : list (option (list Z)) :=
  match lines with
  | [] => [Some []]
  | l :: lines => keys (l ++ [10]) ++ script lines
  end.

(** The shell prompts, reads a line, and changes directory or makes a child for
    it, which it waits for; [sem] is what a child does with a line. *)
Fixpoint session (sem : list Z → list act → Prop) (f : fds) (lines : list (list Z)) (tr : list act) : Prop :=
  match lines with
  | [] => ∃ w, tr = [AWrite (fd_obj f 2) (lit "$ ") w; ARead (fd_obj f 0) 1 (Some []); AExit 0]
  | l :: lines => ∃ w tr', tr = AWrite (fd_obj f 2) (lit "$ ") w :: typed (fd_obj f 0) (l ++ [10]) ++ tr' ∧
      if is_cd (l ++ [10]) then
        ∃ r tr1 tr2, tr' = ACall (Chdir (drop 3 l)) r :: tr1 ∧
          says (fd_obj f 2) (if r <? 0 then lit "cannot cd " ++ drop 3 l ++ [10] else []) tr1 tr2 ∧ session sem f lines tr2
      else forked f (sem l) (λ tr, match tr with AWait _ _ :: tr => session sem f lines tr | _ => False end) tr'
  end.

Lemma session_mono sem sem' f lines tr :
  (∀ l tr, l ∈ lines → sem l tr → sem' l tr) → session sem f lines tr → session sem' f lines tr.
Proof.
  revert tr. induction lines as [|l lines IH]; intros tr Hsem; cbn [session]; [done|].
  specialize (λ tr, IH tr (λ l tr Hl, Hsem l tr (list_elem_of_further _ _ _ Hl))).
  intros (w & tr' & -> & H). exists w, tr'. split; [done|]. destruct (is_cd (l ++ [10])).
  - naive_solver.
  - destruct tr' as [|[] tr']; cbn in *; try done. destruct H as (H1 & H2 & H3). split_and!; [done|apply Hsem; [by left|done]|].
    repeat case_match; try done. by apply IH.
Qed.

Section gets.
Context (f : fds) (o : obj) (Ho : fd_obj f 0 = Some o).

Lemma behaves_getc {A} (k : option (list Z) → prog A) tr (K : A → fds → list act → Prop) r rest :
  reads_of tr `prefix_of` r :: rest → read_ok (Some o) 1 r →
  behaves (x ← sys (Read 0 1); k x) f tr K ↔ ∃ tr', tr = ARead (Some o) 1 r :: tr' ∧ behaves (k r) f tr' K.
Proof using Ho.
  intros Hp Hr. rewrite behaves_bind, behaves_sys. destruct tr as [|[] tr]; cbn [handle]; try naive_solver.
  rewrite Ho. cbn [reads_of] in Hp. apply prefix_cons_inv_1 in Hp as ->. naive_solver.
Qed.

Lemma gets_line n l rest tr (K : list Z → fds → list act → Prop) :
  (length l < n)%nat → Forall (λ c, c ≠ 0 ∧ c ≠ 10 ∧ c ≠ 13) l → reads_of tr `prefix_of` keys (l ++ [10]) ++ rest →
  behaves (gets_loop n) f tr K ↔ ∃ tr', tr = typed (Some o) (l ++ [10]) ++ tr' ∧ K (l ++ [10]) f tr'.
Proof using Ho.
  revert n tr K. induction l as [|c l IH]; intros n tr K Hn Hl Hp; (destruct n as [|n]; [cbn in Hn; lia|]); cbn [gets_loop].
  - rewrite (behaves_getc _ _ _ _ _ Hp) by done. cbn. setoid_rewrite behaves_ret. done.
  - apply Forall_cons in Hl as [(H0 & H1 & H2) Hl]. rewrite (behaves_getc _ _ _ _ _ Hp) by done.
    apply Z.eqb_neq in H1, H2. rewrite H1, H2. cbn [orb]. split.
    + intros (tr1 & -> & H). cbn in Hp. apply prefix_cons_inv_2 in Hp. apply behaves_bind in H.
      apply (IH n tr1) in H as (tr' & -> & H); [|cbn in Hn; lia|done|done]. apply behaves_ret in H. by exists tr'.
    + intros (tr' & -> & H). exists (typed (Some o) (l ++ [10]) ++ tr'). split; [done|]. cbn in Hp. apply prefix_cons_inv_2 in Hp.
      apply behaves_bind. apply (IH n); [cbn in Hn; lia|done|done|]. exists tr'. split; [done|]. by apply behaves_ret.
Qed.
End gets.

Lemma says_reads o l tr tr' : says o l tr tr' → reads_of tr = reads_of tr'.
Proof. revert tr. induction l as [|c l IH]; intros tr; cbn; [by intros ->|]. intros (r & tr1 & -> & H). cbn. by apply IH. Qed.

Lemma typed_reads o l tr : reads_of (typed o l ++ tr) = keys l ++ reads_of tr.
Proof. induction l as [|c l IH]; [done|]. exact (f_equal (cons (Some [c])) IH). Qed.

Lemma session_reads sem f lines tr : session sem f lines tr → reads_of tr `prefix_of` script lines.
Proof.
  revert tr. induction lines as [|l lines IH]; intros tr; cbn [session script].
  { intros (w & ->). done. }
  intros (w & tr' & -> & H). cbn [reads_of]. rewrite typed_reads. apply prefix_app. destruct (is_cd (l ++ [10])).
  - destruct H as (r & tr1 & tr2 & -> & H & H2). cbn. rewrite (says_reads _ _ _ _ H). by apply IH.
  - destruct tr' as [|[] tr']; try done; cbn in H |- *.
    + destruct H as (_ & _ & H). destruct tr' as [|[] tr']; try done. cbn. by apply IH.
    + apply says_reads in H. rewrite H. apply prefix_nil.
Qed.

(** The line that [getcmd] returns. *)
Lemma getcmd_line f o l rest tr (K : option (list Z) → fds → list act → Prop) :
  fd_obj f 0 = Some o → line_ok l → reads_of tr `prefix_of` keys (l ++ [10]) ++ rest →
  behaves (getcmd 100) f tr K ↔
  ∃ w tr', tr = AWrite (fd_obj f 2) (lit "$ ") w :: typed (fd_obj f 0) (l ++ [10]) ++ tr' ∧ K (Some (l ++ [10])) f tr'.
Proof.
  intros Ho [Hl Hn] Hp. unfold getcmd. rewrite behaves_bind, behaves_sys. destruct tr as [|[] tr]; cbn [handle]; try naive_solver.
  rewrite behaves_bind. change (ugets 100) with (gets_loop 99). cbn [reads_of] in Hp.
  rewrite (gets_line f o Ho 99 l rest _ _ ltac:(lia) Hl Hp).
  setoid_rewrite behaves_ret. rewrite Ho.
  assert (before_nul (l ++ [10]) = l ++ [10]) as ->.
  { clear -Hl. induction Hl as [|c l (Hc & _) Hl IH]; [done|]. cbn. apply Z.eqb_neq in Hc as ->. by rewrite IH. }
  rewrite bool_decide_eq_false_2 by (by destruct l). naive_solver.
Qed.

Lemma getcmd_eof f o tr (K : option (list Z) → fds → list act → Prop) :
  fd_obj f 0 = Some o → reads_of tr `prefix_of` [Some []] →
  behaves (getcmd 100) f tr K ↔
  ∃ w tr', tr = AWrite (fd_obj f 2) (lit "$ ") w :: ARead (fd_obj f 0) 1 (Some []) :: tr' ∧ K None f tr'.
Proof.
  intros Ho Hp. unfold getcmd. rewrite behaves_bind, behaves_sys. destruct tr as [|[] tr]; cbn [handle]; try naive_solver.
  rewrite behaves_bind. change (ugets 100) with (gets_loop 99). cbn [gets_loop].
  cbn [reads_of] in Hp. rewrite (behaves_getc f o Ho _ tr _ (Some []) []) by done. setoid_rewrite behaves_ret. setoid_rewrite behaves_ret.
  rewrite Ho. cbn. naive_solver.
Qed.

(** The body of the loop for one line. *)
Definition line_step (buf : list Z) : prog (() + Empty_set) :=
  if is_cd buf then
    let dir := drop 3 (take (length buf - 1) buf) in
    r ← sys (Other (Chdir dir));
    (if r <? 0 then fprintf 2 (lit_nl "cannot cd %s") [AStr_ dir] else mret ()) ;;
    mret (inl ())
  else
    pid ← fork1;
    if pid =? 0 then x ← run_line buf; match x : Empty_set with end else
    sys Wait ;;
    mret (inl ()).

Lemma sh_loop_unfold f tr (K : Empty_set → fds → list act → Prop) :
  behaves sh_loop f tr K ↔
  behaves (getcmd 100) f tr (λ r f tr, match r with
    | None => tr = [AExit 0]
    | Some buf => behaves (line_step buf) f tr (λ r f tr, match r with inl _ => behaves sh_loop f tr K | inr x => K x f tr end)
    end).
Proof.
  unfold sh_loop at 1. rewrite behaves_loop, behaves_bind. split; apply behaves_mono; intros [buf|] f' tr'; try (by rewrite behaves_exit);
    apply behaves_mono; by intros [[]|x] f1 tr1.
Qed.

Lemma behaves_absurd {A} (m : prog Empty_set) f tr (K : A → fds → list act → Prop) :
  behaves (x ← m; match x : Empty_set with end) f tr K ↔ behaves m f tr (λ _ _ _, False).
Proof. rewrite behaves_bind. by split; apply behaves_mono; intros []. Qed.

Lemma line_step_sem f l tr (K : () + Empty_set → fds → list act → Prop) :
  std f → line_ok l →
  behaves (line_step (l ++ [10])) f tr K ↔
  if is_cd (l ++ [10]) then
    ∃ r tr1 tr2, tr = ACall (Chdir (drop 3 l)) r :: tr1 ∧
      says (fd_obj f 2) (if r <? 0 then lit "cannot cd " ++ drop 3 l ++ [10] else []) tr1 tr2 ∧ K (inl ()) f tr2
  else forked f (line_sem (l ++ [10]) f) (λ tr, match tr with AWait _ _ :: tr => K (inl ()) f tr | _ => False end) tr.
Proof.
  intros Hf [Hl Hn]. unfold line_step. destruct (is_cd (l ++ [10])).
  - rewrite length_app, Nat.add_sub, take_app_length. cbv zeta. rewrite behaves_bind, behaves_sys.
    destruct tr as [|[] tr]; cbn [handle]; try naive_solver. rewrite behaves_bind. setoid_rewrite behaves_ret.
    destruct (r <? 0) eqn:Hr.
    + unfold fprintf. rewrite behaves_puts. cbn [default]. split.
      * intros (-> & tr' & H1 & H2). exists r, tr, tr'. by rewrite Hr.
      * intros (r' & tr1 & tr2 & [= -> -> <-] & H). rewrite Hr in H. split; [done|]. by exists tr2.
    + rewrite behaves_ret. split.
      * intros (-> & H). exists r, tr, tr. by rewrite Hr.
      * intros (r' & tr1 & tr2 & [= -> -> <-] & H). rewrite Hr in H. cbn in H. destruct H as [<- H]. done.
  - rewrite behaves_forked. apply forked_iff; intros tr'.
    + rewrite behaves_absurd. apply run_line_sem; [| |done].
      * apply Forall_app. split; [eapply Forall_impl; [exact Hl|]; naive_solver|]. by constructor.
      * unfold es. rewrite length_app. cbn. lia.
    + rewrite behaves_bind, behaves_sys. destruct tr' as [|[] tr']; cbn [handle]; try done. apply behaves_ret.
Qed.

Lemma sh_loop_session f lines tr (K : Empty_set → fds → list act → Prop) :
  std f → Forall line_ok lines → reads_of tr `prefix_of` script lines →
  behaves sh_loop f tr K ↔ session (λ l, line_sem (l ++ [10]) f) f lines tr.
Proof.
  intros Hf. assert (∃ o, fd_obj f 0 = Some o) as [o Ho] by (destruct Hf as (a & b & c & f' & ->); by exists a).
  revert tr. induction lines as [|l lines IH]; intros tr Hl Hp; cbn [session script] in *; rewrite sh_loop_unfold.
  { rewrite (getcmd_eof _ _ _ _ Ho Hp). naive_solver. }
  apply Forall_cons in Hl as [Hl Hls]. rewrite (getcmd_line _ _ _ _ _ _ Ho Hl Hp).
  assert (∀ w tr', tr = AWrite (fd_obj f 2) (lit "$ ") w :: typed (fd_obj f 0) (l ++ [10]) ++ tr' → reads_of tr' `prefix_of` script lines) as Hp'.
  { intros w tr' ->. cbn in Hp. rewrite typed_reads in Hp. by apply prefix_app_inv in Hp. }
  clear Hp. split; intros (w & tr' & Htr & H); specialize (Hp' _ _ Htr); exists w, tr'; (split; [done|]); revert H;
    rewrite (line_step_sem _ _ _ _ Hf Hl); destruct (is_cd (l ++ [10])).
  - intros (r & tr1 & tr2 & -> & Hs & H). exists r, tr1, tr2. split_and!; [done|done|].
    apply IH in H; [done|done|]. cbn in Hp'. by rewrite (says_reads _ _ _ _ Hs) in Hp'.
  - destruct tr' as [|[] tr']; cbn in *; try done. intros (H1 & H2 & H). destruct tr' as [|[] tr']; try done. split_and!; [done..|]. by apply IH in H.
  - intros (r & tr1 & tr2 & -> & Hs & H). exists r, tr1, tr2. split_and!; [done|done|].
    apply IH; [done| |done]. cbn in Hp'. by rewrite (says_reads _ _ _ _ Hs) in Hp'.
  - destruct tr' as [|[] tr']; cbn in *; try done. intros (H1 & H2 & H). destruct tr' as [|[] tr']; try done. split_and!; [done..|]. by apply IH.
Qed.

Lemma behaves_open_console f tr (K : () → fds → list act → Prop) :
  std f → behaves open_console f tr K ↔
  ∃ ok tr', tr = AOpen (lit "console") O_RDWR_ ok :: tr' ∧ (ok = true → is_Some (lowest f)) ∧ K () f tr'.
Proof.
  intros Hf. unfold open_console. rewrite behaves_loop, behaves_bind, behaves_sys.
  destruct tr as [|[| | | | | | | | |file mode ok| |] tr]; cbn [handle]; try naive_solver.
  destruct ok; [|cbn; rewrite behaves_ret; naive_solver].
  destruct (lowest f) as [n|] eqn:Hn; [|naive_solver]. pose proof (lowest_free _ _ Hn) as Hfree.
  assert (3 <= n)%nat as H3.
  { destruct Hf as (a & b & c & f' & ->). cbn in Hn. destruct (lowest f'); [|done]. injection Hn as <-. lia. }
  destruct (Z.ltb_spec (Z.of_nat n) 0); [lia|]. destruct (Z.geb_spec (Z.of_nat n) 3); [|lia].
  rewrite (behaves_close n (OFile (lit "console") O_RDWR_)) by (apply list_lookup_insert_eq; by eapply lookup_lt_Some).
  rewrite behaves_ret, list_insert_insert_eq, list_insert_id by done. naive_solver.
Qed.

(** ** Sessions of commands *)

(** Commands that are typed on one line and are not [cd]. *)
Definition typed_ok (c : command) : Prop := command_ok c ∧ (length (print c) <= 98)%nat ∧ is_cd (print c ++ [10]) = false.

Fixpoint dialogue (f : fds) (cs : list command) (tr : list act) : Prop :=
  match cs with
  | [] => ∃ w, tr = [AWrite (fd_obj f 2) (lit "$ ") w; ARead (fd_obj f 0) 1 (Some []); AExit 0]
  | c :: cs => ∃ w tr', tr = AWrite (fd_obj f 2) (lit "$ ") w :: typed (fd_obj f 0) (print c ++ [10]) ++ tr' ∧
      forked f (csem c f) (λ tr, match tr with AWait _ _ :: tr => dialogue f cs tr | _ => False end) tr'
  end.

Lemma line_sem_print c f tr : typed_ok c → line_sem (print c ++ [10]) f tr ↔ csem c f tr.
Proof.
  intros (Hok & Hlen & _). assert (es (print c ++ [10]) < 2 ^ 60) as Hes by (unfold es; rewrite length_app; cbn; lia).
  pose proof (parsetop_print c [10] Hok ltac:(by repeat constructor) Hes) as H.
  apply wp_returns in H as (c' & s & E & Hc & Hs). unfold line_sem. rewrite E, Hs, Z.eqb_refl. by rewrite Hc.
Qed.

Lemma typed_line_ok c : typed_ok c → line_ok (print c).
Proof.
  intros (Hok & Hlen & _). split; [|done]. apply print_chars; [|by repeat constructor|done].
  intros x Hx H0. split; [done|]. split; intros ->; vm_compute in Hx; done.
Qed.

Lemma session_dialogue f cs tr : Forall typed_ok cs → session (λ l, line_sem (l ++ [10]) f) f (print <$> cs) tr ↔ dialogue f cs tr.
Proof.
  intros Hcs. revert tr. induction Hcs as [|c cs Hc Hcs IH]; intros tr; [done|]. cbn [fmap list_fmap session dialogue].
  pose proof Hc as (_ & _ & ->). split; intros (w & tr' & -> & H); exists w, tr'; (split; [done|]); revert H; apply forked_iff; intros tr1.
  - by rewrite line_sem_print.
  - by destruct tr1 as [|[] tr1].
  - by rewrite line_sem_print.
  - by destruct tr1 as [|[] tr1].
Qed.

(** ** What the started programs get *)

(** The descriptors of the programs started by a process and its children. *)
Fixpoint started (a : act) : list fds :=
  match a with
  | AStart _ _ f => [f]
  | AFork _ child => (fix go l := match l with [] => [] | a :: l => started a ++ go l end) child
  | _ => []
  end.
Definition started_all (tr : list act) : list fds := tr ≫= started.

Lemma started_fork pid child : started (AFork pid child) = started_all child.
Proof. unfold started_all. cbn [started]. induction child as [|a l IH]; [done|]. by rewrite bind_cons, <- IH. Qed.

Lemma started_says o l tr tr' : says o l tr tr' → started_all tr = started_all tr'.
Proof. revert tr. induction l as [|c l IH]; intros tr; cbn; [by intros ->|]. intros (r & tr1 & -> & H). exact (IH _ H). Qed.

Lemma started_dies f l st tr : dies f l st tr → started_all tr = [].
Proof. by intros ->%started_says. Qed.

Lemma started_forked f P Q tr (g : fds → Prop) :
  (∀ tr, P tr → Forall g (started_all tr)) → (∀ tr, Q tr → Forall g (started_all tr)) →
  forked f P Q tr → Forall g (started_all tr).
Proof.
  intros HP HQ. destruct tr as [|[pid child| | | | | | | | | | |] tr]; try done; cbn [forked].
  - intros (_ & H1 & H2). unfold started_all. rewrite bind_cons, started_fork. apply Forall_app. split; [by apply HP|by apply HQ].
  - intros H%started_dies. unfold started_all in *. rewrite bind_cons. cbn. rewrite H. constructor.
Qed.

(** Only descriptors 0 and 1 differ from those of the shell: no end of a pipe is
    left open in a program that does not use it. *)
Lemma csem_started c f tr : command_ok c → csem c f tr → Forall (λ g, drop 2 g = drop 2 f) (started_all tr).
Proof.
  assert (∀ fd o f, fd ∈ [0; 1] → drop 2 (fd_set fd o f) = drop 2 f) as Hset.
  { intros fd o g Hfd. rewrite list_elem_of_In in Hfd. destruct Hfd as [<-|[<-|[]]]; by destruct g as [|? [|? ?]]. }
  revert f tr. induction c as [argv|c IH r|l IHl r IHr|l IHl r IHr|c IH]; intros f tr; cbn [command_ok csem].
  - intros _. destruct argv as [|path args]; [by intros ->; constructor|].
    intros [->|(tr' & -> & H%started_dies)]; [by repeat constructor|]. unfold started_all in *. rewrite bind_cons. cbn. rewrite H. constructor.
  - intros [Hc [_ Hk]]. destruct tr as [|[| | | | | | | | |file mode ok| |] tr]; try done. intros (-> & -> & H). destruct ok.
    + apply IH in H; [|done]. rewrite Hset in H by (unfold redir_kind in Hk; set_solver). exact H.
    + apply started_dies in H. unfold started_all in *. rewrite bind_cons. cbn. rewrite H. constructor.
  - intros [Hl Hr]. destruct tr as [|[| | | |[p|]| | | | | | |] tr]; try done.
    + intros [_ H]. change (started_all (APipe (Some p) :: tr)) with (started_all tr). revert H. apply started_forked; intros tr1.
      * intros H%IHl; [|done]. by rewrite Hset in H by set_solver.
      * apply started_forked; intros tr2; [intros H%IHr; [|done]; by rewrite Hset in H by set_solver|].
        intros (? & ? & ? & ? & ->). constructor.
    + intros H%started_dies. change (started_all (APipe None :: tr)) with (started_all tr). rewrite H. constructor.
  - intros [Hl Hr]. apply started_forked; intros tr1; [by apply IHl|]. destruct tr1 as [|[] tr1]; try done.
    change (started_all (AWait pid status :: tr1)) with (started_all tr1). by apply IHr.
  - intros Hc. apply started_forked; intros tr1; [by apply IH|]. intros ->. constructor.
Qed.
