(* ===== verification/AsmOps.v ===== *)
(** Specifications of the assembly routines. *)
From S2P Require Import Prelude CString Riscv Asm.
Import Hart.

(** ** Blocks of stores and loads *)

Definition saves (l : list (reg * Z)) (b : reg) : list insn := (λ '(r, o), SD r o b) <$> l.
Definition loads (l : list (reg * Z)) (b : reg) : list insn := (λ '(r, o), LD r o b) <$> l.

Definition store_list (f : reg → Z) (pa : Z) (l : list (reg * Z)) (m : mem) : mem :=
  foldl (λ m '(r, o), st64 m (pa + o) (f r)) m l.
Definition load_list (m : mem) (pa : Z) (l : list (reg * Z)) (f : reg → Z) : reg → Z :=
  foldl (λ f '(r, o) r', if decide (r' = r) then ld64 m (pa + o) else f r') f l.

(** The offsets of a block: aligned, inside [size]. *)
Definition fits (size : Z) (l : list (reg * Z)) : Prop := Forall (λ '(_, o), 0 <= o ∧ o + 8 <= size ∧ o mod 8 = 0) l.

Lemma store_list_cons f pa r o l m : store_list f pa ((r, o) :: l) m = store_list f pa l (st64 m (pa + o) (f r)).
Proof. done. Qed.

Lemma rd8_store_list f pa l m x :
  (∀ r o, (r, o) ∈ l → ¬ (pa + o <= x < pa + o + 8)) → rd8 (store_list f pa l m) x = rd8 m x.
Proof.
  revert m. induction l as [|[r o] l IH]; intros m H; [done|]. rewrite store_list_cons, IH.
  - apply rd8_st64_ne. apply (H r). constructor.
  - intros r' o' Hin. apply (H r'). by constructor.
Qed.

Lemma store_list_ext f g pa l m :
  (∀ r o, (r, o) ∈ l → f r = g r) → store_list f pa l m = store_list g pa l m.
Proof.
  revert m. induction l as [|[r o] l IH]; intros m H; [done|]. rewrite !store_list_cons, (H r o) by constructor.
  apply IH. intros r' o' Hin. apply (H r' o'). by constructor.
Qed.

Lemma ld64_store_out f pa l m a :
  (∀ r o, (r, o) ∈ l → pa + o + 8 <= a ∨ a + 8 <= pa + o) → ld64 (store_list f pa l m) a = ld64 m a.
Proof. intros H. apply ld64_ext. intros x Hx. apply rd8_store_list. intros r o Hin. specialize (H r o Hin). lia. Qed.

Lemma aligned_apart a b : a mod 8 = 0 → b mod 8 = 0 → a ≠ b → a + 8 <= b ∨ b + 8 <= a.
Proof. intros. pose proof (Z.div_mod a 8 ltac:(done)). pose proof (Z.div_mod b 8 ltac:(done)). lia. Qed.

Lemma ld64_store_in f pa l m r o size :
  NoDup l.*2 → fits size l → (r, o) ∈ l → 0 <= f r < 2 ^ 64 → ld64 (store_list f pa l m) (pa + o) = f r.
Proof.
  revert m. induction l as [|[r' o'] l IH]; intros m Hnd Hf Hin Hr; [by apply elem_of_nil in Hin|].
  apply NoDup_cons in Hnd as [Hni Hnd]. apply Forall_cons in Hf as [(Ho & _ & Ha) Hf]. rewrite store_list_cons.
  apply elem_of_cons in Hin as [[= -> ->]|Hin]; [|by apply IH].
  rewrite ld64_store_out; [by apply ld64_st64_same|]. intros r2 o2 Hin.
  assert (o2 ≠ o') by (intros ->; apply Hni; by apply (list_elem_of_fmap_2 snd l (r2, o'))).
  pose proof (proj1 (Forall_forall _ _) Hf _ Hin) as (_ & _ & Ha2). cbn in Ha2.
  destruct (aligned_apart o2 o'); [done|done|done|left; lia|right; lia].
Qed.

Lemma load_list_cons m pa r o l f :
  load_list m pa ((r, o) :: l) f = load_list m pa l (λ r', if decide (r' = r) then ld64 m (pa + o) else f r').
Proof. done. Qed.

Lemma load_list_out m pa l f r : r ∉ l.*1 → load_list m pa l f r = f r.
Proof.
  revert f. induction l as [|[r' o] l IH]; intros f H; [done|]. apply not_elem_of_cons in H as [Hne H].
  rewrite load_list_cons, IH by done. by rewrite decide_False.
Qed.

Lemma load_list_in m pa l f r o : NoDup l.*1 → (r, o) ∈ l → load_list m pa l f r = ld64 m (pa + o).
Proof.
  revert f. induction l as [|[r' o'] l IH]; intros f Hnd Hin; [by apply elem_of_nil in Hin|].
  apply NoDup_cons in Hnd as [Hni Hnd]. rewrite load_list_cons.
  apply elem_of_cons in Hin as [[= -> ->]|Hin]; [|by apply IH]. rewrite load_list_out by done. by rewrite decide_True.
Qed.

(** ** Mapped memory *)

(** The addresses from [va] on are those from [pa] on, [size] of them, whatever
    is stored in [dom]. *)
Record window (h : hart) (dom : Z → Prop) (va pa size : Z) : Prop := {
  wd_va : 0 <= va ∧ va + size <= 2 ^ 64 ∧ va mod 8 = 0;
  wd_map : ∀ m o w, (∀ x, ¬ dom x → rd8 m x = rd8 (h_mem h) x) → 0 <= o → o + 8 <= size → o mod 8 = 0 →
    translate (h_mode h) (h_csr h satp) m (va + o) w = Some (pa + o)
}.

Lemma window_access h dom va pa size o w :
  window h dom va pa size → 0 <= o → o + 8 <= size → o mod 8 = 0 → access h (u64 (va + o)) w = Some (pa + o).
Proof.
  intros [(Hva & Hsz & Hal) Hmap] Ho Hos Hoa. unfold access. rewrite u64_small by lia.
  assert ((va + o) mod 8 = 0) as -> by (by rewrite Z.add_mod, Hal, Hoa). by apply Hmap.
Qed.

Lemma window_mem h dom va pa size m :
  window h dom va pa size → (∀ x, ¬ dom x → rd8 m x = rd8 (h_mem h) x) →
  window (h <| h_mem := m |>) dom va pa size.
Proof. intros [Hva Hmap] Hm. split; [done|]. intros m' o w Hm'. apply Hmap. intros x Hx. rewrite Hm' by done. by apply Hm. Qed.

Lemma window_same h h' dom va pa size :
  window h dom va pa size → h_mode h' = h_mode h → h_csr h' satp = h_csr h satp → h_mem h' = h_mem h →
  window h' dom va pa size.
Proof. intros [Hva Hmap] Hm Hs He. split; [done|]. rewrite Hm, Hs, He. exact Hmap. Qed.

Lemma window_regs h dom va pa size f : window h dom va pa size → window (h <| h_reg := f |>) dom va pa size.
Proof. intros [Hva Hmap]. by split. Qed.

Section blocks.
Context (callee : Z → hart → option hart) (link : Z).

Lemma run_step i k h h' : step callee link i h = Some (h', None) → execute callee link (i :: k) h = execute callee link k h'.
Proof. intros H. cbn [execute]. by rewrite H. Qed.

Lemma run_exit i k h h' e : step callee link i h = Some (h', Some e) → execute callee link (i :: k) h = Some (h', e).
Proof. intros H. cbn [execute]. by rewrite H. Qed.

Lemma run_saves l b k h (dom : Z → Prop) va pa size :
  window h dom va pa size → rd h b = va → fits size l → (∀ x, pa <= x < pa + size → dom x) →
  execute callee link (saves l b ++ k) h = execute callee link k (h <| h_mem := store_list (rd h) pa l (h_mem h) |>).
Proof.
  intros Hw Hb Hf Hd. revert h Hw Hb. induction l as [|[r o] l IH]; intros h Hw Hb; [by destruct h|].
  apply Forall_cons in Hf as [(Ho & Hos & Hoa) Hf]. cbn [saves fmap list_fmap app].
  erewrite run_step; [|cbn [step]; by rewrite Hb, (window_access _ _ _ _ _ _ _ Hw)].
  change (list_fmap _ _ _ l) with (saves l b). rewrite IH; [done|done| |done].
  apply window_mem; [done|]. intros x Hx. apply rd8_st64_ne. intros Hin. apply Hx, Hd. lia.
Qed.

Lemma run_loads l b k h dom va pa size :
  window h dom va pa size → rd h b = va → fits size l → zero ∉ l.*1 → (∀ o, (b, o) ∈ l → ld64 (h_mem h) (pa + o) = va) →
  execute callee link (loads l b ++ k) h = execute callee link k (h <| h_reg := load_list (h_mem h) pa l (h_reg h) |>).
Proof.
  intros Hw Hb Hf. revert h Hw Hb. induction l as [|[r o] l IH]; intros h Hw Hb Hz Hbo; [by destruct h|].
  apply Forall_cons in Hf as [(Ho & Hos & Hoa) Hf]. apply not_elem_of_cons in Hz as [Hz Hz'].
  cbn [loads fmap list_fmap app].
  erewrite run_step; [|cbn [step]; by rewrite Hb, (window_access _ _ _ _ _ _ _ Hw)].
  change (list_fmap _ _ _ l) with (loads l b). rewrite IH; [done|done|by apply window_regs| |done|].
  - unfold rd, wr. cbn. destruct (decide (b = zero)) as [->|]; [by rewrite <- Hb|].
    case_decide as E; [|unfold rd in Hb; by rewrite decide_False in Hb].
    apply Hbo. rewrite E. constructor.
  - intros o' Hin. apply Hbo. by constructor.
Qed.
End blocks.

(** ** trampoline.S *)

(** The saved registers, in the order of the code; [a0] is saved last. *)
Definition frame_regs : list (reg * Z) := [
  (ra, 40); (sp, 48); (gp, 56); (tp, 64); (t0, 72); (t1, 80); (t2, 88); (s0, 96); (s1, 104);
  (a1, 120); (a2, 128); (a3, 136); (a4, 144); (a5, 152); (a6, 160); (a7, 168);
  (s2, 176); (s3, 184); (s4, 192); (s5, 200); (s6, 208); (s7, 216); (s8, 224); (s9, 232); (s10, 240); (s11, 248);
  (t3, 256); (t4, 264); (t5, 272); (t6, 280)].

(** The field of [struct trapframe] for a register. *)
Definition tf_index (r : reg) : Z :=
  match r with
  | zero => 0
  | ra => 5 | sp => 6 | gp => 7 | tp => 8 | t0 => 9 | t1 => 10 | t2 => 11 | s0 => 12 | s1 => 13
  | a0 => 14 | a1 => 15 | a2 => 16 | a3 => 17 | a4 => 18 | a5 => 19 | a6 => 20 | a7 => 21
  | s2 => 22 | s3 => 23 | s4 => 24 | s5 => 25 | s6 => 26 | s7 => 27 | s8 => 28 | s9 => 29 | s10 => 30 | s11 => 31
  | t3 => 32 | t4 => 33 | t5 => 34 | t6 => 35
  end.

Lemma frame_regs_fit : fits 288 frame_regs.
Proof. repeat constructor; vm_compute; congruence. Qed.

Lemma frame_regs_nodup : NoDup frame_regs.*1 ∧ NoDup frame_regs.*2.
Proof. split; apply (bool_decide_unpack _); by vm_compute. Qed.

Lemma frame_regs_off r o : (r, o) ∈ frame_regs → 40 <= o ∧ o + 8 <= 288 ∧ o ≠ 112 ∧ o mod 8 = 0.
Proof.
  revert r o. assert (Forall (λ '(_, o), 40 <= o ∧ o + 8 <= 288 ∧ o ≠ 112 ∧ o mod 8 = 0) frame_regs) as H
    by (repeat constructor; vm_compute; congruence).
  intros r o Hin. by apply (proj1 (Forall_forall _ _) H (r, o)).
Qed.

Lemma frame_regs_index r : r ≠ zero → r ≠ a0 → (r, 8 * tf_index r) ∈ frame_regs.
Proof. intros Hz Ha. apply (bool_decide_unpack _). by destruct r. Qed.

Lemma frame_regs_zero : (zero ∉ frame_regs.*1) ∧ a0 ∉ frame_regs.*1.
Proof. split; apply (bool_decide_unpack _); by vm_compute. Qed.

Lemma fits_mono size size' l : size <= size' → fits size l → fits size' l.
Proof. intros Hs H. eapply Forall_impl; [exact H|]. intros [r o] (? & ? & ?). split_and!; lia. Qed.

(** The registers are words. *)
Definition words (h : hart) : Prop := ∀ r, 0 <= h_reg h r < 2 ^ 64.

(** The trap frame is the page [tf]. *)
Definition frame_window (h : hart) (tf : Z) : Prop :=
  window h (λ x, tf <= x < tf + PGSIZE) TRAPFRAME tf PGSIZE.

Lemma u64_TRAPFRAME : u64 TRAPFRAME = TRAPFRAME.
Proof. by vm_compute. Qed.

Lemma frame_window_mem h tf m :
  frame_window h tf → (∀ x, ¬ (tf + 40 <= x < tf + 288) → rd8 m x = rd8 (h_mem h) x) → frame_window (h <| h_mem := m |>) tf.
Proof. intros Hw Hm. apply window_mem; [done|]. intros x Hx. apply Hm. unfold PGSIZE in Hx. lia. Qed.

(** What [uservec] leaves: the frame holds the user's registers, and the hart
    has the kernel's stack, hart number and page table. *)
Record saved (h : hart) (tf : Z) (h' : hart) : Prop := {
  sv_regs : ∀ r, r ≠ zero → ld64 (h_mem h') (tf + 8 * tf_index r) = rd h r;
  sv_kernel : ∀ i, 0 <= i < 5 → ld64 (h_mem h') (tf + 8 * i) = ld64 (h_mem h) (tf + 8 * i);
  sv_other : ∀ x, ¬ (tf + 40 <= x < tf + 288) → rd8 (h_mem h') x = rd8 (h_mem h) x;
  sv_mode : h_mode h' = h_mode h;
  sv_satp : h_csr h' satp = ld64 (h_mem h) tf;
  sv_csr : ∀ c, c ≠ satp → c ≠ sscratch → h_csr h' c = h_csr h c;
  sv_sp : rd h' sp = ld64 (h_mem h) (tf + 8);
  sv_tp : rd h' tp = ld64 (h_mem h) (tf + 32)
}.

Section trampoline.
Context (callee : Z → hart → option hart) (link : Z).
Abbreviation execute := (execute callee link).

(** The frame after the stores of [uservec]. *)
Lemma frame_stored h tf m' :
  words h → m' = st64 (store_list (h_reg h) tf frame_regs (h_mem h)) (tf + 112) (h_reg h a0) →
  (∀ r, r ≠ zero → ld64 m' (tf + 8 * tf_index r) = h_reg h r) ∧
  (∀ x, ¬ (tf + 40 <= x < tf + 288) → rd8 m' x = rd8 (h_mem h) x) ∧
  (∀ i, 0 <= i < 5 → ld64 m' (tf + 8 * i) = ld64 (h_mem h) (tf + 8 * i)).
Proof.
  intros Hr ->. destruct frame_regs_nodup as [_ Hn2].
  assert (∀ x, ¬ (tf + 40 <= x < tf + 288) →
    rd8 (st64 (store_list (h_reg h) tf frame_regs (h_mem h)) (tf + 112) (h_reg h a0)) x = rd8 (h_mem h) x) as Hout.
  { intros x Hx. rewrite rd8_st64_ne by lia. apply rd8_store_list. intros r o (? & ? & _)%frame_regs_off. lia. }
  split_and!; [|done|].
  - intros r Hz. destruct (decide (r = a0)) as [->|Ha]; [by apply ld64_st64_same|].
    pose proof (frame_regs_index r Hz Ha) as Hin. destruct (frame_regs_off _ _ Hin) as (Ho & Ho2 & Hne & Hal).
    rewrite ld64_st64_ne by (destruct (aligned_apart (8 * tf_index r) 112); [done|done|done|left; lia|right; lia]).
    by apply (ld64_store_in _ _ _ _ _ _ 288); [|apply frame_regs_fit|..].
  - intros i Hi. apply ld64_ext. intros x Hx. apply Hout. lia.
Qed.

Lemma uservec_spec h tf :
  frame_window h tf → words h → ∃ h', execute uservec h = Some (h', Jump (ld64 (h_mem h) (tf + 16))) ∧ saved h tf h'.
Proof.
  intros Hw Hr. destruct frame_regs_zero as [Hz Ha].
  change uservec with (CSRW sscratch a0 :: LI a0 TRAPFRAME :: saves frame_regs a0 ++
    CSRR t0 sscratch :: SD t0 112 a0 :: loads [(sp, 8); (tp, 32); (t0, 16); (t1, 0)] a0 ++
    [SFENCE_VMA; CSRW satp t1; SFENCE_VMA; JR t0]).
  erewrite run_step by done. erewrite run_step by done. set (h1 := wr a0 _ _).
  assert (frame_window h1 tf) as Hw1 by (by apply (window_same h)).
  erewrite (run_saves _ _ frame_regs); [|exact Hw1|exact u64_TRAPFRAME|eapply fits_mono; [|apply frame_regs_fit]; done|done].
  set (m1 := store_list _ _ _ _).
  assert (m1 = store_list (h_reg h) tf frame_regs (h_mem h)) as Em1.
  { unfold m1. apply store_list_ext. intros r o Hin. unfold rd, h1, wr. cbn.
    assert (r ≠ zero) by (intros ->; apply Hz; by apply (list_elem_of_fmap_2 fst frame_regs (zero, o))).
    assert (r ≠ a0) by (intros ->; apply Ha; by apply (list_elem_of_fmap_2 fst frame_regs (a0, o))).
    by rewrite !decide_False. }
  clearbody m1. erewrite run_step by done. set (h2 := wr t0 _ _).
  remember (st64 m1 (tf + 112) (h_reg h a0)) as m2 eqn:Em2.
  destruct (frame_stored h tf m2 Hr ltac:(by rewrite Em2, Em1)) as (Hregs & Hout & Hker).
  assert (frame_window h2 tf) as Hw2'.
  { apply window_regs. apply (frame_window_mem h1); [exact Hw1|]. intros x Hx. rewrite Em1.
    apply rd8_store_list. intros r o (? & ? & _)%frame_regs_off. lia. }
  assert (frame_window (h2 <| h_mem := m2 |>) tf) as Hw2.
  { apply (frame_window_mem h2); [exact Hw2'|]. intros x Hx. rewrite Em2. apply rd8_st64_ne. lia. }
  assert (rd h2 a0 = TRAPFRAME) as Ea0 by exact u64_TRAPFRAME.
  assert (h_mem h2 = m1) as Eh2 by done. assert (rd h2 t0 = h_reg h a0) as Et by done.
  erewrite run_step; [|cbn [step]; rewrite Ea0; by rewrite (window_access _ _ _ _ _ _ _ Hw2')].
  rewrite Eh2, Et, <- Em2.
  erewrite run_loads; [|exact Hw2|exact Ea0|by repeat constructor; vm_compute|set_solver|set_solver].
  set (f5 := load_list _ _ _ _).
  assert (f5 sp = ld64 m2 (tf + 8 * 1) ∧ f5 tp = ld64 m2 (tf + 8 * 4) ∧ f5 t0 = ld64 m2 (tf + 8 * 2) ∧
    f5 t1 = ld64 m2 (tf + 8 * 0)) as (Esp & Etp & Et0 & Et1).
  { unfold f5. split_and!; (apply load_list_in; [apply (bool_decide_unpack _); by vm_compute|set_solver]). }
  clearbody f5. rewrite Hker in Esp, Etp, Et0, Et1 by lia. rewrite Z.add_0_r in Et1.
  do 3 (erewrite run_step by done). erewrite run_exit by done. eexists. split; [unfold rd; cbn; by rewrite Et0|].
  split; try done; cbn.
  - intros r Hz'. rewrite Hregs by done. unfold rd. by rewrite decide_False.
  - intros c Hc1 Hc2. by rewrite !decide_False.
Qed.

(** [userret] loads every register from the frame of the page table in [a0]. *)
Lemma userret_spec h tf :
  frame_window (wr_csr satp (rd h a0) h) tf → ∃ h', execute userret h = Some (h', Sret) ∧
    (∀ r, r ≠ zero → rd h' r = ld64 (h_mem h) (tf + 8 * tf_index r)) ∧
    h_mem h' = h_mem h ∧ h_mode h' = h_mode h ∧ h_csr h' satp = rd h a0 ∧ ∀ c, c ≠ satp → h_csr h' c = h_csr h c.
Proof.
  intros Hw. destruct frame_regs_zero as [Hz Ha]. destruct frame_regs_nodup as [Hn _].
  change userret with (SFENCE_VMA :: CSRW satp a0 :: SFENCE_VMA :: LI a0 TRAPFRAME :: loads frame_regs a0 ++
    [LD a0 112 a0; SRET]).
  do 4 (erewrite run_step by done). set (h1 := wr a0 _ _).
  assert (frame_window h1 tf) as Hw1 by (by apply (window_same (wr_csr satp (rd h a0) h))).
  erewrite (run_loads _ _ frame_regs); [|exact Hw1|exact u64_TRAPFRAME|eapply fits_mono; [|apply frame_regs_fit]; done|done|].
  2: { intros o Hin. destruct Ha. by apply (list_elem_of_fmap_2 fst frame_regs (a0, o)). }
  set (f1 := load_list _ _ _ _).
  assert (∀ r, r ≠ zero → r ≠ a0 → f1 r = ld64 (h_mem h) (tf + 8 * tf_index r)) as Hf1.
  { intros r Hz' Ha'. apply load_list_in; [done|by apply frame_regs_index]. }
  assert (f1 a0 = u64 TRAPFRAME) as Hf0 by (unfold f1; by rewrite load_list_out).
  clearbody f1. erewrite run_step.
  2: { cbn [step]. change (rd (h1 <| h_reg := f1 |>) a0) with (f1 a0). rewrite Hf0, u64_TRAPFRAME.
       by rewrite (window_access _ _ _ _ _ _ _ (window_regs _ _ _ _ _ f1 Hw1)). }
  erewrite run_exit by done. eexists. split; [done|]. split_and!; try done.
  - intros r Hz'. unfold rd, wr. cbn. rewrite decide_False by done. case_decide as E; [by rewrite E|by apply Hf1].
  - intros c Hc. cbn. by rewrite decide_False.
Qed.
End trampoline.

(** ** swtch.S *)

Definition ctx_regs : list (reg * Z) := [
  (ra, 0); (sp, 8); (s0, 16); (s1, 24); (s2, 32); (s3, 40); (s4, 48); (s5, 56); (s6, 64); (s7, 72); (s8, 80); (s9, 88);
  (s10, 96); (s11, 104)].

(** The bytes of a context. *)
Definition in_context (pa x : Z) : Prop := pa <= x < pa + 112.

Lemma ctx_regs_ok : fits 112 ctx_regs ∧ NoDup ctx_regs.*1 ∧ NoDup ctx_regs.*2 ∧ (zero ∉ ctx_regs.*1) ∧
  (a0 ∉ ctx_regs.*1) ∧ a1 ∉ ctx_regs.*1.
Proof.
  split; [repeat constructor; vm_compute; congruence|]. split_and!; apply (bool_decide_unpack _); by vm_compute.
Qed.

(** The offsets of the registers of [l] stay inside [size]. *)
Lemma fits_in size l r o : fits size l → (r, o) ∈ l → 0 <= o ∧ o + 8 <= size ∧ o mod 8 = 0.
Proof. intros Hf Hin. exact (proj1 (Forall_forall _ _) Hf (r, o) Hin). Qed.

Lemma in_regs (l : list (reg * Z)) r o : (r, o) ∈ l → r ∈ l.*1.
Proof. intros Hin. by apply (list_elem_of_fmap_2 fst l (r, o)). Qed.

(** A switch from the context at [old] to the one at [new]. *)
Record switched (h : hart) (old new : Z) (h' : hart) : Prop := {
  sw_saved : ∀ r o, (r, o) ∈ ctx_regs → ld64 (h_mem h') (old + o) = rd h r;
  sw_loaded : ∀ r o, (r, o) ∈ ctx_regs → rd h' r = ld64 (h_mem h) (new + o);
  sw_others : ∀ r, r ∉ ctx_regs.*1 → rd h' r = rd h r;
  sw_mem : ∀ x, ¬ in_context old x → rd8 (h_mem h') x = rd8 (h_mem h) x;
  sw_csr : h_csr h' = h_csr h ∧ h_mode h' = h_mode h
}.

Section switch.
Context (callee : Z → hart → option hart) (link : Z).
Abbreviation execute := (execute callee link).

Lemma swtch_spec h old new :
  window h (in_context old) (rd h a0) old 112 → window h (in_context old) (rd h a1) new 112 → words h →
  old + 112 <= new ∨ new + 112 <= old →
  ∃ h', execute swtch h = Some (h', Jump (ld64 (h_mem h) new)) ∧ switched h old new h'.
Proof.
  intros Hw0 Hw1 Hr Hd. destruct ctx_regs_ok as (Hf & Hn1 & Hn2 & Hz & Ha0 & Ha1).
  change swtch with (saves ctx_regs a0 ++ loads ctx_regs a1 ++ [RET]).
  erewrite run_saves; [|exact Hw0|done|exact Hf|done].
  assert (∀ x, ¬ in_context old x → rd8 (store_list (rd h) old ctx_regs (h_mem h)) x = rd8 (h_mem h) x) as Hout.
  { intros x Hx. apply rd8_store_list. intros r o Hin. destruct (fits_in _ _ _ _ Hf Hin) as (? & ? & _).
    unfold in_context in Hx. lia. }
  assert (∀ r o, (r, o) ∈ ctx_regs → ld64 (store_list (rd h) old ctx_regs (h_mem h)) (old + o) = rd h r) as Hin.
  { intros r o Hin. apply (ld64_store_in _ _ _ _ _ _ 112); try done. unfold rd. case_decide; [done|apply Hr]. }
  assert (∀ r o, (r, o) ∈ ctx_regs →
    ld64 (store_list (rd h) old ctx_regs (h_mem h)) (new + o) = ld64 (h_mem h) (new + o)) as Hnew.
  { intros r o Hi. destruct (fits_in _ _ _ _ Hf Hi) as (? & ? & _). apply ld64_ext. intros x Hx. apply Hout.
    unfold in_context. lia. }
  set (m1 := store_list _ _ _ _) in *. clearbody m1. set (h1 := h <| h_mem := m1 |>).
  erewrite run_loads; [|apply (window_mem h _ _ _ _ m1 Hw1 Hout)|done|exact Hf|done|].
  2: { intros o Hi. destruct Ha1. by apply in_regs in Hi. }
  set (f := load_list _ _ _ _).
  assert (∀ r o, (r, o) ∈ ctx_regs → f r = ld64 m1 (new + o)) as Hf1 by (intros r o Hi; by apply load_list_in).
  assert (∀ r, r ∉ ctx_regs.*1 → f r = h_reg h r) as Hf2 by (intros r Hi; by apply load_list_out).
  clearbody f. erewrite run_exit by done.
  exists (h1 <| h_reg := f |>). split.
  { unfold rd. rewrite decide_False by done. cbn. rewrite (Hf1 ra 0), (Hnew ra 0) by constructor. by rewrite Z.add_0_r. }
  split; try done.
  - intros r o Hi. rewrite <- (Hnew r o), <- (Hf1 r o) by done. unfold rd. rewrite decide_False; [done|].
    intros ->. apply Hz. by apply in_regs in Hi.
  - intros r Hi. unfold rd. case_decide; [done|by apply Hf2].
Qed.
End switch.

(** ** kernelvec.S *)

Definition trap_regs : list (reg * Z) := [
  (ra, 0); (sp, 8); (gp, 16); (tp, 24); (t0, 32); (t1, 40); (t2, 48); (s0, 56); (s1, 64);
  (a0, 72); (a1, 80); (a2, 88); (a3, 96); (a4, 104); (a5, 112); (a6, 120); (a7, 128);
  (s2, 136); (s3, 144); (s4, 152); (s5, 160); (s6, 168); (s7, 176); (s8, 184); (s9, 192); (s10, 200); (s11, 208);
  (t3, 216); (t4, 224); (t5, 232); (t6, 240)].

(** [tp] is not restored: the thread may have moved to another hart. *)
Definition restored_regs : list (reg * Z) := filter (λ x, x.1 ≠ tp) trap_regs.

Lemma trap_regs_ok : fits 256 trap_regs ∧ NoDup trap_regs.*2 ∧ fits 256 restored_regs ∧ NoDup restored_regs.*1 ∧
  (zero ∉ restored_regs.*1) ∧ tp ∉ restored_regs.*1.
Proof.
  assert (fits 256 trap_regs) as Hf by (repeat constructor; vm_compute; congruence).
  split; [done|]. split; [apply (bool_decide_unpack _); by vm_compute|].
  split; [apply Forall_forall; intros x [_ Hx]%list_elem_of_filter; by apply (proj1 (Forall_forall _ _) Hf)|].
  split_and!; apply (bool_decide_unpack _); by vm_compute.
Qed.

Lemma restored_index r : r ≠ zero → r ≠ tp → ∃ o, (r, o) ∈ restored_regs ∧ (r, o) ∈ trap_regs.
Proof.
  intros Hz Ht. assert (∃ o, (r, o) ∈ trap_regs) as [o Ho].
  { destruct r; try done; eexists; unfold trap_regs; repeat first [apply list_elem_of_here|apply list_elem_of_further]. }
  exists o. split; [|done]. apply list_elem_of_filter. by split.
Qed.

(** The frame of [kernelvec] on the stack of the interrupted thread. *)
Definition stack_frame (pa x : Z) : Prop := pa <= x < pa + 256.

Section kernelvec.
Context (callee : Z → hart → option hart) (link kerneltrap va pa : Z).
Abbreviation execute := (execute callee link).

(** What [kernelvec] relies on: [kerneltrap] returns with the stack pointer it
    was called with, to the frame it was called on, as it was. *)
Definition abides (h h' : hart) : Prop :=
  rd h' sp = rd h sp ∧ window h' (stack_frame pa) va pa 256 ∧
  ∀ x, stack_frame pa x → rd8 (h_mem h') x = rd8 (h_mem h) x.

Lemma kernelvec_spec h :
  window h (stack_frame pa) va pa 256 → rd h sp = va + 256 → va + 256 < 2 ^ 64 → words h →
  (∀ h1, rd h1 sp = va → window h1 (stack_frame pa) va pa 256 → ∃ h2, callee kerneltrap h1 = Some h2 ∧ abides h1 h2) →
  ∃ h2 h', execute (kernelvec kerneltrap) h = Some (h', Sret) ∧
    (∀ r, r ≠ tp → rd h' r = rd h r) ∧ rd h' tp = rd h2 tp ∧ h_mem h' = h_mem h2 ∧
    h_csr h' = h_csr h2 ∧ h_mode h' = h_mode h2.
Proof.
  intros Hw Hsp Hva Hr Hcall. destruct trap_regs_ok as (Hf & Hn2 & Hf' & Hn1 & Hz & Htp). destruct (wd_va _ _ _ _ _ Hw) as [Hva0 _].
  change (kernelvec kerneltrap) with (ADDI sp sp (-256) :: saves trap_regs sp ++ CALL kerneltrap ::
    loads restored_regs sp ++ [ADDI sp sp 256; SRET]).
  erewrite run_step by done. rewrite Hsp. replace (u64 (va + 256 + -256)) with va by (rewrite u64_small by lia; lia).
  set (h1 := wr sp va h). assert (rd h1 sp = va) as Hsp1 by done.
  assert (window h1 (stack_frame pa) va pa 256) as Hw1 by (by apply window_regs).
  erewrite (run_saves _ _ trap_regs); [|exact Hw1|exact Hsp1|exact Hf|done].
  assert (∀ x, ¬ stack_frame pa x → rd8 (store_list (rd h1) pa trap_regs (h_mem h1)) x = rd8 (h_mem h1) x) as Hout.
  { intros x Hx. apply rd8_store_list. intros r o Hin. destruct (fits_in _ _ _ _ Hf Hin) as (? & ? & _).
    unfold stack_frame in Hx. lia. }
  assert (∀ r o, (r, o) ∈ trap_regs → ld64 (store_list (rd h1) pa trap_regs (h_mem h1)) (pa + o) = rd h1 r) as Hin.
  { intros r o Hin. apply (ld64_store_in _ _ _ _ _ _ 256); try done. unfold rd. case_decide; [done|]. unfold h1, wr. cbn.
    case_decide; [lia|apply Hr]. }
  set (m1 := store_list _ _ _ _) in *. clearbody m1.
  set (h2 := wr ra link (h1 <| h_mem := m1 |>)).
  assert (window h2 (stack_frame pa) va pa 256) as Hw2 by (by apply window_regs, window_mem).
  destruct (Hcall h2 Hsp1 Hw2) as (h3 & Hc & Hsp3 & Hw3 & Hm3).
  erewrite run_step; [|cbn [step]; fold h2; by rewrite Hc].
  assert (∀ r o, (r, o) ∈ trap_regs → ld64 (h_mem h3) (pa + o) = rd h1 r) as Hin3.
  { intros r o Hi. rewrite <- (Hin r o Hi). destruct (fits_in _ _ _ _ Hf Hi) as (? & ? & _). apply ld64_ext.
    intros x Hx. apply Hm3. unfold stack_frame. lia. }
  assert (rd h3 sp = va) as Hsp3' by (by rewrite Hsp3).
  erewrite (run_loads _ _ restored_regs); [|exact Hw3|exact Hsp3'|exact Hf'|exact Hz|].
  2: { intros o [_ Hi]%list_elem_of_filter. by rewrite (Hin3 sp o Hi). }
  set (f := load_list _ _ _ _).
  assert (∀ r, r ≠ zero → r ≠ tp → f r = rd h1 r) as Hf1.
  { intros r Hz' Ht'. destruct (restored_index r Hz' Ht') as (o & Hi1 & Hi2). rewrite <- (Hin3 r o Hi2).
    by apply load_list_in. }
  assert (f tp = h_reg h3 tp) as Hf2 by (by apply load_list_out).
  clearbody f. erewrite run_step by done. erewrite run_exit by done.
  eexists h3, _. split; [done|]. split_and!; try done.
  intros r Ht. unfold rd at 1. case_decide as E; [by rewrite E|]. unfold wr. cbn. case_decide as E2.
  - rewrite E2, Hsp. unfold rd. cbn. rewrite Hf1, Hsp1 by done. by apply u64_small; lia.
  - rewrite Hf1 by done. unfold rd, h1, wr. cbn. by rewrite !decide_False.
Qed.
End kernelvec.

(** ** The timer *)

Lemma machine_window h dom a size :
  h_mode h = Machine → 0 <= a → a + size <= 2 ^ 64 → a mod 8 = 0 → window h dom a a size.
Proof. intros Hm Ha Hs Hal. split; [done|]. intros. by rewrite Hm. Qed.

(** The scratch area at [S], and the timer register that it names. *)
Record timer_area (h : hart) (S C : Z) : Prop := {
  ta_mode : h_mode h = Machine;
  ta_scratch : h_csr h mscratch = S ∧ 0 <= S ∧ S + 40 <= 2 ^ 64 ∧ S mod 8 = 0;
  ta_cmp : ld64 (h_mem h) (S + 24) = C ∧ 0 <= C ∧ C + 8 <= 2 ^ 64 ∧ C mod 8 = 0;
  ta_apart : C + 8 <= S ∨ S + 40 <= C
}.

(** The interrupt leaves every register as it was, sets the timer for the next
    interval and asks for a software interrupt of supervisor mode. *)
Record ticked (h : hart) (S C : Z) (h' : hart) : Prop := {
  tk_regs : ∀ r, h_reg h' r = h_reg h r;
  tk_mode : h_mode h' = h_mode h;
  tk_cmp : ld64 (h_mem h') C = u64 (ld64 (h_mem h) C + ld64 (h_mem h) (S + 32));
  tk_sip : h_csr h' sip = 2;
  tk_csr : ∀ c, c ≠ sip → h_csr h' c = h_csr h c;
  tk_mem : ∀ x, ¬ (S <= x < S + 24) → ¬ (C <= x < C + 8) → rd8 (h_mem h') x = rd8 (h_mem h) x
}.

(** After the first half of [timervec]: three registers are in the scratch
    area, [a0] in [mscratch], and [a3] is the time of the next interrupt. *)
Record timer_half (h : hart) (S C : Z) (h' : hart) : Prop := {
  th_mode : h_mode h' = Machine;
  th_a0 : rd h' a0 = S;
  th_a1 : rd h' a1 = C;
  th_a3 : rd h' a3 = u64 (ld64 (h_mem h) C + ld64 (h_mem h) (S + 32));
  th_regs : ∀ r, r ≠ a0 → r ≠ a1 → r ≠ a2 → r ≠ a3 → h_reg h' r = h_reg h r;
  th_saved : ∀ r o, (r, o) ∈ [(a1, 0); (a2, 8); (a3, 16)] → ld64 (h_mem h') (S + o) = h_reg h r;
  th_mem : ∀ x, ¬ (S <= x < S + 24) → rd8 (h_mem h') x = rd8 (h_mem h) x;
  th_csr : ∀ c, h_csr h' c = if decide (c = mscratch) then h_reg h a0 else h_csr h c
}.

Lemma timer_offsets r o :
  (r, o) ∈ [(a1, 0); (a2, 8); (a3, 16)] → 0 <= o ∧ o + 8 <= 24 ∧ r ≠ zero ∧ r ≠ a0.
Proof.
  intros Hin. repeat (apply elem_of_cons in Hin as [[= -> ->]|Hin]; [done|]). by apply elem_of_nil in Hin.
Qed.

Section timer.
Context (callee : Z → hart → option hart) (link : Z).
Abbreviation execute := (execute callee link).

Definition timer_rest : list insn := SD a3 0 a1 :: LI a1 2 :: CSRW sip a1 ::
  loads [(a3, 16); (a2, 8); (a1, 0)] a0 ++ [CSRRW a0 mscratch a0; MRET].

Lemma scratch_window h S C h' : timer_area h S C → h_mode h' = Machine → window h' (λ _, True) S S 40.
Proof. intros [_ (_ & ? & ? & ?) _ _] Hm. by apply machine_window. Qed.

Lemma cmp_access h S C h' w : timer_area h S C → h_mode h' = Machine → access h' (u64 (C + 0)) w = Some C.
Proof.
  intros [_ _ (_ & ? & ? & ?) _] Hm.
  rewrite (window_access h' (λ _, True) C C 8 0 w) by (done || by apply machine_window). by rewrite Z.add_0_r.
Qed.

Lemma timer_enter h S C :
  timer_area h S C → words h → ∃ h', execute timervec h = execute timer_rest h' ∧ timer_half h S C h'.
Proof.
  intros Hta Hr. pose proof Hta as [Hmode (HS & HS0 & HS1 & HSa) (HC & HC0 & HC1 & HCa) Hd].
  change timervec with (CSRRW a0 mscratch a0 :: saves [(a1, 0); (a2, 8); (a3, 16)] a0 ++
    loads [(a1, 24); (a2, 32)] a0 ++ LD a3 0 a1 :: ADD a3 a3 a2 :: timer_rest).
  erewrite run_step by done. rewrite HS. set (h1 := wr a0 S _).
  erewrite run_saves; [|by apply (scratch_window h S C)|done|by repeat constructor; vm_compute|done].
  set (m1 := store_list _ _ _ _).
  assert (∀ x, ¬ (S <= x < S + 24) → rd8 m1 x = rd8 (h_mem h) x) as Hm1.
  { intros x Hx. apply rd8_store_list. intros r o (? & ? & _)%timer_offsets. lia. }
  assert (∀ r o, (r, o) ∈ [(a1, 0); (a2, 8); (a3, 16)] → ld64 m1 (S + o) = h_reg h r) as Hs1.
  { intros r o Hin. destruct (timer_offsets r o Hin) as (_ & _ & Hz & Ha0).
    assert (rd h1 r = h_reg h r) as E by (unfold rd, h1, wr; cbn; by rewrite !decide_False).
    rewrite <- E. apply (ld64_store_in _ _ _ _ _ _ 40); [apply (bool_decide_unpack _); by vm_compute|
      by repeat constructor; vm_compute|done|rewrite E; apply Hr]. }
  clearbody m1. set (h2 := h1 <| h_mem := m1 |>).
  erewrite run_loads; [|by apply (scratch_window h S C)|done|by repeat constructor; vm_compute|set_solver|set_solver].
  set (f2 := load_list _ _ _ _).
  assert (∀ a, a + 8 <= S ∨ S + 24 <= a → ld64 m1 a = ld64 (h_mem h) a) as Hl1.
  { intros a Ha. apply ld64_ext. intros x Hx. apply Hm1. lia. }
  assert (f2 a1 = C ∧ f2 a2 = ld64 (h_mem h) (S + 32) ∧ ∀ r, r ≠ a1 → r ≠ a2 → f2 r = h_reg h1 r) as (Ef1 & Ef2 & Ef).
  { split_and!; [rewrite <- HC|..|intros r H1 H2; apply load_list_out; set_solver];
      (rewrite <- Hl1 by lia; apply load_list_in; [apply (bool_decide_unpack _); by vm_compute|set_solver]). }
  clearbody f2. set (h3 := h2 <| h_reg := f2 |>).
  erewrite run_step; [|cbn [step]; change (rd h3 a1) with (f2 a1); rewrite Ef1; by rewrite (cmp_access h S C)].
  erewrite run_step by done. eexists. split; [done|].
  split; try done.
  - transitivity (f2 a0); [done|by rewrite Ef].
  - transitivity (u64 (ld64 m1 C + f2 a2)); [done|]. rewrite Hl1, Ef2 by lia. done.
  - intros r H0 H1 H2 H3. transitivity (f2 r); [unfold wr; cbn; by rewrite !decide_False|].
    rewrite Ef by done. unfold h1, wr. cbn. by rewrite decide_False.
Qed.

Lemma timer_leave h S C h1 :
  timer_area h S C → timer_half h S C h1 → ∃ h', execute timer_rest h1 = Some (h', Mret) ∧ ticked h S C h'.
Proof.
  intros Hta [Hm E0 E1 E3 Er Hs Hmem Hcsr]. pose proof Hta as [_ (HS & HS0 & HS1 & HSa) (_ & HC0 & HC1 & HCa) Hd].
  unfold timer_rest. erewrite run_step; [|cbn [step]; rewrite E1; by rewrite (cmp_access h S C)].
  rewrite E3. set (m2 := st64 _ C _).
  assert (∀ a, a + 8 <= C ∨ C + 8 <= a → ld64 m2 a = ld64 (h_mem h1) a) as Hl2 by (intros a Ha; by apply ld64_st64_ne; lia).
  assert (∀ x, ¬ (C <= x < C + 8) → rd8 m2 x = rd8 (h_mem h1) x) as Hm2 by (intros x Hx; by apply rd8_st64_ne).
  assert (ld64 m2 C = u64 (ld64 (h_mem h) C + ld64 (h_mem h) (S + 32))) as Hc2 by (by apply ld64_st64_same, u64_range).
  clearbody m2. do 2 (erewrite run_step by done). set (h5 := wr_csr sip _ _).
  assert (∀ r, r ≠ a1 → h_reg h5 r = h_reg h1 r) as E5 by (intros r Hr; unfold h5, wr; cbn; by rewrite decide_False).
  erewrite run_loads; [|by apply (scratch_window h S C)|exact E0|by repeat constructor; vm_compute|set_solver|set_solver].
  change (h_mem h5) with m2. set (f5 := load_list _ _ _ _).
  assert (∀ r, r = a1 ∨ r = a2 ∨ r = a3 → f5 r = h_reg h r) as Ef5.
  { intros r Hr. assert (∃ o, (r, o) ∈ [(a1, 0); (a2, 8); (a3, 16)] ∧ (r, o) ∈ [(a3, 16); (a2, 8); (a1, 0)])
      as (o & Hi1 & Hi2) by (destruct Hr as [-> | [-> | ->]]; [exists 0|exists 8|exists 16]; set_solver).
    destruct (timer_offsets r o Hi1) as (? & ? & _).
    rewrite <- (Hs r o Hi1), <- Hl2 by lia. apply load_list_in; [apply (bool_decide_unpack _); by vm_compute|done]. }
  assert (∀ r, r ≠ a1 → r ≠ a2 → r ≠ a3 → f5 r = h_reg h1 r) as Ef5'.
  { intros r H1 H2 H3. unfold f5. rewrite load_list_out by set_solver. by apply E5. }
  clearbody f5. erewrite run_step by done. erewrite run_exit by done. eexists. split; [done|].
  assert (f5 a0 = S) as E6 by (by rewrite Ef5').
  assert (∀ c, c ≠ sip → h_csr h5 c = h_csr h1 c) as Ec5 by (intros c Hc; unfold h5; cbn; by rewrite decide_False).
  assert (h_csr h5 sip = 2) as Es5 by done. assert (h_mem h5 = m2) as Em5 by done.
  assert (h_mode h5 = Machine) as Emd5 by exact Hm. clearbody h5.
  split; cbn; rewrite ?Em5.
  - intros r. case_decide as Ea.
    + by rewrite Ea, Ec5, Hcsr.
    + destruct (decide (r = a1 ∨ r = a2 ∨ r = a3)) as [Hx|Hx]; [by apply Ef5|]. rewrite Ef5' by tauto. apply Er; tauto.
  - rewrite Emd5. by destruct Hta.
  - done.
  - done.
  - intros c Hc. case_decide as E; [unfold rd; cbn; by rewrite E6, E, HS|]. rewrite Ec5, Hcsr by done. by rewrite decide_False.
  - intros x Hx1 Hx2. by rewrite Hm2, Hmem.
Qed.

Lemma timervec_spec h S C :
  timer_area h S C → words h → ∃ h', execute timervec h = Some (h', Mret) ∧ ticked h S C h'.
Proof.
  intros Hta Hr. destruct (timer_enter h S C Hta Hr) as (h1 & -> & Hh). by apply timer_leave.
Qed.
End timer.

(** ** Boot in machine mode *)

(** [start] runs on hart [id]; the scratch areas are in the kernel's memory. *)
Record booting (h : hart) (timer_scratch id : Z) : Prop := {
  bo_mode : h_mode h = Machine;
  bo_hart : h_csr h mhartid = id ∧ 0 <= id < 8;
  bo_scratch : KERNBASE <= timer_scratch ∧ timer_scratch + 40 * 8 <= PHYSTOP ∧ timer_scratch mod 8 = 0
}.

(** Where the scratch area and the timer register of hart [id] are. *)
Lemma scratch_place h ts id :
  booting h ts id → let S := ts + 40 * id in let C := CLINT_MTIMECMP id in
  (0 <= S ∧ S + 40 <= 2 ^ 64 ∧ S mod 8 = 0) ∧ (0 <= C ∧ C + 8 <= 2 ^ 64 ∧ C mod 8 = 0) ∧ C + 8 <= S ∧
  (CLINT_MTIME + 8 <= S ∧ C + 8 <= CLINT_MTIME).
Proof.
  intros [_ [_ Hid] (Hs1 & Hs2 & Hs3)]. unfold CLINT_MTIMECMP, CLINT_MTIME, CLINT. consts. cbn zeta.
  assert (40 * id = 5 * id * 8) as E1 by lia. assert (33554432 + 16384 = 4196352 * 8) as E2 by done.
  split_and!; try lia.
  - rewrite E1, Z.mod_add by done. done.
  - rewrite E2. replace (4196352 * 8 + 8 * id) with ((4196352 + id) * 8) by lia. by apply Z.mod_mul.
Qed.

Lemma mpp_supervisor x :
  Z.land (Z.lor (Z.lor (Z.land x (Z.lnot MSTATUS_MPP_MASK)) MSTATUS_MPP_S) MSTATUS_MIE) MSTATUS_MPP_MASK = MSTATUS_MPP_S.
Proof.
  rewrite !Z.land_lor_distr_l, <- Z.land_assoc. change (Z.land (Z.lnot MSTATUS_MPP_MASK) MSTATUS_MPP_MASK) with 0.
  by rewrite Z.land_0_r.
Qed.

(** What [start] leaves for [main] and for the timer. *)
Record started (h : hart) (ts tv id : Z) (h' : hart) : Prop := {
  sd_tp : rd h' tp = id;
  sd_regs : ∀ r, r ≠ tp → h_reg h' r = h_reg h r;
  sd_satp : h_csr h' satp = 0;
  sd_deleg : h_csr h' medeleg = 0xffff ∧ h_csr h' mideleg = 0xffff;
  sd_sie : ∀ i, i ∈ [1; 5; 9] → Z.testbit (h_csr h' sie) i = true;
  sd_timer : h_csr h' mtvec = tv ∧ Z.testbit (h_csr h' mstatus) 3 = true ∧ Z.testbit (h_csr h' mie) 7 = true;
  sd_area : timer_area h' (ts + 40 * id) (CLINT_MTIMECMP id);
  sd_first : ld64 (h_mem h') (CLINT_MTIMECMP id) = u64 (ld64 (h_mem h) CLINT_MTIME + 1000000);
  sd_interval : ld64 (h_mem h') (ts + 40 * id + 32) = 1000000
}.

(** What [timerinit] does. *)
Record timer_ready (h : hart) (ts tv id : Z) (h' : hart) : Prop := {
  tr_regs : h_reg h' = h_reg h ∧ h_mode h' = h_mode h;
  tr_csr : ∀ c, h_csr h' c =
    if decide (c = mie) then Z.lor (h_csr h mie) MIE_MTIE
    else if decide (c = mstatus) then Z.lor (h_csr h mstatus) MSTATUS_MIE
    else if decide (c = mtvec) then tv
    else if decide (c = mscratch) then ts + 40 * id
    else h_csr h c;
  tr_cmp : ld64 (h_mem h') (CLINT_MTIMECMP id) = u64 (ld64 (h_mem h) CLINT_MTIME + 1000000);
  tr_scratch : ld64 (h_mem h') (ts + 40 * id + 24) = CLINT_MTIMECMP id ∧ ld64 (h_mem h') (ts + 40 * id + 32) = 1000000
}.

Lemma small_i32 id : 0 <= id < 8 → i32 id = id.
Proof. intros. apply i32_small. lia. Qed.

Lemma timerinit_spec h ts tv id :
  booting h ts id → wp (timerinit ts tv) (λ _ h', timer_ready h ts tv id h') h.
Proof.
  intros Hb. pose proof (scratch_place _ _ _ Hb) as (HS & HC & Happ & _). destruct Hb as [_ [Hid Hid8] _].
  unfold timerinit, r_mhartid, w_mscratch, w_mtvec, r_mstatus, w_mstatus, r_mie, w_mie, csrr, csrw, load64, store64.
  repeat (wp_step; try cbv zeta). cbn beta. rewrite Hid, small_i32 by done.
  split; cbn; set (S := ts + 40 * id) in *; set (C := CLINT_MTIMECMP id) in *; clearbody S C.
  - done.
  - intros c. by repeat case_decide.
  - rewrite !ld64_st64_ne by lia. by apply ld64_st64_same, u64_range.
  - rewrite ld64_st64_ne by lia. split; apply ld64_st64_same; lia.
Qed.

Lemma start_spec h ts tv main id :
  booting h ts id → words h →
  wp (start ts tv main) (λ r h', r = (Some Supervisor, main) ∧ started h ts tv id h') h.
Proof.
  intros Hb Hr. pose proof (scratch_place _ _ _ Hb) as (HS & HC & Happ & _). pose proof Hb as [Hm [Hid Hid8] Hsc].
  unfold start, r_mstatus, w_mstatus, w_mepc, w_satp, w_medeleg, w_mideleg, r_sie, w_sie, w_pmpaddr0, w_pmpcfg0,
    r_mhartid, w_tp, csrr, csrw.
  do 24 (first [wp_step|cbv zeta]). set (h1 := wr_csr pmpcfg0 _ _).
  assert (h_csr h1 mstatus = Z.lor (Z.land (h_csr h mstatus) (Z.lnot MSTATUS_MPP_MASK)) MSTATUS_MPP_S) as E1 by done.
  assert (h_csr h1 sie = Z.lor (Z.lor (Z.lor (h_csr h sie) SIE_SEIE) SIE_STIE) SIE_SSIE) as E2 by done.
  assert (h_csr h1 mepc = main ∧ h_csr h1 satp = 0 ∧ h_csr h1 mhartid = id) as (E3 & E4 & E5) by done.
  assert (h_csr h1 medeleg = 0xffff ∧ h_csr h1 mideleg = 0xffff) as E6 by done.
  assert (booting h1 ts id) as Hb1 by done. assert (h_reg h1 = h_reg h ∧ h_mem h1 = h_mem h) as [E7 E8] by done.
  clearbody h1. wp_use (timerinit_spec h1 ts tv id); [done|].
  intros _ h2 [[Er Em] Ec Ecmp [Es1 Es2]].
  assert (h_csr h2 mstatus = Z.lor (h_csr h1 mstatus) MSTATUS_MIE ∧ h_csr h2 mie = Z.lor (h_csr h1 mie) MIE_MTIE ∧
    h_csr h2 sie = h_csr h1 sie ∧ h_csr h2 mepc = main ∧ h_csr h2 satp = 0 ∧ h_csr h2 mhartid = id ∧
    h_csr h2 medeleg = 0xffff ∧ h_csr h2 mideleg = 0xffff ∧ h_csr h2 mtvec = tv ∧ h_csr h2 mscratch = ts + 40 * id)
    as (F1 & F2 & F3 & F4 & F5 & F6 & F7 & F8 & F9 & F10) by (rewrite !Ec; split_and!; done || apply E6).
  do 4 wp_step. rewrite F6, small_i32, u64_small by lia. wp_step. split.
  { unfold mret_to. cbn. by rewrite F1, E1, mpp_supervisor, F4. }
  split; cbn; try done.
  - intros r Hrtp. rewrite decide_False by done. by rewrite Er, E7.
  - intros i Hi. rewrite F3, E2, !Z.lor_spec.
    repeat (apply elem_of_cons in Hi as [-> |Hi]; [by rewrite !orb_true_r|]). by apply elem_of_nil in Hi.
  - split; [exact F9|]. split; [transitivity (Z.testbit (h_csr h2 mstatus) 3)|transitivity (Z.testbit (h_csr h2 mie) 7)];
      try done; rewrite ?F1, ?F2, Z.lor_spec; apply orb_true_r.
  - destruct HS as (? & ? & ?), HC as (? & ? & ?). split; cbn; [by rewrite Em; apply (bo_mode _ _ _ Hb1)|by rewrite F10|by rewrite Es1|by left].
  - by rewrite Ecmp, E8.
Qed.

(** [entry.S] calls [start] on a stack of the hart's own. *)
Lemma entry_spec callee link stack0 start h id :
  h_csr h mhartid = id → 0 <= id < 8 → 0 <= stack0 → stack0 + 4096 * 8 < 2 ^ 64 →
  ∃ h1, execute callee link (entry stack0 start) h = (h2 ← callee start h1; Some (h2, Spin)) ∧
    rd h1 sp = stack0 + 4096 * (id + 1) ∧ rd h1 ra = link ∧ h_csr h1 = h_csr h ∧ h_mem h1 = h_mem h ∧ h_mode h1 = h_mode h.
Proof.
  intros Hid Hid8 Hs0 Hs1. unfold entry. do 6 (erewrite run_step by done). set (h1 := wr sp _ _).
  assert (rd h1 sp = u64 (stack0 + u64 (u64 4096 * u64 (h_csr h mhartid + 1)))) as E1 by done.
  assert (h_csr h1 = h_csr h ∧ h_mem h1 = h_mem h ∧ h_mode h1 = h_mode h) as E2 by done. clearbody h1.
  exists (wr ra link h1). split; [cbn [execute step]; by destruct (callee start (wr ra link h1))|].
  split; [|by destruct E2 as (? & ? & ?)]. transitivity (rd h1 sp); [done|].
  rewrite E1, Hid, (u64_small 4096), (u64_small (id + 1)) by lia. rewrite (u64_small (4096 * _)) by lia. rewrite u64_small by lia. lia.
Qed.
