(* ===== verification/PipeOps.v ===== *)
(** Pipes are queues of bytes: the ring buffer in a kernel page represents a
    list, [push] and [pop] are enqueue and dequeue, also when the 32-bit counters
    wrap around; [pipewrite] and [piperead] move bytes between the queue and user
    memory. *)
From S2P Require Import Prelude CString Spinlock Riscv Kalloc Vm PageTable Uvm UvmOps UvmGrow.
From S2P Require Import UserCopy Proc ProcState Sched ProcOps ProcNew Fork SyscallOps Pipe.

(** ** The ring buffer *)

(** The memory of a pipe that holds the bytes [q]: [r] is [nread]. *)
Record ring (m : mem) (pi ro wo r : Z) (q : list Z) : Prop := {
  rg_nread : ld32 m (pi + pi_nread) = r;
  rg_nwrite : ld32 m (pi + pi_nwrite) = u32 (r + Z.of_nat (length q));
  rg_readopen : ld32 m (pi + pi_readopen) = ro;
  rg_writeopen : ld32 m (pi + pi_writeopen) = wo;
  rg_len : Z.of_nat (length q) <= PIPESIZE;
  rg_data : ∀ (i : nat) c, q !! i = Some c → rd8 m (pi + pi_data + (r + Z.of_nat i) mod PIPESIZE) = c
}.

Definition pipe_at (m : mem) (pi ro wo : Z) (q : list Z) : Prop := ∃ r, ring m pi ro wo r q.

(** The struct fits in the page. *)
Definition pipe_end : Z := pi_writeopen + 4.

Lemma ld32_ext m m' a : (∀ x, a <= x < a + 4 → rd8 m' x = rd8 m x) → ld32 m' a = ld32 m a.
Proof. apply (le_load_ext 4). Qed.

Lemma rd8_st32_ne m a v x : ¬ (a <= x < a + 4) → rd8 (st32 m a v) x = rd8 m x.
Proof. apply (le_store_other 4). Qed.

Lemma ld32_st32_eq m a v : ld32 (st32 m a v) a = u32 v.
Proof. apply (le_load_store_eq 4). Qed.

Lemma ld32_st32_ne m a v b : b + 4 <= a ∨ a + 4 <= b → ld32 (st32 m a v) b = ld32 m b.
Proof. intros. apply ld32_ext. intros. apply rd8_st32_ne. lia. Qed.

Lemma ld32_wr8_ne m a v b : a < b ∨ b + 4 <= a → ld32 (wr8 m a v) b = ld32 m b.
Proof. intros. apply ld32_ext. intros. apply rd8_wr8_ne. lia. Qed.

Lemma ld32_range m a : 0 <= ld32 m a < 2 ^ 32.
Proof. apply (le_load_range 4). Qed.

Lemma ring_slot x : 0 <= x mod PIPESIZE < PIPESIZE.
Proof. by apply Z.mod_pos_bound. Qed.

(** The size of the buffer divides the range of the counters. *)
Lemma u32_slot x : u32 x mod PIPESIZE = x mod PIPESIZE.
Proof. unfold u32. apply Z.mod_mod_divide. by exists (2 ^ 23). Qed.

Lemma u32_add x y : u32 (u32 x + y) = u32 (x + y).
Proof. unfold u32. by rewrite Z.add_mod_idemp_l. Qed.

Ltac pipe_consts :=
  unfold pipe_end, pi_writeopen, pi_readopen, pi_nwrite, pi_nread, pi_data, PIPESIZE, PGSIZE in *.

Lemma pipe_same m m' pi ro wo q :
  (∀ x, pi <= x < pi + PGSIZE → rd8 m' x = rd8 m x) → pipe_at m pi ro wo q → pipe_at m' pi ro wo q.
Proof.
  intros Hm (r & [Hr Hw Hro Hwo Hl Hd]). exists r.
  split; [rewrite <- Hr|rewrite <- Hw|rewrite <- Hro|rewrite <- Hwo|done|].
  1-4: apply ld32_ext; intros x Hx; apply Hm; pipe_consts; lia.
  intros i c Hi. rewrite Hm; [by apply Hd|]. pose proof (ring_slot (r + Z.of_nat i)). pipe_consts. lia.
Qed.

(** Full and empty, as the code tests them. *)
Lemma ring_full m pi ro wo r q :
  ring m pi ro wo r q → (u32 (r + Z.of_nat (length q)) =? u32 (r + PIPESIZE)) = bool_decide (Z.of_nat (length q) = PIPESIZE).
Proof.
  intros H. pose proof (rg_len _ _ _ _ _ _ H) as Hl. pose proof (ld32_range m (pi + pi_nread)) as Hr.
  rewrite (rg_nread _ _ _ _ _ _ H) in Hr. unfold u32. case_bool_decide as E; [rewrite E; apply Z.eqb_refl|].
  apply Z.eqb_neq. intros Heq. unfold PIPESIZE in *.
  assert ((r + 512 - (r + Z.of_nat (length q))) mod 2 ^ 32 = 0) as Hd by (rewrite Zminus_mod, Heq, Z.sub_diag; done).
  rewrite Z.mod_small in Hd by lia. lia.
Qed.

Lemma ring_empty m pi ro wo r q :
  ring m pi ro wo r q → (r =? u32 (r + Z.of_nat (length q))) = bool_decide (q = []).
Proof.
  intros H. pose proof (rg_len _ _ _ _ _ _ H) as Hl. pose proof (ld32_range m (pi + pi_nread)) as Hr.
  rewrite (rg_nread _ _ _ _ _ _ H) in Hr. unfold u32. case_bool_decide as E.
  - subst q. apply Z.eqb_eq. rewrite Z.add_0_r. symmetry. by apply Z.mod_small.
  - apply Z.eqb_neq. intros Heq. assert (0 < Z.of_nat (length q)) by (destruct q; [done|simpl; lia]).
    unfold PIPESIZE in *.
    assert ((r + Z.of_nat (length q) - r) mod 2 ^ 32 = 0) as Hd
      by (rewrite Zminus_mod, <- Heq, (Z.mod_small r) by lia; by rewrite Z.sub_diag).
    rewrite Z.mod_small in Hd by lia. lia.
Qed.

(** Two offsets less than the size apart are different slots. *)
Lemma slot_ne x y : 0 < y - x < PIPESIZE → x mod PIPESIZE ≠ y mod PIPESIZE.
Proof.
  intros H E. assert ((y - x) mod PIPESIZE = 0) as Hd by (rewrite Zminus_mod, E, Z.sub_diag; done).
  rewrite Z.mod_small in Hd by lia. lia.
Qed.

Lemma ring_push m pi ro wo r q c :
  ring m pi ro wo r q → Z.of_nat (length q) < PIPESIZE → 0 <= c < 256 →
  let w := u32 (r + Z.of_nat (length q)) in
  ring (wr8 (st32 m (pi + pi_nwrite) (u32 (w + 1))) (pi + pi_data + w mod PIPESIZE) c) pi ro wo r (q ++ [c]).
Proof.
  intros [Hr Hw Hro Hwo Hl Hd] Hlt Hc w. pose proof (ring_slot w) as Hs.
  split; rewrite ?length_app, ?Nat2Z.inj_add; cbn [length].
  - rewrite ld32_wr8_ne, ld32_st32_ne; [done|pipe_consts; lia..].
  - rewrite ld32_wr8_ne, ld32_st32_eq by (pipe_consts; lia). unfold w.
    rewrite (u32_small (u32 _)) by apply u32_range. rewrite u32_add. f_equal. lia.
  - rewrite ld32_wr8_ne, ld32_st32_ne; [done|pipe_consts; lia..].
  - rewrite ld32_wr8_ne, ld32_st32_ne; [done|pipe_consts; lia..].
  - lia.
  - intros i c' [Hi|[Hi Hc']]%lookup_app_Some.
    + pose proof (lookup_lt_Some _ _ _ Hi). pose proof (ring_slot (r + Z.of_nat i)).
      assert ((r + Z.of_nat i) mod PIPESIZE ≠ w mod PIPESIZE) by (unfold w; rewrite u32_slot; apply slot_ne; lia).
      rewrite rd8_wr8_ne by lia. rewrite rd8_st32_ne by (pipe_consts; lia). by apply Hd.
    + apply list_lookup_singleton_Some in Hc' as [Hi0 <-]. assert (i = length q) as -> by lia.
      assert ((r + Z.of_nat (length q)) mod PIPESIZE = w mod PIPESIZE) as -> by (unfold w; by rewrite u32_slot).
      rewrite rd8_wr8_eq. by apply u8_small.
Qed.

Lemma ring_pop m pi ro wo r c q :
  ring m pi ro wo r (c :: q) →
  rd8 (st32 m (pi + pi_nread) (u32 (r + 1))) (pi + pi_data + r mod PIPESIZE) = c ∧
  ring (st32 m (pi + pi_nread) (u32 (r + 1))) pi ro wo (u32 (r + 1)) q.
Proof.
  intros [Hr Hw Hro Hwo Hl Hd]. cbn [length] in *. pose proof (ring_slot r). split.
  { rewrite rd8_st32_ne by (pipe_consts; lia). rewrite <- (Hd 0%nat c eq_refl). by rewrite Z.add_0_r. }
  split.
  - rewrite ld32_st32_eq. apply u32_small, u32_range.
  - rewrite ld32_st32_ne, Hw by (pipe_consts; lia). rewrite u32_add. f_equal. lia.
  - rewrite ld32_st32_ne; [done|pipe_consts; lia..].
  - rewrite ld32_st32_ne; [done|pipe_consts; lia..].
  - lia.
  - intros i c' Hi. pose proof (ring_slot (u32 (r + 1) + Z.of_nat i)).
    rewrite rd8_st32_ne by (pipe_consts; lia). rewrite <- (Hd (S i) c' Hi). do 2 f_equal.
    rewrite <- Z.add_mod_idemp_l, u32_slot, Z.add_mod_idemp_l by done. f_equal. lia.
Qed.

(** ** In kernel memory *)

Section pipeops.
Context `{KI : !KernelImage} {F : Type}.
Context (cfg : sched_cfg) (swtch : option Z → option Z → kM (pstate F) ()).
Implicit Types (T : gmap Z (gmap Z Z)) (M : gmap Z Z) (K : Z → Z) (st : pstate F).

(** A page of the kernel is not mapped by an entry that is made writable. *)
Lemma kernel_unmapped s fl T K r M vpn pte pte' p :
  vm s fl (<[r := <[vpn := pte']> M]> T) K → T !! r = Some M → M !! vpn = Some pte → owned vpn = true →
  truth (Z.land pte' PTE_W) = true → 0 < K p → refs T p = 0 → refs (<[r := <[vpn := pte']> M]> T) p = 0.
Proof.
  intros Hvm HT HM Ho HW HKp Hr.
  assert (PTE2PA pte' ≠ p) as Hne.
  { intros <-. pose proof (vm_cow _ _ _ _ Hvm r _ vpn pte' (lookup_insert_eq _ _ _) (lookup_insert_eq _ _ _) Ho HW) as Hc.
    destruct (mapped_page _ _ _ _ r _ vpn pte' Hvm (lookup_insert_eq _ _ _) (lookup_insert_eq _ _ _) Ho) as (Hok & Hnt & _).
    rewrite (vm_rc _ _ _ _ Hvm) in Hc by done.
    pose proof (refs_mapped _ r _ vpn pte' (lookup_insert_eq T _ _) (lookup_insert_eq M _ _) Ho). lia. }
  pose proof (refs_nonneg (<[r := <[vpn := pte']> M]> T) p). rewrite (refs_update T r M) in * by done.
  rewrite (refs1_update M vpn pte pte') in * by done. unfold ref1 in *.
  assert ((PTE2PA pte' =? p) = false) as E by (by apply Z.eqb_neq). rewrite E, andb_false_r in *. simpl in *.
  destruct (_ && _); simpl in *; lia.
Qed.

(** The world of a pipe: [pi] is a page of the kernel that no process maps. *)
Record pipe_vm (m : mach) fl T K (pi : Z) : Prop := {
  pv_vm : vm m fl T K;
  pv_kpos : kpos K;
  pv_low : all_low T;
  pv_page : page_ok pi;
  pv_kernel : 0 < K pi;
  pv_unmapped : refs T pi = 0
}.

(** What the users see is the same. *)
Definition users_same (m : mach) T (m' : mach) : Prop :=
  ∀ r M va, T !! r = Some M → 0 <= va → uread m' M va = uread m M va.

Lemma pipe_vm_write m fl T K pi m' :
  pipe_vm m fl T K pi → (∀ x, ¬ in_page pi x → rd8 m' x = rd8 (m_mem m) x) →
  pipe_vm (m <| m_mem := m' |>) fl T K pi ∧ users_same m T (m <| m_mem := m' |>).
Proof.
  intros [Hvm HK Hlow Hp HKp Hr] Hm. pose proof (kernel_not_table _ _ _ _ _ Hvm Hp HKp) as Hn.
  assert (kernel_page m T pi) as Hk by (split; try done; rewrite (vm_rc _ _ _ _ Hvm) by done; lia).
  destruct (kernel_write m fl T K pi m' Hvm Hk Hm) as (Hvm' & _ & Hsame).
  split; [done|]. intros r M va HT. by apply (Hsame r), (Hlow r).
Qed.

Section at_state.
Context (p : Z) (st : pstate F) (P : Z → proc) (n t : Z) (f : F) (fl : list Z) (T : gmap Z (gmap Z Z)) (K : Z → Z).
Context (Hcur : ps_cur st = Some p).
Implicit Types m : mach.
Abbreviation here m := (pst st m P n t f).

Lemma pipe_ram pi i k : page_ok pi → 0 <= i → i + k <= PGSIZE → in_ram (pi + i) k = true.
Proof. intros Hp Hi Hk. apply (in_ram_sub pi PGSIZE); [by apply page_ok_ram|lia|lia]. Qed.

Lemma getpi_spec m pi fld (Q : Z → pstate F → Prop) :
  page_ok pi → 0 <= fld → fld + 4 <= PGSIZE → Q (ld32 (m_mem m) (pi + fld)) (here m) → wp (getpi pi fld) Q (here m).
Proof. intros Hp Hf Hf' HQ. unfold getpi. apply wp_mem. unfold kload32. rewrite pipe_ram by done. by wp_step. Qed.

Lemma setpi_spec m pi fld v (Q : () → pstate F → Prop) :
  page_ok pi → 0 <= fld → fld + 4 <= PGSIZE →
  Q () (here (m <| m_mem := st32 (m_mem m) (pi + fld) v |>)) → wp (setpi pi fld v) Q (here m).
Proof. intros Hp Hf Hf' HQ. unfold setpi. apply wp_mem. unfold kstore32. rewrite pipe_ram by done. by wp_step. Qed.

Lemma killed_spec m (Q : Z → pstate F → Prop) :
  ProcLock p ∉ m_held m → Q (killed_ (P p)) (here m) → wp (killed p) Q (here m).
Proof.
  intros Hl HQ. unfold killed. wp_step. apply wp_acquire; [done|]. wp_step. apply wp_getp. wp_step.
  apply (wp_release _ _ _ _ _ _ _ (m_held m)); [done|done|]. wp_step.
  by replace (m <| m_held := ProcLock p :: m_held m |> <| m_held := m_held m |>) with m by (by destruct m).
Qed.

(** The queue operations. *)
Lemma push_spec m pi ro wo q c (Q : () → pstate F → Prop) :
  pipe_vm m fl T K pi → pipe_at (m_mem m) pi ro wo q → Z.of_nat (length q) < PIPESIZE → 0 <= c < 256 →
  (∀ m', m_held m' = m_held m → pipe_vm m' fl T K pi → users_same m T m' → pipe_at (m_mem m') pi ro wo (q ++ [c]) →
     Q () (here m')) → wp (push pi c) Q (here m).
Proof using Hcur.
  intros Hpv (r & Hr) Hlt Hc HQ. pose proof (pv_page _ _ _ _ _ Hpv) as Hp.
  pose proof (ring_push _ _ _ _ _ _ _ Hr Hlt Hc) as Hr'. cbn zeta in Hr'.
  unfold push. wp_step. apply getpi_spec; [done|done|done|]. rewrite (rg_nwrite _ _ _ _ _ _ Hr).
  set (w := u32 (r + Z.of_nat (length q))) in *. pose proof (ring_slot w) as Hs. wp_step. apply setpi_spec; [done|done|done|].
  apply wp_mem. unfold kstore8. rewrite (in_ram_sub pi PGSIZE) by (by apply page_ok_ram || (pipe_consts; lia)).
  wp_step. set (m' := wr8 _ _ _). destruct (pipe_vm_write m fl T K pi m') as [Hpv' Hs']; [done| |].
  { intros x Hx. unfold in_page in Hx. unfold m'. cbn.
    rewrite rd8_wr8_ne, rd8_st32_ne by (pipe_consts; lia). done. }
  match goal with |- Q () (here ?x) => replace x with (m <| m_mem := m' |>) by (by destruct m) end.
  apply HQ; [done|done|done|]. by exists r.
Qed.

Lemma pop_spec m pi ro wo c q (Q : Z → pstate F → Prop) :
  pipe_vm m fl T K pi → pipe_at (m_mem m) pi ro wo (c :: q) →
  (∀ m', m_held m' = m_held m → pipe_vm m' fl T K pi → users_same m T m' → pipe_at (m_mem m') pi ro wo q →
     Q c (here m')) → wp (pop pi) Q (here m).
Proof using Hcur.
  intros Hpv (r & Hr) HQ. pose proof (pv_page _ _ _ _ _ Hpv) as Hp. destruct (ring_pop _ _ _ _ _ _ _ Hr) as [Hc Hr'].
  unfold pop. wp_step. apply getpi_spec; [done|done|done|]. rewrite (rg_nread _ _ _ _ _ _ Hr).
  pose proof (ring_slot r) as Hs. wp_step. apply setpi_spec; [done|done|done|].
  apply wp_mem. unfold kload8. rewrite (in_ram_sub pi PGSIZE) by (by apply page_ok_ram || (pipe_consts; lia)).
  wp_step. cbn beta. set (m' := st32 _ _ _) in *. destruct (pipe_vm_write m fl T K pi m') as [Hpv' Hs']; [done| |].
  { intros x Hx. unfold in_page in Hx. unfold m'. rewrite rd8_st32_ne by (pipe_consts; lia). done. }
  change (m_mem (m <| m_mem := m' |>)) with m'. rewrite Hc.
  apply (HQ (m <| m_mem := m' |>)); [done|done|done|]. by eexists.
Qed.

(** ** pipewrite *)

(** The bytes [bs] of the user from [addr] on, up to [k] of them or to the first
    address that cannot be read. *)
Definition user_bytes m M (addr k : Z) (bs : list Z) : Prop :=
  ureads m M addr bs ∧
  (Z.of_nat (length bs) = k ∨ Z.of_nat (length bs) < k ∧ uread m M (addr + Z.of_nat (length bs)) = None).

Lemma uread_byte m M va c : uread m M va = Some c → 0 <= c < 256.
Proof. unfold uread. destruct (_ =? 0); [done|]. intros [= <-]. apply rd8_range. Qed.

Lemma ureads_same m m' r M va bs : T !! r = Some M → 0 <= va → users_same m T m' → ureads m' M va bs → ureads m M va bs.
Proof. intros HT Hva Hs H i c Hi. rewrite <- (Hs r) by (done || lia). by apply H. Qed.

Lemma reader_gone_spec m pi ro wo q (Q : bool → pstate F → Prop) :
  pipe_vm m fl T K pi → pipe_at (m_mem m) pi ro wo q → ro ≠ 0 → killed_ (P p) = 0 → ProcLock p ∉ m_held m →
  Q false (here m) → wp (reader_gone pi p) Q (here m).
Proof.
  intros Hpv (r & Hr) Hro Hk Hl HQ. unfold reader_gone. wp_step. apply getpi_spec; [by eapply pv_page|done|done|].
  rewrite (rg_readopen _ _ _ _ _ _ Hr). destruct (Z.eqb_spec ro 0) as [|_]; [done|].
  wp_step. apply killed_spec; [done|]. wp_step. by rewrite Hk.
Qed.

Lemma pipewrite_loop_spec m pi ro wo q addr k M :
  pipe_vm m fl T K pi → pipe_at (m_mem m) pi ro wo q → ro ≠ 0 → killed_ (P p) = 0 → ProcLock p ∉ m_held m →
  T !! pagetable (P p) = Some M → 0 <= addr → 0 <= k → addr + k < 2 ^ 64 → Z.of_nat (length q) + k <= PIPESIZE →
  wp (pipewrite_loop cfg swtch pi addr k p) (λ x st', ∃ m' bs, st' = here m' ∧ x = Some (Z.of_nat (length bs)) ∧
    m_held m' = m_held m ∧ pipe_vm m' fl T K pi ∧ users_same m T m' ∧ user_bytes m M addr k bs ∧
    pipe_at (m_mem m') pi ro wo (q ++ bs)) (here m).
Proof.
  intros Hpv Hq Hro Hk Hl HT Ha Hk0 Hak Hroom. unfold pipewrite_loop.
  apply (wp_while (λ i st', ∃ m' bs, st' = here m' ∧ i = Z.of_nat (length bs) ∧ i <= k ∧
    m_held m' = m_held m ∧ pipe_vm m' fl T K pi ∧ users_same m T m' ∧ ureads m M addr bs ∧
    pipe_at (m_mem m') pi ro wo (q ++ bs)) (λ i _, k - i)).
  2: { exists m, []. rewrite app_nil_r. by split_and!. }
  2: { unfold PIPESIZE in *. lia. }
  intros i st' (m1 & bs & -> & -> & Hi & Hh & Hpv1 & Hs1 & Hbs & Hq1).
  destruct (Z.ltb_spec (Z.of_nat (length bs)) k) as [Hlt|Hge].
  2: { wp_step. exists m1, bs. split_and!; try done. split; [done|]. left. lia. }
  wp_step. apply (reader_gone_spec m1 pi ro wo (q ++ bs)); [done|done|done|done|by rewrite Hh|].
  pose proof (pv_page _ _ _ _ _ Hpv1) as Hp. destruct Hq1 as (r & Hr). wp_step. apply getpi_spec; [done|done|done|].
  wp_step. apply getpi_spec; [done|done|done|]. rewrite (rg_nwrite _ _ _ _ _ _ Hr), (rg_nread _ _ _ _ _ _ Hr).
  rewrite (ring_full _ _ _ _ _ _ Hr), length_app, bool_decide_eq_false_2 by lia.
  wp_step. apply wp_getp. wp_step. apply wp_mem. rewrite u64_small by lia.
  wp_use (copyin_spec m1 fl T K (pagetable (P p)) M (addr + Z.of_nat (length bs)) 1);
    [apply Hpv1|done|by apply (pv_low _ _ _ _ _ Hpv1 _ _ HT)|lia|done|].
  intros [x l] m2 (-> & Hl2 & [[Hx Hlen]|(Hx & Hlen & Hnone)]); cbn [fst snd] in *; subst x.
  - destruct l as [|c [|]]; [done| |simpl in Hlen; lia].
    apply (ureads_same m m1 (pagetable (P p))) in Hl2; [|done|lia|done].
    pose proof (Hl2 0%nat c eq_refl) as Hc. apply uread_byte in Hc.
    apply wp_if_f; [done|]. wp_step. apply (push_spec m1 pi ro wo (q ++ bs)); [done|by exists r| |done|].
    { rewrite length_app. lia. }
    intros m3 Hh3 Hpv3 Hs3 Hq3. wp_step. split; [|lia]. exists m3, (bs ++ [c]).
    rewrite length_app, app_assoc. split_and!; try done; try (simpl; lia); [by rewrite Hh3| |].
    + intros r' M' va HT' Hva. rewrite (Hs3 r'), (Hs1 r') by done. done.
    + by apply ureads_app.
  - apply wp_if_t; [done|]. wp_step. exists m1, bs. split_and!; try done; [|by exists r].
    split; [done|]. right. split; [done|]. destruct l; [|simpl in Hlen; lia].
    rewrite <- (Hs1 (pagetable (P p))) by (done || lia). by rewrite Z.add_0_r in Hnone.
Qed.

(** The end of both operations: wake the other side and let go of the pipe. *)
Lemma wake_and_release m pi c h (i : Z) :
  m_held m = PipeLock pi :: h → PipeLock pi ∉ h → (∀ q, q ∈ procs → ProcLock q ∉ h) →
  wp (wakeup cfg c ;; release (PipeLock pi) ;; mret i)
    (λ x st', x = i ∧ woken cfg (here (m <| m_held := h |>)) c procs st') (here m).
Proof using Hcur.
  intros Hh Hn Hl. wp_step. wp_use (wakeup_spec cfg c).
  { intros q Hq _. change (held (here m)) with (m_held m). rewrite Hh.
    intros [?|?]%elem_of_cons; [done|]. by apply (Hl q). }
  intros _ s' (P' & -> & HP'). wp_step.
  change (with_table (here m) P' ?t') with (pst st m P' n t' f).
  apply (wp_release _ _ _ _ _ _ _ h); [done|done|]. wp_step. split; [done|]. exists P'. split; [done|exact HP'].
Qed.

(** No lock of the pipe, of the processes or of the allocator is held. *)
Record pipe_unlocked (m : mach) (pi : Z) : Prop := {
  pu_pipe : PipeLock pi ∉ m_held m;
  pu_proc : ∀ q, q ∈ procs → ProcLock q ∉ m_held m;
  pu_alloc : alloc_unlocked m
}.

Lemma pipe_vm_held m h pi : pipe_vm m fl T K pi → pipe_vm (m <| m_held := h |>) fl T K pi.
Proof. intros [Hvm HK Hlow Hp HKp Hr]. split; try done. by apply vm_held_any. Qed.

(** A write that fits appends the user's bytes to the queue and wakes the
    readers. *)
Lemma pipewrite_spec m pi ro wo q addr k M :
  pipe_vm m fl T K pi → pipe_at (m_mem m) pi ro wo q → pipe_unlocked m pi → p ∈ procs →
  ro ≠ 0 → killed_ (P p) = 0 → T !! pagetable (P p) = Some M →
  0 <= addr → 0 <= k → addr + k < 2 ^ 64 → Z.of_nat (length q) + k <= PIPESIZE →
  wp (pipewrite cfg swtch pi addr k) (λ i st', ∃ m' bs, i = Z.of_nat (length bs) ∧
    woken cfg (here m') (pi + pi_nread) procs st' ∧ m_held m' = m_held m ∧
    pipe_vm m' fl T K pi ∧ users_same m T m' ∧ user_bytes m M addr k bs ∧
    pipe_at (m_mem m') pi ro wo (q ++ bs)) (here m).
Proof using Hcur.
  intros Hpv Hq [Hu1 Hu2 Hu3] Hin Hro Hk HT Ha Hk0 Hak Hroom. unfold pipewrite. wp_step. apply (myproc_here p); [done|].
  wp_step. apply wp_acquire; [done|]. wp_step. set (m0 := m <| m_held := PipeLock pi :: m_held m |>).
  wp_use (pipewrite_loop_spec m0 pi ro wo q addr k M); try done.
  { by apply pipe_vm_held. }
  { specialize (Hu2 p Hin). cbn. set_solver. }
  intros x st' (m1 & bs & -> & -> & Hh1 & Hpv1 & Hs1 & Hub & Hq1).
  eapply wp_mono; [apply (wake_and_release m1 pi _ (m_held m)); done|].
  intros i st' [-> Hw]. exists (m1 <| m_held := m_held m |>), bs. split_and!; try done. by apply pipe_vm_held.
Qed.
End at_state.

(** ** piperead *)

(** Copying out byte by byte needs a free page per shared page on the way: [k]
    bytes from [va] on can be copied with [N] free pages. *)
Definition shared_at M (va : Z) : bool :=
  if M !! (va / PGSIZE) is Some pte then truth (Z.land pte PTE_C) else false.

Definition affordable M (va k N : Z) : Prop :=
  k + va mod PGSIZE <= N * PGSIZE + (if shared_at M va then 0 else PGSIZE).

Lemma affordable_start M va k N : k + PGSIZE <= N * PGSIZE → affordable M va k N.
Proof. intros H. unfold affordable. pose proof (Z.mod_pos_bound va PGSIZE ltac:(done)). destruct (shared_at M va); lia. Qed.

Lemma affordable_first M va k N : affordable M va k N → 0 < k → shared_at M va = true → 0 < N.
Proof.
  unfold affordable. intros H Hk Hs. rewrite Hs in H. pose proof (Z.mod_pos_bound va PGSIZE ltac:(done)).
  unfold PGSIZE in *. lia.
Qed.

Lemma succ_page va : 0 <= va →
  ((va + 1) / PGSIZE = va / PGSIZE ∧ (va + 1) mod PGSIZE = va mod PGSIZE + 1) ∨
  (va mod PGSIZE = PGSIZE - 1 ∧ (va + 1) mod PGSIZE = 0).
Proof.
  intros Hva. pose proof (Z.div_mod va PGSIZE ltac:(done)) as Hd. pose proof (Z.mod_pos_bound va PGSIZE ltac:(done)) as Hm.
  destruct (decide (va mod PGSIZE = PGSIZE - 1)) as [E|E]; [right|left]; (split; [|symmetry]).
  - done.
  - apply (Z.mod_unique _ _ (va / PGSIZE + 1)); lia.
  - symmetry. apply (Z.div_unique _ _ _ (va mod PGSIZE + 1)); lia.
  - apply (Z.mod_unique _ _ (va / PGSIZE)); lia.
Qed.

Lemma affordable_next M va k N N' pte' :
  affordable M va k N → 0 <= va → truth (Z.land pte' PTE_C) = false →
  N <= (if shared_at M va then 1 else 0) + N' → affordable (<[va / PGSIZE := pte']> M) (va + 1) (k - 1) N'.
Proof.
  unfold affordable. intros H Hva HC HN. destruct (succ_page va Hva) as [[Hd Hm]|[Hm Hm']].
  - rewrite Hm. unfold shared_at at 1. rewrite Hd, lookup_insert_eq, HC. destruct (shared_at M va); unfold PGSIZE in *; lia.
  - rewrite Hm'. destruct (shared_at M va), (shared_at _ (va + 1)); unfold PGSIZE in *; lia.
Qed.

(** The state of the copying loop after [j] bytes. *)
Record copying (m : mach) T K (pi ro wo : Z) q (addr k r : Z) M (j : nat) m' fl' M' : Prop := {
  cy_held : m_held m' = m_held m;
  cy_vm : pipe_vm m' fl' (<[r := M']> T) K pi;
  cy_others : others_same m T r m';
  cy_view : ∀ va, 0 <= va → uread m' M' va = overwrite addr (take j q) (uread m M) va;
  cy_entries : ∀ vpn pte, M' !! vpn = Some pte →
    M !! vpn = Some pte ∨ truth (Z.land pte PTE_W) = true ∧ truth (Z.land pte PTE_C) = false;
  cy_pages : affordable M' (addr + Z.of_nat j) (k - Z.of_nat j) (Z.of_nat (length fl'))
}.

(** A byte taken from the queue reaches the user. *)
Lemma copying_step m T K pi ro wo q addr k r M j m1 fl1 M1 m2 c :
  copying m T K pi ro wo q addr k r M j m1 fl1 M1 → pipe_vm m2 fl1 (<[r := M1]> T) K pi → m_held m2 = m_held m1 →
  users_same m1 (<[r := M1]> T) m2 → pipe_at (m_mem m2) pi ro wo (drop (S j) q) → q !! j = Some c → 0 <= c < 256 →
  T !! r = Some M → 0 <= addr → Z.of_nat j < k → addr + k < 2 ^ 64 → alloc_unlocked m →
  (∀ va pte, addr <= va < addr + k → M !! (va / PGSIZE) = Some pte → truth (Z.land pte PTE_U) = true →
     truth (Z.land pte PTE_W) = true ∨ truth (Z.land pte PTE_C) = true) →
  wp (copyout r (addr + Z.of_nat j) [c]) (λ x m',
    (x = -1 ∧ m' = m2 ∧ uread m M (addr + Z.of_nat j) = None) ∨
    (x = 0 ∧ pipe_at (m_mem m') pi ro wo (drop (S j) q) ∧
     ∃ fl' M', copying m T K pi ro wo q addr k r M (S j) m' fl' M')) m2.
Proof.
  intros [Hh Hpv1 Hoth Hview Hent Hpg] Hpv Hh2 Hus Hq Hc Hb HT Ha Hjk Hak Hal Hwc.
  pose proof (lookup_insert_eq T r M1) as HT1. pose proof (lookup_lt_Some _ _ _ Hc) as Hjq.
  assert (∀ va, 0 <= va → uread m2 M1 va = overwrite addr (take j q) (uread m M) va) as Hview2.
  { intros va Hva. by rewrite (Hus r M1), Hview. }
  wp_use (copyout_byte m2 fl1 (<[r := M1]> T) K r M1 (addr + Z.of_nat j) c).
  - apply Hpv.
  - apply Hpv.
  - unfold alloc_unlocked. by rewrite Hh2, Hh.
  - apply Hpv.
  - done.
  - lia.
  - done.
  - intros pte HM1 HU. split.
    + destruct (Hent _ _ HM1) as [HM|[? _]]; [|by left]. apply (Hwc (addr + Z.of_nat j)); [lia|done|done].
    + intros HC ->. pose proof (affordable_first _ _ _ _ Hpg ltac:(lia)) as Hf. simpl in Hf.
      unfold shared_at in Hf. rewrite HM1 in Hf. specialize (Hf HC). lia.
  - assert (uread m2 M1 (addr + Z.of_nat j) = uread m M (addr + Z.of_nat j)) as Hsame.
    { rewrite Hview2 by lia. unfold overwrite. rewrite decide_False; [done|]. rewrite length_take. lia. }
    intros x m3 [(-> & -> & Hn)|(-> & _ & Hh3 & Ho3 & Hk3 & fl3 & pte & pte' & Hvm3 & Hlow3 & HM1 & Ho & HW & HC & Hfl & Hv3)].
    { left. by rewrite <- Hsame. }
    rewrite insert_insert_eq in Hvm3, Hlow3.
    right. split; [done|]. split.
    { apply (pipe_same (m_mem m2)); [|done]. intros y Hy. by apply (Hk3 pi); [eapply pv_page|eapply pv_kernel|]. }
    exists fl3, (<[(addr + Z.of_nat j) / PGSIZE := pte']> M1). split.
    + by rewrite Hh3, Hh2.
    + split; [done|by eapply pv_kpos|done|by eapply pv_page|by eapply pv_kernel|].
      rewrite <- (insert_insert_eq T r _ M1).
      eapply (kernel_unmapped m3 fl3 _ K r M1 _ pte); try done; [|by eapply pv_kernel|by eapply pv_unmapped].
      by rewrite insert_insert_eq.
    + intros r2 M2 va Hr2 HT2 Hva. assert (<[r := M1]> T !! r2 = Some M2) by (by rewrite lookup_insert_ne).
      rewrite (Ho3 r2 M2), (Hus r2 M2) by done. by apply (Hoth r2).
    + intros va Hva. rewrite Hv3 by done. rewrite (take_S_r _ _ c) by done. rewrite <- overwrite_app, length_take_le by lia.
      apply overwrite_ext. by apply Hview2.
    + intros vpn pte2 [[_ <-]|[_ HM2]]%lookup_insert_Some; [by right|by apply Hent].
    + replace (addr + Z.of_nat (S j)) with (addr + Z.of_nat j + 1) by lia.
      replace (k - Z.of_nat (S j)) with (k - Z.of_nat j - 1) by lia.
      eapply affordable_next; [exact Hpg|lia|done|]. unfold shared_at. rewrite HM1. revert Hfl. destruct (truth (Z.land pte PTE_C)); lia.
Qed.

Section at_state.
Context (p : Z) (st : pstate F) (P : Z → proc) (n t : Z) (f : F) (fl : list Z) (T : gmap Z (gmap Z Z)) (K : Z → Z).
Context (Hcur : ps_cur st = Some p).
Context (pi ro wo addr k : Z) (q : list Z) (M : gmap Z Z).
Abbreviation here m := (pst st m P n t f).
Abbreviation r := (pagetable (P p)).

(** The user can be given [k] bytes at [addr]: what is mapped there can be
    written or is shared, and there are enough free pages to unshare it. *)
Record can_copy : Prop := {
  cc_addr : 0 <= addr;
  cc_len : 0 <= k;
  cc_fits : addr + k < 2 ^ 64;
  cc_write : ∀ va pte, addr <= va < addr + k → M !! (va / PGSIZE) = Some pte → truth (Z.land pte PTE_U) = true →
     truth (Z.land pte PTE_W) = true ∨ truth (Z.land pte PTE_C) = true;
  cc_pages : k + PGSIZE <= Z.of_nat (length fl) * PGSIZE
}.

(** The result of reading: as many bytes as were asked for and are there; or
    the copy failed at an address that is not mapped, and the byte for it is
    gone. *)
Definition read_result (m : mach) (j : nat) (m' : mach) : Prop :=
  (Z.of_nat j = Z.min k (Z.of_nat (length q)) ∧ pipe_at (m_mem m') pi ro wo (drop j q)) ∨
  (Z.of_nat j < Z.min k (Z.of_nat (length q)) ∧ uread m M (addr + Z.of_nat j) = None ∧
   pipe_at (m_mem m') pi ro wo (drop (S j) q)).

Lemma ring_bytes m' a q' c (j : nat) : pipe_at m' a ro wo q' → q' !! j = Some c → 0 <= c < 256.
Proof. intros (x & Hx) Hj. rewrite <- (rg_data _ _ _ _ _ _ Hx _ _ Hj). apply rd8_range. Qed.

Lemma piperead_copy_spec m :
  pipe_vm m fl T K pi → pipe_at (m_mem m) pi ro wo q → alloc_unlocked m → T !! r = Some M → can_copy →
  wp (piperead_copy pi addr k p) (λ i st', ∃ j m' fl' M', i = Z.of_nat j ∧ st' = here m' ∧
    m_held m' = m_held m ∧ pipe_vm m' fl' (<[r := M']> T) K pi ∧ others_same m T r m' ∧
    (∀ va, 0 <= va → uread m' M' va = overwrite addr (take j q) (uread m M) va) ∧ read_result m j m') (here m).
Proof using Hcur.
  intros Hpv Hq Hal HT [Ha Hk Hak Hwc Hpg]. unfold piperead_copy.
  apply (wp_while (λ i st', ∃ j m' fl' M', i = Z.of_nat j ∧ st' = here m' ∧ i <= k ∧ (j <= length q)%nat ∧
    copying m T K pi ro wo q addr k r M j m' fl' M' ∧ pipe_at (m_mem m') pi ro wo (drop j q)) (λ i _, k - i)).
  2: { exists 0%nat, m, fl, M. split_and!; try done; [lia|].
       split; rewrite ?insert_id by done; try done; [by intros; rewrite take_0, overwrite_nil|by left|].
       rewrite Z.sub_0_r. by apply affordable_start. }
  2: { lia. }
  intros i st' (j & m1 & fl1 & M1 & -> & -> & Hjk & Hjq & Hcy & Hq1). pose proof Hcy as [Hh Hpv1 Hoth Hview Hent Hpg1].
  pose proof (pv_page _ _ _ _ _ Hpv1) as Hp. pose proof Hq1 as (x & Hr).
  destruct (Z.ltb_spec (Z.of_nat j) k) as [Hlt|Hge].
  2: { wp_step. exists j, m1, fl1, M1. split_and!; try done. left. split; [lia|done]. }
  wp_step. apply getpi_spec; [done|done|done|]. wp_step. apply getpi_spec; [done|done|done|].
  rewrite (rg_nwrite _ _ _ _ _ _ Hr), (rg_nread _ _ _ _ _ _ Hr), (ring_empty _ _ _ _ _ _ Hr).
  case_bool_decide as E.
  { wp_step. exists j, m1, fl1, M1. split_and!; try done. left. split; [|done].
    apply (f_equal length) in E. rewrite length_drop in E. simpl in E. lia. }
  destruct (q !! j) as [c|] eqn:Ec; [|by apply lookup_ge_None in Ec; rewrite drop_ge in E].
  pose proof (ring_bytes _ _ _ _ _ Hq Ec) as Hc.
  rewrite (drop_S _ c) in Hq1 by done. wp_step. eapply (pop_spec p st P n t f fl1); [done|done|done|].
  intros m2 Hh2 Hpv2 Hus2 Hq2. wp_step. apply wp_getp. wp_step. apply wp_mem. rewrite u64_small by lia.
  wp_use (copying_step m T K pi ro wo q addr k r M j m1 fl1 M1 m2 c); try done.
  intros y m3 [(-> & -> & Hn)|(-> & Hq3 & fl3 & M3 & Hcy3)].
  - apply wp_if_t; [done|]. wp_step. exists j, m2, fl1, M1. split_and!; try done.
    + by rewrite Hh2.
    + intros r2 M2 va Hr2 HT2 Hva. rewrite (Hus2 r2 M2) by (done || by rewrite lookup_insert_ne). by apply (Hoth r2).
    + intros va Hva. rewrite (Hus2 r M1) by (done || apply lookup_insert_eq). by apply Hview.
    + right. split_and!; [|done|done]. apply lookup_lt_Some in Ec. lia.
  - apply wp_if_f; [done|]. wp_step. split; [|lia]. exists (S j), m3, fl3, M3. apply lookup_lt_Some in Ec.
    split_and!; try done; lia.
Qed.

(** A read takes bytes from the front of the queue, in order, gives them to the
    user and wakes the writers. *)
Lemma piperead_spec m :
  pipe_vm m fl T K pi → pipe_at (m_mem m) pi ro wo q → pipe_unlocked m pi → T !! r = Some M → can_copy →
  q ≠ [] ∨ wo = 0 →
  wp (piperead cfg swtch pi addr k) (λ i st', ∃ j m' fl' M', i = Z.of_nat j ∧
    woken cfg (here m') (pi + pi_nwrite) procs st' ∧ m_held m' = m_held m ∧
    pipe_vm m' fl' (<[r := M']> T) K pi ∧ others_same m T r m' ∧
    (∀ va, 0 <= va → uread m' M' va = overwrite addr (take j q) (uread m M) va) ∧ read_result m j m') (here m).
Proof using Hcur.
  intros Hpv Hq [Hu1 Hu2 Hu3] HT Hcc Hne. unfold piperead. wp_step. apply (myproc_here p); [done|].
  wp_step. apply wp_acquire; [done|]. set (m0 := m <| m_held := PipeLock pi :: m_held m |>).
  pose proof (pv_page _ _ _ _ _ Hpv) as Hp. pose proof Hq as (x & Hr).
  wp_step. apply (wp_while_n 1); [done|]. cbn [kloopn]. wp_step.
  wp_step. apply getpi_spec; [done|done|done|]. wp_step. apply getpi_spec; [done|done|done|].
  wp_step. apply getpi_spec; [done|done|done|].
  change (m_mem m0) with (m_mem m).
  rewrite (rg_nwrite _ _ _ _ _ _ Hr), (rg_nread _ _ _ _ _ _ Hr), (rg_writeopen _ _ _ _ _ _ Hr), (ring_empty _ _ _ _ _ _ Hr).
  assert (bool_decide (q = []) && truth wo = false) as ->.
  { destruct Hne as [Hne| ->]; [by rewrite bool_decide_eq_false_2|by rewrite andb_false_r]. }
  wp_step. wp_step. cbn [negb]. wp_step.
  wp_use (piperead_copy_spec m0); [by apply pipe_vm_held|done| |done|done|].
  { destruct Hu3 as [Hu3 Hu4]. split; [|intros i]; intros [?|?]%elem_of_cons; try done. by apply (Hu4 i). }
  intros i st' (j & m1 & fl1 & M1 & -> & -> & Hh1 & Hpv1 & Ho1 & Hv1 & Hres).
  eapply wp_mono; [apply (wake_and_release p st P n t f Hcur m1 pi _ (m_held m)); done|].
  intros i st' [-> Hw]. exists j, (m1 <| m_held := m_held m |>), fl1, M1. split_and!; try done. by apply pipe_vm_held.
Qed.
End at_state.
End pipeops.
