(* ===== verification/Boot.v ===== *)
(** A small machine: a kernel image that leaves 64 pages to the allocator, the
    state after [kinit], a user address space on it and a first process.  The
    theorems of the development are instantiated at these states. *)
From S2P Require Import Prelude CString Spinlock Riscv Kalloc Vm PageTable Uvm UvmOps UvmGrow.
From S2P Require Import UserCopy CowView Proc ProcState ProcMem Sched ProcOps ProcNew Fork ProcGrow.

Definition tiny : KernelImage.
Proof.
  refine {| kend := PHYSTOP - 64 * PGSIZE; ketext := KERNBASE + 2 * PGSIZE;
            ktrampoline := KERNBASE + PGSIZE |}; done.
Defined.
#[local] Existing Instance tiny.

(** Memory of zeroes, nothing allocated, no lock held. *)
Definition blank : mach := mkMach (λ _, 0) 0 (λ _, 0) [].

Definition no_refs : Z → Z := λ _, 0.

Lemma vm_nothing s l : kmem_inv s l → (∀ p, page_ok p → p ∈ l) → vm s l ∅ no_refs.
Proof.
  intros Hk Hall. split; try done.
  intros p Hp _. unfold no_refs, refs. rewrite map_to_list_empty. by apply (ki_free _ _ Hk), Hall.
Qed.

Lemma boot_vm : ∃ s l, vm s l ∅ no_refs ∧ m_held s = [] ∧ (64 <= length l)%nat.
Proof.
  pose proof (kinit_spec blank) as H.
  destruct (proj1 (wp_returns _ _ _) (H ltac:(split; [|intros ?]; apply not_elem_of_nil) ltac:(done)))
    as (? & s & _ & Hh & l & Hk & Hl).
  exists s, l. split_and!; [apply vm_nothing; [done|intros p; apply Hl]|done|].
  transitivity (length ((λ i, kend + i * PGSIZE) <$> seqZ 0 64)); [done|].
  apply submseteq_length, NoDup_submseteq.
  - apply NoDup_fmap_2; [|apply NoDup_seqZ]. intros i j. unfold PGSIZE. lia.
  - intros p (i & -> & Hi%elem_of_seqZ)%list_elem_of_fmap. apply Hl. split; [|cbn; consts; lia].
    by rewrite Z.mod_add.
Qed.


(** A page table with [n] pages of user memory, all zero. *)
Lemma boot_user (n : nat) xperm :
  (n <= 8)%nat → 0 <= xperm < 1024 →
  ∃ s fl r M, vm s fl {[r := M]} no_refs ∧ m_held s = [] ∧ (30 <= length fl)%nat ∧
    (∀ i, 0 <= i < Z.of_nat n → ∃ p, M !! i = Some (mkpte p (Z.lor (Z.lor PTE_R PTE_U) xperm)) ∧ page_ok p ∧
       ∀ x, in_page p x → rd8 (m_mem s) x = 0) ∧
    (∀ i, ¬ (0 <= i < Z.of_nat n) → M !! i = None).
Proof.
  intros Hn Hx. destruct boot_vm as (s & fl & Hvm & Hh & Hl).
  assert (∀ s', m_held s' = [] → alloc_unlocked s') as Hun
    by (intros s' E; split; [|intros i]; rewrite E; apply not_elem_of_nil).
  destruct (proj1 (wp_returns _ _ _) (uvmcreate_vm s fl ∅ no_refs Hvm ltac:(done) (Hun _ Hh)))
    as (r & s1 & _ & [(-> & _)|(fl1 & -> & Hr & _ & Hvm1 & Hg1)]); [simpl in Hl; lia|]. simpl in Hl.
  assert (MAXVA = 2 ^ 38) as HMX by done.
  assert (∀ i, 0 <= i < 0 + Z.of_nat n → owned i = true ∧ (∅ : gmap Z Z) !! i = None) as Hfree.
  { intros i Hi. split; [|done]. unfold owned. change (TRAPFRAME / PGSIZE) with 67108862. lia. }
  destruct (proj1 (wp_returns _ _ _) (uvmalloc_vm s1 fl1 _ no_refs r ∅ 0 (Z.of_nat n * PGSIZE) xperm 0 n Hvm1
      ltac:(done) (Hun s1 ltac:(by rewrite (proj1 Hg1))) (lookup_insert_eq _ _ _) ltac:(unfold PGSIZE; lia)
      ltac:(unfold PGSIZE; lia) Hx ltac:(done) ltac:(lia) ltac:(unfold PGSIZE; lia) Hfree))
    as (x & s2 & _ & [(_ & fl2 & M & Hvm2 & [Hg2 Hg2'] & Hgr & Hl2)|(_ & Hl2 & _)]); [|lia].
  rewrite insert_insert_eq in Hvm2. exists s2, fl2, r, M. split_and!.
  - exact Hvm2.
  - rewrite (proj1 Hgr). by rewrite (proj1 Hg1).
  - lia.
  - intros i Hi. destruct (Hg2' i ltac:(lia)) as (p & HM & Hp & _ & _ & Hz). by exists p.
  - intros i Hi. rewrite Hg2 by lia. done.
Qed.

(** Its pages are mapped for the user. *)
Lemma boot_mapped s fl r M n xperm :
  vm s fl {[r := M]} no_refs → (n <= 8)%nat → 0 <= xperm < 1024 →
  (∀ i, 0 <= i < Z.of_nat n → ∃ p, M !! i = Some (mkpte p (Z.lor (Z.lor PTE_R PTE_U) xperm)) ∧ page_ok p ∧
     ∀ x, in_page p x → rd8 (m_mem s) x = 0) →
  (∀ i, ¬ (0 <= i < Z.of_nat n) → M !! i = None) →
  mapped_run n M ∧ user_low M ∧
  ∀ i p, 0 <= i < Z.of_nat n → M !! i = Some p →
    truth (Z.land p PTE_U) = true ∧ truth (Z.land p PTE_W) = Z.testbit xperm 2 ∧
    truth (Z.land p PTE_C) = Z.testbit xperm 5.
Proof.
  intros Hvm Hn Hx Hin Hout.
  assert (0 <= Z.lor (Z.lor PTE_R PTE_U) xperm < 1024) as Hpe by (repeat apply lor_flags_range; done).
  assert (∀ i, 0 <= i < Z.of_nat n → owned i = true) as Hown.
  { intros i Hi. unfold owned. change (TRAPFRAME / PGSIZE) with 67108862. lia. }
  split_and!.
  - intros i Hi. split; [by apply Hown|]. destruct (Hin i Hi) as (p & HM & Hp & _).
    pose proof (page_ok_range p Hp). eexists. split; [done|].
    destruct (mkpte_ok p (Z.lor (Z.lor PTE_R PTE_U) xperm)) as (_ & _ & ->); [lia|done|]. intros E.
    apply (f_equal (λ z, Z.testbit z 1)) in E. by rewrite !Z.lor_spec in E.
  - intros i pte HM _. destruct (decide (0 <= i < Z.of_nat n)) as [Hi|Hi]; [by apply Hown|]. by rewrite Hout in HM.
  - intros i p Hi HM. destruct (Hin i Hi) as (q & HMq & Hq & _). simplify_eq. pose proof (page_ok_range q Hq).
    rewrite mkpte_make. change PTE_U with (Z.shiftl 1 4) at 2. change PTE_W with (Z.shiftl 1 2).
    change PTE_C with (Z.shiftl 1 5). rewrite !truth_flag_make by (lia || by apply lor_flags_range).
    rewrite !Z.lor_spec. cbn. by rewrite !orb_false_r.
Qed.

(** A second, empty address space beside it. *)
Lemma boot_two (n : nat) xperm :
  (n <= 8)%nat → 0 <= xperm < 1024 →
  ∃ s fl r M r2, let T := <[r2 := ∅]> {[r := M]} in
    vm s fl T no_refs ∧ m_held s = [] ∧ (29 <= length fl)%nat ∧ r ≠ r2 ∧ all_low T ∧
    mapped_run n M ∧ (∀ i, ¬ (0 <= i < Z.of_nat n) → M !! i = None) ∧
    ∀ i p, 0 <= i < Z.of_nat n → M !! i = Some p →
      truth (Z.land p PTE_U) = true ∧ truth (Z.land p PTE_W) = Z.testbit xperm 2 ∧
      truth (Z.land p PTE_C) = Z.testbit xperm 5.
Proof.
  intros Hn Hx. destruct (boot_user n xperm Hn Hx) as (s & fl & r & M & Hvm & Hh & Hl & Hin & Hout).
  destruct (boot_mapped s fl r M n xperm Hvm Hn Hx Hin Hout) as (Hmap & Hlow & Hbits).
  destruct (proj1 (wp_returns _ _ _) (uvmcreate_vm s fl _ no_refs Hvm ltac:(done)
    ltac:(split; [|intros i]; rewrite Hh; apply not_elem_of_nil)))
    as (r2 & s1 & _ & [(-> & _)|(fl1 & -> & Hr & HTr & Hvm1 & Hg1)]); [simpl in Hl; lia|]. simpl in Hl.
  exists s1, fl1, r, M, r2. cbn zeta. split_and!; try done; [by rewrite (proj1 Hg1)|lia| |].
  - intros ->. by rewrite lookup_singleton_eq in HTr.
  - intros r' N [[_ <-]|[_ [_ <-]%lookup_singleton_Some]]%lookup_insert_Some; [|done]. by intros ? ?.
Qed.

(** ** A first process *)

Definition blank_proc : proc :=
  mkProc UNUSED 0 0 0 0 0 0 0 0 0 0 0 0 0 0 0 0 None 0 0 0 0 (mkContext 0 0) (replicate 16 0) 0 []
    0 0 0 0 0 0 0 0 0 0 0.

Definition blank_csr : csr := mkCsr 0 0 0 0 0 0 0 0.

(** Process 0 runs; the file layer holds nothing. *)
Definition boot_state (m : mach) (P : Z → proc) : pstate () :=
  mkPstate m P (Some 0) None 1 0 0 0 1 false blank_csr ().

Record booted (m : mach) (P : Z → proc) (fl : list Z) T K M (n : nat) perm : Prop := {
  bt_vm : vm m fl T K;
  bt_kpos : kpos K;
  bt_held : m_held m = [];
  bt_low : all_low T;
  bt_clean : ∀ q, slot_clean (P q);
  bt_run : running m T (P 0) M n;
  bt_frames : page_ok (trapcopy (P 0)) ∧ trapframe (P 0) ≠ trapcopy (P 0);
  bt_sz : sz (P 0) = Z.of_nat n * PGSIZE;
  bt_free : (30 <= length fl)%nat;
  bt_state : state (P 0) = RUNNING ∧ ∀ q, q ≠ 0 → P q = blank_proc;
  bt_pages : ∀ i, 0 <= i < Z.of_nat n → ∃ p, M !! i = Some (mkpte p perm) ∧ page_ok p ∧
    ∀ x, in_page p x → rd8 (m_mem m) x = 0
}.

Lemma kernel_page_grows m fl T K m' fl' T' q :
  vm m fl T K → vm m' fl' T' K → kernel_page m T q → grows m T m' T' → refs T' q = 0 → kernel_page m' T' q.
Proof.
  intros Hvm Hvm' [Hok Hnt Hr Hc] [_ Hg] Hr'. destruct (Hg q Hok Hc Hnt) as (Hnt' & Hle & _). split; try done. lia.
Qed.

Lemma unlocked s : m_held s = [] → alloc_unlocked s.
Proof. intros E. split; [|intros i]; rewrite E; apply not_elem_of_nil. Qed.

(** What [allocproc] makes of the first slot. *)
Lemma boot_alloc :
  ∃ m P fl tf tc pt, let T := {[pt := bare_map tf]} in
    vm m fl T (frames no_refs tf tc) ∧ m_held m = [] ∧ (57 <= length fl)%nat ∧ kernel_page m T tf ∧
    page_ok tc ∧ tf ≠ tc ∧ P 0 = new_proc RR 0 1 0 tf tc pt blank_proc ∧ ∀ q, q ≠ 0 → P q = blank_proc.
Proof.
  destruct boot_vm as (m0 & fl0 & Hvm0 & Hh0 & Hl0).
  pose proof (allocproc_spec (F:=()) RR 0 (boot_state m0 (λ _, blank_proc)) m0 (λ _, blank_proc) 1 0 ()
    fl0 ∅ no_refs Hvm0 ltac:(done) (unlocked _ Hh0) ltac:(intros ?; rewrite Hh0; apply not_elem_of_nil)
    ltac:(rewrite Hh0; apply not_elem_of_nil) ltac:(done)) as Halloc.
  apply wp_returns in Halloc as (r & st & _ & Hr). destruct r as [p|].
  2: { destruct Hr as [[_ Hr]|(p & m1 & fl1 & P1 & _ & _ & [_ _ Hlen _ _])]; [|lia].
    destruct (Hr 0); [change procs with (0 :: seqZ 1 63); constructor|done]. }
  destruct Hr as ((l1 & l2 & Hprocs & _ & Hl1) & m1 & fl1 & P1 & tf & tc & pt & _ & Had & HP1 & Ho1).
  change procs with (0 :: seqZ 1 63) in Hprocs.
  assert (p = 0) as ->.
  { destruct l1 as [|q l1]; [by injection Hprocs as <- _|]. by destruct (Hl1 q ltac:(constructor)). }
  pose proof (alloc_kernel_page m0 fl0 ∅ no_refs tf tc pt m1 fl1 tf Hvm0 ltac:(done) Had (or_introl eq_refl)) as Hk.
  destruct Had as [Hvm1 Hg1 Hlen1 [Hpt0 HTn] [Htf Htft] [Htc _] (_ & _ & Hne)].
  exists m1, P1, fl1, tf, tc, pt. cbn zeta. split_and!; try done; [by rewrite (proj1 Hg1)|lia].
Qed.

Lemma boot_proc (n : nat) xperm :
  (n <= 4)%nat → 0 <= xperm < 1024 →
  ∃ m P fl T K M, booted m P fl T K M n (Z.lor (Z.lor PTE_R PTE_U) xperm).
Proof.
  intros Hn Hx. set (perm := Z.lor _ xperm).
  destruct boot_alloc as (m1 & P1 & fl1 & tf & tc & pt & Hvm1 & Hh1 & Hl1 & Hktf & Htc & Hne & HP0 & HPq).
  assert (0 <= perm < 1024) as Hpe by (repeat apply lor_flags_range; done).
  assert (Z.testbit perm 1 = true) as Hpr by (unfold perm; by rewrite !Z.lor_spec).
  pose proof (page_ok_range tf (kp_ok _ _ _ Hktf)) as Htfr.
  assert (kpos (frames no_refs tf tc)) as HK1 by (by do 2 apply kpos_kadd).
  assert (∀ i, 0 <= i < 0 + Z.of_nat n → owned i = true ∧ bare_map tf !! i = None) as Hfree.
  { intros i Hi. assert (owned i = true) as Ho by (unfold owned; change (TRAPFRAME / PGSIZE) with 67108862; lia).
    split; [done|by apply bare_lookup]. }
  assert (MAXVA = 2 ^ 38) as HMX by done.
  pose proof (uvmalloc_vm m1 fl1 _ (frames no_refs tf tc) pt (bare_map tf) 0 (Z.of_nat n * PGSIZE) xperm 0 n Hvm1
      HK1 (unlocked m1 Hh1) (lookup_singleton_eq _ _) ltac:(unfold PGSIZE; lia)
      ltac:(unfold PGSIZE; lia) Hx ltac:(done) ltac:(lia) ltac:(unfold PGSIZE; lia) Hfree) as Hgrow.
  apply wp_returns in Hgrow as (x & m2 & _ & [(_ & fl2 & M & Hvm2 & Hgr & Hg2 & Hl2)|(_ & Hl2 & _)]); [|lia].
  rewrite insert_singleton_eq in Hvm2, Hg2. fold perm in Hgr.
  pose proof (grown_more m1 _ m2 M 0 n perm tf (bare_proc_map tf) Hgr Hpr Hpe ltac:(intros i Hi; apply Hfree; lia)) as Hpm.
  cbn [Nat.add] in Hpm.
  exists m2, (λ q, if q =? 0 then P1 0 <| state := RUNNING |> <| sz := Z.of_nat n * PGSIZE |> else P1 q),
    fl2, {[pt := M]}, (frames no_refs tf tc), M.
  split; try done; rewrite ?Z.eqb_refl.
  - by rewrite (proj1 Hg2).
  - intros r N [_ <-]%lookup_singleton_Some. apply (proc_map_low M tf n); [lia|done].
  - intros q. destruct (Z.eqb_spec q 0) as [->|Hq]; [done|]. by rewrite HPq.
  - rewrite HP0. split; cbn; try done.
    + apply lookup_singleton_eq.
    + apply (kernel_page_grows m1 fl1 {[pt := bare_map tf]} (frames no_refs tf tc) m2 fl2); try done.
      pose proof (grown_refs m1 (bare_map tf) m2 M 0 n perm tf {[pt := bare_map tf]} pt Hgr (lookup_singleton_eq _ _)
        (kp_refs _ _ _ Hktf) Hpe) as Hz. rewrite insert_singleton_eq in Hz. apply Hz.
      pose proof (kp_used _ _ _ Hktf). lia.
    + unfold PGSIZE. lia.
    + apply PGROUNDUP_id; [unfold PGSIZE; lia|by apply Z.mod_mul].
  - by rewrite HP0.
  - lia.
  - split; [done|]. intros q Hq. apply Z.eqb_neq in Hq as E. rewrite E. by apply HPq.
  - intros i Hi. destruct (proj2 Hgr i ltac:(lia)) as (p & HM & Hp & _ & _ & Hz). by exists p.
Qed.
