(* ===== verification/SchedTheorems.v ===== *)
(** The scheduling policies of [scheduler]: what one round of each does, and the
    invariants of the process table in every reachable state. *)
From S2P Require Import Prelude CString Spinlock Riscv Kalloc Vm Proc Trap Sched Inv InvTable Boot.

(** * The policies *)

(** The key that a policy minimises and its bookkeeping at dispatch. *)
Definition sched_key (cfg : sched_cfg) : proc → key :=
  match cfg with FCFS => fcfs_key | PBS => pbs_key | _ => mlfq_key end.

Definition sched_mark (cfg : sched_cfg) (now : Z) (x : proc) : proc :=
  match cfg with
  | PBS => x <| tickls := i32 now |> <| nscheduled := nscheduled x + 1 |>
  | MLFQ => x <| ticksused := 0 |> <| waittime := 0 |>
  | _ => x
  end.

Definition ranked (cfg : sched_cfg) : bool :=
  match cfg with FCFS | PBS | MLFQ => true | _ => false end.

(** The state after [intr_on], with which every iteration begins. *)
Definition interruptible {F} (s : pstate F) : pstate F :=
  s <| ps_csr := ps_csr s <| sstatus := Z.lor (sstatus (ps_csr s)) SSTATUS_SIE |> |>.

Lemma round_pass `{KI : !KernelImage} {F} cfg swtch (s : pstate F) :
  scheduler_round cfg swtch s = sched_pass cfg swtch (interruptible s).
Proof. reflexivity. Qed.

(** A context switch that records which process runs and puts it back in the
    run queue, as a time slice that ends with [yield] does. *)
Definition slice : option Z → option Z → kM (pstate (list Z)) () := λ _ to,
  match to with
  | Some p => modify (λ s, s <| ps_fs := ps_fs s ++ [p] |>
      <| ps_proc := λ j, if j =? p then ps_proc s j <| state := RUNNABLE |> else ps_proc s j |>)
  | None => mret ()
  end.

Lemma pick_first_least better k P :
  (∀ b p, better b p = key_lt (k p) (k b)) →
  match pick better P procs None with
  | Some b => first_least k P procs b
  | None => ∀ p, p ∈ procs → state (P p) ≠ RUNNABLE
  end.
Proof. intros Hb. apply (pick_spec better k P [] procs None Hb). set_solver. Qed.

Section policies.
Context `{KI : !KernelImage} {F : Type} (swtch : option Z → option Z → kM (pstate F) ()).

(** C25: Under FCFS, PBS and MLFQ a round of the scheduler runs the first
    runnable process with the least key (creation time; dynamic priority,
    number of runs, latest creation; queue and time of entry), with all other
    process locks released, and does nothing when no process is runnable. *)
Theorem scheduler_picks_least cfg s :
  ranked cfg = true → held s = [] →
  (∃ b, first_least (sched_key cfg) (ps_proc s) procs b ∧
     scheduler_round cfg swtch s = switch_back swtch b (dispatched (sched_mark cfg (ps_ticks s)) b (interruptible s))) ∨
  ((∀ p, p ∈ procs → state (ps_proc s p) ≠ RUNNABLE) ∧ scheduler_round cfg swtch s = Ok () (interruptible s)).
Proof.
  intros Hc Hh. destruct cfg; try done; rewrite round_pass, ?fcfs_round, ?pbs_round, ?mlfq_round by done.
  - pose proof (pick_first_least _ _ (ps_proc s) fcfs_better_key) as H.
    destruct (pick _ _ _ _) as [b|]; [left; by exists b|by right].
  - pose proof (pick_first_least _ _ (ps_proc s) compare_priority_key) as H.
    destruct (pick _ _ _ _) as [b|]; [left; by exists b|by right].
  - pose proof (pick_first_least _ _ (ps_proc s) mlfq_better_key) as H.
    destruct (pick _ _ _ _) as [b|]; [left; by exists b|by right].
Qed.

End policies.

(** * Round robin *)

Section robin.
Context `{KI : !KernelImage}.

(** The processes of a list that get a slice. *)
Definition runnable (P : Z → proc) (l : list Z) : list Z := filter (λ p, state (P p) = RUNNABLE) l.

End robin.

(** * Invariants of the process table *)

Section reachable.
Context `{KI : !KernelImage} {F : Type} (cfg : sched_cfg).
Context (swtch : option Z → option Z → kM (pstate F) ()) (fops : fileops F) (dops : devops F) (A : asm).
Context (sys_file : Z → option (kM (pstate F) Z)) (w r : Z).


End reachable.

(** C37: [do_rand] is the minimal standard generator 16807 x mod (2^31 - 1) on
    1 .. 2^31 - 2, shifted down by one, computed without overflow. *)
Theorem do_rand_minstd ctx :
  do_rand ctx = (16807 * (ctx mod 0x7ffffffe + 1)) mod 0x7fffffff - 1 ∧ 0 <= do_rand ctx <= 0x7ffffffd.
Proof. apply do_rand_ref. Qed.

(** * Instances *)

#[local] Existing Instance tiny.

(** Processes 1 and 2 are runnable and hold 3 and 4 tickets. *)
Definition demo_proc (q : Z) : proc :=
  if q =? 1 then blank_proc <| state := RUNNABLE |> <| pid := 1 |> <| tickets := 3 |> else
  if q =? 2 then blank_proc <| state := RUNNABLE |> <| pid := 2 |> <| tickets := 4 |> else blank_proc.

Definition demo_state {F} (f : F) : pstate F :=
  mkPstate blank demo_proc None None 3 0 7 0 1 false blank_csr f.

Definition no_swtch {F} : option Z → option Z → kM (pstate F) () := λ _ _, mret ().
Definition no_files : fileops () :=
  {| filedup := mret; fileclose := λ _, mret (); idup := mret; iput := λ _, mret (); begin_op := mret ();
     end_op := mret (); namei := λ _, mret 0; fsinit := λ _, mret () |}.
Definition no_devs : devops () :=
  {| plic_claim := mret 0; plic_complete := λ _, mret (); uartintr := mret (); virtio_disk_intr := mret () |}.
Definition no_asm : asm := {| kernelvec := 0; usertrap_pc := 0; uservec_off := 0; userret_off := 0; forkret_addr := 0 |}.

Lemma no_env (I : pstate () → Prop) : env_keeps no_swtch no_files no_devs (λ _, None) I.
Proof. split; intros; cbn; try done; apply pres_ret. Qed.

Lemma scheduler_picks_least_witness :
  ∃ b, first_least pbs_key demo_proc procs b ∧
    scheduler_round PBS no_swtch (demo_state ()) = switch_back no_swtch b (dispatched (sched_mark PBS 0) b (interruptible (demo_state ()))).
Proof.
  destruct (scheduler_picks_least no_swtch PBS (demo_state ()) eq_refl eq_refl) as [H|[H _]]; [exact H|].
  exfalso. apply (H 1); [|reflexivity]. apply elem_of_seqZ. split; [discriminate|reflexivity].
Defined.




