(* ===== verification/AllocRefine.v ===== *)
(** The page allocator of [kernel/kalloc.c] refines a table of reference counts:
    whatever a client program does with [kalloc], [incpgrc] and [kfree], its
    results are results of the table. *)
From S2P Require Import Prelude CString Spinlock Riscv Kalloc Boot.

(** * The specification *)

Inductive alloc_op := OpAlloc | OpInc (p : Z) | OpFree (p : Z).

(** A client chooses its next operation from the results so far. *)
Inductive client :=
| Stop
| Call (op : alloc_op) (k : Z → client).

Definition counts := Z → Z.
Definition count_set (c : counts) (p v : Z) : counts := λ q, if q =? p then v else c q.

Section spec.
Context `{KI : !KernelImage}.

(** Pages may be shared and freed while they are referenced. *)
Definition op_ok (op : alloc_op) (c : counts) : Prop :=
  match op with
  | OpAlloc => True
  | OpInc p | OpFree p => page_ok p ∧ 0 < c p
  end.

(** [OpAlloc] returns an unreferenced page, or 0 if there is none. *)
Definition op_spec (op : alloc_op) (c : counts) (r : Z) (c' : counts) : Prop :=
  match op with
  | OpAlloc =>
      (r = 0 ∧ (∀ p, page_ok p → 0 < c p) ∧ ∀ q, page_ok q → c' q = c q) ∨
      (page_ok r ∧ c r = 0 ∧ ∀ q, page_ok q → c' q = count_set c r 1 q)
  | OpInc p => r = 0 ∧ ∀ q, page_ok q → c' q = count_set c p (c p + 1) q
  | OpFree p => r = 0 ∧ ∀ q, page_ok q → c' q = count_set c p (c p - 1) q
  end.

(** The client never frees or shares a page that is not referenced. *)
Inductive client_ok : client → counts → Prop :=
| ok_stop c : client_ok Stop c
| ok_call op k c :
    op_ok op c → (∀ r c', op_spec op c r c' → client_ok (k r) c') → client_ok (Call op k) c.

Inductive trace_of : client → counts → list Z → counts → Prop :=
| tr_stop c : trace_of Stop c [] c
| tr_call op k c r c1 l c2 :
    op_spec op c r c1 → trace_of (k r) c1 l c2 → trace_of (Call op k) c (r :: l) c2.

(** * The allocator *)

Definition run_op (op : alloc_op) : kM mach Z :=
  match op with
  | OpAlloc => kalloc
  | OpInc p => incpgrc p ;; mret 0
  | OpFree p => kfree p ;; mret 0
  end.

Fixpoint run_client (c : client) : kM mach (list Z) :=
  match c with
  | Stop => mret []
  | Call op k => r ← run_op op; l ← run_client (k r); mret (r :: l)
  end.

#[export] Instance page_ok_dec p : Decision (page_ok p).
Proof. unfold page_ok. apply _. Defined.

Definition counts_of (s : mach) : counts := λ p, m_pgrc s (p / PGSIZE).

Definition alloc_inv (s : mach) : Prop := alloc_unlocked s ∧ ∃ l, kmem_inv s l.

Lemma counts_update s s' p v :
  page_ok p → (∀ i, m_pgrc s' i = if decide (i = p / PGSIZE) then v else m_pgrc s i) →
  ∀ q, page_ok q → counts_of s' q = count_set (counts_of s) p v q.
Proof.
  intros Hp Hc q Hq. unfold counts_of, count_set. rewrite Hc. destruct (Z.eqb_spec q p) as [->|Hne].
  - by rewrite decide_True.
  - by rewrite decide_False by (by apply page_index_ne).
Qed.

Lemma incpgrc_inv s l p :
  kmem_inv s l → alloc_unlocked s → page_ok p → 0 < m_pgrc s (p / PGSIZE) →
  wp (incpgrc p) (λ _ s', m_held s' = m_held s ∧ kmem_inv s' l ∧
    ∀ i, m_pgrc s' i = if decide (i = p / PGSIZE) then m_pgrc s (p / PGSIZE) + 1 else m_pgrc s i) s.
Proof.
  intros [Hch Hnd Hpg Hfr Hpos] [_ Hu] Hp Hc.
  assert (∀ i, upd (m_pgrc s) (p / PGSIZE) (m_pgrc s (p / PGSIZE) + 1) i =
    if decide (i = p / PGSIZE) then m_pgrc s (p / PGSIZE) + 1 else m_pgrc s i) as Hupd.
  { intros i. unfold upd. destruct (Z.eqb_spec i (p / PGSIZE)); case_decide; done. }
  apply incpgrc_spec; rewrite ?page_ok_index by done; [apply Hu|lia|]. split_and!; [done| |done].
  split; cbn; try done; intros q Hq; rewrite Hupd; case_decide as E; [|by apply Hfr| |by apply Hpos].
  - split; [|lia]. intros Hl. apply Hfr in Hl; [|done]. rewrite E in Hl. lia.
  - lia.
Qed.

Lemma run_op_refines op s :
  alloc_inv s → op_ok op (counts_of s) →
  wp (run_op op) (λ r s', op_spec op (counts_of s) r (counts_of s') ∧ alloc_inv s') s.
Proof.
  intros [Hu (l & Hk)] Hop. destruct op as [|p|p]; cbn [run_op op_spec].
  - destruct l as [|p l].
    + unfold wp. rewrite kalloc_empty by done. split; [left|by split; [|exists []]].
      split_and!; try done. intros p Hp. pose proof (ki_pos _ _ Hk p Hp). unfold counts_of.
      destruct (decide (m_pgrc s (p / PGSIZE) = 0)) as [E|]; [|lia].
      apply (ki_free _ _ Hk) in E; [|done]. by apply elem_of_nil in E.
    + wp_use kalloc_spec; [done|done|]. intros r s' (-> & (Hh & _ & Hc) & Hk').
      assert (page_ok p) as Hp by (apply (ki_page _ _ Hk); constructor).
      split; [right|split; [|by exists l]; unfold alloc_unlocked; by rewrite Hh].
      split_and!; [done|apply (ki_free _ _ Hk); [done|constructor]|]. by apply counts_update.
  - destruct Hop as [Hp Hc]. wp_step. wp_use incpgrc_inv; [done..|]. intros _ s' (Hh & Hk' & Hc'). wp_step.
    split; [split; [done|by apply counts_update]|]. split; [unfold alloc_unlocked; by rewrite Hh|by exists l].
  - destruct Hop as [Hp Hc]. wp_step. wp_use kfree_spec; [done..|]. intros _ s' ((Hh & _ & Hc') & Hk'). wp_step.
    split; [split; [done|]|split; [unfold alloc_unlocked; by rewrite Hh|by eexists]].
    apply counts_update; [done|]. intros i. rewrite Hc'. case_decide; subst; unfold counts_of; lia.
Qed.

(** C6: The allocator refines the table of reference counts: for every client
    that frees and shares only pages it holds, the run completes without a
    panic, its results are those of the table (a page handed out is referenced
    by nobody else, 0 only when every page is referenced) and the free list is
    again exactly the set of unreferenced pages. *)
Theorem allocator_refines c s :
  alloc_inv s → client_ok c (counts_of s) →
  wp (run_client c) (λ l s', trace_of c (counts_of s) l (counts_of s') ∧ alloc_inv s') s.
Proof.
  intros Hi Hok. remember (counts_of s) as cs eqn:E. revert s Hi E.
  induction Hok as [cs|op k cs Hop _ IH]; intros s Hi ->; cbn [run_client].
  - wp_step. split; [constructor|done].
  - wp_step. wp_use run_op_refines; [done|done|]. intros r s1 [Hspec Hi1]. wp_step.
    eapply wp_mono; [by eapply IH|]. intros l s2 [Htr Hi2]. wp_step. split; [by econstructor|done].
Qed.
End spec.

(** [kfree] of anything that is not a page of the allocator, or of a page
    that is not referenced, panics. *)
Theorem kfree_rejects `{KI : !KernelImage} pa s :
  alloc_unlocked s → ¬ page_ok pa ∨ m_pgrc s (pa / PGSIZE) <= 0 →
  kfree pa s = Panic "kfree" ∨ kfree pa s = Panic "negative ref count in decpgrc".
Proof.
  intros Hu H. destruct (decide (page_ok pa)) as [Hp|Hp].
  - right. apply kfree_underflow; [done|done|]. by destruct H.
  - left. by apply kfree_bad_page.
Qed.

#[local] Existing Instance tiny.

(** Allocate a page, share it, free it twice. *)
Definition demo_client : client :=
  Call OpAlloc (λ p, if p =? 0 then Stop else
    Call (OpInc p) (λ _, Call (OpFree p) (λ _, Call (OpFree p) (λ _, Stop)))).

Lemma demo_client_ok c : client_ok demo_client c.
Proof.
  constructor; [done|]. intros r c1 Hr. destruct (Z.eqb_spec r 0) as [|Hne]; [constructor|].
  destruct Hr as [(? & _)|(Hp & Hc & H1)]; [done|].
  assert (∀ c p v, count_set c p v p = v) as Hset by (intros; unfold count_set; by rewrite Z.eqb_refl).
  assert (c1 r = 1) as E1 by (by rewrite H1, Hset).
  constructor; [split; [done|lia]|]. intros _ c2 [_ H2]. assert (c2 r = 2) as E2 by (rewrite H2, Hset, E1; done).
  constructor; [split; [done|lia]|]. intros _ c3 [_ H3]. assert (c3 r = 1) as E3 by (rewrite H3, Hset, E2; done).
  constructor; [split; [done|lia]|]. intros _ c4 _. constructor.
Qed.

Lemma allocator_refines_witness :
  ∃ s l s', trace_of demo_client (counts_of s) l (counts_of s') ∧ alloc_inv s'.
Proof.
  destruct boot_vm as (s & fl & Hvm & Hh & _).
  assert (alloc_inv s) as Hi by (split; [by apply unlocked|exists fl; apply Hvm]).
  pose proof (allocator_refines demo_client s Hi (demo_client_ok _)) as Hw.
  apply wp_returns in Hw as (l & s' & _ & H). exists s, l, s'. exact H.
Defined.

Lemma kfree_rejects_witness : kfree 0 blank = Panic "kfree" ∨ kfree 0 blank = Panic "negative ref count in decpgrc".
Proof.
  apply (kfree_rejects 0 blank); [by apply unlocked|]. left. intros [_ [H _]]. revert H. vm_compute. congruence.
Defined.
