(* ===== verification/MemTheorems.v ===== *)
(** Theorems about user memory: sharing, writing, reading, growing and freeing
    address spaces, as the rest of the kernel uses them. *)
From S2P Require Import Prelude CString Spinlock Riscv Kalloc Vm PageTable Uvm UvmOps UvmGrow UvmFree.
From S2P Require Import UserCopy CowView Proc ProcMem ProcGrow Boot.

Section memory.
Context `{KI : !KernelImage}.
Implicit Types (T : gmap Z (gmap Z Z)) (M : gmap Z Z) (K : Z → Z).

Lemma cow_pte_shared pte :
  0 <= pte < 2 ^ 54 → truth (Z.land pte PTE_W) = true → truth (Z.land (cow_pte pte) PTE_C) = true.
Proof.
  intros Hp HW. unfold cow_pte. rewrite HW. unfold PTE_C.
  rewrite truth_land_pow2, Z.lor_spec, flag_bit by lia. by rewrite orb_true_r.
Qed.

(** The child's pages can be written after [uvmcopy]. *)
Lemma shared_writable s fl T K old Mo Mn (n : nat) va pte :
  vm s fl T K → T !! old = Some Mo → mapped_run n Mo →
  (∀ i p, 0 <= i < Z.of_nat n → Mo !! i = Some p → truth (Z.land p PTE_W) = true) →
  0 <= va < Z.of_nat n * PGSIZE → share_run n Mo Mn !! (va / PGSIZE) = Some pte →
  truth (Z.land pte PTE_C) = true.
Proof.
  intros Hvm HT Hmap HW Hva HM. assert (0 <= va / PGSIZE < Z.of_nat n) as Hi.
  { split; [apply Z.div_pos; lia|]. apply Z.div_lt_upper_bound; [done|lia]. }
  destruct (Hmap _ Hi) as (Ho & p & Hp & _). rewrite share_run_lookup, decide_True, Hp in HM by done.
  injection HM as <-. apply cow_pte_shared; [|by apply (HW (va / PGSIZE))].
  by apply (vm_user _ _ _ _ Hvm old Mo (va / PGSIZE)).
Qed.

(** A mapped user page can be read. *)
Lemma mapped_readable s fl T K r M (n : nat) va :
  vm s fl T K → T !! r = Some M → mapped_run n M →
  (∀ i p, 0 <= i < Z.of_nat n → M !! i = Some p → truth (Z.land p PTE_U) = true) →
  0 <= va < Z.of_nat n * PGSIZE → uread s M va ≠ None.
Proof.
  intros Hvm HT Hmap HU Hva. assert (0 <= va / PGSIZE < Z.of_nat n) as Hi.
  { split; [apply Z.div_pos; lia|]. apply Z.div_lt_upper_bound; [done|lia]. }
  destruct (Hmap _ Hi) as (Ho & p & Hp & _).
  destruct (mapped_page _ _ _ _ _ _ _ _ Hvm HT Hp Ho) as (Hok & _). pose proof (page_ok_range _ Hok) as Hr.
  destruct (owned_va (va / PGSIZE) ltac:(lia) Ho) as [Hx Hy].
  assert (va < MAXVA) as Hmax.
  { pose proof (Z.mod_pos_bound va PGSIZE ltac:(done)). pose proof (Z.div_mod va PGSIZE ltac:(done)).
    change MAXVA with (TRAPFRAME + 2 * PGSIZE). unfold PGSIZE in *. lia. }
  unfold uread, uaddr. destruct (Z.leb_spec MAXVA va); [lia|]. rewrite Hp, (HU _ _ Hi Hp).
  destruct (Z.eqb_spec (PTE2PA p) 0); [lia|done].
Qed.



(** C31: [copyin] returns exactly the bytes the user would read, changes
    nothing, and fails exactly at the first address that is not mapped for the
    user. *)
Theorem copyin_reads s fl T K r M srcva len :
  vm s fl T K → T !! r = Some M → user_low M → 0 <= srcva < 2 ^ 64 → 0 <= len < 2 ^ 64 →
  wp (copyin r srcva len) (λ x s', s' = s ∧ ureads s M srcva x.2 ∧
    ((x.1 = 0 ∧ Z.of_nat (length x.2) = len) ∨
     (x.1 = -1 ∧ Z.of_nat (length x.2) < len ∧ uread s M (srcva + Z.of_nat (length x.2)) = None))) s.
Proof. apply copyin_spec. Qed.

(** [uvmalloc] gives the user zeroed memory between the old and the new
    size and keeps every byte below and every other address space; when it runs
    out of pages it returns 0 and no address space changes.  Three free pages
    for each new page are enough. *)
Theorem uvmalloc_grows s fl T K r M oldsz newsz xperm (v0 : Z) (n : nat) :
  vm s fl T K → kpos K → alloc_unlocked s → all_low T → T !! r = Some M →
  0 <= oldsz <= newsz → newsz <= MAXVA → 0 <= xperm < 1024 →
  PGROUNDUP oldsz = v0 * PGSIZE → newsz <= (v0 + Z.of_nat n) * PGSIZE →
  ((0 < n)%nat → (v0 + Z.of_nat n - 1) * PGSIZE < newsz) →
  (∀ i, v0 <= i < v0 + Z.of_nat n → owned i = true ∧ M !! i = None) →
  wp (uvmalloc r oldsz newsz xperm) (λ x s', others_same s T r s' ∧
    ((x = newsz ∧ ∃ fl' M', vm s' fl' (<[r := M']> T) K ∧
        ∀ va, 0 <= va → uread s' M' va =
          if decide (v0 <= va / PGSIZE < v0 + Z.of_nat n) then Some 0 else uread s M va) ∨
     (x = 0 ∧ (length fl <= 3 * n)%nat ∧ ∃ fl', vm s' fl' T K ∧
        ∀ va, 0 <= va → uread s' M va = uread s M va))) s.
Proof.
  intros Hvm HK Hu Hlow HT Hsz Hmax Hx Hup Hn1 Hn2 HM.
  assert (0 <= Z.lor (Z.lor PTE_R PTE_U) xperm < 1024) as Hpe by (repeat apply lor_flags_range; done).
  assert (∀ s' T' r' N va, grows s T s' T' → T !! r' = Some N → 0 <= va → uread s' N va = uread s N va) as Hsame
    by (intros s' T' r' N va Hg HN Hva; eapply grows_view; try done; by apply (Hlow r')).
  wp_use (uvmalloc_vm s fl T K r M oldsz newsz xperm v0 n); [done..|].
  intros x s' [(-> & fl' & M' & Hvm' & Hgr & Hg & _)|(-> & Hlen & fl' & Hvm' & Hg)];
    (split; [intros r' N va _ HN Hva; by eapply Hsame|]).
  - left. split; [done|]. exists fl', M'. split; [done|]. intros va Hva.
    eapply (grown_view s fl T K r M s' _ M' v0 n); try done; [by apply (Hlow r)|by rewrite !Z.lor_spec|].
    intros i Hi. by apply HM.
  - right. split_and!; [done|done|]. exists fl'. split; [done|]. intros va Hva. by eapply Hsame.
Qed.

(** With no address space left, the free pages are those the kernel does not
    reference. *)
Lemma vm_free_perm s fl s' fl' K : vm s fl ∅ K → vm s' fl' ∅ K → fl ≡ₚ fl'.
Proof.
  assert (∀ s1 l1 s2 l2 p, vm s1 l1 ∅ K → vm s2 l2 ∅ K → p ∈ l1 → p ∈ l2) as Hin.
  { intros s1 l1 s2 l2 p H1 H2 Hp. pose proof (ki_page _ _ (vm_kmem _ _ _ _ H1) p Hp) as Hok.
    apply (ki_free _ _ (vm_kmem _ _ _ _ H1) p Hok) in Hp. apply (ki_free _ _ (vm_kmem _ _ _ _ H2) p Hok).
    rewrite (vm_rc _ _ _ _ H1) in Hp by (done || by intros (? & ? & ? & _)).
    by rewrite (vm_rc _ _ _ _ H2) by (done || by intros (? & ? & ? & _)). }
  intros H1 H2. apply NoDup_Permutation; [apply (vm_kmem _ _ _ _ H1)|apply (vm_kmem _ _ _ _ H2)|].
  intros p. split; [by apply (Hin s fl s' fl')|by apply (Hin s' fl' s fl)].
Qed.

(** C29: Nothing leaks: creating an address space, growing it to [n] pages and
    freeing it gives back exactly the pages that were free before. *)
Theorem address_space_no_leak s fl K xperm (n : nat) :
  vm s fl ∅ K → kpos K → alloc_unlocked s → 0 <= xperm < 1024 →
  Z.of_nat n * PGSIZE <= TRAPFRAME → (3 * n + 1 < length fl)%nat →
  wp (r ← uvmcreate; _ ← uvmalloc r 0 (Z.of_nat n * PGSIZE) xperm; uvmfree r (Z.of_nat n * PGSIZE))
    (λ _ s', ∃ fl', vm s' fl' ∅ K ∧ fl' ≡ₚ fl) s.
Proof.
  intros Hvm HK Hu Hx Hmax Hfree. assert (TRAPFRAME < MAXVA ∧ MAXVA = 2 ^ 38) as [HTF HMX] by done.
  wp_step. wp_use uvmcreate_vm; [done..|]. intros r s1 [(-> & _)|(fl1 & -> & Hr & _ & Hvm1 & Hg1)]; [simpl in Hfree; lia|].
  simpl in Hfree. assert (PGROUNDUP (Z.of_nat n * PGSIZE) = Z.of_nat n * PGSIZE) as Hup
    by (apply PGROUNDUP_id; [unfold PGSIZE in *; lia|by apply Z.mod_mul]).
  assert (∀ i, i < Z.of_nat n → owned i = true) as Hown.
  { intros i Hi. unfold owned. change (TRAPFRAME / PGSIZE) with 67108862. change TRAPFRAME with (67108862 * PGSIZE) in *.
    unfold PGSIZE in *. lia. }
  wp_step. wp_use (uvmalloc_vm s1 fl1 _ K r ∅ 0 (Z.of_nat n * PGSIZE) xperm 0 n);
    [done|done|unfold alloc_unlocked; by rewrite (proj1 Hg1)|apply lookup_insert_eq|unfold PGSIZE in *; lia|lia|done|done|lia|
     unfold PGSIZE in *; lia|intros i Hi; split; [apply Hown; lia|done]|].
  intros x s2 [(-> & fl2 & M & Hvm2 & Hgr & Hg2 & Hl2)|(_ & Hl2 & _)]; [|lia]. rewrite insert_insert_eq in Hvm2, Hg2.
  assert (0 <= Z.lor (Z.lor PTE_R PTE_U) xperm < 1024) as Hpe by (repeat apply lor_flags_range; done).
  wp_use (uvmfree_vm s2 fl2 _ K r M (Z.of_nat n * PGSIZE) n); try done.
  - unfold alloc_unlocked. by rewrite (proj1 Hg2), (proj1 Hg1).
  - apply lookup_insert_eq.
  - unfold PGSIZE in *. lia.
  - intros i Hi. split; [apply Hown; lia|]. eapply (grown_mapped s1 ∅ s2 M 0 n); try done. by rewrite !Z.lor_spec.
  - intros i pte HM. destruct (decide (0 <= i < Z.of_nat n)) as [|Hi]; [done|]. by rewrite (proj1 Hgr) in HM by lia.
  - intros _ s3 (fl3 & Hvm3 & _). rewrite delete_insert_id in Hvm3 by done. exists fl3. split; [done|].
    by apply (vm_free_perm s3 fl3 s (r :: fl1) K).
Qed.

(** A user page that is writable in one address space is mapped nowhere
    else, neither in another space nor at another address. *)
Theorem writable_page_exclusive s fl T K r1 M1 v1 pte1 r2 M2 v2 pte2 :
  vm s fl T K → kpos K → T !! r1 = Some M1 → M1 !! v1 = Some pte1 → owned v1 = true →
  truth (Z.land pte1 PTE_W) = true →
  T !! r2 = Some M2 → M2 !! v2 = Some pte2 → owned v2 = true →
  PTE2PA pte1 = PTE2PA pte2 → r1 = r2 ∧ v1 = v2.
Proof. apply writable_once. Qed.

(** C30: [mappages] refines insertion into a finite map: afterwards the page
    table represents the map with the pages of the range added, or, when pages
    run out, with a prefix of them. *)
Theorem mappages_refines s root M fl va size pa perm n :
  aspace s root M → kmem_inv s fl → alloc_unlocked s →
  0 <= va → 0 < size → va + size <= MAXVA → 0 <= perm < 1024 →
  PGROUNDDOWN (va + size - 1) = PGROUNDDOWN va + Z.of_nat n * PGSIZE →
  0 <= pa → pa + Z.of_nat n * PGSIZE < 2 ^ 56 →
  (∀ i, va / PGSIZE <= i <= va / PGSIZE + Z.of_nat n → M !! i = None) →
  wp (mappages root va size pa perm) (λ r s', ∃ k fl', kmem_inv s' fl' ∧
    aspace s' root (map_run k M (va / PGSIZE) pa perm) ∧
    ((r = 0 ∧ k = Datatypes.S n) ∨ (r = -1 ∧ (k <= n)%nat ∧ fl' = []))) s.
Proof.
  intros. wp_use (mappages_spec s root M fl va size pa perm n); [done..|].
  intros r s' (_ & k & used & fl' & _ & _ & Hk & Ha & Hres). by exists k, fl'.
Qed.

(** [kinit] puts every page between the end of the kernel and the end of
    memory on the free list, once. *)
Theorem kinit_frees_all s :
  alloc_unlocked s → (∀ i, m_pgrc s i = 0) →
  wp kinit (λ _ s', m_held s' = m_held s ∧ ∃ l, kmem_inv s' l ∧ ∀ p, page_ok p ↔ p ∈ l) s.
Proof. apply kinit_spec. Qed.
End memory.

(** * Instances *)

#[local] Existing Instance tiny.

Ltac not_held H := split; [|intros ?]; rewrite H; apply not_elem_of_nil.



Lemma copyin_reads_witness :
  ∃ s r M, wp (copyin r 0 8) (λ x s', s' = s ∧ ureads s M 0 x.2) s ∧ uread s M 0 ≠ None.
Proof.
  destruct (boot_user 1 PTE_W ltac:(lia) ltac:(done)) as (s & fl & r & M & Hvm & Hh & Hl & Hin & Hout).
  destruct (boot_mapped s fl r M 1 PTE_W Hvm ltac:(lia) ltac:(done) Hin Hout) as (Hmap & Hlow & Hb).
  exists s, r, M. split.
  - eapply wp_mono; [apply (copyin_reads s fl {[r := M]} no_refs r M 0 8); [done|apply lookup_singleton_eq|done|lia|lia]|].
    by intros x s' (-> & Hr & _).
  - apply (mapped_readable s fl {[r := M]} no_refs r M 1 0); [done|apply lookup_singleton_eq|done| |unfold PGSIZE; lia].
    intros i p Hi Hp. by apply (Hb i).
Defined.

Lemma uvmalloc_grows_witness :
  ∃ s r M s' M', uread s' M' 4096 = Some 0 ∧ uread s' M' 100 = uread s M 100 ∧ others_same s {[r := M]} r s'.
Proof.
  destruct (boot_user 1 PTE_W ltac:(lia) ltac:(done)) as (s & fl & r & M & Hvm & Hh & Hl & Hin & Hout).
  destruct (boot_mapped s fl r M 1 PTE_W Hvm ltac:(lia) ltac:(done) Hin Hout) as (Hmap & Hlow & Hb).
  assert (alloc_unlocked s) as Hu by not_held Hh.
  assert (all_low {[r := M]}) as Hall by (by intros ? ? [_ <-]%lookup_singleton_Some).
  pose proof (uvmalloc_grows s fl {[r := M]} no_refs r M 4096 8192 PTE_W 1 1 Hvm ltac:(done) Hu Hall (lookup_singleton_eq _ _)
    ltac:(lia) ltac:(vm_compute; congruence) ltac:(done) ltac:(done) ltac:(unfold PGSIZE; lia) ltac:(unfold PGSIZE; lia)
    ltac:(intros i Hi; split; [by replace i with 1 by lia|apply Hout; lia])) as Hw.
  apply wp_returns in Hw as (x & s' & _ & Ho & [(-> & fl' & M' & _ & Hv)|(_ & Hlen & _)]); [|lia].
  exists s, r, M, s', M'. split_and!; [by rewrite Hv|by rewrite Hv|done].
Defined.

Lemma address_space_no_leak_witness :
  ∃ s fl, (64 <= length fl)%nat ∧
    wp (r ← uvmcreate; _ ← uvmalloc r 0 (Z.of_nat 3 * PGSIZE) PTE_W; uvmfree r (Z.of_nat 3 * PGSIZE))
      (λ _ s', ∃ fl', vm s' fl' ∅ no_refs ∧ fl' ≡ₚ fl) s.
Proof.
  destruct boot_vm as (s & fl & Hvm & Hh & Hl). exists s, fl. split; [exact Hl|].
  apply (address_space_no_leak s fl no_refs PTE_W 3 Hvm); [done|not_held Hh|done|vm_compute; congruence|lia].
Defined.

Lemma writable_page_exclusive_witness :
  ∃ s fl r M pte, vm s fl {[r := M]} no_refs ∧ M !! 0 = Some pte ∧ truth (Z.land pte PTE_W) = true ∧
    ∀ pte', M !! 1 = Some pte' → PTE2PA pte ≠ PTE2PA pte'.
Proof.
  destruct (boot_user 2 PTE_W ltac:(lia) ltac:(done)) as (s & fl & r & M & Hvm & Hh & Hl & Hin & Hout).
  destruct (boot_mapped s fl r M 2 PTE_W Hvm ltac:(lia) ltac:(done) Hin Hout) as (Hmap & Hlow & Hb).
  destruct (Hin 0 ltac:(lia)) as (p & HM & _). exists s, fl, r, M, (mkpte p (Z.lor (Z.lor PTE_R PTE_U) PTE_W)).
  assert (truth (Z.land (mkpte p (Z.lor (Z.lor PTE_R PTE_U) PTE_W)) PTE_W) = true) as HW by (by apply (Hb 0)).
  split_and!; [done|done|done|]. intros pte' HM' E.
  destruct (writable_page_exclusive s fl {[r := M]} no_refs r M 0 _ r M 1 pte' Hvm ltac:(done) (lookup_singleton_eq _ _) HM
    eq_refl HW (lookup_singleton_eq _ _) HM' eq_refl E). done.
Defined.

Lemma mappages_refines_witness :
  ∃ s r, wp (mappages r 0 4096 KERNBASE PTE_R) (λ x s', ∃ k fl', kmem_inv s' fl' ∧
    aspace s' r (map_run k ∅ 0 KERNBASE PTE_R) ∧ ((x = 0 ∧ k = 1%nat) ∨ (x = -1 ∧ (k <= 0)%nat ∧ fl' = []))) s.
Proof.
  destruct (boot_user 0 0 ltac:(lia) ltac:(done)) as (s & fl & r & M & Hvm & Hh & Hl & Hin & Hout).
  assert (M = ∅) as -> by (apply map_eq; intros i; rewrite Hout by lia; done).
  exists s, r. apply (mappages_refines s r ∅ fl 0 4096 KERNBASE PTE_R 0);
    [apply (vm_space _ _ _ _ Hvm), lookup_singleton_eq|apply Hvm|not_held Hh|lia|lia|vm_compute; congruence|done|done|
     vm_compute; congruence|done|done].
Defined.

Lemma kinit_frees_all_witness :
  wp kinit (λ _ s', m_held s' = m_held blank ∧ ∃ l, kmem_inv s' l ∧ ∀ p, page_ok p ↔ p ∈ l) blank.
Proof. apply (kinit_frees_all blank); [|done]. split; [|intros ?]; apply not_elem_of_nil. Defined.
