(* ===== verification/ProcTheorems.v ===== *)
(** Theorems about processes: creation, growth, signals. *)
From S2P Require Import Prelude CString Spinlock Riscv Kalloc Vm PageTable Uvm UvmOps UvmGrow UvmFree.
From S2P Require Import UserCopy CowView Proc ProcState ProcMem Sched ProcOps ProcNew Fork ProcGrow Trap Inv Boot SchedTheorems.

(** The first element of a list with a property is unique. *)
Lemma first_fun {A} (Q : A → Prop) l1 x l2 l1' x' l2' :
  l1 ++ x :: l2 = l1' ++ x' :: l2' → Q x → (∀ q, q ∈ l1 → ¬ Q q) → Q x' → (∀ q, q ∈ l1' → ¬ Q q) → x = x'.
Proof.
  revert l1'. induction l1 as [|y l1 IH]; intros [|y' l1'] [= -> Heq] Hx Hl Hx' Hl'; try done.
  - destruct (Hl' y'); [constructor|done].
  - destruct (Hl x'); [constructor|done].
  - apply (IH l1'); try done; intros q Hq; [apply Hl|apply Hl']; by constructor.
Qed.

Lemma first_pid_fun P target p p' : first_pid P target p → first_pid P target p' → p = p'.
Proof.
  intros (l1 & l2 & E & Hp & Hl) (l1' & l2' & E' & Hp' & Hl').
  apply (first_fun (λ q, pid (P q) = target) l1 p l2 l1' p' l2'); congruence || done.
Qed.

Lemma first_unused_fun P p p' : first_unused P p → first_unused P p' → p = p'.
Proof.
  intros (l1 & l2 & E & Hp & Hl) (l1' & l2' & E' & Hp' & Hl').
  apply (first_fun (λ q, state (P q) = UNUSED) l1 p l2 l1' p' l2'); congruence || done.
Qed.

Section processes.
Context `{KI : !KernelImage} {F : Type} (cfg : sched_cfg).
Implicit Types (T : gmap Z (gmap Z Z)) (M : gmap Z Z) (K : Z → Z) (st : pstate F).

Section forking.
Context (fops : fileops F).

(** What [fork] needs of the file layer: duplicating an open file or a
    directory changes nothing but the file layer. *)
Context (Hdup : ∀ fd st, wp (filedup fops fd) (λ _ st', ∃ f', st' = st <| ps_fs := f' |>) st).
Context (Hidup : ∀ ip st, wp (idup fops ip) (λ _ st', ∃ f', st' = st <| ps_fs := f' |>) st).

End forking.


(** C32: [growproc] with a positive argument adds zeroed memory up to the new
    size and keeps every byte below it, or fails with -1, changing nothing the
    user sees; other processes are not affected. *)
Theorem growproc_grows p st m P n t f fl T K M (k k' : nat) d :
  vm m fl T K → kpos K → alloc_unlocked m → all_low T → ps_cur st = Some p → running m T (P p) M k →
  0 < d → sz (P p) + d <= TRAPFRAME → PGROUNDUP (sz (P p) + d) = Z.of_nat k' * PGSIZE →
  wp (growproc d) (λ r st', ∃ m' P' fl' M', let T' := <[pagetable (P p) := M']> T in
    st' = pst st m' P' n t f ∧ m_held m' = m_held m ∧ (∀ q, q ≠ p → P' q = P q) ∧ vm m' fl' T' K ∧
    all_low T' ∧ others_same m T (pagetable (P p)) m' ∧
    ((r = 0 ∧ P' p = P p <| sz := sz (P p) + d |> ∧ running m' T' (P' p) M' k' ∧
      ∀ va, 0 <= va → uread m' M' va =
        if decide (Z.of_nat k <= va / PGSIZE < Z.of_nat k') then Some 0 else uread m M va) ∨
     (r = -1 ∧ (length fl <= 3 * (k' - k))%nat ∧ P' p = P p ∧ M' = M ∧
      ∀ va, 0 <= va → uread m' M va = uread m M va))) (pst st m P n t f).
Proof. apply growproc_grow. Qed.

(** C33: [growproc] with a negative argument removes the memory above the new
    size and keeps the rest; below zero it changes nothing and still returns
    0. *)
Theorem growproc_shrinks p st m P n t f fl T K M (k k' : nat) d :
  vm m fl T K → kpos K → alloc_unlocked m → all_low T → ps_cur st = Some p → running m T (P p) M k →
  d < 0 → - 2 ^ 31 <= d → PGROUNDUP (Z.max 0 (sz (P p) + d)) = Z.of_nat k' * PGSIZE →
  let new := if sz (P p) + d <? 0 then sz (P p) else sz (P p) + d in
  let k1 := if sz (P p) + d <? 0 then k else k' in
  wp (growproc d) (λ r st', r = 0 ∧ ∃ m' P' fl' M', let T' := <[pagetable (P p) := M']> T in
    st' = pst st m' P' n t f ∧ m_held m' = m_held m ∧ (∀ q, q ≠ p → P' q = P q) ∧
    P' p = P p <| sz := new |> ∧ vm m' fl' T' K ∧ all_low T' ∧ others_same m T (pagetable (P p)) m' ∧
    running m' T' (P' p) M' k1 ∧
    ∀ va, 0 <= va → uread m' M' va = if decide (Z.of_nat k1 <= va / PGSIZE) then None else uread m M va)
    (pst st m P n t f).
Proof. apply growproc_shrink. Qed.

(** [kill] marks the first process with the pid, wakes it if it sleeps,
    and leaves every other process alone; without such a process it returns -1
    and changes nothing. *)
Theorem kill_correct target st m P n t f :
  (∀ p, ProcLock p ∉ m_held m) →
  wp (kill cfg target) (λ r st',
    (r = -1 ∧ st' = pst st m P n t f ∧ ∀ p, p ∈ procs → pid (P p) ≠ target) ∨
    (r = 0 ∧ ∃ p P', first_pid P target p ∧ st' = pst st m P' n (t + kill_tickets cfg (P p)) f ∧
       P' p = killed_proc cfg (ps_ticks st) (P p) ∧ ∀ q, q ≠ p → P' q = P q)) (pst st m P n t f).
Proof. apply kill_spec. Qed.

(** C40: [kill(0)] reaches an unused slot, whose pid is 0, and [allocproc] does
    not clear its mark: the next process made there starts out killed. *)
Theorem kill_zero_poisons_slot pc p st m P n t f fl T K :
  vm m fl T K → kpos K → alloc_unlocked m → (∀ q, ProcLock q ∉ m_held m) → PidLock ∉ m_held m →
  (∀ q, slot_clean (P q)) → (7 < length fl)%nat → first_unused P p → first_pid P 0 p →
  wp (_ ← kill cfg 0; allocproc cfg pc) (λ r st', r = Some p ∧ killed_ (ps_proc st' p) = 1)
    (pst st m P n t f).
Proof.
  intros Hvm HK Hu Hl Hpl Hcl Hfree Hun Hpid. wp_step. wp_use kill_spec; [done|].
  intros r st' [(_ & _ & Hno)|(_ & p' & P1 & Hp' & -> & HP1 & Ho1)].
  { exfalso. destruct Hpid as (l1 & l2 & Hprocs & Hp & _). apply (Hno p); [|done]. rewrite Hprocs. set_solver. }
  assert (p' = p) as -> by (by eapply first_pid_fun).
  pose proof Hun as (l1 & l2 & Hprocs & Hst & Hbefore).
  assert (P1 p = P p <| killed_ := 1 |>) as HPp by (rewrite HP1; unfold killed_proc; by rewrite Hst).
  assert (∀ q, state (P1 q) = state (P q)) as Hstate.
  { intros q. destruct (decide (q = p)) as [->|Hq]; [by rewrite HPp|by rewrite Ho1]. }
  wp_use (allocproc_spec cfg pc st m P1 n (t + kill_tickets cfg (P p)) f fl T K); [done..| |].
  { intros q. destruct (decide (q = p)) as [->|Hq]; [rewrite HPp; exact (Hcl p)|by rewrite Ho1]. }
  intros r2 st2. destruct r2 as [q|].
  - intros (Hq & m' & fl' & P' & tf & tc & pt & -> & _ & HP' & _).
    assert (q = p) as -> by (apply (first_unused_fun P1); [done|]; exists l1, l2; split_and!; [done|by rewrite Hstate|];
      intros q' Hq'; rewrite Hstate; by apply Hbefore).
    split; [done|]. cbn [ps_proc pst]. rewrite HP', HPp. unfold new_proc, init_proc. by destruct cfg.
  - intros [[_ Hno]|(q & m' & fl' & P' & _ & _ & Hf)].
    + exfalso. apply (Hno p); [rewrite Hprocs; set_solver|by rewrite Hstate].
    + pose proof (af_short _ _ _ _ _ _ _ _ _ Hf). lia.
Qed.
End processes.

(** * Instances *)

#[local] Existing Instance tiny.

Lemma no_files_dup fd (st : pstate ()) : wp (filedup no_files fd) (λ _ st', ∃ f', st' = st <| ps_fs := f' |>) st.
Proof. exists (). by destruct st as [? ? ? ? ? ? ? ? ? ? ? []]. Qed.

Lemma no_files_idup ip (st : pstate ()) : wp (idup no_files ip) (λ _ st', ∃ f', st' = st <| ps_fs := f' |>) st.
Proof. exists (). by destruct st as [? ? ? ? ? ? ? ? ? ? ? []]. Qed.

Ltac unheld H := intros; rewrite H; apply not_elem_of_nil.



Lemma growproc_grows_witness :
  ∃ m P M m' P' M', sz (P 0) = 4096 ∧ sz (P' 0) = 8192 ∧ uread m' M' 4096 = Some 0 ∧ uread m' M' 100 = uread m M 100.
Proof.
  destruct (boot_proc 1 PTE_W ltac:(lia) ltac:(done)) as (m & P & fl & T & K & M & [Hvm HK Hh Hlow Hcl Hrun Hfr Hsz Hfree _ _]).
  pose proof (growproc_grows (F:=()) 0 (boot_state m P) m P 1 0 () fl T K M 1 2 4096 Hvm HK (unlocked m Hh) Hlow eq_refl Hrun
    ltac:(lia) ltac:(rewrite Hsz; vm_compute; congruence) ltac:(by rewrite Hsz)) as Hw.
  apply wp_returns in Hw as (r & st & _ & m' & P' & fl' & M' & _ & _ & _ & _ & _ & _ & [(_ & HP & _ & Hv)|(_ & ? & _)]); [|lia].
  exists m, P, M, m', P', M'. rewrite HP. split_and!; [exact Hsz|cbn; by rewrite Hsz|by rewrite Hv|by rewrite Hv].
Defined.

Lemma growproc_shrinks_witness :
  ∃ m P M m' P' M', sz (P 0) = 8192 ∧ sz (P' 0) = 4096 ∧ uread m' M' 4096 = None ∧ uread m' M' 100 = uread m M 100.
Proof.
  destruct (boot_proc 2 PTE_W ltac:(lia) ltac:(done)) as (m & P & fl & T & K & M & [Hvm HK Hh Hlow Hcl Hrun Hfr Hsz Hfree _ _]).
  pose proof (growproc_shrinks (F:=()) 0 (boot_state m P) m P 1 0 () fl T K M 2 1 (-4096) Hvm HK (unlocked m Hh) Hlow eq_refl Hrun
    ltac:(lia) ltac:(lia) ltac:(by rewrite Hsz)) as Hw. cbn zeta in Hw. rewrite Hsz in Hw.
  change (Z.of_nat 2 * PGSIZE + -4096 <? 0) with false in Hw.
  apply wp_returns in Hw as (r & st & _ & _ & m' & P' & fl' & M' & _ & _ & _ & HP & _ & _ & _ & _ & Hv).
  exists m, P, M, m', P', M'. rewrite HP. split_and!; [exact Hsz|reflexivity|by rewrite Hv|by rewrite Hv].
Defined.

Lemma kill_correct_witness :
  wp (kill RR 2) (λ r st', r = 0 ∧ killed_ (ps_proc st' 2) = 1) (demo_state ()).
Proof.
  eapply wp_mono; [apply (kill_correct RR 2 (demo_state ()) blank demo_proc 3 7 ()); intros p; apply not_elem_of_nil|].
  intros r st' [(_ & _ & Hno)|(-> & p & P' & Hp & -> & HP & _)].
  - exfalso. apply (Hno 2); [apply elem_of_seqZ; split; [discriminate|reflexivity]|reflexivity].
  - assert (p = 2) as ->.
    { apply (first_pid_fun demo_proc 2); [exact Hp|]. exists [0; 1], (seqZ 3 61). split_and!; [reflexivity|reflexivity|].
      intros q [->|[->|[]%elem_of_nil]%elem_of_cons]%elem_of_cons; vm_compute; congruence. }
    cbn [ps_proc pst]. by rewrite HP.
Defined.

Lemma kill_zero_poisons_slot_witness :
  ∃ m, wp (_ ← kill RR 0; allocproc RR 0) (λ r st', r = Some 0 ∧ killed_ (ps_proc st' 0) = 1)
    (boot_state m (λ _, blank_proc)).
Proof.
  destruct boot_vm as (m & fl & Hvm & Hh & Hl). exists m.
  apply (kill_zero_poisons_slot RR 0 0 (boot_state m (λ _, blank_proc)) m (λ _, blank_proc) 1 0 () fl ∅ no_refs Hvm);
    [done|by apply unlocked|unheld Hh|unheld Hh|done|lia| |].
  - exists [], (seqZ 1 63). split_and!; [reflexivity|reflexivity|]. by intros q []%elem_of_nil.
  - exists [], (seqZ 1 63). split_and!; [reflexivity|reflexivity|]. by intros q []%elem_of_nil.
Defined.
