(* ===== verification/LockTheorems.v ===== *)
(** Theorems about spinlocks: mutual exclusion between CPUs, interrupts, and the
    list of held locks that the other components use. *)
From S2P Require Import Prelude Spinlock.

(** C7: However the CPUs interleave the swaps and stores of [acquire] and
    [release], at most one owns a lock, and the owner has interrupts disabled. *)
Theorem mutual_exclusion x y c1 c2 lk :
  Concrete.initial x → rtc Concrete.step x y → Concrete.owns y c1 lk → Concrete.owns y c2 lk →
  c1 = c2 ∧ Concrete.sie (Concrete.cpus (Concrete.cst y) c1) = false.
Proof.
  intros Hi Hr H1 H2. split.
  - by apply (Concrete.li_mutex _ (Concrete.lock_inv_reachable x y Hi Hr) lk).
  - apply (Concrete.owner_interrupts_off y c1 lk); [|done]. by apply (Concrete.depth_inv_reachable x).
Qed.

(** [push_off] and [pop_off] nest: [n] nested critical sections leave the
    depth and the interrupt-enable bit as they found them, and touch no lock
    and no other CPU. *)
Theorem critical_sections_nest n c s :
  Concrete.nesting_ok (Concrete.cpus s c) →
  wp (Concrete.nested n c) (λ _ s', Concrete.lks s' = Concrete.lks s ∧
    (∀ c', c' ≠ c → Concrete.cpus s' c' = Concrete.cpus s c') ∧
    Concrete.noff (Concrete.cpus s' c) = Concrete.noff (Concrete.cpus s c) ∧
    Concrete.sie (Concrete.cpus s' c) = Concrete.sie (Concrete.cpus s c)) s.
Proof. apply Concrete.nested_restores. Qed.

(** The lock words refine the list of held locks: [acquire] of a lock that
    is free or held by this CPU and [release] of any lock succeed or panic as
    on the list, and leave lock words, nesting depth and interrupts that
    represent the new list. *)
Theorem lock_words_refine c lk s l :
  Refine.represents c s l →
  (lk ∈ l ∨ Concrete.locked (Concrete.lks s lk) = 0 →
     Refine.agrees c (Concrete.acquire c lk s) (acquire lk l)) ∧
  Refine.agrees c (Concrete.release c lk s) (release lk l).
Proof.
  intros Hr. split; [intros Hl; by apply Refine.acquire_refines_list|by apply Refine.release_refines_list].
Qed.

(** * Instances *)

(** All locks free, all CPUs outside critical sections with interrupts on. *)
Definition quiet : Concrete.st :=
  Concrete.mkSt (λ _, Concrete.mkSpinlock 0 "lock" None) (λ _, Concrete.mkCpu 0 false true).
Definition quiet_conf : Concrete.conf := Concrete.mkConf quiet (λ _, Concrete.Run).

Lemma mutual_exclusion_witness :
  ∃ y, Concrete.owns y 0%nat KmemLock ∧ Concrete.sie (Concrete.cpus (Concrete.cst y) 0%nat) = false.
Proof.
  assert (∃ y, rtc Concrete.step quiet_conf y ∧ Concrete.owns y 0%nat KmemLock) as (y & Hr & Ho).
  { eexists. split.
    - eapply rtc_l; [eapply (Concrete.step_begin_acquire 0 KmemLock); [reflexivity|vm_compute; reflexivity|vm_compute; reflexivity]|].
      eapply rtc_l; [eapply (Concrete.step_swap_free 0 KmemLock); [reflexivity|vm_compute; reflexivity|reflexivity]|].
      apply rtc_refl.
    - right. left. reflexivity. }
  exists y. split; [exact Ho|].
  apply (mutual_exclusion quiet_conf y 0 0 KmemLock); [|exact Hr|exact Ho|exact Ho].
  split; intros; split; reflexivity.
Defined.

Lemma critical_sections_nest_witness :
  wp (Concrete.nested 3 0) (λ _ s', Concrete.sie (Concrete.cpus s' 0%nat) = true) quiet.
Proof.
  eapply wp_mono; [apply (critical_sections_nest 3 0 quiet)|].
  - split; simpl; [lia|]. intros H. lia.
  - intros _ s' (_ & _ & _ & H). exact H.
Defined.

Lemma lock_words_refine_witness :
  Refine.agrees 0 (Concrete.acquire 0 KmemLock quiet) (acquire KmemLock []) ∧
  Refine.agrees 0 (Concrete.release 0 KmemLock quiet) (release KmemLock []).
Proof.
  destruct (lock_words_refine 0 KmemLock quiet []) as [Ha Hr].
  - split_and!; [constructor| |reflexivity|split; simpl; [lia|intros H; lia]].
    intros lk. split; [intros H; by apply elem_of_nil in H|intros H; vm_compute in H; discriminate].
  - split; [apply Ha; right; reflexivity|exact Hr].
Defined.
