(* ===== verification/TrapTheorems.v ===== *)
(** Theorems about traps: page faults on shared pages, alarms, system-call
    arguments, the clock and the return to user space. *)
From S2P Require Import Prelude CString Spinlock Riscv Kalloc Vm PageTable Uvm UvmOps UvmGrow.
From S2P Require Import UserCopy CowView Proc ProcState ProcMem Sched ProcOps ProcNew Fork ProcGrow Trap TrapOps SyscallOps.
From S2P Require Import Boot SchedTheorems.

Section traps.
Context `{KI : !KernelImage} {F : Type}.
Context (cfg : sched_cfg) (swtch : option Z → option Z → kM (pstate F) ()) (fops : fileops F) (A : asm).
Context (sys_file : Z → option (kM (pstate F) Z)) (w r : Z).
Implicit Types (T : gmap Z (gmap Z Z)) (M : gmap Z Z) (K : Z → Z) (st : pstate F).


(** Every other page fault ends the process: an address beyond the space,
    next to the stack pointer, unmapped or not accessible to the user kills it
    and exits, a fault on a page that is not shared marks it as killed, and so
    does a shared page when no page is free. *)
Theorem page_fault_otherwise_kills p va M T K fl st m P n t f :
  vm m fl T K → alloc_unlocked m → T !! pagetable (P p) = Some M →
  page_ok (trapframe (P p)) → 0 <= va →
  let here := pst st m P n t f in
  match fault_case m (P p) M va with
  | FKill => page_fault cfg swtch fops p va here = kill_and_exit cfg swtch fops p here
  | FMark => page_fault cfg swtch fops p va here = setkilled p here
  | FCopy _ => fl = [] → page_fault cfg swtch fops p va here = kill_and_exit cfg swtch fops p here
  end.
Proof.
  intros Hvm Hu HT Htf Hva here.
  pose proof (page_fault_cases cfg swtch fops p va M st m P n t f Htf (vm_space _ _ _ _ Hvm _ M HT) Hva) as H.
  cbn zeta in H. destruct (fault_case m (P p) M va) as [| |pte] eqn:E; [done|done|].
  intros ->. by apply (page_fault_oom cfg swtch fops p va M T K pte).
Qed.

(** C38: The guard against stack overflow also catches valid memory: a write to
    a shared page whose address lies between one page below the page of the
    stack pointer and the first byte of that page kills the process. *)
Theorem page_fault_kills_near_stack p va M T K fl pte st m P n t f :
  vm m fl T K → T !! pagetable (P p) = Some M → page_ok (trapframe (P p)) →
  M !! (va / PGSIZE) = Some pte → truth (Z.land pte PTE_U) = true → truth (Z.land pte PTE_C) = true →
  let base := PGROUNDDOWN (field m (trapframe (P p)) 6) in
  PGSIZE <= base → base - PGSIZE <= va <= base →
  page_fault cfg swtch fops p va (pst st m P n t f) = kill_and_exit cfg swtch fops p (pst st m P n t f).
Proof.
  intros _ _ Htf _ _ _ base Hb Hva. apply page_fault_refused; [done|]. unfold fault_refused. fold base.
  assert (base < 2 ^ 64) as Hlt.
  { unfold base. pose proof (ld64_range (m_mem m) (trapframe (P p) + 8 * 6)) as Hr. fold (field m (trapframe (P p)) 6) in Hr.
    pose proof (PGROUNDDOWN_bounds (field m (trapframe (P p)) 6)). lia. }
  rewrite u64_small by (unfold PGSIZE in *; lia). apply orb_true_iff. right. lia.
Qed.

(** C12: Alarms are transparent: when the alarm goes off, the user continues in
    its handler with alarms masked, and the [sigreturn] of the handler gives
    back every register of the interrupted program, [a0] and the program
    counter included, whatever the handler did to the registers. *)
Theorem alarm_roundtrip p st m P n t f :
  let x := P p in
  has_frames x → alarm_due x = true →
  wp (alarm p) (λ _ st1,
    sigalarm (ps_proc st1 p) = 0 ∧ field (ps_m st1) (trapframe x) 3 = u64 (handler x) ∧
    ∀ st2, ps_cur st2 = Some p → ProcLock p ∉ m_held (ps_m st2) →
      trapframe (ps_proc st2 p) = trapframe x → trapcopy (ps_proc st2 p) = trapcopy x →
      (∀ i, 0 <= i < 36 → field (ps_m st2) (trapcopy x) i = field (ps_m st1) (trapcopy x) i) →
      i32 (field (ps_m st2) (trapframe x) 21) = 24 →
      wp (syscall cfg swtch fops A sys_file w r) (λ _ st3, ∀ i, 0 <= i < 36 → field (ps_m st3) (trapframe x) i =
        if kernel_field i then field (ps_m st2) (trapframe x) i else field m (trapframe x) i) st2)
    (pst st m P n t f).
Proof. apply alarm_then_sigreturn. Qed.

(** A system call with an unknown number returns -1 in [a0] and changes
    nothing else. *)
Theorem unknown_syscall_fails p st m P n t f :
  ps_cur st = Some p →
  let tf := trapframe (P p) in
  let num := i32 (field m tf 21) in
  page_ok tf → num <= 0 ∨ syscalls cfg swtch fops A sys_file w r num = None →
  wp (syscall cfg swtch fops A sys_file w r) (λ _ st',
    st' = pst st (m <| m_mem := st64 (m_mem m) (tf + 8 * 14) (2 ^ 64 - 1) |>) P n t f) (pst st m P n t f).
Proof. apply syscall_unknown. Qed.

(** [fetchaddr] reads a word exactly when all of it lies below the size of
    the process and is mapped for the user, also when [addr + 8] overflows. *)
Theorem fetchaddr_bounds p st m P n t f addr T K fl M :
  ps_cur st = Some p →
  vm m fl T K → T !! pagetable (P p) = Some M → user_low M → 0 <= addr < 2 ^ 64 → 0 <= sz (P p) <= MAXVA →
  wp (fetchaddr addr) (λ x st', st' = pst st m P n t f ∧
    ((x.1 = 0 ∧ addr + 8 <= sz (P p) ∧ length x.2 = 8%nat ∧ ureads m M addr x.2) ∨
     (x.1 = -1 ∧ (sz (P p) < addr + 8 ∨ ∃ i, 0 <= i < 8 ∧ uread m M (addr + i) = None)))) (pst st m P n t f).
Proof. intros Hcur. by apply (fetchaddr_spec p st m P n t f Hcur addr T K fl M). Qed.

(** A clock interrupt adds one to [ticks], ages every runnable process and
    charges every running one, and wakes exactly the processes that sleep on
    the clock. *)
Theorem clockintr_correct (s : pstate F) :
  TicksLock ∉ held s → (∀ p, ProcLock p ∉ held s) →
  wp (clockintr cfg) (λ _ s', held s' = held s ∧ ps_ticks s' = u32 (ps_ticks s + 1) ∧
    ∀ p, p ∈ procs → ps_proc s' p =
      if waiting s chan_ticks p then wake_proc cfg (u32 (ps_ticks s + 1)) (ps_proc s p)
      else tick_proc cfg (ps_proc s p)) s.
Proof. apply clockintr_spec. Qed.

(** [usertrapret] leaves every user register as it was saved, puts the
    kernel's values in the trap frame for the next trap, and returns to the
    saved program counter in user mode with interrupts enabled on return. *)
Theorem usertrapret_correct p st m P n t f :
  let x := P p in let c := ps_csr st in
  ps_cur st = Some p → page_ok (trapframe x) → 0 <= kstack x < 2 ^ 64 - PGSIZE →
  0 <= satp c < 2 ^ 64 → 0 <= tp c < 2 ^ 64 → 0 <= usertrap_pc A < 2 ^ 64 →
  wp (usertrapret A) (λ r st', ∃ m' c', st' = pst (st <| ps_csr := c' |>) m' P n t f ∧
    r = MAKE_SATP (pagetable x) ∧ m_held m' = m_held m ∧
    (∀ i, 0 <= i < 36 → field m' (trapframe x) i =
       if kernel_field i then kernel_value A c x i else field m (trapframe x) i) ∧
    sepc c' = field m (trapframe x) 3 ∧ stvec c' = TRAMPOLINE + uservec_off A ∧
    truth (Z.land (sstatus c') SSTATUS_SPP) = false ∧ truth (Z.land (sstatus c') SSTATUS_SIE) = false ∧
    truth (Z.land (sstatus c') SSTATUS_SPIE) = true) (pst st m P n t f).
Proof.
  intros x c Hcur Htf Hks Hs Ht Hu. wp_use (usertrapret_spec A p st m P n t f); [done..|].
  intros v st' (m' & c' & -> & -> & Hh & Hf & He & Hv & Hss & _). exists m', c'. split_and!; try done.
  all: rewrite Hss; apply user_status_bits.
Qed.
End traps.

(** * Instances *)

#[local] Existing Instance tiny.

(** A process with two frames in a machine whose memory is zero; its alarm is
    due at the next tick. *)
Definition framed_proc : proc :=
  blank_proc <| state := RUNNING |> <| trapframe := PHYSTOP - 4096 |> <| trapcopy := PHYSTOP - 8192 |>
    <| ticksn := 1 |> <| sigalarm := 1 |> <| handler := 64 |>.
Definition framed_state : pstate () := boot_state blank (λ _, framed_proc).

Lemma framed_ok : has_frames framed_proc.
Proof. split; [split; [reflexivity|vm_compute; split; congruence]..|vm_compute; congruence]. Qed.

(** One of two addresses in different pages is not next to the stack pointer. *)
Lemma some_not_refused (m : mach) x : ∃ va, (va = 100 ∨ va = 8292) ∧ fault_refused m x va = false.
Proof.
  unfold fault_refused. set (usp := field m (trapframe x) 6).
  assert (0 <= usp < 2 ^ 64) as Hr by apply ld64_range. pose proof (PGROUNDDOWN_bounds usp) as Hb.
  pose proof (PGROUNDDOWN_div usp) as Hd. set (q := usp / PGSIZE) in *. rewrite Hd in *.
  assert (0 <= q) by (apply Z.div_pos; [lia|done]). change MAXVA with (2 ^ 38).
  destruct (decide (q = 0)) as [E|Hq].
  { exists 100. split; [by left|]. rewrite E. reflexivity. }
  rewrite u64_small by (unfold PGSIZE in *; lia). unfold PGSIZE in *.
  destruct (decide (q = 1)) as [->|Hq1]; [exists 8292; split; [by right|reflexivity]|].
  exists 100. split; [by left|]. apply orb_false_iff. split; [done|]. apply andb_false_iff. left. lia.
Qed.

Lemma shared_mkpte p perm :
  0 <= p < 2 ^ 56 → 0 <= perm < 1024 → Z.testbit perm 5 = true → truth (Z.land (mkpte p perm) PTE_C) = true.
Proof.
  intros Hp Hpe Hb. rewrite mkpte_make. change PTE_C with (Z.shiftl 1 5).
  rewrite truth_flag_make by (lia || by apply lor_flags_range). by rewrite Z.lor_spec, Hb.
Qed.

Lemma shared_case m P fl T K M :
  booted m P fl T K M 3 (Z.lor (Z.lor PTE_R PTE_U) PTE_C) →
  ∃ va pte, 0 <= va < 12288 ∧ fault_case m (P 0) M va = FCopy pte.
Proof.
  intros Hb. destruct (some_not_refused m (P 0)) as (va & Hva & Hr).
  assert (0 <= va / PGSIZE < 3) as Hi by (destruct Hva as [-> | ->]; vm_compute; split; congruence).
  destruct (bt_pages _ _ _ _ _ _ _ _ Hb (va / PGSIZE) Hi) as (p & HM & Hp & _). pose proof (page_ok_range p Hp).
  exists va, (mkpte p (Z.lor (Z.lor PTE_R PTE_U) PTE_C)). split; [destruct Hva; lia|].
  unfold fault_case. rewrite Hr, HM, user_mkpte by (done || lia).
  by rewrite shared_mkpte by (done || lia).
Qed.


Lemma page_fault_kills_near_stack_witness :
  ∃ m P, page_fault RR no_swtch no_files 0 4096 (boot_state m P) = kill_and_exit RR no_swtch no_files 0 (boot_state m P).
Proof.
  destruct (boot_proc 3 PTE_C ltac:(lia) ltac:(done)) as (m & P & fl & T & K & M & Hb).
  destruct (bt_pages _ _ _ _ _ _ _ _ Hb 1 ltac:(lia)) as (p & HM & Hp & _). pose proof (page_ok_range p Hp).
  destruct Hb as [Hvm HK Hh Hlow Hcl Hrun Hfr Hsz Hfree _ _]. pose proof (rn_tf _ _ _ _ _ Hrun) as Htf.
  destruct (kernel_write m fl T K (trapframe (P 0)) (st64 (m_mem m) (trapframe (P 0) + 8 * 6) 4096) Hvm Htf) as (Hvm' & _).
  { intros x Hx. apply rd8_st64_ne. unfold in_page, PGSIZE in Hx. lia. }
  set (m' := m <| m_mem := _ |>) in *.
  assert (field m' (trapframe (P 0)) 6 = 4096) as Hsp by (apply ld64_st64_same; lia).
  exists m', P. apply (page_fault_kills_near_stack RR no_swtch no_files 0 4096 M T K fl (mkpte p (Z.lor (Z.lor PTE_R PTE_U) PTE_C))
    (boot_state m' P) m' P 1 0 () Hvm' (rn_map _ _ _ _ _ Hrun) (kp_ok _ _ _ Htf) HM);
    [by apply user_mkpte; [lia|..]|by apply shared_mkpte; [lia|..]|rewrite Hsp; vm_compute; congruence|rewrite Hsp; vm_compute; split; congruence].
Defined.

Lemma page_fault_otherwise_kills_witness :
  ∃ m P, page_fault RR no_swtch no_files 0 MAXVA (boot_state m P) = kill_and_exit RR no_swtch no_files 0 (boot_state m P).
Proof.
  destruct (boot_proc 1 PTE_W ltac:(lia) ltac:(done)) as (m & P & fl & T & K & M & [Hvm HK Hh Hlow Hcl Hrun Hfr Hsz Hfree _ _]).
  exists m, P.
  exact (page_fault_otherwise_kills RR no_swtch no_files 0 MAXVA M T K fl (boot_state m P) m P 1 0 () Hvm (unlocked m Hh)
    (rn_map _ _ _ _ _ Hrun) (kp_ok _ _ _ (rn_tf _ _ _ _ _ Hrun)) ltac:(vm_compute; congruence)).
Defined.

Lemma alarm_roundtrip_witness :
  wp (alarm 0) (λ _ st1, sigalarm (ps_proc st1 0) = 0 ∧ field (ps_m st1) (PHYSTOP - 4096) 3 = 64) framed_state.
Proof.
  eapply wp_mono; [apply (alarm_roundtrip RR no_swtch no_files no_asm (λ _, None) 0 0 0 framed_state blank (λ _, framed_proc) 1 0 ());
    [exact framed_ok|reflexivity]|].
  intros _ st1 (H1 & H2 & _). split; [exact H1|exact H2].
Defined.

Lemma unknown_syscall_fails_witness :
  wp (syscall RR no_swtch no_files no_asm (λ _, None) 0 0) (λ _ st', ∃ m', st' = pst framed_state m' (λ _, framed_proc) 1 0 ()) framed_state.
Proof.
  eapply wp_mono; [apply (unknown_syscall_fails RR no_swtch no_files no_asm (λ _, None) 0 0 0 framed_state blank (λ _, framed_proc) 1 0 () eq_refl);
    [apply framed_ok|left; vm_compute; congruence]|].
  intros _ st' ->. eexists. reflexivity.
Defined.

Lemma fetchaddr_bounds_witness :
  ∃ m P M, wp (fetchaddr 4092) (λ x st', x.1 = -1) (boot_state m P) ∧ uread m M 4092 ≠ None.
Proof.
  destruct (boot_proc 1 PTE_W ltac:(lia) ltac:(done)) as (m & P & fl & T & K & M & [Hvm HK Hh Hlow Hcl Hrun Hfr Hsz Hfree _ Hpg]).
  exists m, P, M. split.
  - eapply wp_mono; [apply (fetchaddr_bounds 0 (boot_state m P) m P 1 0 () 4092 T K fl M eq_refl Hvm (rn_map _ _ _ _ _ Hrun));
      [apply (Hlow _ _ (rn_map _ _ _ _ _ Hrun))|lia|rewrite Hsz; vm_compute; split; congruence]|].
    intros x st' (_ & [(_ & H & _)|(H & _)]); [rewrite Hsz in H; unfold PGSIZE in H; lia|exact H].
  - destruct (Hpg 0 ltac:(lia)) as (p & HM & Hp & _). pose proof (page_ok_range p Hp).
    unfold uread, uaddr. change (4092 / PGSIZE) with 0. rewrite HM. change (MAXVA <=? 4092) with false. cbv iota.
    rewrite user_mkpte, mkpte_pa by (done || lia || apply Hp). destruct (Z.eqb_spec p 0); [lia|done].
Defined.

Lemma clockintr_correct_witness :
  wp (clockintr MLFQ) (λ _ s', ps_ticks s' = 1 ∧ waittime (ps_proc s' 1) = 1) (demo_state ()).
Proof.
  eapply wp_mono; [apply (clockintr_correct MLFQ (demo_state ())); [|intros p]; apply not_elem_of_nil|].
  intros _ s' (_ & -> & H). split; [reflexivity|]. rewrite H; [reflexivity|].
  apply elem_of_seqZ. split; [discriminate|reflexivity].
Defined.

Lemma usertrapret_correct_witness :
  wp (usertrapret no_asm) (λ r st', r = MAKE_SATP 0 ∧ sepc (ps_csr st') = 0) framed_state.
Proof.
  eapply wp_mono; [apply (usertrapret_correct no_asm 0 framed_state blank (λ _, framed_proc) 1 0 () eq_refl);
    [apply framed_ok|vm_compute; split; congruence..]|].
  intros r st' (m' & c' & -> & -> & _ & _ & He & _). split; [reflexivity|]. exact He.
Defined.
