(* ===== verification/FsTheorems.v ===== *)
(** The properties of the buffer cache and of the log. *)
From S2P Require Import Prelude CString Spinlock Riscv Kalloc Vm Proc Boot FsState Sleeplock Bio Log.
From S2P Require Import FsFrame BioOps LogOps LogTx.

(** * The cache is transparent *)

(** Reading a block, and writing it through to the disk. *)
Inductive cop := CRead (b : Z) | CWrite (b : Z) (d : list Z).

Section cache.
Context (J : vdisk → Prop) (cfg : sched_cfg) (swtch : option Z → option Z → FM ()).
Context (rw : Z → bool → FM ()) `{HD : !DiskDriver J rw}.

Definition run_cop (dv : Z) (o : cop) : FM (list Z) :=
  match o with
  | CRead b =>
      i ← bread cfg swtch rw dv b;
      d ← getb i b_data;
      brelse cfg i ;;
      mret d
  | CWrite b d =>
      i ← bread cfg swtch rw dv b;
      setb i (λ x, x <| b_data := d |>) ;;
      bwrite rw i ;;
      brelse cfg i ;;
      mret d
  end.

Fixpoint run_cops (dv : Z) (l : list cop) : FM (list (list Z)) :=
  match l with
  | [] => mret []
  | o :: l' => d ← run_cop dv o; ds ← run_cops dv l'; mret (d :: ds)
  end.

(** The same on an array of blocks. *)
Definition direct (D : Z → list Z) (o : cop) : list Z * (Z → list Z) :=
  match o with CRead b => (D b, D) | CWrite b d => (d, put_block D (b, d)) end.
Fixpoint directs (D : Z → list Z) (l : list cop) : list (list Z) * (Z → list Z) :=
  match l with
  | [] => ([], D)
  | o :: l' => let r := direct D o in let rs := directs r.2 l' in (r.1 :: rs.1, rs.2)
  end.

Section run.
Context (S0 : pstate fsys) (u dv : Z) (Hu : ps_cur S0 = Some u).
Abbreviation at_fs := (at_fs J S0).
Abbreviation cache := (cache dv (taken S0 u)).

Lemma run_cop_spec m f s D o :
  at_fs m f s → m_held m = [] → cache f D ∅ ∅ →
  wp (run_cop dv o) (λ d s', d = (direct D o).1 ∧ ∃ f', at_fs m f' s' ∧ cache f' (direct D o).2 ∅ ∅) s.
Proof.
  intros Hs Hm Hc. destruct o as [b|b d]; unfold run_cop.
  all: fs_step; wp_use (bread_spec J cfg swtch rw S0 u dv Hu); [done|done|done|done|by right|].
  all: intros i s1 (f1 & Hs1 & Hc1 & Hb1); fs_step.
  - destruct (cache_held S0 u dv _ _ _ _ _ _ Hc1 (lookup_insert_eq _ _ _)) as (_ & _ & _ & _ & E & _).
    fs_step. rewrite E. fs_step. wp_use (brelse_spec J cfg S0 u dv Hu); [done|done|done|apply lookup_insert_eq| |].
    { right. rewrite (bu_disk _ _ Hb1). by apply (c_clean _ _ _ _ _ _ Hc). }
    intros [] s2 (f2 & Hs2 & Hc2 & _). rewrite delete_insert_id in Hc2 by done. fs_step. split; [done|]. by exists f2.
  - eapply cache_ext in Hc1; [|apply (put_block_id D b)].
    wp_use (set_data_spec J S0 u dv m f1 s1 D (D b) _ _ b i (λ _, d)); [done|done|apply lookup_insert_eq|].
    intros [] s2 (f2 & Hs2 & Hc2 & _). fs_step.
    wp_use (bwrite_spec J rw S0 u dv Hu); [done|done|done|apply lookup_insert_eq|].
    intros [] s3 (f3 & Hs3 & Hc3 & Hb3%wrote_write). fs_step.
    wp_use (brelse_spec J cfg S0 u dv Hu); [done|done|done|apply lookup_insert_eq| |].
    { right. rewrite (wrote_dread _ _ _ _ Hb3). simpl. by rewrite !put_block_same. }
    intros [] s4 (f4 & Hs4 & Hc4 & _). rewrite delete_insert_id in Hc4 by done. fs_step. split; [done|]. by exists f4.
Qed.

(** C22: The buffer cache is transparent: for every sequence of reads and
    writes, whatever is cached, recycled or moved in the list of buffers, each
    read returns the last data written to its block, and at the end the disk
    holds the last write of every block. *)
Theorem cache_transparent m f s l :
  at_fs m f s → m_held m = [] → cache f (dread (fs_disk f)) ∅ ∅ →
  wp (run_cops dv l) (λ ds s', ds = (directs (dread (fs_disk f)) l).1 ∧
    ∀ b, dread (fs_disk (ps_fs s')) b = (directs (dread (fs_disk f)) l).2 b) s.
Proof.
  intros Hs Hm Hc. enough (∀ D s f, at_fs m f s → cache f D ∅ ∅ →
    wp (run_cops dv l) (λ ds s', ds = (directs D l).1 ∧ ∃ f', at_fs m f' s' ∧ cache f' (directs D l).2 ∅ ∅) s) as H.
  { eapply wp_mono; [by eapply H|]. intros ds s' (-> & f' & Hs' & Hc'). split; [done|]. intros b.
    rewrite (fe_disk _ _ (at_f _ _ _ _ _ Hs')). symmetry. by apply (c_clean _ _ _ _ _ _ Hc'). }
  clear s f Hs Hc. induction l as [|o l IH]; intros D s f Hs Hc; cbn [run_cops].
  - fs_step. split; [done|]. by exists f.
  - fs_step. wp_use run_cop_spec; [done|done|done|]. intros d s1 (-> & f1 & Hs1 & Hc1). fs_step.
    wp_use IH; [done|done|]. intros ds s2 (-> & f2 & Hs2 & Hc2). fs_step. split; [done|]. by exists f2.
Qed.
End run.
End cache.

(** * Crash safety *)

Section log.
Context (J : vdisk → Prop) (cfg : sched_cfg) (swtch : option Z → option Z → FM ()).
Context (rw : Z → bool → FM ()) `{HD : !DiskDriver J rw}.
Context (S0 : pstate fsys) (u dv : Z) (Hu : ps_cur S0 = Some u).
Abbreviation at_fs := (at_fs J S0).
Abbreviation cache := (cache dv (taken S0 u)).

(** C2: Transactions are atomic: [begin_op], any updates of logged blocks and
    [end_op] return with the updates on the disk, and when the machine stops
    after any number of the disk writes they cause, recovery gives either the
    contents before the transaction or those after it, in every block outside
    the log. *)
Theorem transaction_atomic m f s st us :
  let D := dread (fs_disk f) in
  at_fs m f s → m_held m = [] → cache f D ∅ ∅ → log_ok dv st [] (fs_log f) →
  log_ctl (fs_log f) = (LOGSIZE, 0, 0) → disk_header (D st) [] →
  loggable st (logged_blocks us) → us ≠ [] → Z.of_nat (length us) < LOGSIZE →
  wp (transaction cfg swtch rw dv us) (λ _ s', ∃ ws,
    d_writes (fs_disk (ps_fs s')) = d_writes (fs_disk f) ++ ws ∧
    (∀ b, ¬ in_log st b → dread (fs_disk (ps_fs s')) b = updated D us b) ∧
    ∀ k, let d := foldl put_block D (take k ws) in
      recovers st d D ∨ recovers st d (updated D us)) s.
Proof.
  intros D Hs Hm Hc Hlg Hctl Hdh Hla Hne Hlen. injection Hctl as E1 E2 E3.
  assert (∀ b, b ∉ logged_blocks us → updated D us b = D b) as Hupd.
  { destruct (logged_blocks_spec us) as (_ & Hin & _). intros b Hb. rewrite Hin in Hb. clear - Hb. unfold updated.
    induction us as [|w us IH] using rev_ind; [done|]. rewrite fmap_app, elem_of_app in Hb. cbn in Hb.
    rewrite list_elem_of_singleton in Hb. rewrite foldl_app. cbn. unfold put_block. cbn.
    destruct (Z.eqb_spec b w.1); tauto. }
  wp_use (transaction_spec J cfg swtch rw S0 u dv Hu m f s st us); try done.
  intros [] s' (f' & D' & Hs' & Hc' & _ & HD' & Hw). pose proof (at_f _ _ _ _ _ Hs') as Hf.
  exists (commit_writes st (logged_blocks us) (updated D us)). rewrite (fe_disk _ _ Hf). split_and!.
  - apply Hw.
  - intros b Hb. rewrite <- HD' by done. symmetry. by apply (c_clean _ _ _ _ _ _ Hc').
  - intros k. apply crash_commit; try done; [|auto]. apply Hupd. intros Hin.
    destruct Hla as [_ _ _ Hr]. apply (Hr st Hin). apply in_log_start.
Qed.

(** C8: Recovery works from every crash: [initlog] on a disk from which
    contents [e] can be recovered returns with [e] on the disk and an empty
    log; and when the machine stops during the recovery, after any number of
    its disk writes, [e] can still be recovered. *)
Theorem recovery_restartable m f s sb e :
  let D := dread (fs_disk f) in let st := sb_logstart sb in
  at_fs m f s → m_held m = [] → cache f D ∅ ∅ → length (lh_block (fs_log f)) = Z.to_nat LOGSIZE →
  sb_nlog sb = LOGSIZE → l_outstanding (fs_log f) = 0 → l_committing (fs_log f) = 0 → recovers st D e →
  wp (initlog cfg swtch rw dv sb) (λ _ s', let D' := dread (fs_disk (ps_fs s')) in
    log_ok dv st [] (fs_log (ps_fs s')) ∧ disk_header (D' st) [] ∧
    (∀ b, ¬ in_log st b → D' b = e b) ∧
    ∃ ws, d_writes (fs_disk (ps_fs s')) = d_writes (fs_disk f) ++ ws ∧
      ∀ k, recovers st (foldl put_block D (take k ws)) e) s.
Proof.
  intros D st Hs Hm Hc Hlen Hnl Hout Hcom (hs & Hdh & Hla & He).
  wp_use (initlog_spec J cfg swtch rw S0 u dv Hu m f s sb hs); try done.
  intros [] s' (f' & Hs' & Hlg & _ & Hc' & Hw). pose proof (at_f _ _ _ _ _ Hs') as Hf.
  rewrite (fe_disk _ _ Hf), (fe_log _ _ Hf).
  assert (∀ b, dread (fs_disk f') b =
    put_block (foldl put_block D (home_writes st hs D)) (st, header [] (D st)) b) as HD'.
  { intros b. rewrite <- (c_clean _ _ _ _ _ _ Hc' b) by done. unfold recover_writes. by rewrite foldl_app. }
  split_and!.
  - done.
  - rewrite HD', put_block_same. eapply header_ok; [by eapply loggable_nil|apply Hdh].
  - intros b Hb. rewrite HD'. unfold put_block at 1. cbn. destruct (Z.eqb_spec b st) as [->|]; [|by apply He].
    destruct Hb. apply in_log_start.
  - exists (recover_writes st hs D). split; [apply Hw|]. intros k. by apply crash_recover.
Qed.
End log.

(** * Instances *)

(** A disk of zeroes with the log at block 2, and the buffers before [binit]. *)
Definition zero_block : list Z := replicate 1024 0.
Definition blank_fs : fsys :=
  let l0 := mkSleeplock 0 0 in
  mkFsys (mkDisk (λ _, zero_block) [])
    (mkVdisk (λ _, mkDesc DmaNull 0 0 0) (λ _, 0) 0 (λ _, 0) 0 (λ _, 0) 0 (λ _, None) (λ _, 0) (λ _, mkReq 0 0 0))
    (λ _, mkBuf 0 0 0 0 l0 0 0 0 zero_block)
    (mkLog 2 30 0 0 1 0 (replicate 30 0))
    (mkSuperblock FSMAGIC 2000 1954 200 30 2 32 45)
    (λ _, mkInode 0 0 0 l0 0 0 0 0 0 0 []) (λ _, mkFile FD_NONE 0 0 0 0 0 0 0)
    (mkConsole (λ _, 0) 0 0 0 (λ _, 0) 0 0 0 0).
Definition blank_state : pstate fsys :=
  mkPstate blank (λ _, blank_proc) (Some 0) None 1 0 0 0 1 false blank_csr blank_fs.

Definition stay : option Z → option Z → FM () := λ _ _, mret ().

Lemma booted_fs : ∃ s f, at_fs (λ _, True) blank_state blank f s ∧
  cache 1 (taken blank_state 0) f (dread (fs_disk f)) ∅ ∅ ∧ bufs_only blank_fs f.
Proof.
  destruct (proj1 (wp_returns _ _ _) (binit_spec (λ _, True) ideal_rw blank_state 0 1 eq_refl blank blank_fs blank_state
    (at_fs_here _ _ I) eq_refl ltac:(done))) as (_ & s & _ & f & Hs & Hc & Hb).
  exists s, f. rewrite (bu_disk _ _ Hb). done.
Qed.

Lemma zero_header : disk_header zero_block [].
Proof. by split. Qed.

Lemma cache_transparent_witness : ∃ s,
  wp (run_cops RR stay ideal_rw 1 [CRead 7; CWrite 7 [1; 2]; CRead 7]) (λ ds s', ds = [zero_block; [1; 2]; [1; 2]]) s.
Proof.
  destruct booted_fs as (s & f & Hs & Hc & Hb). exists s.
  pose proof (cache_transparent (λ _, True) RR stay ideal_rw blank_state 0 1 eq_refl blank f s
    [CRead 7; CWrite 7 [1; 2]; CRead 7] Hs eq_refl Hc) as H.
  eapply wp_mono; [exact H|]. intros ds s' [-> _]. rewrite (bu_disk _ _ Hb). reflexivity.
Defined.

Lemma transaction_atomic_witness : ∃ s,
  wp (transaction RR stay ideal_rw 1 [(100, λ _, [7])]) (λ _ s', dread (fs_disk (ps_fs s')) 100 = [7]) s.
Proof.
  destruct booted_fs as (s & f & Hs & Hc & Hb). exists s.
  pose proof (transaction_atomic (λ _, True) RR stay ideal_rw blank_state 0 1 eq_refl blank f s 2 [(100, λ _, [7])]
    Hs eq_refl Hc) as H. rewrite (bu_log _ _ Hb), (bu_disk _ _ Hb) in H.
  eapply wp_mono; [apply H|].
  - split; reflexivity.
  - reflexivity.
  - exact zero_header.
  - split; [by vm_compute|by vm_compute|apply NoDup_singleton|].
    intros b ->%list_elem_of_singleton. cbn. split; [lia|]. unfold in_log. change LOGSIZE with 30. lia.
  - discriminate.
  - by vm_compute.
  - intros [] s' (ws & _ & HD & _). rewrite HD; [reflexivity|]. unfold in_log. change LOGSIZE with 30. lia.
Defined.

Lemma recovery_restartable_witness : ∃ s,
  wp (initlog RR stay ideal_rw 1 (fs_sb blank_fs)) (λ _ s', dread (fs_disk (ps_fs s')) 100 = zero_block) s.
Proof.
  destruct booted_fs as (s & f & Hs & Hc & Hb). exists s.
  pose proof (recovery_restartable (λ _, True) RR stay ideal_rw blank_state 0 1 eq_refl blank f s (fs_sb blank_fs)
    (λ _, zero_block) Hs eq_refl Hc) as H. rewrite (bu_log _ _ Hb), (bu_disk _ _ Hb) in H.
  eapply wp_mono; [apply H; try reflexivity|].
  - exists []. split_and!; [exact zero_header| |done].
    split; [by vm_compute|done|constructor|]. intros b Hin. by apply elem_of_nil in Hin.
  - intros [] s' (_ & _ & HD & _). apply HD. unfold in_log. change LOGSIZE with 30. cbn. lia.
Defined.
