(* ===== verification/FileTheorems.v ===== *)
(** The properties of files, inodes and directories. *)
From S2P Require Import Prelude CString Spinlock Riscv Kalloc Vm Proc Boot FsState Sleeplock Bio Log Fs.
From S2P Require Import FsFrame BioOps LogOps LogTx FsTx FsAlloc FsInode FsDinode FsFile FsWrite FsTrunc FsCheck FsIget FsDir FsAtomic FsTheorems.

Section files.
Context `{KI : !KernelImage}.
Context (J : vdisk → Prop) (cfg : sched_cfg) (swtch : option Z → option Z → FM ()).
Context (rw : Z → bool → FM ()) `{HD : !DiskDriver J rw}.
Context (S0 : pstate fsys) (u : Z) (dv : Z).
Hypothesis Hu : ps_cur S0 = Some u.
Context (m : mach) (sb : superblock) (Fl : Z → file).
Hypothesis Hm : m_held m = [].
Hypothesis Hlay : layout sb.

Abbreviation quiet := (quiet J S0 u dv m sb Fl).
Abbreviation in_op := (in_op cfg swtch rw).
Abbreviation in_op_ok := (in_op_spec J cfg swtch rw S0 u dv Hu m sb Fl Hm Hlay).
Abbreviation consistent := (consistent sb).
Abbreviation loaded := (loaded sb).

(** Blocks after the start of the inodes are not in the log. *)
Lemma after_log k : sb_inodestart sb <= k → ¬ in_log (sb_logstart sb) k.
Proof. intros Hk [? ?]. pose proof (lo_log _ Hlay). lia. Qed.

Lemma logs_outside n hs k : logs sb n [] hs → k ∈ hs → ¬ in_log (sb_logstart sb) k.
Proof. intros [_ _ Hr] [?%elem_of_nil|[? _]]%Hr; [done|]. by apply after_log. Qed.

(** C4: Writing to a file is correct, atomic and keeps the file system
    consistent: the bytes written replace those of the file at the offset, the
    size grows to what was written, every other file and inode stays as it was;
    fewer bytes are written only when no block is free; and a crash after any
    of the disk writes leaves the old or the new contents. *)
Theorem file_write_atomic d I s ip off src bs :
  let x := I (ip - 1) in let n := Z.of_nat (length bs) in
  quiet d I s → ip ≠ 0 → i_dev x = dv → consistent (dread d) → loaded (dread d) x →
  0 <= off <= i_size x → off + n <= MAXFILE * BSIZE → nblocks off n <= 4 → Forall byte bs →
  supplies J S0 u dv m sb d 1 Fl src bs →
  wp (in_op (writei cfg swtch rw ip src off n)) (λ r s', ∃ d' D' x',
    quiet d' (upd_I I (ip - 1) (λ _, x')) s' ∧ atomic_step sb d D' d' ∧
    0 <= r <= n ∧ (r < n → full sb D') ∧
    file_written sb (dread d) x off (take (Z.to_nat r) bs) D' x' ∧ consistent D' ∧ loaded D' x') s.
Proof.
  intros x n Hq Hip Hdev Hc Hl Hoff Hmax Hnb Hbs Hsrc.
  assert (0 <= i_inum x < sb_ninodes sb) by (destruct (ld_inum _ _ _ Hl); lia).
  wp_use (in_op_ok (writei cfg swtch rw ip src off n) (λ r D' I', ∃ x', I' = upd_I I (ip - 1) (λ _, x') ∧
    0 <= r <= n ∧ (r < n → full sb D') ∧ file_written sb (dread d) x off (take (Z.to_nat r) bs) D' x')); [done| |].
  - intros s1 Hs1. assert (0 <= nblocks off n) by (unfold nblocks, BSIZE; pose proof (Z.div_le_mono off (off + n + 1024 - 1) 1024); lia).
    wp_use (writei_spec J cfg swtch rw S0 u dv Hu m sb d 1 Fl Hm Hlay (dread d) [] I ip off src bs); try done.
    + apply Hc.
    + by apply loaded_ok.
    + fold n. cbn [length]. change LOGSIZE with 30. lia.
    + intros r s2 (D' & hs' & x' & Hr & Hf & Hs2 & Hw & Hlg & Hin). exists D', hs', (upd_I I (ip - 1) (λ _, x')).
      split_and!; [done|by exists x'|by intros ->; apply elem_of_nil in Hin| |by intros k; eapply logs_outside].
      pose proof (ls_len _ _ _ _ Hlg) as Hlen. fold n in Hlen. cbn [length] in Hlen. change LOGSIZE with 30. lia.
  - intros r s2 (d' & D' & I' & Hq' & (x' & -> & Hr & Hf & Hw) & Hat). exists d', D', x'.
    destruct (consistent_write sb Hlay (dread d) x off (take (Z.to_nat r) bs) D' x') as [? ?]; [done|done|lia|done|].
    split_and!; (done || lia).
Qed.
(** A quiet file system as one without an operation in progress. *)
Lemma quiet_tx d I s : quiet d I s ↔ disk_header (dread d (sb_logstart sb)) [] ∧ tx J S0 u dv m sb d 0 Fl (dread d) ∅ [] I s.
Proof.
  split.
  - intros (f & Hf & [Q1 Q2 Q3 Q4 Q5 Q6 Q7 Q8]). split; [done|]. exists f. split; [done|]. split; try done.
    + constructor.
    + by intros k ?%elem_of_nil.
  - intros [Hh (f & Hf & [T1 T2 T3 T4 T5 T6 T7 T8 T9])]. exists f. done.
Qed.


(** C20: Truncating a file frees exactly its blocks: each of them is free
    afterwards, every other block keeps its state and its contents, the inode is
    empty on the disk, the other inodes are as they were, and the file system
    stays consistent; a crash leaves the old or the new contents. *)
Theorem file_truncate d I s ip :
  let x := I (ip - 1) in
  quiet d I s → ip ≠ 0 → i_dev x = dv → consistent (dread d) → loaded (dread d) x → sb_size sb / BPB < 27 →
  wp (in_op (itrunc cfg swtch rw ip)) (λ _ s', ∃ d' D' x',
    quiet d' (upd_I I (ip - 1) (λ _, x')) s' ∧ atomic_step sb d D' d' ∧
    truncated sb (dread d) x D' x' ∧ consistent D' ∧ loaded D' x') s.
Proof.
  intros x Hq Hip Hdev Hc Hl Hsz. assert (0 <= i_inum x < sb_ninodes sb) by (destruct (ld_inum _ _ _ Hl); lia).
  wp_use (in_op_ok (itrunc cfg swtch rw ip) (λ _ D' I', ∃ x', I' = upd_I I (ip - 1) (λ _, x') ∧
    truncated sb (dread d) x D' x')); [done| |].
  - intros s1 Hs1. wp_use (itrunc_spec J cfg swtch rw S0 u dv Hu m sb d 1 Fl Hm Hlay (dread d) [] I ip); try done.
    + apply Hc.
    + by apply loaded_ok.
    + cbn [length]. change LOGSIZE with 30. lia.
    + intros [] s2 (D' & hs' & x' & Hs2 & Ht & Hlen & Hin & Hout). exists D', hs', (upd_I I (ip - 1) (λ _, x')).
      split_and!; [done|by exists x'|by intros ->; apply elem_of_nil in Hin|cbn [length] in Hlen; change LOGSIZE with 30; lia|].
      intros k [?%elem_of_nil|?]%Hout; [done|by apply after_log].
  - intros [] s2 (d' & D' & I' & Hq' & (x' & -> & Ht) & Hat). exists d', D', x'.
    destruct (consistent_trunc sb Hlay (dread d) x D' x') as (? & ? & _); [done..|]. done.
Qed.

(** C23: [ialloc] takes a free inode: the inode it returns was not in use, has
    the given type and no blocks on the disk afterwards, all other inodes are as
    they were and the file system stays consistent. *)
Theorem ialloc_correct d I s type :
  quiet d I s → consistent (dread d) → (∃ i, 1 <= i < sb_ninodes sb ∧ ¬ allocated sb (dread d) i) → sb_ninodes sb < 2 ^ 31 →
  free_slot I (seqZ 0 NINODE) ≠ None → - 2 ^ 15 <= type < 2 ^ 15 → type ≠ 0 →
  wp (in_op (ialloc cfg swtch rw dv type)) (λ r s', ∃ d' D' inum i g,
    quiet d' (upd_I I i g) s' ∧ atomic_step sb d D' d' ∧
    ¬ allocated sb (dread d) inum ∧ allocated sb D' inum ∧ i_type (disk_inode sb D' inum) = type ∧
    empty_inode (disk_inode sb D' inum) ∧ iget_result I dv inum = Some (i, g) ∧ r = iptr i ∧
    (∀ j, 0 <= j < sb_ninodes sb → j ≠ inum → disk_inode sb D' j = disk_inode sb (dread d) j) ∧ consistent D') s.
Proof.
  intros Hq Hc (i0 & Hi0 & Hn0) Hni Hfs Ht Hnz. pose proof (dk_blocks _ _ (cs_disk _ _ Hc)) as HB.
  wp_use (in_op_ok (ialloc cfg swtch rw dv type) (λ r D' I', ∃ inum i g, I' = upd_I I i g ∧ 1 <= inum < sb_ninodes sb ∧
    ¬ allocated sb (dread d) inum ∧ iget_result I dv inum = Some (i, g) ∧ r = iptr i ∧
    D' = store_inode sb (dread d) (new_inode type inum))); [done| |].
  - intros s1 Hs1. wp_use (ialloc_spec J cfg swtch rw S0 u dv Hu sb d 1 Fl Hlay m Hm (dread d) [] I s1 type); try done.
    intros r s2 [(_ & Hall & _)|(inum & i & g & Hi & Hn & -> & Hg & Hs2)]; [by destruct Hn0; apply Hall|].
    eexists _, _, _. split_and!; [exact Hs2|by exists inum, i, g|done|done|].
    intros k Hk. apply logging_in in Hk as [?%elem_of_nil| ->]; [done|]. apply after_log.
    destruct (lay_iblock sb Hlay inum) as (_ & ? & _); lia.
  - intros r s2 (d' & D' & I' & Hq' & (inum & i & g & -> & Hi & Hn & Hg & -> & ->) & Hat).
    assert (inode_range (new_inode type inum)) as Hr by (split; try done; by apply Forall_replicate).
    assert (disk_inode sb (store_inode sb (dread d) (new_inode type inum)) inum = no_inode <| i_type := type |>
      <| i_addrs := replicate 13 0 |>) as Ed by (by apply (dinode_stored sb (dread d) (new_inode type inum))).
    exists d', (store_inode sb (dread d) (new_inode type inum)), inum, i, g. unfold allocated. rewrite Ed. split_and!; try done; try lia.
    + intros j Hj Hne. apply (dinode_other sb Hlay); try done. cbn. lia.
    + by apply consistent_empty.
Qed.
(** C19: Directories are finite maps: linking a name that is not in the directory
    adds exactly that name.  [dirlink] returns 0, afterwards the name leads to
    the inode number and every other name to where it led before; or the disk is
    full and it returns -1.  The file system stays consistent, a crash leaves
    the old or the new directory. *)
Theorem dirlink_adds d I s dp name inum :
  let x := I (dp - 1) in
  quiet d I s → dp ≠ 0 → i_dev x = dv → consistent (dread d) → loaded (dread d) x → dir_ok x →
  name_ok name → 0 < inum < 2 ^ 16 → dir_lookup (entries (dread d) x) (key name) = None →
  i_size x + DIRENT_SIZE <= MAXFILE * BSIZE →
  wp (in_op (dirlink cfg swtch rw dp name inum)) (λ r s', ∃ d' D' x',
    quiet d' (upd_I I (dp - 1) (λ _, x')) s' ∧ atomic_step sb d D' d' ∧ consistent D' ∧ loaded D' x' ∧
    ((r = 0 ∧ dir_ok x' ∧ ∀ n, dir_lookup (entries D' x') n =
        if decide (n = key name) then Some inum else dir_lookup (entries (dread d) x) n) ∨
     (r = -1 ∧ full sb D'))) s.
Proof.
  intros x Hq Hdp Hdev Hc Hl Hdir Hname Hinum Hnone Hroom.
  assert (0 <= i_inum x < sb_ninodes sb) by (destruct (ld_inum _ _ _ Hl); lia). pose proof (loaded_ok _ _ _ Hc Hl) as Hx.
  set (k := dir_slot (entries (dread d) x)). set (de := new_dirent name inum).
  wp_use (in_op_ok (dirlink cfg swtch rw dp name inum) (λ r D' I', ∃ x' w, I' = upd_I I (dp - 1) (λ _, x') ∧
    file_written sb (dread d) x (Z.of_nat k * DIRENT_SIZE) (take w de) D' x' ∧ ((r = 0 ∧ take w de = de) ∨ (r = -1 ∧ full sb D')))); [done| |].
  - intros s1 Hs1. wp_use (dirlink_spec J cfg swtch rw S0 u dv Hu m sb d 1 Fl Hm Hlay (dread d) [] I dp); try done.
    + apply Hc.
    + intros r s2 (D' & hs' & x' & w & Hs2 & Hw & Hlg & Hin & Hr). exists D', hs', (upd_I I (dp - 1) (λ _, x')).
      split_and!; [done|by exists x', w|by intros ->; apply elem_of_nil in Hin| |by intros j; eapply logs_outside].
      pose proof (ls_len _ _ _ _ Hlg) as Hlen. cbn [length] in Hlen. change LOGSIZE with 30. lia.
  - intros r s2 (d' & D' & I' & Hq' & (x' & w & -> & Hw & Hr) & Hat). exists d', D', x'.
    destruct (consistent_write sb Hlay (dread d) x (Z.of_nat k * DIRENT_SIZE) (take w de) D' x') as [? ?]; [done|done|unfold DIRENT_SIZE; lia|done|].
    split_and!; try done. destruct Hr as [[-> Etk]|?]; [left|by right]. rewrite Etk in Hw.
    destruct (new_dirent_fields name inum Hname Hinum) as (F1 & _ & F3 & F4). destruct (io_size _ _ _ Hx) as [Hs0 _].
    assert (Z.of_nat k * DIRENT_SIZE <= i_size x) as Hk.
    { pose proof (dir_slot_length (entries (dread d) x)) as Hk. fold k in Hk. rewrite entries_length in Hk by done.
      destruct Hdir as [_ [q Eq]]. rewrite Eq, Z.div_mul in Hk by done. unfold DIRENT_SIZE in *. lia. }
    split_and!; [done|by eapply written_dir|]. intros n. rewrite (written_entries sb (dread d) x k de D' x') by done.
    unfold de. rewrite F3, F4. apply dir_lookup_insert; [lia|done].
Qed.
End files.

(** * Instances *)

(** A disk of 2000 blocks with an empty root directory: the log at block 2, the
    inodes at 32, the bitmap at 45, the data from 46 on. *)
Definition small_sb : superblock := mkSuperblock FSMAGIC 2000 1954 200 30 2 32 45.
Definition root_inode : inode := mkInode 1 1 1 (mkSleeplock 0 0) 1 T_DIR 0 0 1 0 (replicate 13 0).
Definition small_image (b : Z) : list Z :=
  if b =? 45 then replicate 5 255 ++ [63] ++ replicate 1018 0
  else if b =? 32 then put_dinode (inode_off 1) root_inode (replicate 1024 0)
  else replicate 1024 0.
Definition small_disk : disk := mkDisk small_image [].
Definition small_inodes (i : Z) : inode := if i =? 0 then root_inode else no_inode.
Definition no_files (i : Z) : file := mkFile FD_NONE 0 0 0 0 0 0 0.

Definition small_fs : fsys :=
  mkFsys small_disk
    (mkVdisk (λ _, mkDesc DmaNull 0 0 0) (λ _, 0) 0 (λ _, 0) 0 (λ _, 0) 0 (λ _, None) (λ _, 0) (λ _, mkReq 0 0 0))
    (λ _, mkBuf 0 0 0 0 (mkSleeplock 0 0) 0 0 0 (replicate 1024 0))
    (mkLog 2 30 0 0 1 0 (replicate 30 0)) small_sb small_inodes no_files
    (mkConsole (λ _, 0) 0 0 0 (λ _, 0) 0 0 0 0).
Definition small_state : pstate fsys :=
  mkPstate blank (λ _, blank_proc) (Some 0) None 1 0 0 0 1 false blank_csr small_fs.

Lemma small_layout : layout small_sb.
Proof. split; cbn; change LOGSIZE with 30; change IPB with 16; change BPB with 8192; vm_compute; intuition discriminate. Qed.

Lemma small_quiet : ∃ s, quiet (λ _, True) small_state 0 1 blank small_sb no_files small_disk small_inodes s.
Proof.
  destruct (proj1 (wp_returns _ _ _) (binit_spec (λ _, True) ideal_rw small_state 0 1 eq_refl blank small_fs small_state
    (at_fs_here _ _ I) eq_refl ltac:(done))) as (_ & s & _ & f & Hs & Hc & [B1 B2 B3 B4 B5]).
  exists s, f. split; [done|]. split; rewrite ?B1, ?B2, ?B3; try done; by split.
Qed.

Lemma small_blocks b : block (small_image b).
Proof.
  unfold small_image. destruct (b =? 45); [split; [done|]; rewrite !Forall_app; split_and!; by repeat constructor || apply Forall_replicate|].
  destruct (b =? 32); [|split; [done|by apply Forall_replicate]].
  apply (put_dinode_block root_inode); [done|]. split; [done|by apply Forall_replicate].
Qed.

(** A property of the numbers in a range, by evaluation. *)
Lemma range_check (P : Z → Prop) `{∀ i, Decision (P i)} lo n :
  forallb (λ i, bool_decide (P i)) (seqZ lo n) = true → ∀ i, lo <= i < lo + n → P i.
Proof.
  intros Hf i Hi. rewrite forallb_forall in Hf. apply (bool_decide_eq_true_1 (P i)), Hf, list_elem_of_In, elem_of_seqZ. lia.
Qed.

Lemma small_disk_ok : disk_ok small_sb small_image.
Proof.
  split; [exact small_blocks|]. change (datastart small_sb) with 46.
  apply (range_check (λ b, used small_sb small_image b = true) 0 46). by vm_compute.
Qed.

Lemma small_unused b : data_block small_sb b → used small_sb small_image b = false.
Proof.
  intros [H1 H2]. change (datastart small_sb) with 46 in H1. change (sb_size small_sb) with 2000 in H2.
  apply (range_check (λ b, used small_sb small_image b = false) 46 1954); [by vm_compute|lia].
Qed.

Lemma small_allocated i : allocated small_sb small_image i → i = 1.
Proof.
  intros [Hi Ht]. change (sb_ninodes small_sb) with 200 in Hi.
  assert (i = 1 ∨ i_type (disk_inode small_sb small_image i) = 0); [|tauto].
  apply (range_check (λ i, i = 1 ∨ i_type (disk_inode small_sb small_image i) = 0) 1 199); [by vm_compute|lia].
Qed.

Lemma small_loaded : loaded small_sb small_image root_inode.
Proof.
  split; [done|done| |by vm_compute]. split; try done. by apply Forall_replicate.
Qed.

Lemma small_consistent : consistent small_sb small_image.
Proof.
  split.
  - exact small_disk_ok.
  - intros i ->%small_allocated. by apply empty_ok.
  - intros i j b ->%small_allocated ->%small_allocated. done.
  - intros b Hb Hu. rewrite small_unused in Hu by done. done.
Qed.

Lemma file_write_atomic_witness : ∃ s,
  wp (in_op RR stay ideal_rw (writei RR stay ideal_rw 1 (FromLocal [72; 105]) 0 2)) (λ r s', 0 <= r <= 2) s.
Proof.
  destruct small_quiet as (s & Hq). exists s.
  pose proof (file_write_atomic (λ _, True) RR stay ideal_rw small_state 0 1 eq_refl blank small_sb no_files eq_refl small_layout
    small_disk small_inodes s 1 0 (FromLocal [72; 105]) [72; 105] Hq) as H.
  eapply wp_mono; [apply H|].
  - done.
  - done.
  - exact small_consistent.
  - exact small_loaded.
  - done.
  - by vm_compute.
  - by vm_compute.
  - by repeat constructor.
  - apply supplies_local.
  - intros r s' (d' & D' & x' & _ & _ & Hr & _). exact Hr.
Defined.


Lemma file_truncate_witness : ∃ s,
  wp (in_op RR stay ideal_rw (itrunc RR stay ideal_rw 1)) (λ _ s', ∃ D', consistent small_sb D') s.
Proof.
  destruct small_quiet as (s & Hq). exists s.
  pose proof (file_truncate (λ _, True) RR stay ideal_rw small_state 0 1 eq_refl blank small_sb no_files eq_refl small_layout
    small_disk small_inodes s 1 Hq) as H.
  eapply wp_mono; [apply H|].
  - done.
  - done.
  - exact small_consistent.
  - exact small_loaded.
  - by vm_compute.
  - intros [] s' (d' & D' & x' & _ & _ & _ & HD' & _). by exists D'.
Defined.

Lemma ialloc_correct_witness : ∃ s,
  wp (in_op RR stay ideal_rw (ialloc RR stay ideal_rw 1 T_FILE)) (λ r s', ∃ D' inum, allocated small_sb D' inum) s.
Proof.
  destruct small_quiet as (s & Hq). exists s.
  pose proof (ialloc_correct (λ _, True) RR stay ideal_rw small_state 0 1 eq_refl blank small_sb no_files eq_refl small_layout
    small_disk small_inodes s T_FILE Hq small_consistent) as H.
  eapply wp_mono; [apply H|].
  - exists 2. split; [done|]. by intros ?%small_allocated.
  - done.
  - by vm_compute.
  - done.
  - done.
  - intros r s' (d' & D' & inum & i & g & _ & _ & _ & Ha & _). by exists D', inum.
Defined.

Lemma dirlink_adds_witness : ∃ s,
  wp (in_op RR stay ideal_rw (dirlink (KI := tiny) RR stay ideal_rw 1 [97; 0] 2)) (λ r s', r = 0 ∨ r = -1) s.
Proof.
  destruct small_quiet as (s & Hq). exists s.
  pose proof (dirlink_adds (KI := tiny) (λ _, True) RR stay ideal_rw small_state 0 1 eq_refl blank small_sb no_files eq_refl small_layout
    small_disk small_inodes s 1 [97; 0] 2 Hq) as H.
  eapply wp_mono; [apply H|].
  - done.
  - done.
  - exact small_consistent.
  - exact small_loaded.
  - split; [done|]. by exists 0.
  - split; [by repeat constructor|by vm_compute; lia].
  - done.
  - done.
  - by vm_compute.
  - intros r s' (d' & D' & x' & _ & _ & _ & _ & [[? _]|[? _]]); auto.
Defined.
