(* ===== verification/PipeTheorems.v ===== *)
(** The property of pipes: what one process writes another one reads. *)
From S2P Require Import Prelude CString Spinlock Riscv Kalloc Vm PageTable Uvm UvmOps UvmGrow.
From S2P Require Import UserCopy Proc ProcState Sched ProcOps ProcNew Fork Pipe PipeOps Boot MemTheorems.

Section pipe_theorems.
Context `{KI : !KernelImage} {F : Type}.
Context (cfg : sched_cfg) (swtch : option Z → option Z → kM (pstate F) ()).
Implicit Types (T : gmap Z (gmap Z Z)) (M : gmap Z Z) (K : Z → Z) (st : pstate F).

Lemma wake_pagetable now x : pagetable (wake_proc cfg now x) = pagetable x.
Proof. by destruct x, cfg. Qed.

Lemma woken_pagetable (s : pstate F) c l (s' : pstate F) q : woken cfg s c l s' → pagetable (ps_proc s' q) = pagetable (ps_proc s q).
Proof. intros (P & -> & HP). cbn. rewrite HP. case_decide; [apply wake_pagetable|done]. Qed.

(** C10: A pipe is a first-in first-out queue of bytes.  Process [w] writes [k]
    bytes from its address [a] to a pipe that holds [q] and has room for them;
    then process [d] reads [k'] bytes to its address [b].  The write returns the
    number of bytes that [w] could read, the read gets the bytes in the order in
    which they were written, those that were in the pipe before first; what was
    read is gone from the pipe and the rest is still there; no other process
    sees a change. *)
Theorem pipe_fifo w d st m P n t f fl T K pi ro wo q a k Mw b k' Md :
  ps_cur st = Some w → pipe_vm m fl T K pi → pipe_at (m_mem m) pi ro wo q → pipe_unlocked m pi → w ∈ procs →
  ro ≠ 0 → killed_ (P w) = 0 → T !! pagetable (P w) = Some Mw → T !! pagetable (P d) = Some Md →
  0 <= a → 0 < k → a + k < 2 ^ 64 → Z.of_nat (length q) + k <= PIPESIZE →
  uread m Mw a ≠ None → can_copy fl b k' Md →
  wp (i ← pipewrite cfg swtch pi a k;
      modify (λ s, s <| ps_cur := Some d |>) ;;
      j ← piperead cfg swtch pi b k';
      mret (i, j)) (λ '(i, j) st', ∃ bs M' j', i = Z.of_nat (length bs) ∧ user_bytes m Mw a k bs ∧ j = Z.of_nat j' ∧
    (∀ va, 0 <= va → uread (ps_m st') M' va = overwrite b (take j' (q ++ bs)) (uread m Md) va) ∧
    others_same m T (pagetable (P d)) (ps_m st') ∧
    read_result pi ro wo b k' (q ++ bs) Md m j' (ps_m st')) (pst st m P n t f).
Proof.
  intros Hcur Hpv Hq Hu Hw Hro Hk HTw HTd Ha Hk0 Hak Hroom Hread Hcc.
  wp_step. wp_use (pipewrite_spec cfg swtch w st P n t f fl T K Hcur m pi ro wo q a k Mw); try done; [lia|].
  intros i st1 (m1 & bs & -> & Hw1 & Hh1 & Hpv1 & Hs1 & Hub & Hq1). wp_step. wp_step.
  pose proof (woken_pagetable _ _ _ _ d Hw1) as Hpt. cbn in Hpt. destruct Hw1 as (P1 & -> & HP1).
  set (st2 := _ <| ps_cur := Some d |>). cbn in Hpt. rewrite (pst_eq st2). wp_step.
  change (ps_m st2) with m1. change (ps_proc st2) with P1.
  assert (pagetable (P1 d) = pagetable (P d)) as Hpd by exact Hpt.
  wp_use (piperead_spec cfg swtch d st2 P1 (ps_nextpid st2) (ps_totaltickets st2) (ps_fs st2) fl T K eq_refl
    pi ro wo b k' (q ++ bs) Md m1); try done.
  - destruct Hu as [H1 H2 [H3 H4]]. split; [|..|split]; by rewrite Hh1.
  - by rewrite Hpd.
  - left. intros E. destruct (app_eq_nil _ _ E) as [_ ->]. destruct Hub as [_ [Hl|[_ Hn]]]; [simpl in Hl; lia|].
    by rewrite Z.add_0_r in Hn.
  - rewrite Hpd. intros j st3 (j' & m3 & fl3 & M3 & -> & (P3 & -> & _) & Hh3 & Hpv3 & Ho3 & Hv3 & Hres).
    wp_step. exists bs, M3, j'. cbn. split_and!; try done.
    + intros va Hva. rewrite Hv3 by done. apply overwrite_ext. by apply (Hs1 (pagetable (P d))).
    + intros r2 M2 va Hr2 HT2 Hva. rewrite (Ho3 r2 M2) by done. by apply (Hs1 r2).
    + destruct Hres as [?|(? & Hn & ?)]; [by left|right]. split_and!; [done| |done].
      destruct Hcc. rewrite <- (Hs1 (pagetable (P d))) by (done || lia). done.
Qed.
End pipe_theorems.

(** ** An instance *)

(** What [pipealloc] makes of a page. *)
Definition fresh_pipe (m : mem) (pi : Z) : mem :=
  st32 (st32 (st32 (st32 m (pi + pi_readopen) 1) (pi + pi_writeopen) 1) (pi + pi_nwrite) 0) (pi + pi_nread) 0.

Lemma fresh_pipe_at m pi : pipe_at (fresh_pipe m pi) pi 1 1 [].
Proof.
  exists 0. unfold fresh_pipe. split; try done;
    repeat first [rewrite ld32_st32_eq; done|rewrite ld32_st32_ne by (pipe_consts; lia)].
Qed.

Lemma fresh_pipe_out m pi x : ¬ in_page pi x → rd8 (fresh_pipe m pi) x = rd8 m x.
Proof. unfold in_page. intros H. unfold fresh_pipe. rewrite !rd8_st32_ne by (pipe_consts; lia). done. Qed.

#[local] Existing Instance tiny.

(** An address space of one page beside an empty pipe. *)
Lemma boot_pipe : ∃ m fl r M K pi, pipe_vm m fl {[r := M]} K pi ∧ pipe_at (m_mem m) pi 1 1 [] ∧ m_held m = [] ∧
  (2 <= length fl)%nat ∧ (∀ p, M !! 0 = Some p → truth (Z.land p PTE_W) = true) ∧
  ∀ va, 0 <= va < PGSIZE → uread m M va ≠ None.
Proof.
  destruct (boot_user 1 PTE_W ltac:(lia) ltac:(done)) as (s & fl & r & M & Hvm & Hh & Hl & Hin & Hout).
  destruct (boot_mapped s fl r M 1 PTE_W Hvm ltac:(lia) ltac:(done) Hin Hout) as (Hmap & Hlow & Hb).
  destruct fl as [|pi fl]; [simpl in Hl; lia|].
  pose proof (kalloc_vm s fl {[r := M]} no_refs pi Hvm ltac:(done) (unlocked s Hh)) as Hw.
  apply wp_returns in Hw as (x & s1 & _ & _ & Hp & H0 & _ & (Hh1 & _) & _ & Hvm1).
  destruct (free_no_ref _ _ _ _ _ Hvm ltac:(done) Hp H0) as (_ & Hr & _).
  assert (pipe_vm s1 fl {[r := M]} (kadd no_refs pi 1) pi) as Hpv.
  { split; try done; [by apply kpos_kadd|by intros ? ? [_ <-]%lookup_singleton_Some|by rewrite kadd_eq]. }
  destruct (pipe_vm_write s1 fl _ _ pi (fresh_pipe (m_mem s1) pi) Hpv (fresh_pipe_out _ _)) as [Hpv2 _].
  eexists _, fl, r, M, _, pi. split_and!; [exact Hpv2|apply fresh_pipe_at|cbn; by rewrite Hh1|simpl in Hl; lia| |].
  - intros p HM. by apply (Hb 0).
  - intros va Hva. apply (mapped_readable _ fl {[r := M]} (kadd no_refs pi 1) r M 1 va);
      [by eapply pv_vm|apply lookup_singleton_eq|done| |lia]. intros i p Hi HM. by apply (Hb i).
Qed.

Lemma pipe_fifo_witness : ∃ m m' M M' pi,
  pipe_at (m_mem m) pi 1 1 [] ∧ uread m' M' 100 = uread m M 0 ∧ uread m' M' 101 = uread m M 1 ∧
  uread m M 1 ≠ None ∧ pipe_at (m_mem m') pi 1 1 [].
Proof.
  destruct boot_pipe as (m & fl & r & M & K & pi & Hpv & Hq & Hh & Hl & HW & Hread).
  set (P := λ _ : Z, blank_proc <| pagetable := r |>).
  pose proof (pipe_fifo (F := ()) RR (λ _ _, mret ()) 0 0 (boot_state m P) m P 1 0 () fl {[r := M]} K pi 1 1 [] 0 2 M 100 2 M
    eq_refl Hpv Hq ltac:(split; [rewrite Hh; apply not_elem_of_nil|intros; rewrite Hh; apply not_elem_of_nil|by apply unlocked])
    ltac:(change procs with (0 :: seqZ 1 63); constructor) ltac:(done) eq_refl (lookup_singleton_eq _ _) (lookup_singleton_eq _ _)
    ltac:(done) ltac:(done) ltac:(done) ltac:(done) ltac:(apply Hread; done)) as Hw.
  destruct (proj1 (wp_returns _ _ _) (Hw ltac:(split; try done; [|unfold PGSIZE; lia]; intros va pte Hva HM _; left;
    rewrite Z.div_small in HM by (unfold PGSIZE; lia); by apply HW))) as ([i j] & st & _ & bs & M' & j' & _ & [Hbs Hlen] & _ & Hv & _ & Hres).
  assert (length bs = 2%nat) as Hl2.
  { destruct Hlen as [?|[Hlt Hn]]; [lia|]. by apply Hread in Hn; [|unfold PGSIZE; lia]. }
  destruct bs as [|x [|y [|]]]; try done. cbn [app length] in *.
  destruct Hres as [[Hj Hp]|(Hj & Hn & _)]; [|by apply Hread in Hn; [|unfold PGSIZE; lia]].
  assert (j' = 2%nat) as -> by (simpl in Hj; lia).
  exists m, (ps_m st), M, M', pi. split_and!; [done| | |by apply Hread|done].
  - rewrite Hv by done. symmetry. exact (Hbs 0%nat x eq_refl).
  - rewrite Hv by done. symmetry. exact (Hbs 1%nat y eq_refl).
Defined.
