(* ===== verification/AsmTheorems.v ===== *)
(** The properties of the assembly routines, and how they fit the C code: the
    MMU reads the page tables that [kernel/vm.c] builds, a trap saves and
    restores the user's registers, a context switch is undone by the switch
    back, the timer interrupt is transparent. *)
From S2P Require Import Prelude CString Spinlock Riscv Asm Kalloc Vm PageTable Uvm UvmOps UvmGrow.
From S2P Require Import UserCopy Proc ProcState ProcMem Trap TrapOps Sched ProcOps ProcNew Fork SyscallOps AsmOps Boot.

Section mmu.
Context `{KI : !KernelImage}.

Lemma flags_inner pte : PTE_FLAGS pte = PTE_V →
  truth (Z.land pte PTE_V) = true ∧ truth (Z.land pte PTE_R) = false ∧ truth (Z.land pte PTE_W) = false ∧
  truth (Z.land pte PTE_X) = false.
Proof. intros H. unfold PTE_V, PTE_R, PTE_W, PTE_X in *. rewrite !truth_flag, H by lia. done. Qed.

(** The walk of the hardware through an entry of the upper levels. *)
Lemma sv39_inner (s : mach) root path t va (level : nat) :
  pt_wf s root → valid_path path → (length path <= 1)%nat → node (m_mem s) root path = Some t →
  Hart.sv39_walk (m_mem s) (S level) t va =
  pt_next (m_mem s) t (PX (Z.of_nat (S level)) va) ≫= λ t', Hart.sv39_walk (m_mem s) level t' va.
Proof.
  intros Hwf Hv Hl Hn. unfold Hart.sv39_walk at 1; fold Hart.sv39_walk. unfold pt_next.
  destruct (truth (Z.land _ PTE_V)) eqn:EV; [|done].
  destruct (pw_inner _ _ Hwf path t (PX (Z.of_nat (S level)) va) Hv Hl Hn (PX_range _ _) EV) as [Hf _].
  destruct (flags_inner _ Hf) as (_ & ER & EW & EX). unfold Hart.pte_leaf. rewrite ER, EW, EX. done.
Qed.

Lemma sv39_walk_map (s : mach) root M va :
  aspace s root M → 0 <= va < MAXVA →
  Hart.sv39_walk (m_mem s) 2 root va = M !! (va / PGSIZE) ≫= λ pte,
    if negb (truth (Z.land pte PTE_R)) && truth (Z.land pte PTE_W) then None
    else if Hart.pte_leaf pte then Some (pte, 0%nat) else None.
Proof.
  intros [Hwf Hleaf Hvalid] Hva. specialize (Hleaf va Hva). unfold leaf_pte, leaf_addr in Hleaf.
  assert (∀ pte, M !! (va / PGSIZE) = Some pte → truth (Z.land pte PTE_V) = true) as HV by (intros; by eapply Hvalid).
  rewrite (sv39_inner s root [] root); [|done|apply valid_path_nil|simpl; lia|done].
  change (Z.of_nat 2) with 2. unfold va_path in Hleaf. change [PX 2 va; PX 1 va] with ([PX 2 va] ++ [PX 1 va]) in Hleaf.
  rewrite node_snoc in Hleaf. change (node (m_mem s) root [PX 2 va]) with (pt_next (m_mem s) root (PX 2 va) ≫= Some) in Hleaf.
  destruct (pt_next (m_mem s) root (PX 2 va)) as [t|] eqn:E2; cbn [mbind option_bind] in *.
  2: { destruct (M !! (va / PGSIZE)) as [pte|] eqn:EM; [|done]. specialize (HV pte eq_refl). by simpl in Hleaf; subst pte. }
  rewrite (sv39_inner s root [PX 2 va] t); [|done| |simpl; lia|].
  2: { split; [simpl; lia|]. repeat constructor; apply PX_range. }
  2: { change (node (m_mem s) root [PX 2 va]) with (pt_next (m_mem s) root (PX 2 va) ≫= Some). by rewrite E2. }
  change (Z.of_nat 1) with 1.
  destruct (pt_next (m_mem s) t (PX 1 va)) as [t'|] eqn:E1; cbn [mbind option_bind fmap option_fmap option_map] in *.
  2: { destruct (M !! (va / PGSIZE)) as [pte|] eqn:EM; [|done]. specialize (HV pte eq_refl). by simpl in Hleaf; subst pte. }
  unfold Hart.sv39_walk. change (Z.of_nat 0) with 0. rewrite Hleaf.
  destruct (M !! (va / PGSIZE)) as [pte|] eqn:EM; [change (default 0 (Some pte)) with pte|done].
  rewrite (HV pte eq_refl). done.
Qed.

(** An access of the kernel to a page that is mapped for it alone. *)
Lemma sv39_kernel (s : mach) root M va pte w :
  aspace s root M → 0 <= va < MAXVA → M !! (va / PGSIZE) = Some pte → 0 <= pte < 2 ^ 54 →
  truth (Z.land pte PTE_R) = true → truth (Z.land pte PTE_W) = true → truth (Z.land pte PTE_U) = false →
  Hart.sv39 (m_mem s) root va w = Some (PTE2PA pte + va mod PGSIZE).
Proof.
  intros Ha Hva HM Hpte HR HW HU. unfold Hart.sv39. change MAXVA with (2 ^ 38) in Hva.
  assert ((va <? 2 ^ 38) = true) as -> by lia. cbn [negb orb].
  rewrite (sv39_walk_map s root M) by (done || (change MAXVA with (2 ^ 38); lia)). rewrite HM. cbn [mbind option_bind].
  unfold Hart.pte_leaf. rewrite HR. cbn [negb andb orb]. rewrite HU. cbn [orb].
  assert (truth (Z.land pte (if w then PTE_W else PTE_R)) = true) as -> by (by destruct w). cbn [negb].
  change (2 ^ (PGSHIFT + 9 * Z.of_nat 0)) with PGSIZE. rewrite PTE2PA_aligned by lia. done.
Qed.

(** The page table that [MAKE_SATP] names. *)
Lemma satp_root r mem va w :
  0 <= r < 2 ^ 56 → r mod PGSIZE = 0 →
  Hart.translate Hart.Supervisor (MAKE_SATP r) mem va w = Hart.sv39 mem r va w.
Proof.
  intros Hr Hal. unfold Hart.translate, MAKE_SATP.
  assert (0 <= Z.shiftr r 12 < 2 ^ 44) as Hs.
  { rewrite Z.shiftr_div_pow2 by lia. split; [apply Z.div_pos; lia|apply Z.div_lt_upper_bound; lia]. }
  assert (Z.lor SATP_SV39 (Z.shiftr r 12) = 8 * 2 ^ 60 + Z.shiftr r 12) as ->.
  { apply (lor_add_pow2 _ _ 60); [lia|done|lia]. }
  assert (Z.shiftr (8 * 2 ^ 60 + Z.shiftr r 12) 60 = 8) as ->.
  { rewrite (Z.shiftr_div_pow2 _ 60) by lia. rewrite Z.div_add_l, (Z.div_small (Z.shiftr r 12)) by lia. done. }
  change (8 =? 0) with false. change (8 =? 8) with true. cbv iota. f_equal.
  rewrite Z.land_ones by lia. replace (8 * 2 ^ 60) with (2 ^ 19 * 2 ^ 44) by done.
  rewrite Z.add_comm, Z.mod_add, Z.mod_small by lia. unfold PGSHIFT.
  rewrite Z.shiftr_div_pow2, Z.shiftl_mul_pow2 by lia. change (2 ^ 12) with PGSIZE.
  pose proof (Z.div_mod r PGSIZE ltac:(done)). lia.
Qed.

(** Through the page table of a process the trap frame is at [TRAPFRAME],
    whatever is stored in it. *)
Lemma process_frame m fl T K r M tf n h :
  vm m fl T K → T !! r = Some M → proc_map M tf n → kernel_page m T tf →
  Hart.h_mode h = Hart.Supervisor → Hart.h_csr h Hart.satp = MAKE_SATP r → Hart.h_mem h = m_mem m →
  frame_window h tf.
Proof.
  intros Hvm HT Hpm Hk Hmode Hsatp Hmem. pose proof (kp_ok _ _ _ Hk) as Htf. pose proof (page_ok_range _ Htf) as Htfr.
  assert (page_ok r) as Hrok by (apply (pw_page _ _ (as_wf _ _ _ (vm_space _ _ _ _ Hvm r M HT))), is_table_root).
  pose proof (page_ok_range r Hrok) as Hrr.
  split; [by split_and!|]. rewrite Hmode, Hsatp, Hmem. intros m' o w Hm Ho Hos Hal.
  rewrite satp_root by (lia || apply Hrok).
  destruct (kernel_write m fl T K tf m' Hvm Hk Hm) as (Hvm' & _).
  pose proof (vm_space _ _ _ _ Hvm' r M HT) as Ha. unfold PGSIZE in Hos.
  destruct top_vpns as (_ & _ & _ & _ & _ & _ & E).
  assert ((TRAPFRAME + o) / PGSIZE = tf_vpn ∧ (TRAPFRAME + o) mod PGSIZE = o) as [Ev Em].
  { rewrite E, Z.add_comm, Z.div_add, Z.mod_add by done. rewrite Z.div_small, Z.mod_small by (unfold PGSIZE; lia). lia. }
  pose proof (pm_tf _ _ _ Hpm) as HM. rewrite <- Ev in HM. destruct (tf_pte_ok tf ltac:(lia)) as [HU _].
  destruct (mkpte_ok tf (Z.lor PTE_R PTE_W) ltac:(lia) ltac:(done)) as (Hr & _ & Hfl).
  change (m' ) with (m_mem (m <| m_mem := m' |>)).
  rewrite (sv39_kernel _ r M _ (tf_pte tf)); [|done|change MAXVA with (TRAPFRAME + 8192); change TRAPFRAME with 274877898752; lia|done|done|..].
  - rewrite Em. unfold tf_pte. rewrite mkpte_pa by (done || lia || apply Htf). done.
  - unfold PTE_R at 1. unfold tf_pte. by rewrite truth_flag, Hfl by lia.
  - unfold PTE_W at 1. unfold tf_pte. by rewrite truth_flag, Hfl by lia.
  - done.
Qed.
End mmu.

(** ** Traps from user space *)

Section traps.
Context `{KI : !KernelImage} {F : Type} (A : asm).
Context (callee : Z → Hart.hart → option Hart.hart) (link : Z).
Implicit Types (T : gmap Z (gmap Z Z)) (M : gmap Z Z) (K : Z → Z) (st : pstate F) (h : Hart.hart).

Lemma index_range r : r ≠ Hart.zero → 5 <= tf_index r < 36.
Proof. by destruct r. Qed.

(** The hart on which process [x] runs in user mode, just after a trap has
    taken it to supervisor mode. *)
Record trapped h (m : mach) (x : proc) : Prop := {
  tr_mode : Hart.h_mode h = Hart.Supervisor;
  tr_satp : Hart.h_csr h Hart.satp = MAKE_SATP (pagetable x);
  tr_mem : Hart.h_mem h = m_mem m;
  tr_words : words h
}.

Lemma uservec_trapped h m fl T K x M k :
  vm m fl T K → running m T x M k → trapped h m x →
  ∃ h1, Hart.execute callee link Hart.uservec h = Some (h1, Hart.Jump (field m (trapframe x) 2)) ∧ saved h (trapframe x) h1.
Proof.
  intros Hvm [_ HT Hpm Hk _ _] [Hmode Hsatp Hmem Hw].
  destruct (uservec_spec callee link h (trapframe x)) as (h1 & Hrun & Hs); [|done|].
  - by apply (process_frame m fl T K (pagetable x) M _ k).
  - exists h1. unfold field. rewrite <- Hmem. done.
Qed.

(** Returning with [usertrapret] and [userret] loads the registers from the
    frame. *)
Lemma usertrapret_userret p st m P n t f fl T K M k :
  let x := P p in let c := ps_csr st in
  ps_cur st = Some p → vm m fl T K → running m T x M k → 0 <= kstack x < 2 ^ 64 - PGSIZE →
  0 <= satp c < 2 ^ 64 → 0 <= tp c < 2 ^ 64 → 0 <= usertrap_pc A < 2 ^ 64 →
  wp (usertrapret A) (λ r st', ∀ h, Hart.h_mode h = Hart.Supervisor → Hart.h_mem h = m_mem (ps_m st') →
    Hart.rd h Hart.a0 = r → ∃ h', Hart.execute callee link Hart.userret h = Some (h', Hart.Sret) ∧
      (∀ r, r ≠ Hart.zero → Hart.rd h' r = field m (trapframe x) (tf_index r)) ∧
      Hart.h_csr h' Hart.satp = MAKE_SATP (pagetable x) ∧ Hart.h_mem h' = Hart.h_mem h) (pst st m P n t f).
Proof.
  intros x c Hcur Hvm [_ HT Hpm Hk _ _] Hks Hs Ht Hu. fold x in HT, Hpm, Hk.
  wp_use (usertrapret_spec A p st m P n t f); [done|apply Hk|done..|].
  intros v st' (m' & c' & -> & -> & _ & Hf & _ & _ & _ & Hout) h Hmode Hmem Ha0. fold x in Hf, Hout, Ha0.
  change (ps_m (pst _ m' P n t f)) with m' in Hmem.
  set (h0 := Hart.wr_csr Hart.satp (Hart.rd h Hart.a0) h).
  assert (frame_window h0 (trapframe x)) as Hw.
  { assert (frame_window (h0 <| Hart.h_mem := m_mem m |>) (trapframe x)) as Hw0
      by (apply (process_frame m fl T K (pagetable x) M _ k); try done; by rewrite <- Ha0).
    apply (window_same ((h0 <| Hart.h_mem := m_mem m |>) <| Hart.h_mem := Hart.h_mem h |>)); [|done..].
    apply window_mem; [done|]. intros y Hy. rewrite Hmem. apply Hout. unfold PGSIZE in Hy. lia. }
  destruct (userret_spec callee link h (trapframe x) Hw) as (h' & Hrun & Hregs & Hm' & _ & Hsatp & _).
  exists h'. split_and!; [done| |by rewrite Hsatp|done].
  intros r Hr. pose proof (index_range r Hr) as Hi. rewrite Hregs, Hmem by done.
  change (ld64 (m_mem m') (trapframe x + 8 * tf_index r)) with (field m' (trapframe x) (tf_index r)).
  rewrite Hf by lia. by destruct r.
Qed.

(** C11: Traps are transparent for the registers of a process.  [uservec] saves
    every register of the interrupted process in its trap frame and continues at
    the address, with the stack, hart number and page table that the frame holds
    for the kernel.  Whatever the kernel then does, if the frame holds the same
    user registers when [usertrapret] runs, [userret] returns to user mode with
    every register as it was at the trap and the page table of the process. *)
Theorem trap_roundtrip h m fl T K p (P : Z → proc) M k :
  let tf := trapframe (P p) in
  vm m fl T K → running m T (P p) M k → trapped h m (P p) →
  ∃ h1, Hart.execute callee link Hart.uservec h = Some (h1, Hart.Jump (field m tf 2)) ∧
    Hart.rd h1 Hart.sp = field m tf 1 ∧ Hart.rd h1 Hart.tp = field m tf 4 ∧ Hart.h_csr h1 Hart.satp = field m tf 0 ∧
    ∀ st2 m2 P2 n t f fl2 T2 K2 M2 k2, let x2 := P2 p in let c := ps_csr st2 in
      ps_cur st2 = Some p → vm m2 fl2 T2 K2 → running m2 T2 x2 M2 k2 → trapframe x2 = tf →
      (∀ i, 5 <= i < 36 → field m2 tf i = ld64 (Hart.h_mem h1) (tf + 8 * i)) →
      0 <= kstack x2 < 2 ^ 64 - PGSIZE → 0 <= satp c < 2 ^ 64 → 0 <= tp c < 2 ^ 64 → 0 <= usertrap_pc A < 2 ^ 64 →
      wp (usertrapret A) (λ r st3, ∀ h2, Hart.h_mode h2 = Hart.Supervisor → Hart.h_mem h2 = m_mem (ps_m st3) →
        Hart.rd h2 Hart.a0 = r → ∃ h3, Hart.execute callee link Hart.userret h2 = Some (h3, Hart.Sret) ∧
          (∀ r, Hart.rd h3 r = Hart.rd h r) ∧ Hart.h_csr h3 Hart.satp = MAKE_SATP (pagetable x2)) (pst st2 m2 P2 n t f).
Proof.
  intros tf Hvm Hrun Htr. destruct (uservec_trapped h m fl T K (P p) M k Hvm Hrun Htr) as (h1 & Hex & Hs).
  fold tf in Hex, Hs. pose proof Hs as [Hregs Hker _ _ Hsatp _ Hsp Htp]. pose proof (tr_mem _ _ _ Htr) as Hmem.
  exists h1. unfold field. rewrite Z.mul_0_r, Z.add_0_r, <- Hmem. split_and!; [|done..|].
  { unfold field in Hex. by rewrite <- Hmem in Hex. }
  intros st2 m2 P2 n t f fl2 T2 K2 M2 k2 Hcur Hvm2 Hrun2 Htf Hfr Hks Hsa Ht Hu.
  wp_use (usertrapret_userret p st2 m2 P2 n t f fl2 T2 K2 M2 k2); [done..|].
  intros r st3 Hret h2 Hm2 Hmem2 Ha0. destruct (Hret h2 Hm2 Hmem2 Ha0) as (h3 & Hex3 & Hr3 & Hs3 & _).
  exists h3. split_and!; [done| |done]. intros q. destruct (decide (q = Hart.zero)) as [->|Hq]; [done|].
  pose proof (index_range q Hq). rewrite Hr3, Htf by done. unfold field in *. rewrite Hfr, Hregs by (done || lia). done.
Qed.
End traps.

(** ** Context switches and the timer *)

Section switches.
Context (callee : Z → Hart.hart → option Hart.hart) (link : Z).
Implicit Types h : Hart.hart.
Abbreviation execute := (Hart.execute callee link).

(** [swtch(from, to)] with the two contexts at physical addresses. *)
Record switching h (from to : Z) : Prop := {
  sg_from : window h (in_context from) (Hart.rd h Hart.a0) from 112;
  sg_to : window h (in_context from) (Hart.rd h Hart.a1) to 112;
  sg_apart : from + 112 <= to ∨ to + 112 <= from;
  sg_words : words h
}.

(** C13: A context switch is undone by the switch back.  [swtch] saves the
    return address, the stack pointer and the callee-saved registers of a thread
    in its context and continues where the other context says; when any hart
    later switches to the saved context, which has not been changed, [swtch]
    returns to the first thread's caller with those registers as they were. *)
Theorem swtch_resumes h from to :
  switching h from to →
  ∃ h1, execute Hart.swtch h = Some (h1, Hart.Jump (ld64 (Hart.h_mem h) to)) ∧
    (∀ r o, (r, o) ∈ ctx_regs → Hart.rd h1 r = ld64 (Hart.h_mem h) (to + o)) ∧
    (∀ x, ¬ in_context from x → rd8 (Hart.h_mem h1) x = rd8 (Hart.h_mem h) x) ∧
    ∀ h2 from2, switching h2 from2 from →
      (∀ x, in_context from x → rd8 (Hart.h_mem h2) x = rd8 (Hart.h_mem h1) x) →
      ∃ h3, execute Hart.swtch h2 = Some (h3, Hart.Jump (Hart.rd h Hart.ra)) ∧
        ∀ r, r ∈ ctx_regs.*1 → Hart.rd h3 r = Hart.rd h r.
Proof.
  intros [H1 H2 H3 H4]. destruct (swtch_spec callee link h from to H1 H2 H4 H3) as (h1 & Hex & [Hs Hl _ Hm _]).
  exists h1. split_and!; [done|done|done|]. intros h2 from2 [J1 J2 J3 J4] Hsame.
  destruct (swtch_spec callee link h2 from2 from J1 J2 J4 J3) as (h3 & Hex3 & [_ Hl3 _ _ _]).
  assert (∀ r o, (r, o) ∈ ctx_regs → ld64 (Hart.h_mem h2) (from + o) = Hart.rd h r) as Hback.
  { intros r o Hin. rewrite <- (Hs r o Hin). destruct (fits_in 112 ctx_regs r o) as (? & ? & _); [apply ctx_regs_ok|done|].
    apply ld64_ext. intros x Hx. apply Hsame. unfold in_context. lia. }
  exists h3. split.
  - rewrite Hex3. rewrite <- (Hback Hart.ra 0) by constructor. by rewrite Z.add_0_r.
  - intros r ([r' o] & -> & Hin)%list_elem_of_fmap. cbn. by rewrite (Hl3 r' o), (Hback r' o).
Qed.

(** A number of timer interrupts. *)
Fixpoint interrupts (n : nat) h : option Hart.hart :=
  match n with
  | O => Some h
  | S n => '(h, _) ← execute Hart.timervec h; interrupts n h
  end.

Lemma ticked_area h S C h' : timer_area h S C → ticked h S C h' →
  timer_area h' S C ∧ ld64 (Hart.h_mem h') (S + 32) = ld64 (Hart.h_mem h) (S + 32).
Proof.
  intros [Hm (HS & ? & ? & ?) (HC & ? & ? & ?) Hd] [_ Hmode _ _ Hc Hmem].
  assert (∀ a, S + 24 <= a → a + 8 <= S + 40 → ld64 (Hart.h_mem h') a = ld64 (Hart.h_mem h) a) as Hl.
  { intros a H1' H2'. apply ld64_ext. intros x Hx. apply Hmem; lia. }
  split; [split|]; [by rewrite Hmode|by rewrite Hc|by rewrite Hl by lia|done|by rewrite Hl by lia].
Qed.

Lemma interrupts_area n h S C :
  timer_area h S C → words h → ∃ h', interrupts n h = Some h' ∧ (∀ r, Hart.h_reg h' r = Hart.h_reg h r) ∧
    ld64 (Hart.h_mem h') C = u64 (ld64 (Hart.h_mem h) C + Z.of_nat n * ld64 (Hart.h_mem h) (S + 32)).
Proof.
  revert h. induction n as [|n IH]; intros h Hta Hw.
  - exists h. split_and!; [done|done|]. rewrite Z.mul_0_l, Z.add_0_r. symmetry. apply u64_small, ld64_range.
  - destruct (timervec_spec callee link h S C Hta Hw) as (h1 & Hex & Ht).
    destruct (ticked_area h S C h1 Hta Ht) as [Hta1 Hi]. destruct (IH h1 Hta1) as (h2 & Hn & Hr & Hc).
    { intros r. by rewrite (tk_regs _ _ _ _ Ht). }
    exists h2. cbn [interrupts]. rewrite Hex. split_and!; [done|intros r; by rewrite Hr, (tk_regs _ _ _ _ Ht)|].
    rewrite Hc, Hi, (tk_cmp _ _ _ _ Ht). unfold u64. rewrite Z.add_mod_idemp_l by done. f_equal. lia.
Qed.

(** C28: The machine-mode boot code hands over to [main] in supervisor mode, with
    the hart number in [tp], interrupts delegated and the timer armed for one
    interval from now; and every timer interrupt after that is transparent: it
    leaves all registers as they were and moves the comparison register one
    interval on, so that after [n] of them it is [n + 1] intervals after the
    start. *)
Theorem boot_arms_timer h ts tv main id :
  booting h ts id → words h →
  wp (Hart.start ts tv main) (λ r h', r = (Some Hart.Supervisor, main) ∧ Hart.rd h' Hart.tp = id ∧
    Hart.h_csr h' Hart.satp = 0 ∧ Hart.h_csr h' Hart.mideleg = 0xffff ∧ Hart.h_csr h' Hart.mtvec = tv ∧
    ∀ n, ∃ h'', interrupts n h' = Some h'' ∧ (∀ r, Hart.rd h'' r = Hart.rd h' r) ∧
      ld64 (Hart.h_mem h'') (Hart.CLINT_MTIMECMP id) =
      u64 (ld64 (Hart.h_mem h) Hart.CLINT_MTIME + (Z.of_nat n + 1) * 1000000)) h.
Proof.
  intros Hb Hw. wp_use (start_spec h ts tv main id); [done|done|].
  intros r h' [-> [Htp Hregs Hs [_ Hd] _ [Hv _] Hta Hf Hi]]. split_and!; try done. intros n.
  destruct (interrupts_area n h' _ _ Hta) as (h'' & Hn & Hr & Hc).
  { intros r. destruct (decide (r = Hart.tp)) as [->|Hr]; [|by rewrite Hregs].
    change (Hart.h_reg h' Hart.tp) with (Hart.rd h' Hart.tp). rewrite Htp. destruct (bo_hart _ _ _ Hb). lia. }
  exists h''. split_and!; [done|intros r; unfold Hart.rd; by rewrite Hr|].
  rewrite Hc, Hf, Hi. unfold u64. rewrite Z.add_mod_idemp_l by done. f_equal. lia.
Qed.
End switches.

(** * Instances *)

#[local] Existing Instance tiny.


(** A hart whose registers hold [v]. *)
Definition some_hart (mode : Hart.priv) (v sat : Z) (m : mem) : Hart.hart :=
  Hart.mkHart mode (λ _, v) (λ c, if decide (c = Hart.satp) then sat else 0) m.

Definition no_callee (_ : Z) (h : Hart.hart) : option Hart.hart := Some h.

Definition some_asm : asm := {| kernelvec := 0; usertrap_pc := 0; uservec_off := 0; userret_off := 0; forkret_addr := 0 |}.

Lemma trap_roundtrip_witness :
  ∃ h h3, Hart.rd h Hart.s7 = 77 ∧ Hart.rd h3 Hart.s7 = 77 ∧ Hart.rd h3 Hart.a0 = 77.
Proof.
  destruct (boot_proc 1 PTE_W ltac:(lia) ltac:(done)) as (m & P & fl & T & K & M & [Hvm HK Hh Hlow Hcl Hrun Hfr Hsz Hfree _ _]).
  set (h := some_hart Hart.Supervisor 77 (MAKE_SATP (pagetable (P 0))) (m_mem m)).
  assert (trapped h m (P 0)) as Htr by (by split).
  destruct (trap_roundtrip (F := ()) some_asm no_callee 0 h m fl T K 0 P M 1 Hvm Hrun Htr) as (h1 & Hex & _ & _ & _ & Hret).
  destruct (uservec_trapped no_callee 0 h m fl T K (P 0) M 1 Hvm Hrun Htr) as (h1' & Hex' & Hs).
  rewrite Hex in Hex'. injection Hex' as <-.
  destruct (Hrun) as [Hst HT Hpm Hk Hsz' Hup].
  destruct (kernel_write m fl T K (trapframe (P 0)) (Hart.h_mem h1) Hvm Hk) as (Hvm' & Htab & _).
  { intros x Hx. change (m_mem m) with (Hart.h_mem h). apply (sv_other _ _ _ Hs). unfold in_page, PGSIZE in Hx. lia. }
  set (m2 := m <| m_mem := Hart.h_mem h1 |>). set (P2 := λ q, P q <| kstack := 0 |>).
  assert (running m2 T (P2 0) M 1) as Hrun2.
  { split; try done. destruct Hk as [? Ht ? ?]. split; try done. intros Hc. by apply Ht, Htab. }
  specialize (Hret (boot_state m2 P2) m2 P2 1 0 () fl T K M 1%nat eq_refl Hvm' Hrun2 eq_refl ltac:(done)
    ltac:(done) ltac:(done) ltac:(done) ltac:(done)).
  apply wp_returns in Hret as (r & st3 & _ & Hret).
  destruct (Hret (some_hart Hart.Supervisor r 0 (m_mem (ps_m st3))) eq_refl eq_refl eq_refl) as (h3 & _ & Hr & _).
  exists h, h3. split_and!; [done|by rewrite Hr|by rewrite Hr].
Defined.

Definition switch_hart (a b : Z) (m : mem) : Hart.hart :=
  Hart.mkHart Hart.Machine (λ r, if decide (r = Hart.a0) then a else if decide (r = Hart.a1) then b else 5) (λ _, 0) m.

Lemma switch_hart_ok a b m :
  0 <= a < 2 ^ 32 → 0 <= b < 2 ^ 32 → a mod 8 = 0 → b mod 8 = 0 → a + 112 <= b ∨ b + 112 <= a →
  switching (switch_hart a b m) a b.
Proof.
  intros Ha Hb Ha8 Hb8 Hd. split; [by apply (machine_window _ _ a); done || lia|by apply (machine_window _ _ b); done || lia|done|].
  intros r. cbn. repeat case_decide; lia.
Qed.

Lemma swtch_resumes_witness :
  ∃ h1 h3, Hart.rd h1 Hart.s0 = 0 ∧ Hart.rd h3 Hart.s0 = 5 ∧ Hart.rd h3 Hart.sp = 5.
Proof.
  destruct (swtch_resumes no_callee 0 (switch_hart 4096 8192 (λ _, 0)) 4096 8192) as (h1 & Hex & Hl & _ & Hback).
  { apply switch_hart_ok; lia || done. }
  destruct (Hback (switch_hart 12288 4096 (Hart.h_mem h1)) 12288) as (h3 & _ & Hr).
  { apply switch_hart_ok; lia || done. }
  { intros x _. reflexivity. }
  exists h1, h3. split_and!.
  - rewrite (Hl Hart.s0 16) by (apply (bool_decide_unpack _); by vm_compute). by vm_compute.
  - rewrite Hr; [reflexivity|]. apply (bool_decide_unpack _). by vm_compute.
  - rewrite Hr; [reflexivity|]. apply (bool_decide_unpack _). by vm_compute.
Defined.

Lemma boot_arms_timer_witness :
  wp (Hart.start KERNBASE 16 32) (λ r h', r = (Some Hart.Supervisor, 32) ∧ ∃ h'',
    interrupts no_callee 0 3 h' = Some h'' ∧ ld64 (Hart.h_mem h'') (Hart.CLINT_MTIMECMP 0) = 4000000)
    (some_hart Hart.Machine 77 0 (λ _, 0)).
Proof.
  eapply wp_mono; [apply (boot_arms_timer no_callee 0 (some_hart Hart.Machine 77 0 (λ _, 0)) KERNBASE 16 32 0)|].
  - by split; [|vm_compute|vm_compute].
  - intros r. cbn. lia.
  - intros r h' (-> & _ & _ & _ & _ & Hn). split; [done|]. destruct (Hn 3%nat) as (h'' & Hi & _ & Hc).
    exists h''. split; [done|]. rewrite Hc. by vm_compute.
Defined.
