(* ===== verification/ShellTheorems.v ===== *)
(** The theorems about the shell: parsing always ends, and it inverts printing;
    running a command makes the processes that the command means, each with the
    files it should have; a session runs the commands that are typed. *)
From S2P Require Import Prelude CString Proc UserProg Shell ShellOps ShellPrint UserSys UserMain ShellRun.

(** C18: for every command line, the parser of the shell either returns or stops
    with a syntax error: it never runs for ever and never leaves the line.  When it
    returns, the line has kept its length, and every word of the command is a
    maximal run of word characters of the line, which is exactly the C string that
    [runcmd] finds at its start; the command is one of the shell's language. *)
Theorem parsecmd_terminates (buf : list Z) :
  Forall (λ c, c ≠ 0) buf → es buf < 2 ^ 60 →
  (∃ msg, parsecmd buf = Panic msg) ∨
  ∃ c b s, parsecmd buf = Ok (c, b) s ∧ length b = S (length buf) ∧
    command_ok (named (λ t, string_at b t.1) c) ∧
    ∀ t, t ∈ tokens c → token_ok buf t ∧ string_at b t.1 = slice buf t.
Proof.
  intros Hnul Hlen. pose proof (parsecmd_ends_ buf Hnul Hlen) as H. unfold ends in H.
  unfold parsecmd, mbind, kM_bind. destruct (parsecmd_ buf 0) as [c s|msg| |]; [right|left; by exists msg|done..].
  destruct H as [_ Hc]. exists c, (nulterminate c (buf ++ [0])), s. split; [done|].
  split; [rewrite nulterminate_length, length_app; cbn; lia|]. rewrite named_strings by done.
  split; [by apply parsed_ok|]. intros t Ht.
  split; [by apply (proj1 (Forall_forall _ _) (tokens_ok_all buf c Hc))|]. by apply nulterminate_words.
Qed.

Lemma parsecmd_terminates_witness :
  let buf := lit "(cat <f; echo a)| wc >>out &" in
  (∃ msg, parsecmd buf = Panic msg) ∨
  ∃ c b s, parsecmd buf = Ok (c, b) s ∧ length b = S (length buf) ∧
    command_ok (named (λ t, string_at b t.1) c) ∧
    ∀ t, t ∈ tokens c → token_ok buf t ∧ string_at b t.1 = slice buf t.
Proof.
  apply parsecmd_terminates; [|by vm_compute].
  cbv. repeat (apply Forall_cons_2; [done|]). apply Forall_nil_2.
Defined.

(** C17: the parser inverts the concrete syntax.  For every command tree of words,
    redirections, pipes, lists and background marks, the line it is printed as
    (with parentheses where a subcommand needs them, and blanks or a newline at the
    end) parses to a command whose words, read as C strings in the terminated line,
    give the same tree back. *)
Theorem parse_print (c : command) (r : list Z) :
  command_ok c → Forall (λ x, blank x = true ∧ x ≠ 0) r → es (print c ++ r) < 2 ^ 60 →
  ∃ c' b s, parsecmd (print c ++ r) = Ok (c', b) s ∧ named (λ t, string_at b t.1) c' = c.
Proof.
  intros Hok Hr Hsize. pose proof (parsetop_print c r Hok Hr Hsize) as Hw. set (buf := print c ++ r) in *.
  assert (Forall (λ x, x ≠ 0) buf) as Hnul.
  { apply Forall_app. split; [by apply command_no_nul|]. eapply Forall_impl; [exact Hr|]. by intros ? []. }
  pose proof (parsetop_ends buf Hnul Hsize) as He.
  apply wp_returns in Hw as (c' & s & E & Hc & Hs). unfold ends in He. rewrite E in He. destruct He as [_ Ht].
  exists c', (nulterminate c' (buf ++ [0])), s. unfold parsecmd, parsecmd_, gets, mbind, kM_bind. rewrite E, Hs, Z.eqb_refl.
  split; [done|]. by rewrite named_strings, Hc.
Qed.

Lemma parse_print_witness :
  let w := lit in
  let c := cList (cBack (cPipe (cExec [w "cat"; w "f"]) (cRedir (cExec [w "wc"]) (mkSredir (w "out") APP_MODE 1))))
    (cRedir (cList (cExec [w "ls"]) (cExec [w "pwd"])) (mkSredir (w "log") WR_MODE 1)) in
  ∃ c' b s, parsecmd (print c ++ [10]) = Ok (c', b) s ∧ named (λ t, string_at b t.1) c' = c.
Proof.
  apply parse_print; [apply (bool_decide_unpack _); by vm_compute|by repeat constructor|by vm_compute].
Defined.

(** C15: what a command does.  From any table with the standard descriptors open,
    the processes that [runcmd] makes, the programs they start, the files and pipes
    these find at their descriptors, the order of forks and waits, the messages and
    exit statuses after a failed call are exactly those that the command means
    ([csem]).  Every program started has the shell's own descriptors apart from 0
    and 1: no end of a pipe stays open where it would keep a reader waiting. *)
Theorem runcmd_meaning (b : list Z) (c : cmd) (f : fds) (tr : list act) :
  let c' := named (λ t, string_at b t.1) c in
  std f → command_ok c' →
  (behaves (runcmd b c) f tr (λ _ _ _, False) ↔ csem c' f tr) ∧
  (behaves (runcmd b c) f tr (λ _ _ _, False) → Forall (λ g, drop 2 g = drop 2 f) (started_all tr)).
Proof.
  intros c' Hf Hok. pose proof (runcmd_csem b c f tr (λ _ _ _, False) Hf Hok) as E. split; [exact E|].
  rewrite E. by apply csem_started.
Qed.

Lemma runcmd_meaning_witness :
  let b := lit "ls" ++ [0] ++ lit "wc" ++ [0] ++ lit "out" ++ [0] in
  let c := PIPE (EXEC [(0, 2)]) (REDIR (EXEC [(3, 5)]) (6, 9) WR_MODE 1) in
  let f := [Some OConsole; Some OConsole; Some OConsole; None; None; None] in
  let tr :=
    [APipe (Some 7);
     AFork 3 [AStart (lit "ls") [lit "ls"] [Some OConsole; Some (OPipeW 7); Some OConsole; None; None; None]];
     AFork 4 [AOpen (lit "out") WR_MODE true;
       AStart (lit "wc") [lit "wc"] [Some (OPipeR 7); Some (OFile (lit "out") WR_MODE); Some OConsole; None; None; None]];
     AWait 3 0; AWait 4 0; AExit 0] in
  behaves (runcmd b c) f tr (λ _ _ _, False).
Proof.
  intros b c f tr. apply (runcmd_meaning b c f tr).
  - by eexists _, _, _, _.
  - apply (bool_decide_unpack _). by vm_compute.
  - vm_compute. repeat split; try (by left); try done. by eexists. by eexists _, _, _, _.
Defined.

(** C16: a session with the shell.  Started with its standard descriptors open, the
    shell that is given the printed text of commands on its input, one per line and
    then the end of the input, goes through exactly these steps for each: it
    prompts, reads the line to its end, makes one child, and waits for it; the child
    does what the command means.  At the end of the input it exits. *)
Theorem shell_session (f : fds) (cs : list command) (tr : list act) :
  std f → Forall typed_ok cs →
  (behaves sh_main f tr (λ _ _ _, False) ∧ reads_of tr `prefix_of` script (print <$> cs)) ↔
  ∃ ok tr', tr = AOpen (lit "console") O_RDWR_ ok :: tr' ∧ (ok = true → is_Some (lowest f)) ∧ dialogue f cs tr'.
Proof.
  intros Hf Hcs. assert (Forall line_ok (print <$> cs)) as Hl
    by (rewrite Forall_fmap; eapply Forall_impl; [exact Hcs|]; apply typed_line_ok).
  unfold sh_main. rewrite behaves_bind, behaves_open_console by done. setoid_rewrite <- (session_dialogue f cs _ Hcs). split.
  - intros ((ok & tr' & -> & Hok & H) & Hp). exists ok, tr'. split_and!; [done|done|]. by apply (sh_loop_session f (print <$> cs) tr' _ Hf Hl Hp) in H.
  - intros (ok & tr' & -> & Hok & H). pose proof (session_reads _ _ _ _ H) as Hp. split; [|done].
    exists ok, tr'. split_and!; [done|done|]. by apply (sh_loop_session f (print <$> cs) tr' _ Hf Hl Hp).
Qed.

Lemma shell_session_witness :
  let f := [Some OConsole; Some OConsole; Some OConsole; None] in
  let prompt w := AWrite (Some OConsole) (lit "$ ") w in
  let tr := [AOpen (lit "console") O_RDWR_ true; prompt 2] ++ typed (Some OConsole) (lit_nl "ls ") ++
    [AFork 5 [AStart (lit "ls") [lit "ls"] f]; AWait 5 0; prompt 2; ARead (Some OConsole) 1 (Some []); AExit 0] in
  behaves sh_main f tr (λ _ _ _, False) ∧ reads_of tr `prefix_of` script (print <$> [cExec [lit "ls"]]).
Proof.
  intros f prompt tr. apply (shell_session f [cExec [lit "ls"]] tr).
  - by eexists _, _, _, _.
  - apply Forall_cons_2; [|apply Forall_nil_2]. split_and!; [apply (bool_decide_unpack _)..|]; by vm_compute.
  - eexists true, _. split; [reflexivity|]. split; [by intros _; eexists|]. exists 2. eexists. split; [reflexivity|].
    split; [done|]. split; [by left|]. by exists 2.
Defined.
