(* ===== verification/UserTheorems.v ===== *)
(** The theorems about the other user programs: what [grep] writes; and that the
    kernel gives out descriptors the way [UserSys.handle] says. *)
From ITree Require Import ITree.
From S2P Require Import Prelude CString Riscv Proc FsState Sysfile Boot FsTheorems UserProg UserSys UserMain GrepOps.

#[export] Instance matches_dec re text : Decision (matches re text).
Proof. refine (cast_if (decide (match_ re text = true))); abstract (by rewrite <- match_spec). Defined.

(** C21: grep.  In every run on an input without NULs, however the reads cut it into
    pieces, grep has written, when it stops reading, exactly the complete lines of
    what it read that the pattern matches, each with its newline and in order, where
    matching is the declarative meaning of the pattern ([matches]).  As long as the
    lines fit the buffer it only stops when a read that asked for at least one byte
    returned none or failed. *)
Theorem grep_filters (pattern : list Z) (fd : Z) (f : fds) (tr : list act) (K : () → fds → list act → Prop) :
  no_nul (input tr) → behaves (grep pattern fd) f tr K →
  ∃ tr0 n r tr2, tr = tr0 ++ ARead (fd_obj f fd) n r :: tr2 ∧ (r = None ∨ r = Some []) ∧ K () f tr2 ∧
    output (fd_obj f 1) tr0 = concat ((λ l, l ++ [10]) <$> filter (matches pattern) (split_lines (input tr0)).1) ∧
    (lines_fit (input tr0) → 0 < n).
Proof.
  intros Hnul H. apply (grep_from_writes pattern fd f [] tr K) in H as (tr0 & n & r & tr2 & -> & Hr & HK & Ho & Hfit); [|constructor|done].
  exists tr0, n, r, tr2. split_and!; [done|done|done| |done]. rewrite Ho. unfold grepped, selected. do 2 f_equal.
  apply list_filter_iff. intros l. rewrite <- match_spec. by rewrite Is_true_true.
Qed.

Lemma grep_filters_witness :
  let f := [Some OConsole; Some (OPipeW 1); Some OConsole] in
  let r n l := ARead (Some OConsole) n (Some l) in
  let tr := [r 1023 (lit "abb" ++ [10] ++ lit "c"); AWrite (Some (OPipeW 1)) (lit_nl "abb") 4; r 1022 (lit_nl "b" ++ lit_nl "ac");
    AWrite (Some (OPipeW 1)) (lit_nl "ac") 3; r 1023 []] in
  ∃ tr0 n r tr2, tr = tr0 ++ ARead (fd_obj f 0) n r :: tr2 ∧ (r = None ∨ r = Some []) ∧ tr2 = [] ∧
    output (fd_obj f 1) tr0 = concat ((λ l, l ++ [10]) <$> filter (matches (lit "^ab*.$")) (split_lines (input tr0)).1) ∧
    (lines_fit (input tr0) → 0 < n).
Proof.
  intros f r tr. apply (grep_filters (lit "^ab*.$") 0 f tr (λ _ _ tr, tr = [])).
  - apply (bool_decide_unpack _). by vm_compute.
  - exists 40%nat. vm_compute. repeat split; discriminate.
Defined.

(** ** Descriptors in the kernel *)

(** The descriptors of a process in the kernel's table, when [file] names the
    object of a [struct file]. *)
Definition fd_view {F} (file : Z → obj) (p : Z) (s : pstate F) : fds :=
  (λ v, if v =? 0 then None else Some (file v)) <$> ofile (ps_proc s p).

(** C36: the kernel's [fdalloc] refines the allocation of descriptors that the
    programs rely on: it puts the file at the lowest free descriptor of the running
    process and returns it, or returns -1 when all are taken, and changes nothing
    else. *)
Theorem fdalloc_lowest (file : Z → obj) (p v : Z) (s : pstate fsys) :
  ps_cur s = Some p → length (ofile (ps_proc s p)) = Z.to_nat NOFILE → v ≠ 0 →
  wp (fdalloc v) (λ fd s', match lowest (fd_view file p s) with
    | Some i => fd = Z.of_nat i ∧ fd_view file p s' = <[i := Some (file v)]> (fd_view file p s)
    | None => fd = -1 ∧ fd_view file p s' = fd_view file p s
    end ∧ ps_m s' = ps_m s ∧ ps_fs s' = ps_fs s ∧ ∀ q, q ≠ p → ps_proc s' q = ps_proc s q) s.
Proof.
  intros Hcur Hlen Hv. set (l := ofile (ps_proc s p)) in *. unfold fdalloc, myproc. wp_step. wp_step. wp_step. rewrite Hcur. wp_step. wp_step.
  apply (wp_foreach _ _ (λ dn s', s' = s ∧ ∀ j, (j < length dn)%nat → l !! j ≠ Some 0)).
  - split; [done|]. cbn. lia.
  - intros dn x rest s1 Hdn [-> Hj]. assert (seqZ 0 NOFILE !! length dn = Some x) as Hx by (rewrite Hdn; by apply list_lookup_middle).
    apply lookup_seqZ in Hx as [Hx1 Hx2]. unfold getp. wp_step. wp_step. fold l.
    destruct (lookup_lt_is_Some_2 l (Z.to_nat x)) as [y Hy]; [lia|]. rewrite (nth_lookup_Some _ _ _ _ Hy).
    destruct (Z.eqb_spec y 0) as [->|Hy0].
    + unfold set_ofile, setp. repeat wp_step. cbn.
      assert (lowest (fd_view file p s) = Some (Z.to_nat x)) as ->.
      { apply lowest_first; unfold fd_view; fold l; [rewrite list_lookup_fmap, Hy; done|].
        intros j Hlt. rewrite list_lookup_fmap. specialize (Hj j ltac:(lia)). destruct (l !! j) as [z|]; [|done]. cbn.
        destruct (Z.eqb_spec z 0); congruence. }
      split; [split; [lia|]|split_and!; [done|done|]].
      * unfold fd_view. cbn. rewrite Z.eqb_refl. fold l. cbn. rewrite list_fmap_insert. by apply Z.eqb_neq in Hv as ->.
      * intros q Hq. by apply Z.eqb_neq in Hq as ->.
    + wp_step. split; [done|]. intros j Hlt. rewrite length_app in Hlt. cbn in Hlt.
      destruct (decide (j = length dn)) as [->|]; [|apply Hj; lia]. replace (length dn) with (Z.to_nat x) by lia. congruence.
  - intros s1 [-> Hj]. wp_step. rewrite lowest_none; [done|]. intros j. unfold fd_view. fold l. rewrite list_lookup_fmap.
    destruct (l !! j) as [z|] eqn:E; [|done]. cbn. destruct (Z.eqb_spec z 0) as [->|]; [|done]. destruct (Hj j); [|done].
    rewrite length_seqZ, <- Hlen. by eapply lookup_lt_Some.
Qed.

Lemma fdalloc_lowest_witness :
  let s := blank_state <| ps_proc := λ _, blank_proc <| ofile := [5; 6; 0; 7] ++ replicate 12 0 |> |> in
  wp (fdalloc 9) (λ fd s', match lowest (fd_view OPipeR 0 s) with
    | Some i => fd = Z.of_nat i ∧ fd_view OPipeR 0 s' = <[i := Some (OPipeR 9)]> (fd_view OPipeR 0 s)
    | None => fd = -1 ∧ fd_view OPipeR 0 s' = fd_view OPipeR 0 s
    end ∧ ps_m s' = ps_m s ∧ ps_fs s' = ps_fs s ∧ ∀ q, q ≠ 0 → ps_proc s' q = ps_proc s q) s.
Proof. intros s. by apply (fdalloc_lowest OPipeR 0 9 s). Defined.
